(* ===== verification/_CoqProject ===== *)
-Q . S2P
Prelude.v
Types.v
Text.v
Blockset.v
Inode.v
InodeMap.v
Xattr.v
Directory.v
Segment.v
Cas.v
CasRefine.v
Dedup.v
Compression.v
Wal.v
SegmentDir.v
Gc.v
Background.v
Backend.v
StoreIo.v
Store.v
StoreSpec.v
StoreRefine.v
MetadataStoreTrait.v
StoreCommit.v
Filesystem.v
WritePath.v
Namespace.v
NamespaceRefine.v
Snapshots.v
Handlers.v
Callbacks.v
ReplyTypes.v
Frames.v
Mount.v
Unmount.v
Calendar.v
Float.v
Commands.v
Reports.v
MountRefine.v
CommandsRefine.v
Session.v
Serving.v
FsSpec.v
FsSim.v
NamesSim.v
ContentSim.v
ServeRefine.v
TreeInvariant.v
TreeRequests.v
SessionRefine.v
Lifetime.v
Seed.v
CommandLine.v
SeedRefine.v
CasTheorems.v
Examples.v
MountExamples.v
SpecExamples.v
LogTheorems.v
StoreTheorems.v
FsTheorems.v
MountTheorems.v
CommandTheorems.v
SessionTheorems.v
LifeTheorems.v
HostTheorems.v
ReportTheorems.v
