(* ===== verification/Prelude.v ===== *)
(** * SliceFS: a verification library

    SliceFS ([src/crates]) is a deduplicating, content-addressed file system
    served over FUSE.  File content and metadata are blobs in a content store;
    the store is summed up by one root digest, and the history of roots and
    snapshots is an append-only log.  This library models the metadata store, its
    encodings, the log, the file system adapter with its FUSE callbacks, a mount
    from beginning to end, the commands, and the local block store and compressors,
    and proves what they promise.

    ** The program and the files that model it

    From the bottom up (source paths are relative to [src/crates]):

    - [Blockset]: the content store.  Its code ([blockset], a submodule) is not
      in the repository, so it is a parameter of every model: the class
      [Blockset] has the operations the sources call, [BlocksetLaws] the
      documented behaviour they rely on (what was pushed is read back under its
      digest; later pushes keep it; streaming and pushing at once give the same
      digest).  Digests have 224 bits and may collide, so the laws only cover the
      [admissible] contents of a run, among which there is no collision.  [toy] is
      a concrete instance, used for the witnesses.
    - [Prelude], [Types], [Text]: bytes and little-endian words, machine integers,
      UTF-8, [BTreeMap] iteration, the result type [res] ([Ok], [Err], [Panic])
      and the state-and-error monad [M]; the data types of
      [slicefs-traits/src/metadata.rs]; decimal numbers in file names.
    - [Inode], [InodeMap], [Xattr], [Directory]: the blob formats and operations of
      [metadata/src/inode.rs], [inode_map.rs], [manifest.rs], [xattr.rs] and
      [directory.rs], and the tables of [store.rs].
    - [Segment]: the log files of [metadata/src/segment/]: format, writer,
      crash-tolerant reader, replay of a directory, compaction.
    - [Wal]: the log strategies of [metadata/src/wal/], the interface [WalLaws] that
      states which entries survive a crash, and its instances.
    - [Store]: [DictMetadataStore] of [metadata/src/store.rs] with all its
      operations, reference counts, snapshots, [commit] and [load_from_root].
    - [Filesystem], [Namespace]: [SliceFsFilesystem] of
      [slicefs-cli/src/filesystem.rs]: file handles with streaming and buffered
      writes, read, fsync, release, setattr, open; and mkdir, rmdir, unlink, link,
      rename, symlink, lookup, readdir, attributes.
    - [SegmentDir], [Gc]: a directory of segments as a map from numbers to files,
      and the collector of [metadata/src/gc/mod.rs] that copies them.
    - [Background]: the collector thread of [metadata/src/gc/background.rs] as a state
      machine whose events are its steps (the check of the flag, the upgrade of the store
      reference, each segment of a pass), the shutdown, the end of the store and the
      writes of the mount, in any order.
    - [Handlers], [Callbacks]: [slicefs-cli/src/handlers.rs] and [fuse_callbacks.rs], one
      definition per handler and per callback ([handle_read], [fuse_read]); [serve]
      dispatches a request of the kernel to its callback and returns the reply.
    - [Mount]: the store directory as a whole: [mount_lock.rs], [load_store],
      [next_segment_id] and [parse_wal_config] of [slicefs-cli/src/mount.rs], and the
      [gc] command of [slicefs-cli/src/gc.rs].
    - [Session]: [run_mount] on top of it: the check of the mount table, the mounted
      snapshot, the served requests, [destroy], the end.
    - [Unmount]: [unmount.rs] on a host that is a history of commands and signals with an
      oracle for their outcomes (the [mount] command that a mount runs is one of them),
      and the watchdog of [mount.rs] as a state machine.
    - [StoreIo]: [metadata/src/store_io.rs], the blob files behind the content store, on
      a host that maps paths to files and directories.
    - [CommandLine]: [cli.rs] and [main.rs]: the commands with their arguments, the
      dispatch, the exit status and the error line with the wording of every error.
    - [Backend]: the choice of the FUSE-T backend ([slicefs-cli/src/backend.rs]) and the
      edit of [fuse-t.ini] in [mount.rs].
    - [Calendar], [Commands], [Seed]: the dates of [snapshot.rs] and [util.rs]; the
      snapshot, scrub and stats commands; the import of a directory tree ([seed.rs]).
    - [Float], [Reports]: 64-bit floating-point numbers and their text with two decimals,
      and what the stats, snapshot and gc commands print.
    - [Cas], [Dedup], [Compression]: [cas-local/src] (two block stores, the chunker and
      the deduplication index) and [slicefs-compression/src], which the mounted file
      system does not use.  The hash, the Bloom filter and the codecs are third-party
      crates and parameters, with what is documented of them as laws.

    The proofs:

    - [StoreSpec] is the contract of the [MetadataStore] trait: finite maps of
      inodes, directories, block lists and attributes ([AbsFs]), one operation
      each, and the relation [store_rep] between a [DictMetadataStore] and it.
    - [StoreRefine] proves that every operation implements its specification on
      every branch, [StoreCommit] that commit and reload preserve the file system,
      [Snapshots] the bookkeeping of reference counts and snapshots.
    - [WritePath] relates both modes of a handle to [pwrite] on a byte string;
      [NamespaceRefine] says what the directory operations do to [AbsFs].
    - [MetadataStoreTrait] is the trait as a class, with [DictMetadataStore] and
      [AbsFs] as instances, and shows that no client can tell them apart.
    - [Frames] shows which operations leave the log alone; [MountRefine] says which
      file system a directory holds ([dir_holds]), runs sessions of operations,
      commits and flushes on it ([session]) and crashes them ([crash]).
    - [ReplyTypes] and [Serving]: the types of the replies and paging through a
      directory.
    - [FsSpec] is the specification of a mounted file system: a tree, a byte string per
      file and per open handle, and one definition per request ([spec_serve]), with what
      it needs (no collision, numbers in range) collected beside the state.  [FsSim]
      defines [fs_rep] and the simulation [sim] and its rules, [NamesSim] and
      [ContentSim] prove it for the operations on names and on content, [ServeRefine]
      for every request and every sequence of requests.
    - [TreeInvariant] and [TreeRequests]: what holds of the tree ([tree_ok]), a program
      logic for the specification ([wp]), and every request with it.
    - [SessionRefine]: what a session leaves behind, in terms of the specification.
    - [Lifetime]: everything that can happen to a store directory as a list of events
      ([real_runs]): mounts, mounts that are killed, and the commands; its specification
      [spec_step] on a [Life], which is the current file system, the one of every
      snapshot, and the lock; [store_holds] relates the two.
    - [CommandsRefine]: the commands in terms of [dir_holds]; [SeedRefine]: the walk
      over a source tree builds a copy of it on [AbsFs], and the store follows.
    - [CasRefine]: the contract [BlockStoreLaws], met by both block stores, also when
      [put] is cut short.
    - [Examples], [MountExamples] and [SpecExamples] are a concrete run, the directory
      it leaves and its specification; [LogTheorems], [StoreTheorems], [FsTheorems],
      [MountTheorems], [CasTheorems], [CommandTheorems], [SessionTheorems],
      [LifeTheorems], [HostTheorems] and [ReportTheorems] state the theorems and check
      their hypotheses on them.

    ** What the theorems show

    - The whole ([store_life]): over any sequence of mounts, kills, snapshots, switches,
      collections, scrubs and statistics, replies and results are those of the
      specification [Lifetime.spec_step]; a kill keeps all or nothing of a session, and
      snapshots are never lost ([snapshots_survive]).  A condition of each event
      ([event_fits]) collects what it needs: no collision, numbers in range, a
      segment number below 100000 for the collector.
    - A mount: any requests get the replies of the specification [FsSpec], and a
      session from mount to unmount is one step on it: the directory then holds the
      specified tree and contents.  In every state that requests lead to, names lead to
      inodes and link counts are numbers of names.
    - Files: what is written in any order through a new handle, and closed, is
      read back; reads see uncommitted writes; fsync commits and keeps the handle.
    - Names: link, unlink, mkdir, rmdir, rename, symlink change exactly the entries
      and link counts they should, and fail with the right error otherwise.
    - Store: any client of the trait sees the abstract file system, the counters of
      inodes and bytes stay exact, commit and reload are inverse, a snapshot stays
      loadable, reference counts balance and saturate.
    - Log: every crash image of the log replays to a prefix that contains all
      acknowledged entries; compaction keeps the log; names sort like numbers up
      to six digits.
    - Mount: mounting restores the file system and the snapshots of a directory;
      after a crash it is a committed one, no older than the last acknowledged
      commit; the collector keeps both, as long as it does not fail.
    - Sessions: every reply has the type of its request; reading a directory by
      pages ends and is complete; a mounted snapshot changes nothing; the background
      collector stops within a pass and three steps when it is told to.
    - Host: blobs, whose names have no [..], are read back and crashes touch no other blob;
      unmounting escalates step by step, each command only after the one before has failed;
      a failed command exits with 1 and an error line, which is JSON for plain messages.
    - Commands: switching and creating snapshots keep the other states; scrub is
      clean exactly when the roots resolve, unless loading a damaged table panics; seeding
      copies a tree.
    - Blocks: the two block stores are equivalent for hashes of two bytes or more, and [put]
      is atomic when the process is killed;
      the chunker is the division into blocks; the index is exact; compression is
      lossless; [days_to_ymd] is the calendar.
    - Reports: byte counts are shown without ambiguity and rounded to the nearest
      hundredth of their unit, in spite of floating point.
    - Encodings: every blob format round-trips; inode records are a bijection.
    - Where the code departs from what it means to do, a theorem says how: rename
      onto itself, a wrapping table count, segment numbers of seven digits, an
      fsync that a crash undoes, a collector that fails half-way or never starts, a
      listing that skips an entry, a scrub that does not look at file contents, an
      index file that panics, a rename that loses or misplaces a directory, a file that
      cannot be read or closed, error lines that are not JSON, a lock that is lost,
      snapshots that are listed twice after a collection, attributes that are longer than
      the buffer for them, a scrub that panics, a torn block that [put] does not repair.

    ** Modelling decisions

    - A method is one atomic step on the whole state: the mutexes of the source
      are not modelled, and neither is interleaving inside a method.
    - Integers are [Z] with the wrap-around of a release build written out
      ([wrap64], [wrap32]); saturating operations are [sat_sub].
    - A panic is the result [Panic].  Allocation never fails.
    - [BTreeMap] is [gmap] with [btree_iter] for its order; a [HashMap] is [gmap], and
      where the source iterates one the theorems do not depend on the order.
    - The clock, the process user, the outcomes of [sync_all], the canonical form of the
      mountpoint and the error of a session that [fuser] cannot open are arguments.
      File writes succeed; a failed sync leaves what was written pending; a crash
      cuts the file anywhere after what was synced.
    - Loops over bytes take the length of the input as fuel; every turn consumes
      at least one byte, and [reader_next_fuel], [reader_collect_fuel],
      [chunk_loop_spec], [load_loop_total] and the round trips show that this is
      enough; trimming a line or splitting it into fields takes its length.  The client of
      [readdir_pages_complete] needs one request more than there are entries.
    - A killed mount is one of the current file system with a log, and it is killed after
      loading: while it serves, or in [destroy] after the commit or the snapshot.
    - The host has no symbolic links and resolves no [..] ([StoreIo]); a power failure, as
      opposed to a kill, is modelled for the log, the blobs and the renamed blocks.
    - [run_mount] is the one of a system that is not macOS; the macOS code before the
      store is opened is in [Backend].  Requests are served one after the other, as
      [fuser] does with one thread.

    ** What is not modelled

    The parsing of arguments, which [clap] derives from the types of [cli.rs]; the
    layout of JSON reports, which [serde_json] writes; [init], which only asks for
    capabilities; [blockset] itself; the lines that a mount prints; [dir_size] of
    [filesystem.rs], a copy of the one of [stats.rs] that only tests call. *)

From Stdlib Require Import ZArith Lia.
From Stdlib Require Import Strings.Byte Strings.String.
From stdpp Require Import base tactics numbers option list gmap strings pretty sorting.

(** Byte strings, machine integers, the result and state monads, and the
    generic lemmas that the component files share. *)

Open Scope Z_scope.

Create HintDb slicefs.
Create Rewrite HintDb slicefs.

(** Linear arithmetic with division and remainder by constants. *)
Ltac div_lia := Z.to_euclidean_division_equations; lia.

(* ------------------------------------------------------------------------ *)
(** ** Bytes and little-endian words *)

Abbreviation byte := Byte.byte.
Abbreviation bytes := (list Byte.byte).

#[export] Instance byte_eq_dec : EqDecision byte := Byte.byte_eq_dec.

#[export] Instance byte_countable : Countable byte.
Proof. apply (inj_countable Byte.to_N Byte.of_N). apply Byte.of_to_N. Defined.

(** [b as u64]: the numeric value of a byte. *)
Definition Z_of_byte (b : byte) : Z := Z.of_N (Byte.to_N b).

(** [z as u8]: the low eight bits of an integer. *)
Definition byte_of_Z (z : Z) : byte :=
  match Byte.of_N (Z.to_N (z mod 256)) with Some b => b | None => Byte.x00 end.

(** A string literal as the bytes of a Rust [&str]. *)
Definition str (s : string) : bytes := list_byte_of_string s.

(** [z.to_le_bytes()] of an [n]-byte integer. *)
Fixpoint le_bytes (n : nat) (z : Z) : bytes :=
  match n with
  | O => []
  | S n => byte_of_Z z :: le_bytes n (z / 256)
  end.

(** [uN::from_le_bytes(bs)]. *)
Fixpoint le_decode (bs : bytes) : Z :=
  match bs with
  | [] => 0
  | b :: bs => Z_of_byte b + 256 * le_decode bs
  end.

(** Two's complement: the [i64] with the bits of a 64-bit word. *)
Definition to_i64 (z : Z) : Z := if decide (z < 2 ^ 63) then z else z - 2 ^ 64.

Definition u32_max : Z := 2 ^ 32 - 1.
Definition u64_max : Z := 2 ^ 64 - 1.
Definition is_u32 (z : Z) : Prop := 0 ≤ z < 2 ^ 32.
Definition is_u64 (z : Z) : Prop := 0 ≤ z < 2 ^ 64.
Definition is_i64 (z : Z) : Prop := - 2 ^ 63 ≤ z < 2 ^ 63.
Definition wrap32 (z : Z) : Z := z mod 2 ^ 32.
Definition wrap64 (z : Z) : Z := z mod 2 ^ 64.
(** [a.saturating_sub(b)] on unsigned integers. *)
Definition sat_sub (a b : Z) : Z := Z.max 0 (a - b).
(** [v.len() as u64]. *)
Definition len (bs : bytes) : Z := Z.of_nat (length bs).

Lemma Z_of_byte_range b : 0 ≤ Z_of_byte b < 256.
Proof.
  unfold Z_of_byte. pose proof (Byte.to_N_bounded b). lia.
Qed.

Lemma Z_of_byte_of_Z z : Z_of_byte (byte_of_Z z) = z mod 256.
Proof.
  unfold byte_of_Z, Z_of_byte.
  pose proof (Z.mod_pos_bound z 256 ltac:(lia)) as Hb.
  destruct (Byte.of_N (Z.to_N (z mod 256))) as [b|] eqn:E.
  - apply Byte.to_of_N in E. rewrite E. lia.
  - apply Byte.of_N_None_iff in E. lia.
Qed.

Lemma byte_of_Z_of_byte b : byte_of_Z (Z_of_byte b) = b.
Proof.
  unfold byte_of_Z. rewrite Z.mod_small by apply Z_of_byte_range.
  unfold Z_of_byte. rewrite N2Z.id, Byte.of_to_N. done.
Qed.

Lemma byte_of_Z_mod x y : x mod 256 = y mod 256 → byte_of_Z x = byte_of_Z y.
Proof. intros H. unfold byte_of_Z. by rewrite H. Qed.

Lemma length_le_bytes n z : length (le_bytes n z) = n.
Proof. revert z; induction n as [|n IH]; intros z; simpl; [done|]. by rewrite IH. Qed.

Lemma le_decode_bytes n z : le_decode (le_bytes n z) = z mod 256 ^ Z.of_nat n.
Proof.
  revert z; induction n as [|n IH]; intros z; cbn [le_bytes le_decode].
  - by rewrite Z.mod_1_r.
  - rewrite IH, Z_of_byte_of_Z.
    replace (256 ^ Z.of_nat (S n)) with (256 * 256 ^ Z.of_nat n)
      by (rewrite Nat2Z.inj_succ, Z.pow_succ_r by lia; lia).
    rewrite Z.rem_mul_r by (try apply Z.pow_pos_nonneg; lia). lia.
Qed.

Lemma le_bytes_decode bs : le_bytes (length bs) (le_decode bs) = bs.
Proof.
  induction bs as [|b bs IH]; cbn [length le_bytes le_decode]; [done|].
  pose proof (Z_of_byte_range b) as Hb.
  f_equal.
  - rewrite <-(byte_of_Z_of_byte b) at 2. apply byte_of_Z_mod. div_lia.
  - transitivity (le_bytes (length bs) (le_decode bs)); [|exact IH].
    f_equal. div_lia.
Qed.

Lemma le_decode_range bs : 0 ≤ le_decode bs < 256 ^ Z.of_nat (length bs).
Proof.
  rewrite <-(le_bytes_decode bs) at 1 2. rewrite le_decode_bytes.
  apply Z.mod_pos_bound. lia.
Qed.

Lemma le_u32 z : is_u32 z → le_decode (le_bytes 4 z) = z.
Proof. intros H. rewrite le_decode_bytes. apply Z.mod_small. exact H. Qed.

Lemma le_u64 z : is_u64 z → le_decode (le_bytes 8 z) = z.
Proof. intros H. rewrite le_decode_bytes. apply Z.mod_small. exact H. Qed.

Lemma le_i64 z : is_i64 z → to_i64 (le_decode (le_bytes 8 z)) = z.
Proof.
  intros H. rewrite le_decode_bytes. change (256 ^ Z.of_nat 8) with (2 ^ 64).
  unfold is_i64, to_i64 in *. destruct (decide (0 ≤ z)).
  - rewrite Z.mod_small by lia. rewrite decide_True; lia.
  - replace (z mod 2 ^ 64) with (z + 2 ^ 64).
    + rewrite decide_False; lia.
    + rewrite <-(Z.mod_add _ 1) by lia. rewrite Z.mod_small; lia.
Qed.

Lemma to_i64_range z : is_u64 z → is_i64 (to_i64 z).
Proof. unfold is_u64, is_i64, to_i64. case_decide; lia. Qed.

Lemma le_decode_u32 bs : length bs = 4%nat → is_u32 (le_decode bs).
Proof. intros Hbs. pose proof (le_decode_range bs) as Hr. rewrite Hbs in Hr. exact Hr. Qed.

Lemma le_decode_u64 bs : length bs = 8%nat → is_u64 (le_decode bs).
Proof. intros Hbs. pose proof (le_decode_range bs) as Hr. rewrite Hbs in Hr. exact Hr. Qed.

#[export] Hint Rewrite length_le_bytes : slicefs.
#[export] Hint Resolve to_i64_range le_decode_u32 le_decode_u64 : slicefs.

(* ------------------------------------------------------------------------ *)
(** ** Slices *)

(** [&bs[i..j]]: [None] is the slice-index panic of Rust. *)
Definition slice (bs : bytes) (i j : Z) : option bytes :=
  if decide (0 ≤ i ∧ i ≤ j ∧ j ≤ len bs)
  then Some (take (Z.to_nat (j - i)) (drop (Z.to_nat i) bs))
  else None.

(** [v.resize(n, 0)]. *)
Definition resize_zero (bs : bytes) (n : Z) : bytes :=
  resize (Z.to_nat n) Byte.x00 bs.

Lemma len_app a b : len (a ++ b) = len a + len b.
Proof. unfold len. rewrite length_app. lia. Qed.

Lemma len_nonneg a : 0 ≤ len a.
Proof. unfold len. lia. Qed.

Lemma len_nil : len [] = 0.
Proof. done. Qed.

Lemma len_le_bytes n z : len (le_bytes n z) = Z.of_nat n.
Proof. unfold len. by rewrite length_le_bytes. Qed.

Lemma len_0_nil bs : len bs = 0 → bs = [].
Proof. unfold len. intros H. apply nil_length_inv. lia. Qed.

Lemma take_le n z rest : take n (le_bytes n z ++ rest) = le_bytes n z.
Proof. apply take_app_length'. by rewrite length_le_bytes. Qed.

Lemma drop_le n z rest : drop n (le_bytes n z ++ rest) = rest.
Proof. apply drop_app_length'. by rewrite length_le_bytes. Qed.

Lemma slice_mid a b c i j :
  i = len a → j = len a + len b → slice (a ++ b ++ c) i j = Some b.
Proof.
  intros -> ->. unfold slice. rewrite decide_True.
  - replace (Z.to_nat (len a + len b - len a)) with (length b) by (unfold len; lia).
    unfold len. rewrite Nat2Z.id, drop_app_length, take_app_length. done.
  - rewrite !len_app. pose proof (len_nonneg a). pose proof (len_nonneg b).
    pose proof (len_nonneg c). lia.
Qed.

Lemma slice_skip n (a rest : bytes) i j :
  length a = n → Z.of_nat n ≤ i → i ≤ j →
  slice (a ++ rest) i j = slice rest (i - Z.of_nat n) (j - Z.of_nat n).
Proof.
  intros <- Hi Hj. unfold slice. pose proof (len_app a rest) as Hl.
  assert (len a = Z.of_nat (length a)) as Ha by done.
  destruct (decide (j ≤ len (a ++ rest))).
  - rewrite !decide_True by lia. f_equal. f_equal; [lia|].
    rewrite drop_app_ge by lia. f_equal. lia.
  - rewrite !decide_False by lia. done.
Qed.

Lemma slice_here n (a rest : bytes) j :
  length a = n → j = Z.of_nat n → slice (a ++ rest) 0 j = Some a.
Proof. intros Ha ->. apply (slice_mid [] a rest); unfold len; rewrite ?Ha; done. Qed.

Lemma slice_all n (a : bytes) j : length a = n → j = Z.of_nat n → slice a 0 j = Some a.
Proof. intros. rewrite <-(app_nil_r a) at 1. by apply (slice_here n). Qed.

Lemma split_bytes n bs :
  (n ≤ length bs)%nat → ∃ a b : bytes, bs = a ++ b ∧ length a = n ∧ length b = (length bs - n)%nat.
Proof.
  intros H. exists (take n bs), (drop n bs). rewrite take_drop, length_take, length_drop.
  split_and!; [done|lia|done].
Qed.

Lemma le_bytes_mod n z : le_bytes n (z mod 256 ^ Z.of_nat n) = le_bytes n z.
Proof.
  pose proof (le_bytes_decode (le_bytes n z)) as H.
  rewrite length_le_bytes, le_decode_bytes in H. exact H.
Qed.

Lemma le_bytes_to_i64 z : is_u64 z → le_bytes 8 (to_i64 z) = le_bytes 8 z.
Proof.
  intros Hz. rewrite <-(le_bytes_mod 8 (to_i64 z)), <-(le_bytes_mod 8 z). f_equal.
  unfold to_i64. case_decide; [done|].
  replace (z - 2 ^ 64) with (z + (-1) * 2 ^ 64) by lia.
  apply Z.mod_add. lia.
Qed.

Lemma le_bytes_decode' n bs : length bs = n → le_bytes n (le_decode bs) = bs.
Proof. intros <-. apply le_bytes_decode. Qed.

(** Evaluate [slice (f1 ++ f2 ++ ..) i j] at literal offsets, where the lengths
    of the [f]s are known from the context or from [length_le_bytes]. *)
Ltac known_length := first [eassumption | apply length_le_bytes].
Ltac eval_slice :=
  repeat (erewrite slice_skip; [|known_length|lia|lia]);
  repeat match goal with
  | |- context [slice ?r ?i ?j] =>
      let i' := eval vm_compute in i in
      let j' := eval vm_compute in j in
      progress change (slice r i j) with (slice r i' j')
  end;
  first [ erewrite slice_here; [|known_length|reflexivity]
        | erewrite slice_all; [|known_length|reflexivity] ].

Lemma slice_Some bs i j x :
  slice bs i j = Some x →
  0 ≤ i ≤ j ∧ j ≤ len bs ∧ x = take (Z.to_nat (j - i)) (drop (Z.to_nat i) bs)
  ∧ len x = j - i.
Proof.
  unfold slice. case_decide as Hd; intros [= <-].
  split_and!; try lia; [done|].
  unfold len in *. rewrite length_take, length_drop. lia.
Qed.

Lemma slice_is_Some bs i j : 0 ≤ i ≤ j → j ≤ len bs → is_Some (slice bs i j).
Proof. intros ??. unfold slice. rewrite decide_True by lia. eauto. Qed.

#[export] Hint Rewrite len_app len_nil len_le_bytes take_le drop_le : slicefs.
#[export] Hint Resolve len_nonneg : slicefs.

(* ------------------------------------------------------------------------ *)
(** ** Fixed-size records *)

(** [n] consecutive records of [size] bytes from the front of [bs]; [None] when
    a record would be read past the end (a slice-index panic in the source). *)
Fixpoint read_records {A} (size : nat) (dec : bytes → A) (n : nat) (bs : bytes)
    : option (list A) :=
  match n with
  | O => Some []
  | S n =>
      if decide (length bs < size)%nat then None
      else l ← read_records size dec n (drop size bs);
           Some (dec (take size bs) :: l)
  end.

Lemma read_records_app {A} size (enc : A → bytes) (dec : bytes → A) (l : list A) rest :
  Forall (λ x, length (enc x) = size ∧ dec (enc x) = x) l →
  read_records size dec (length l) (flat_map enc l ++ rest) = Some l.
Proof.
  induction 1 as [|x l [Hlen Hdec] _ IH]; [done|].
  cbn [length read_records flat_map].
  rewrite <-app_assoc. rewrite decide_False by (rewrite length_app; lia).
  rewrite drop_app_length', take_app_length' by done.
  rewrite IH. cbn. by rewrite Hdec.
Qed.

Lemma length_flat_map_const {A} size (enc : A → bytes) (l : list A) :
  (∀ x, x ∈ l → length (enc x) = size) →
  length (flat_map enc l) = (length l * size)%nat.
Proof.
  induction l as [|x l IH]; intros H; [done|].
  cbn. rewrite length_app. rewrite H by left.
  rewrite IH by (intros y Hy; apply H; by right). lia.
Qed.

(* ------------------------------------------------------------------------ *)
(** ** Results and stateful computations *)

(** [Result<A, E>] of Rust, with the panic of a failed slice index or
    [unwrap] as a third outcome. *)
Inductive res (E A : Type) : Type :=
  | Ok (a : A)
  | Err (e : E)
  | Panic.
Arguments Ok {E A} a.
Arguments Err {E A} e.
Arguments Panic {E A}.

#[export] Instance res_ret E : MRet (res E) := λ A a, Ok a.
#[export] Instance res_bind E : MBind (res E) := λ A B k m,
  match m with Ok a => k a | Err e => Err e | Panic => Panic end.

#[export] Instance res_fmap E : FMap (res E) := λ A B f m,
  match m with Ok a => Ok (f a) | Err e => Err e | Panic => Panic end.

(** [o.ok_or(e)]. *)
Definition ok_or {E A} (o : option A) (e : E) : res E A :=
  match o with Some a => Ok a | None => Err e end.
(** A slice index or [unwrap] that panics on [None]. *)
Definition or_panic {E A} (o : option A) : res E A :=
  match o with Some a => Ok a | None => Panic end.
(** [r.map_err(f)]. *)
Definition res_map_err {E E' A} (f : E → E') (r : res E A) : res E' A :=
  match r with Ok a => Ok a | Err e => Err (f e) | Panic => Panic end.
(** [r.ok()]. *)
Definition res_ok {E A} (r : res E A) : option A :=
  match r with Ok a => Some a | _ => None end.

(** A method on [&self] with interior mutability: it reads and updates the
    state and returns a [Result]; what it wrote before an early return stays
    written. *)
Definition M (S E A : Type) : Type := S → S * res E A.

#[export] Instance M_ret S E : MRet (M S E) := λ A a s, (s, Ok a).
#[export] Instance M_bind S E : MBind (M S E) := λ A B k m s,
  match m s with
  | (s', Ok a) => k a s'
  | (s', Err e) => (s', Err e)
  | (s', Panic) => (s', Panic)
  end.

Definition gets {S E A} (f : S → A) : M S E A := λ s, (s, Ok (f s)).
Definition modify {S E} (f : S → S) : M S E unit := λ s, (f s, Ok tt).
Definition throw {S E A} (e : E) : M S E A := λ s, (s, Err e).
Definition lift {S E A} (r : res E A) : M S E A := λ s, (s, r).
Definition map_err {S E E' A} (f : E → E') (m : M S E A) : M S E' A := λ s,
  let '(s', r) := m s in (s', res_map_err f r).
(** Run [m] and hand its [Result] to the continuation ([match m() { .. }],
    [.ok()], [let _ = m()]); a panic still unwinds. *)
Definition attempt {S E E' A} (m : M S E A) : M S E' (res E A) := λ s,
  match m s with
  | (s', Panic) => (s', Panic)
  | (s', r) => (s', Ok r)
  end.
(** Run a method of a field of the state. *)
Definition zoom {S T E A} (get : S → T) (set : T → S → S) (m : M T E A) : M S E A :=
  λ s, let '(t, r) := m (get s) in (set t s, r).

Lemma run_bind {S E A B} (m : M S E A) (k : A → M S E B) s :
  (m ≫= k) s = match m s with
               | (s', Ok a) => k a s'
               | (s', Err e) => (s', Err e)
               | (s', Panic) => (s', Panic)
               end.
Proof. done. Qed.

Lemma bind_ok {S E A B} (m : M S E A) (k : A → M S E B) s s' a :
  m s = (s', Ok a) → (m ≫= k) s = k a s'.
Proof. intros H. by rewrite run_bind, H. Qed.

Lemma bind_err {S E A B} (m : M S E A) (k : A → M S E B) s s' e :
  m s = (s', Err e) → (m ≫= k) s = (s', Err e).
Proof. intros H. by rewrite run_bind, H. Qed.

Lemma bind_inv {S E A B} (m : M S E A) (k : A → M S E B) s s'' b :
  (m ≫= k) s = (s'', Ok b) → ∃ s' a, m s = (s', Ok a) ∧ k a s' = (s'', Ok b).
Proof.
  rewrite run_bind. destruct (m s) as [s' [a|e|]]; intros H; simplify_eq. eauto.
Qed.

(* ------------------------------------------------------------------------ *)
(** ** Bit operations and widths *)

Lemma land_bound a n : 0 ≤ n → 0 ≤ Z.land a (Z.ones n) < 2 ^ n.
Proof. intros Hn. rewrite Z.land_ones by done. apply Z.mod_pos_bound. lia. Qed.

Lemma log2_bound n z : 0 < n → 0 ≤ z → Z.log2 z < n → z < 2 ^ n.
Proof.
  intros Hn Hz Hl. destruct (decide (z = 0)) as [->|Hz0]; [lia|]. apply Z.log2_lt_pow2; lia.
Qed.
Lemma bound_log2 n z : 0 < n → 0 ≤ z < 2 ^ n → Z.log2 z < n.
Proof.
  intros Hn [Hz Hb]. destruct (decide (z = 0)) as [->|Hz0]; [done|]. apply Z.log2_lt_pow2; lia.
Qed.
Lemma lor_width n a b :
  0 < n → 0 ≤ a < 2 ^ n → 0 ≤ b < 2 ^ n → 0 ≤ Z.lor a b < 2 ^ n.
Proof.
  intros Hn Ha Hb. assert (0 ≤ Z.lor a b) as H0 by (apply Z.lor_nonneg; lia). split; [done|].
  apply log2_bound; [done|done|]. rewrite Z.log2_lor by lia.
  pose proof (bound_log2 n a Hn Ha). pose proof (bound_log2 n b Hn Hb). lia.
Qed.
Lemma land_width n a b :
  0 < n → 0 ≤ a < 2 ^ n → 0 ≤ b → 0 ≤ Z.land a b < 2 ^ n.
Proof.
  intros Hn Ha Hb. assert (0 ≤ Z.land a b) as H0 by (apply Z.land_nonneg; lia). split; [done|].
  apply log2_bound; [done|done|]. pose proof (Z.log2_land a b ltac:(lia) Hb).
  pose proof (bound_log2 n a Hn Ha). lia.
Qed.

(* ------------------------------------------------------------------------ *)
(** ** UTF-8 *)

(** [String::from_utf8]: the well-formed byte sequences of the Unicode
    standard (no overlong forms, no surrogates, nothing above U+10FFFF). *)
Definition in_range (lo hi : Z) (b : byte) : bool :=
  (lo <=? Z_of_byte b) && (Z_of_byte b <=? hi).
Definition is_cont (b : byte) : bool := in_range 128 191 b.

Fixpoint utf8_valid (bs : bytes) : bool :=
  match bs with
  | [] => true
  | b0 :: bs1 =>
      if in_range 0 127 b0 then utf8_valid bs1
      else match bs1 with
           | [] => false
           | b1 :: bs2 =>
               if in_range 194 223 b0 then is_cont b1 && utf8_valid bs2
               else match bs2 with
                    | [] => false
                    | b2 :: bs3 =>
                        if in_range 224 224 b0
                        then in_range 160 191 b1 && is_cont b2 && utf8_valid bs3
                        else if in_range 225 236 b0 || in_range 238 239 b0
                        then is_cont b1 && is_cont b2 && utf8_valid bs3
                        else if in_range 237 237 b0
                        then in_range 128 159 b1 && is_cont b2 && utf8_valid bs3
                        else match bs3 with
                             | [] => false
                             | b3 :: bs4 =>
                                 (if in_range 240 240 b0 then in_range 144 191 b1
                                  else if in_range 241 243 b0 then is_cont b1
                                  else if in_range 244 244 b0 then in_range 128 143 b1
                                  else false)
                                 && is_cont b2 && is_cont b3 && utf8_valid bs4
                             end
                    end
           end
  end.

(** [String::from_utf8(bs)]. *)
Definition from_utf8 (bs : bytes) : option bytes :=
  if utf8_valid bs then Some bs else None.

Lemma from_utf8_valid bs : utf8_valid bs = true → from_utf8 bs = Some bs.
Proof. unfold from_utf8. by intros ->. Qed.

(* ------------------------------------------------------------------------ *)
(** ** Ordered maps *)

(** A [BTreeMap] is a finite map that is iterated in ascending key order. *)
Class BTreeKey (K : Type) := key_leb : K → K → bool.

#[export] Instance Z_key : BTreeKey Z := Z.leb.

(** The derived lexicographic order on word arrays. *)
Fixpoint words_leb (a b : list Z) : bool :=
  match a, b with
  | [], _ => true
  | _ :: _, [] => false
  | x :: a, y :: b => (x <? y) || ((x =? y) && words_leb a b)
  end.
#[export] Instance words_key : BTreeKey (list Z) := words_leb.

Definition entry_le {K V} `{BTreeKey K} (p q : K * V) : Prop :=
  key_leb p.1 q.1 = true.
#[export] Instance entry_le_dec {K V} `{BTreeKey K} : RelDecision (@entry_le K V _).
Proof. intros p q. unfold entry_le. apply _. Defined.

(** [map.iter()]. *)
Definition btree_iter {K V} `{Countable K, BTreeKey K} (m : gmap K V) : list (K * V) :=
  merge_sort entry_le (map_to_list m).

(** [for (k, v) in l { map.insert(k, v) }] on an empty map: the last binding
    of a key wins. *)
Definition insert_all {K V} `{Countable K} (l : list (K * V)) : gmap K V :=
  foldl (λ m kv, <[kv.1 := kv.2]> m) ∅ l.

Section btree.
Context {K V : Type} `{Countable K, BTreeKey K}.
Implicit Types (m : gmap K V) (l : list (K * V)).

Lemma btree_iter_perm m : btree_iter m ≡ₚ map_to_list m.
Proof. apply merge_sort_Permutation. Qed.

Lemma elem_of_btree_iter m k v : (k, v) ∈ btree_iter m ↔ m !! k = Some v.
Proof. rewrite btree_iter_perm. apply elem_of_map_to_list. Qed.

Lemma length_btree_iter m : length (btree_iter m) = size m.
Proof. rewrite btree_iter_perm. apply length_map_to_list. Qed.

Lemma NoDup_btree_keys m : NoDup (btree_iter m).*1.
Proof. rewrite btree_iter_perm. apply NoDup_fst_map_to_list. Qed.

Lemma insert_all_snoc l k v : insert_all (l ++ [(k, v)]) = <[k := v]> (insert_all l).
Proof. unfold insert_all. by rewrite foldl_app. Qed.

Lemma insert_all_NoDup l : NoDup l.*1 → insert_all l = list_to_map l.
Proof.
  induction l as [|[k v] l IH] using rev_ind; [done|].
  rewrite fmap_app, insert_all_snoc. intros Hnd. cbn in Hnd.
  apply NoDup_app in Hnd as (Hnd & Hfresh & _).
  rewrite IH, list_to_map_app by done. cbn.
  rewrite insert_empty, <-insert_union_singleton_r; [done|].
  apply not_elem_of_list_to_map_1. intros Hin. apply (Hfresh k Hin). by left.
Qed.

Lemma insert_all_btree_iter m : insert_all (btree_iter m) = m.
Proof.
  rewrite insert_all_NoDup by apply NoDup_btree_keys.
  rewrite <-(list_to_map_to_list m) at 2.
  apply list_to_map_proper; [apply NoDup_btree_keys | apply btree_iter_perm].
Qed.
End btree.

(** Sorting and distinctness under a map that is only injective on the list. *)
Lemma StronglySorted_fmap_in {A B} (f : A → B) (R1 : relation A) (R2 : relation B) l :
  (∀ x y, x ∈ l → y ∈ l → R1 x y → R2 (f x) (f y)) →
  StronglySorted R1 l → StronglySorted R2 (f <$> l).
Proof.
  intros Hf Hs. induction Hs as [|x l Hs IH Hx]; [constructor|]. rewrite fmap_cons. constructor.
  - apply IH. intros ????. apply Hf; by right.
  - rewrite Forall_fmap. rewrite Forall_forall in Hx |- *. intros y Hy.
    apply Hf; [by left|by right|auto].
Qed.

Lemma NoDup_fmap_in {A B C} (f : B → C) (g : A → B) l :
  (∀ x y, x ∈ l → y ∈ l → f (g x) = f (g y) → g x = g y) → NoDup (g <$> l) →
  NoDup ((f ∘ g) <$> l).
Proof.
  intros Hf Hnd. induction l as [|x l IH]; [constructor|]. rewrite fmap_cons in *.
  apply NoDup_cons in Hnd as [Hx Hl]. constructor.
  - intros (y & Heq & Hy)%list_elem_of_fmap. apply Hx. cbn in Heq.
    apply list_elem_of_fmap. exists y. split; [|done]. apply Hf; [by left|by right|done].
  - apply IH; [|done]. intros ????. apply Hf; by right.
Qed.

(** The keys are totally ordered. *)
Class BTreeOrder (K : Type) `{BTreeKey K} : Prop := {
  key_total a b : key_leb a b = true ∨ key_leb b a = true;
  key_trans a b c : key_leb a b = true → key_leb b c = true → key_leb a c = true;
  key_antisym a b : key_leb a b = true → key_leb b a = true → a = b
}.

#[export] Instance Z_order : BTreeOrder Z.
Proof. split; unfold key_leb, Z_key; intros *; rewrite ?Z.leb_le; lia. Qed.

Section btree_order.
Context {K V : Type} `{Countable K, BTreeKey K, !BTreeOrder K}.
Implicit Types (m : gmap K V) (l : list (K * V)).

#[export] Instance entry_le_total : Total (@entry_le K V _).
Proof. intros p q. apply key_total. Qed.
#[export] Instance entry_le_trans : Transitive (@entry_le K V _).
Proof. intros p q r. apply key_trans. Qed.

Lemma btree_iter_sorted m : StronglySorted entry_le (btree_iter m).
Proof. apply StronglySorted_merge_sort; apply _. Qed.

(** A sorted listing of the entries is the one [btree_iter] gives. *)
Lemma btree_iter_unique m l :
  StronglySorted entry_le l → NoDup l.*1 → (∀ k v, (k, v) ∈ l ↔ m !! k = Some v) →
  btree_iter m = l.
Proof.
  intros Hs Hnd Hm. assert (btree_iter m ≡ₚ l) as Hp.
  { apply NoDup_Permutation; [apply (NoDup_fmap_1 fst), NoDup_btree_keys
                             |by apply (NoDup_fmap_1 fst)|].
    intros [k v]. by rewrite elem_of_btree_iter, Hm. }
  eapply StronglySorted_unique_strong; [|apply btree_iter_sorted|done|done].
  intros [k1 v1] [k2 v2] H1 H2 Hle Hge.
  assert (k1 = k2) as -> by (by apply key_antisym).
  apply elem_of_btree_iter in H1. apply Hm in H2. congruence.
Qed.

(** A key above all others comes last. *)
Lemma btree_iter_insert_last m k v :
  map_Forall (λ k' _, key_leb k' k = true ∧ k' ≠ k) m →
  btree_iter (<[k := v]> m) = btree_iter m ++ [(k, v)].
Proof.
  intros Hm. apply btree_iter_unique.
  - apply StronglySorted_app_2; [|apply btree_iter_sorted|repeat constructor].
    intros [k' v'] y Hk' ->%list_elem_of_singleton. apply elem_of_btree_iter in Hk'.
    exact (proj1 (Hm _ _ Hk')).
  - rewrite fmap_app. apply NoDup_app. split_and!; [apply NoDup_btree_keys| |apply NoDup_singleton].
    intros k' ((k'' & v') & -> & Hin)%list_elem_of_fmap Hk. apply list_elem_of_singleton in Hk.
    apply elem_of_btree_iter in Hin. by destruct (Hm _ _ Hin).
  - intros k' v'. rewrite elem_of_app, list_elem_of_singleton, elem_of_btree_iter.
    rewrite lookup_insert_Some. split.
    + intros [Hk'|[= -> ->]]; [right|by left]. split; [|done]. intros ->. by destruct (Hm _ _ Hk').
    + intros [[<- <-]|[_ Hk']]; [by right|by left].
Qed.
End btree_order.
