(* ===== verification/Types.v ===== *)
(** * Shared data types

    The plain data of [crates/slicefs-traits]: content digests
    ([digest.rs]), the metadata errors, inode records and directory entries of
    [metadata.rs], and the snapshot entry of [crates/metadata/src/snapshot.rs]. *)

From S2P Require Import Prelude.
From stdpp Require Import base tactics numbers list strings pretty.
Open Scope Z_scope.

(* ------------------------------------------------------------------------ *)
(** ** Digests *)

(** [type Digest224 = [u32; 7]]. *)
Abbreviation Digest224 := (list Z) (only parsing).

Definition wf_digest (d : Digest224) : Prop := length d = 7%nat ∧ Forall is_u32 d.

(** [for word in d { buf.extend_from_slice(&word.to_le_bytes()) }]. *)
Definition digest_bytes (d : Digest224) : bytes := flat_map (le_bytes 4) d.

Fixpoint words_of (n : nat) (bs : bytes) : list Z :=
  match n with
  | O => []
  | S n => le_decode (take 4 bs) :: words_of n (drop 4 bs)
  end.

(** The seven little-endian words of a 28-byte slice. *)
Definition parse_digest224 (bs : bytes) : Digest224 := words_of 7 bs.

(** [format!("{:?}", d)] of a word array. *)
Fixpoint fmt_words (d : list Z) : string :=
  match d with
  | [] => ""
  | [w] => pretty w
  | w :: d => pretty w +:+ ", " +:+ fmt_words d
  end.
Definition fmt_digest (d : Digest224) : string := "[" +:+ fmt_words d +:+ "]".

Lemma words_of_bytes n d rest :
  length d = n → Forall is_u32 d → words_of n (flat_map (le_bytes 4) d ++ rest) = d.
Proof.
  intros <- Hd. induction Hd as [|w d Hw _ IH]; [done|].
  cbn [length words_of flat_map]. rewrite <-app_assoc, take_le, drop_le, IH.
  by rewrite le_u32.
Qed.

Lemma parse_digest_bytes d rest :
  wf_digest d → parse_digest224 (digest_bytes d ++ rest) = d.
Proof. intros [Hl Hf]. by apply words_of_bytes. Qed.

Lemma parse_digest_bytes' d : wf_digest d → parse_digest224 (digest_bytes d) = d.
Proof. intros H. rewrite <-(app_nil_r (digest_bytes d)). by apply parse_digest_bytes. Qed.

Lemma length_digest_bytes d : wf_digest d → length (digest_bytes d) = 28%nat.
Proof.
  intros [Hl _]. unfold digest_bytes.
  rewrite (length_flat_map_const 4); [lia|]. intros. apply length_le_bytes.
Qed.

Lemma length_words_of n bs : length (words_of n bs) = n.
Proof. revert bs. induction n; intros bs; cbn; [done|]. by rewrite IHn. Qed.

Lemma words_of_u32 n bs : (4 * n ≤ length bs)%nat → Forall is_u32 (words_of n bs).
Proof.
  revert bs. induction n as [|n IH]; intros bs Hl; cbn; constructor.
  - pose proof (le_decode_range (take 4 bs)) as Hr.
    rewrite length_take, Nat.min_l in Hr by lia. exact Hr.
  - apply IH. rewrite length_drop. lia.
Qed.

Lemma parse_digest_wf bs : (28 ≤ length bs)%nat → wf_digest (parse_digest224 bs).
Proof. intros H. split; [apply length_words_of | apply words_of_u32; lia]. Qed.

Lemma words_of_flat n bs :
  (4 * n ≤ length bs)%nat → flat_map (le_bytes 4) (words_of n bs) = take (4 * n) bs.
Proof.
  revert bs. induction n as [|n IH]; intros bs Hl; cbn [words_of flat_map]; [done|].
  rewrite IH by (rewrite length_drop; lia).
  assert (le_bytes 4 (le_decode (take 4 bs)) = take 4 bs) as ->.
  { rewrite <-(le_bytes_decode (take 4 bs)) at 2. f_equal.
    rewrite length_take. lia. }
  rewrite take_take_drop. f_equal. lia.
Qed.

Lemma digest_bytes_parse bs :
  length bs = 28%nat → digest_bytes (parse_digest224 bs) = bs.
Proof.
  intros H. unfold digest_bytes, parse_digest224. rewrite words_of_flat by lia.
  apply take_ge. lia.
Qed.

Arguments parse_digest224 : simpl never.
Arguments digest_bytes : simpl never.
Arguments le_bytes : simpl never.
Arguments le_decode : simpl never.

#[export] Hint Resolve parse_digest_bytes' length_digest_bytes : slicefs.

(* ------------------------------------------------------------------------ *)
(** ** Metadata errors, inodes and directory entries *)

Abbreviation InodeId := Z (only parsing).

Inductive MetaError : Type :=
  | NotFound (ino : InodeId)
  | AlreadyExists (ino : InodeId)
  | NotADirectory (ino : InodeId)
  | IsADirectory (ino : InodeId)
  | NotEmpty (ino : InodeId)
  | InvalidName (name : bytes)
  | Corrupted (msg : string)
  | MetaIo (msg : string).

(** [struct DirEntry]. *)
Record DirEntry := mkDirEntry { de_name : bytes; de_ino : InodeId }.

(** [struct InodeMeta]. *)
Record InodeMeta := mkInode {
  im_ino : Z;
  im_mode : Z;
  im_uid : Z;
  im_gid : Z;
  im_nlinks : Z;
  im_size : Z;
  im_mtime_sec : Z;
  im_mtime_nsec : Z;
  im_ctime_sec : Z;
  im_ctime_nsec : Z
}.

#[export] Instance InodeMeta_eq_dec : EqDecision InodeMeta.
Proof. solve_decision. Defined.
#[export] Instance DirEntry_eq_dec : EqDecision DirEntry.
Proof. solve_decision. Defined.
#[export] Instance MetaError_eq_dec : EqDecision MetaError.
Proof. solve_decision. Defined.

(** Reduce projections of inode records. *)
Ltac inode_simpl := cbn [im_ino im_mode im_uid im_gid im_nlinks im_size im_mtime_sec
  im_mtime_nsec im_ctime_sec im_ctime_nsec].

(** The values the field types of [InodeMeta] can hold. *)
Definition wf_inode (m : InodeMeta) : Prop :=
  is_u64 (im_ino m) ∧ is_u32 (im_mode m) ∧ is_u32 (im_uid m) ∧ is_u32 (im_gid m) ∧
  is_u32 (im_nlinks m) ∧ is_u64 (im_size m) ∧
  is_i64 (im_mtime_sec m) ∧ is_u32 (im_mtime_nsec m) ∧
  is_i64 (im_ctime_sec m) ∧ is_u32 (im_ctime_nsec m).

Definition new_directory (ino uid gid mode : Z) : InodeMeta :=
  mkInode ino mode uid gid 2 0 0 0 0 0.
Definition new_file (ino uid gid mode : Z) : InodeMeta :=
  mkInode ino mode uid gid 1 0 0 0 0 0.

(** Field assignments [meta.f = v]. *)
Definition set_ino (v : Z) (m : InodeMeta) : InodeMeta :=
  mkInode v (im_mode m) (im_uid m) (im_gid m) (im_nlinks m) (im_size m)
    (im_mtime_sec m) (im_mtime_nsec m) (im_ctime_sec m) (im_ctime_nsec m).
Definition set_mode (v : Z) (m : InodeMeta) : InodeMeta :=
  mkInode (im_ino m) v (im_uid m) (im_gid m) (im_nlinks m) (im_size m)
    (im_mtime_sec m) (im_mtime_nsec m) (im_ctime_sec m) (im_ctime_nsec m).
Definition set_uid (v : Z) (m : InodeMeta) : InodeMeta :=
  mkInode (im_ino m) (im_mode m) v (im_gid m) (im_nlinks m) (im_size m)
    (im_mtime_sec m) (im_mtime_nsec m) (im_ctime_sec m) (im_ctime_nsec m).
Definition set_gid (v : Z) (m : InodeMeta) : InodeMeta :=
  mkInode (im_ino m) (im_mode m) (im_uid m) v (im_nlinks m) (im_size m)
    (im_mtime_sec m) (im_mtime_nsec m) (im_ctime_sec m) (im_ctime_nsec m).
Definition set_nlinks (v : Z) (m : InodeMeta) : InodeMeta :=
  mkInode (im_ino m) (im_mode m) (im_uid m) (im_gid m) v (im_size m)
    (im_mtime_sec m) (im_mtime_nsec m) (im_ctime_sec m) (im_ctime_nsec m).
Definition set_isize (v : Z) (m : InodeMeta) : InodeMeta :=
  mkInode (im_ino m) (im_mode m) (im_uid m) (im_gid m) (im_nlinks m) v
    (im_mtime_sec m) (im_mtime_nsec m) (im_ctime_sec m) (im_ctime_nsec m).
Definition set_mtime (sec nsec : Z) (m : InodeMeta) : InodeMeta :=
  mkInode (im_ino m) (im_mode m) (im_uid m) (im_gid m) (im_nlinks m) (im_size m)
    sec nsec (im_ctime_sec m) (im_ctime_nsec m).
Definition set_ctime (sec nsec : Z) (m : InodeMeta) : InodeMeta :=
  mkInode (im_ino m) (im_mode m) (im_uid m) (im_gid m) (im_nlinks m) (im_size m)
    (im_mtime_sec m) (im_mtime_nsec m) sec nsec.

(** [struct SnapshotEntry]. *)
Record SnapshotEntry := mkSnapshot {
  sn_version : Z;
  sn_name : option bytes;
  sn_root : Digest224;
  sn_created_at : Z
}.
#[export] Instance SnapshotEntry_eq_dec : EqDecision SnapshotEntry.
Proof. solve_decision. Defined.

(** POSIX inode type bits. *)
Definition S_IFMT : Z := 61440.  (* 0o170000 *)
Definition S_IFREG : Z := 32768. (* 0o100000 *)
Definition S_IFDIR : Z := 16384. (* 0o040000 *)
Definition S_IFLNK : Z := 40960. (* 0o120000 *)
