(* ===== verification/Text.v ===== *)
(** * Decimal numerals and byte-string order

    The parts of the Rust formatting and parsing library that the sources rely
    on: [format!("{:0w}", n)] of an unsigned integer, [str::parse::<u64>] and
    the lexicographic order by which [seg_paths.sort()] orders file names. *)

From S2P Require Import Prelude.
From stdpp Require Import base tactics numbers option list gmap.
Open Scope Z_scope.

(** The byte of a decimal digit, and back. *)
Definition digit (d : Z) : byte := byte_of_Z (48 + d).
Definition digit_val (b : byte) : option Z :=
  let v := Z_of_byte b - 48 in
  if decide (0 ≤ v < 10) then Some v else None.

(** The last [n] decimal digits of [z]. *)
Fixpoint digits (n : nat) (z : Z) : bytes :=
  match n with
  | O => []
  | S n => digits n (z / 10) ++ [digit (z mod 10)]
  end.

(** The number of decimal digits of [z]; twenty are enough for a [u64]. *)
Fixpoint ndigits (fuel : nat) (z : Z) : nat :=
  match fuel with
  | O => O
  | S fuel => if decide (z < 10) then 1%nat else S (ndigits fuel (z / 10))
  end.

(** [format!("{:0w$}", z)]. *)
Definition fmt_pad (w : nat) (z : Z) : bytes := digits (Nat.max w (ndigits 20 z)) z.
(** [z.to_string()]. *)
Definition fmt_dec (z : Z) : bytes := fmt_pad 0 z.

(** One step of [from_str_radix]: checked multiplication and addition. *)
Definition parse_step (acc : option Z) (b : byte) : option Z :=
  a ← acc; d ← digit_val b;
  if decide (a * 10 + d < 2 ^ 64) then Some (a * 10 + d) else None.

(** [s.parse::<u64>().ok()]: digits after an optional [+] sign. *)
Definition parse_u64 (s : bytes) : option Z :=
  match s with
  | [] => None
  | b :: s' =>
      if decide (b = Byte.x2b)
      then match s' with [] => None | _ => foldl parse_step (Some 0) s' end
      else foldl parse_step (Some 0) s
  end.

(** Lexicographic order on byte strings. *)
Fixpoint bytes_leb (a b : bytes) : bool :=
  match a, b with
  | [], _ => true
  | _ :: _, [] => false
  | x :: a, y :: b =>
      (Z_of_byte x <? Z_of_byte y) || ((Z_of_byte x =? Z_of_byte y) && bytes_leb a b)
  end.
#[export] Instance bytes_key : BTreeKey (list byte) := bytes_leb.

(** [s.starts_with(p)] and [s.ends_with(p)]. *)
Definition starts_with (p s : bytes) : bool := bool_decide (take (length p) s = p).
Definition ends_with (p s : bytes) : bool :=
  bool_decide (length p ≤ length s)%nat &&
  bool_decide (drop (length s - length p) s = p).

(* ------------------------------------------------------------------------ *)
(** ** Numerals *)

Lemma Z_of_digit d : 0 ≤ d < 10 → Z_of_byte (digit d) = 48 + d.
Proof. intros Hd. unfold digit. rewrite Z_of_byte_of_Z. apply Z.mod_small. lia. Qed.

Lemma digit_val_digit d : 0 ≤ d < 10 → digit_val (digit d) = Some d.
Proof.
  intros Hd. unfold digit_val. rewrite Z_of_digit by done.
  rewrite decide_True by lia. f_equal. lia.
Qed.

Lemma length_digits n z : length (digits n z) = n.
Proof. revert z. induction n as [|n IH]; intros z; cbn; [done|]. rewrite length_app, IH. cbn. lia. Qed.

Lemma pow10_succ n : 10 ^ Z.of_nat (S n) = 10 * 10 ^ Z.of_nat n.
Proof. rewrite Nat2Z.inj_succ, Z.pow_succ_r by lia. done. Qed.

Lemma pow10_pos n : 0 < 10 ^ Z.of_nat n.
Proof. apply Z.pow_pos_nonneg; lia. Qed.

Lemma div10_lt n z : 0 ≤ z < 10 ^ Z.of_nat (S n) → 0 ≤ z / 10 < 10 ^ Z.of_nat n.
Proof. rewrite pow10_succ. intros ?. div_lia. Qed.

Lemma parse_digits n z :
  0 ≤ z < 10 ^ Z.of_nat n → z < 2 ^ 64 → foldl parse_step (Some 0) (digits n z) = Some z.
Proof.
  revert z. induction n as [|n IH]; intros z Hz Hz'; cbn [digits].
  - cbn. f_equal. cbn in Hz. lia.
  - rewrite foldl_app, IH by (first [by apply div10_lt | div_lia]). cbn [foldl].
    unfold parse_step. cbn [mbind option_bind].
    rewrite digit_val_digit by div_lia. cbn [mbind option_bind].
    rewrite decide_True by div_lia. f_equal. div_lia.
Qed.

Lemma ndigits_bound fuel z :
  0 ≤ z < 10 ^ Z.of_nat fuel → z < 10 ^ Z.of_nat (ndigits fuel z).
Proof.
  revert z. induction fuel as [|fuel IH]; intros z Hz; cbn [ndigits]; [cbn in *; lia|].
  case_decide; [cbn; lia|]. rewrite pow10_succ.
  specialize (IH (z / 10) (div10_lt _ _ Hz)). div_lia.
Qed.

Lemma ndigits_pos fuel z : (0 < fuel)%nat → (0 < ndigits fuel z)%nat.
Proof. destruct fuel; cbn; [lia|]. case_decide; lia. Qed.

Lemma ndigits_small fuel w z :
  0 ≤ z < 10 ^ Z.of_nat w → (0 < w)%nat → (ndigits fuel z ≤ w)%nat.
Proof.
  revert w z. induction fuel as [|fuel IH]; intros w z Hz Hw; cbn [ndigits]; [lia|].
  case_decide; [lia|]. destruct w as [|w]; [lia|].
  destruct w as [|w]; [cbn in Hz; lia|].
  specialize (IH (S w) (z / 10) (div10_lt _ _ Hz)). lia.
Qed.

Lemma fmt_pad_digits w z : 0 ≤ z < 10 ^ Z.of_nat w → (0 < w)%nat → fmt_pad w z = digits w z.
Proof.
  intros Hz Hw. unfold fmt_pad. f_equal. pose proof (ndigits_small 20 w z Hz Hw). lia.
Qed.

Lemma digits_head n z : 0 ≤ z → (0 < n)%nat → ∃ b bs, digits n z = b :: bs ∧ b ≠ Byte.x2b.
Proof.
  revert z. induction n as [|n IH]; intros z Hz Hn; [lia|]. cbn [digits].
  destruct n as [|n].
  - eexists _, []. split; [done|]. intros Heq. apply (f_equal Z_of_byte) in Heq.
    rewrite Z_of_digit in Heq by div_lia. change (Z_of_byte Byte.x2b) with 43 in Heq. div_lia.
  - destruct (IH (z / 10)) as (b & bs & -> & Hb); [div_lia|lia|].
    eexists b, _. split; [done|done].
Qed.

(** Printing then parsing a [u64] gives it back, whatever the padding. *)
Lemma parse_fmt_pad w z : is_u64 z → parse_u64 (fmt_pad w z) = Some z.
Proof.
  intros Hz. unfold is_u64 in Hz. unfold fmt_pad.
  set (n := Nat.max w (ndigits 20 z)).
  assert (0 < n)%nat as Hn by (pose proof (ndigits_pos 20 z); lia).
  assert (z < 10 ^ Z.of_nat n) as Hlt.
  { assert (z < 10 ^ Z.of_nat (ndigits 20 z)) as H1
      by (apply ndigits_bound; split; [lia|]; etransitivity; [apply Hz|done]).
    eapply Z.lt_le_trans; [exact H1|]. apply Z.pow_le_mono_r; lia. }
  destruct (digits_head n z) as (b & bs & E & Hb); [lia|done|].
  unfold parse_u64. rewrite E, decide_False by done. rewrite <-E.
  apply parse_digits; lia.
Qed.

(* ------------------------------------------------------------------------ *)
(** ** Order *)

Lemma bytes_leb_refl a : bytes_leb a a = true.
Proof. induction a as [|x a IH]; cbn; [done|]. rewrite Z.eqb_refl, IH, orb_true_r. done. Qed.

Lemma bytes_leb_app a b x y :
  length a = length b →
  bytes_leb (a ++ x) (b ++ y) =
  (bytes_leb a b && negb (bool_decide (a = b))) || (bool_decide (a = b) && bytes_leb x y).
Proof.
  revert b. induction a as [|u a IH]; intros [|v b] Hl; try done.
  cbn [app bytes_leb]. injection Hl as Hl. rewrite IH by done.
  destruct (Z.ltb_spec (Z_of_byte u) (Z_of_byte v)) as [Hlt|Hge]; cbn.
  - assert (u ≠ v) as Hne by (intros ->; lia).
    rewrite bool_decide_eq_false_2 by congruence. done.
  - destruct (Z.eqb_spec (Z_of_byte u) (Z_of_byte v)) as [Heq|Hne]; cbn.
    + assert (u = v) as ->.
      { rewrite <-(byte_of_Z_of_byte u), <-(byte_of_Z_of_byte v). by rewrite Heq. }
      rewrite (bool_decide_ext (v :: a = v :: b) (a = b)) by naive_solver. done.
    + rewrite (bool_decide_eq_false_2 (u :: a = v :: b)) by (intros [= -> ->]; lia). done.
Qed.

Lemma digits_inj n a b :
  0 ≤ a < 10 ^ Z.of_nat n → 0 ≤ b < 10 ^ Z.of_nat n → digits n a = digits n b → a = b.
Proof.
  revert a b. induction n as [|n IH]; intros a b Ha Hb; [cbn in *; lia|].
  cbn [digits]. intros [H1 H2]%app_inj_2; [|done].
  apply IH in H1; [|by apply div10_lt..].
  injection H2 as H2. apply (f_equal Z_of_byte) in H2.
  rewrite !Z_of_digit in H2 by div_lia. div_lia.
Qed.

(** Zero-padded numerals of equal width are ordered like their values. *)
Lemma bytes_leb_digits n a b :
  0 ≤ a < 10 ^ Z.of_nat n → 0 ≤ b < 10 ^ Z.of_nat n →
  bytes_leb (digits n a) (digits n b) = (a <=? b).
Proof.
  revert a b. induction n as [|n IH]; intros a b Ha Hb.
  { cbn in *. symmetry. apply Z.leb_le. lia. }
  pose proof (div10_lt _ _ Ha) as Ha'. pose proof (div10_lt _ _ Hb) as Hb'.
  cbn [digits]. rewrite bytes_leb_app by by rewrite !length_digits.
  rewrite IH by done. cbn [bytes_leb]. rewrite !Z_of_digit by div_lia.
  rewrite (bool_decide_ext (digits n (a / 10) = digits n (b / 10)) (a / 10 = b / 10))
    by (split; [by apply digits_inj | by intros ->]).
  apply eq_bool_prop_intro.
  rewrite !Is_true_true, !orb_true_iff, !andb_true_iff, orb_true_iff, andb_true_iff,
    negb_true_iff, bool_decide_eq_true, bool_decide_eq_false, !Z.leb_le, Z.ltb_lt, Z.eqb_eq.
  clear IH Ha' Hb'. split; [|intros Hab].
  - intros [[??]|[? [?|[? _]]]]; div_lia.
  - destruct (decide (a / 10 = b / 10)) as [Heq|Hne]; [right|left].
    + split; [done|]. destruct (decide (a mod 10 = b mod 10)); [right; split; [lia|done]|left; div_lia].
    + split; [div_lia|done].
Qed.

#[export] Instance bytes_order : BTreeOrder (list byte).
Proof.
  split; unfold key_leb, bytes_key.
  - induction a as [|x a IH]; intros [|y b]; cbn; auto.
    rewrite !orb_true_iff, !andb_true_iff, !Z.ltb_lt, !Z.eqb_eq.
    destruct (IH b), (Ztrichotomy (Z_of_byte x) (Z_of_byte y)) as [|[|]]; intuition lia.
  - induction a as [|x a IH]; intros [|y b] [|z c]; cbn; try done.
    rewrite !orb_true_iff, !andb_true_iff, !Z.ltb_lt, !Z.eqb_eq. specialize (IH b c).
    intros [?|[??]] [?|[??]]; [left; lia..|right]. split; [lia|auto].
  - induction a as [|x a IH]; intros [|y b]; cbn; try done.
    rewrite !orb_true_iff, !andb_true_iff, !Z.ltb_lt, !Z.eqb_eq.
    intros [?|[Hxy ?]] [?|[??]]; try lia. f_equal; [|auto].
    rewrite <-(byte_of_Z_of_byte x), <-(byte_of_Z_of_byte y). by rewrite Hxy.
Qed.

(* ------------------------------------------------------------------------ *)
(** ** Hexadecimal *)

Definition hex_digit (n : Z) : byte :=
  byte_of_Z (if decide (n < 10) then 48 + n else 87 + n).
(** [{:02x}] of one byte, and of all bytes of a string. *)
Definition hex_byte (b : byte) : bytes :=
  [hex_digit (Z_of_byte b / 16); hex_digit (Z_of_byte b mod 16)].
Definition hex_string (bs : bytes) : bytes := flat_map hex_byte bs.

Lemma length_hex_string bs : length (hex_string bs) = (2 * length bs)%nat.
Proof. induction bs as [|b bs IH]; [done|]. unfold hex_string in *. cbn [flat_map hex_byte app length]. lia. Qed.

Lemma hex_digit_range n : 0 ≤ n < 16 →
  Z_of_byte (hex_digit n) = (if decide (n < 10) then 48 + n else 87 + n).
Proof. intros Hn. unfold hex_digit. rewrite Z_of_byte_of_Z. apply Z.mod_small. destruct (decide _); lia. Qed.

Lemma hex_digit_inj m n : 0 ≤ m < 16 → 0 ≤ n < 16 → hex_digit m = hex_digit n → m = n.
Proof.
  intros Hm Hn Heq. apply (f_equal Z_of_byte) in Heq. rewrite !hex_digit_range in Heq by done.
  repeat case_decide; lia.
Qed.

Lemma hex_string_inj a b : hex_string a = hex_string b → a = b.
Proof.
  revert b. induction a as [|x a IH]; intros [|y b]; try done.
  intros [= H1 H2 H]. apply IH in H as ->. f_equal.
  pose proof (Z_of_byte_range x). pose proof (Z_of_byte_range y).
  apply hex_digit_inj in H1, H2; [|div_lia..].
  rewrite <-(byte_of_Z_of_byte x), <-(byte_of_Z_of_byte y). f_equal.
  rewrite (Z.div_mod (Z_of_byte x) 16), (Z.div_mod (Z_of_byte y) 16) by lia. by rewrite H1, H2.
Qed.

(** No dot in a hex string. *)
Lemma hex_string_no_dot bs : Byte.x2e ∉ hex_string bs.
Proof.
  induction bs as [|b bs IH]; [apply not_elem_of_nil|].
  pose proof (Z_of_byte_range b). unfold hex_string. cbn [flat_map hex_byte app].
  rewrite !not_elem_of_cons. split_and!; [..|exact IH];
    intros Heq; apply (f_equal Z_of_byte) in Heq;
    rewrite hex_digit_range in Heq by div_lia; change (Z_of_byte Byte.x2e) with 46 in Heq;
    case_decide; div_lia.
Qed.

(* ------------------------------------------------------------------------ *)
(** ** Lossy UTF-8 *)

(** Which second bytes may follow a first byte of three or four. *)
Definition second_of_three (b0 b1 : byte) : bool :=
  if in_range 224 224 b0 then in_range 160 191 b1
  else if in_range 237 237 b0 then in_range 128 159 b1 else is_cont b1.
Definition second_of_four (b0 b1 : byte) : bool :=
  if in_range 240 240 b0 then in_range 144 191 b1
  else if in_range 244 244 b0 then in_range 128 143 b1 else is_cont b1.

(** The number of bytes of the next character, or of the invalid sequence that is
    replaced as one: a first byte with the continuations that fit. *)
Definition utf8_chunk (bs : bytes) : nat * bool :=
  match bs with
  | [] => (1%nat, true)
  | b0 :: r =>
      if in_range 0 127 b0 then (1%nat, true)
      else if in_range 194 223 b0 then
        match r with
        | b1 :: _ => if is_cont b1 then (2%nat, true) else (1%nat, false)
        | [] => (1%nat, false)
        end
      else if in_range 224 239 b0 then
        match r with
        | b1 :: r => if second_of_three b0 b1 then
            match r with
            | b2 :: _ => if is_cont b2 then (3%nat, true) else (2%nat, false)
            | [] => (2%nat, false)
            end else (1%nat, false)
        | [] => (1%nat, false)
        end
      else if in_range 240 244 b0 then
        match r with
        | b1 :: r => if second_of_four b0 b1 then
            match r with
            | b2 :: r => if is_cont b2 then
                match r with
                | b3 :: _ => if is_cont b3 then (4%nat, true) else (3%nat, false)
                | [] => (3%nat, false)
                end else (2%nat, false)
            | [] => (2%nat, false)
            end else (1%nat, false)
        | [] => (1%nat, false)
        end
      else (1%nat, false)
  end.

(** U+FFFD. *)
Definition replacement_char : bytes := [Byte.xef; Byte.xbf; Byte.xbd].

(** [String::from_utf8_lossy] and [OsStr::to_string_lossy]; every step consumes a
    byte, so that the length is fuel enough. *)
Fixpoint utf8_lossy (fuel : nat) (bs : bytes) : bytes :=
  match fuel, bs with
  | O, _ | _, [] => []
  | S fuel, _ =>
      let '(n, ok) := utf8_chunk bs in
      (if ok then take n bs else replacement_char) ++ utf8_lossy fuel (drop n bs)
  end.
Definition to_string_lossy (bs : bytes) : bytes := utf8_lossy (length bs) bs.

(** Decide the tests of the first byte. *)
Ltac lead_cases b0 :=
  repeat match goal with
  | |- context [in_range ?lo ?hi b0] =>
      let E := fresh "E" in destruct (in_range lo hi b0) eqn:E; unfold in_range in E;
      first [apply andb_prop in E as [?%Z.leb_le ?%Z.leb_le]
            |apply andb_false_iff in E as [?%Z.leb_gt|?%Z.leb_gt]]; try lia; cbn [orb]
  end.

(** Validity by the class of the first byte. *)
Lemma utf8_valid_cons b0 r :
  utf8_valid (b0 :: r) =
  if in_range 0 127 b0 then utf8_valid r else
  if in_range 194 223 b0 then
    match r with b1 :: r => is_cont b1 && utf8_valid r | [] => false end else
  if in_range 224 239 b0 then
    match r with
    | b1 :: b2 :: r => second_of_three b0 b1 && is_cont b2 && utf8_valid r
    | _ => false
    end else
  if in_range 240 244 b0 then
    match r with
    | b1 :: b2 :: b3 :: r => second_of_four b0 b1 && is_cont b2 && is_cont b3 && utf8_valid r
    | _ => false
    end else false.
Proof.
  unfold utf8_valid; fold utf8_valid. unfold second_of_three, second_of_four. lead_cases b0.
  all: by destruct r as [|b1 [|b2 [|b3 r]]].
Qed.

(** The next chunk is a character exactly if the string can be valid. *)
Lemma utf8_chunk_spec bs :
  bs ≠ [] →
  (1 ≤ (utf8_chunk bs).1)%nat ∧
  (if (utf8_chunk bs).2
   then utf8_valid bs = utf8_valid (drop (utf8_chunk bs).1 bs) ∧
        (∀ rest, utf8_valid (take (utf8_chunk bs).1 bs ++ rest) = utf8_valid rest)
   else utf8_valid bs = false).
Proof.
  destruct bs as [|b0 r]; [done|intros _]. rewrite utf8_valid_cons. cbn [utf8_chunk].
  destruct (in_range 0 127 b0) eqn:E0; [split; [done|split; [done|]]|].
  { intros rest. cbn [fst take app]. rewrite utf8_valid_cons. by rewrite E0. }
  destruct (in_range 194 223 b0) eqn:E1.
  { destruct r as [|b1 r]; [done|]. destruct (is_cont b1) eqn:C1; [|done]. split; [cbn; lia|split; [done|]].
    intros rest. cbn [fst take app]. rewrite utf8_valid_cons. by rewrite E0, E1, C1. }
  destruct (in_range 224 239 b0) eqn:E2.
  { destruct r as [|b1 r]; [done|]. destruct (second_of_three b0 b1) eqn:C1; [|by destruct r].
    destruct r as [|b2 r]; [split; [cbn; lia|done]|]. destruct (is_cont b2) eqn:C2; split; try (cbn; lia); try done.
    split; [done|]. intros rest. cbn [fst take app]. rewrite utf8_valid_cons. by rewrite E0, E1, E2, C1, C2. }
  destruct (in_range 240 244 b0) eqn:E3; [|done].
  destruct r as [|b1 r]; [done|]. destruct (second_of_four b0 b1) eqn:C1; [|by destruct r as [|? [|? ?]]].
  destruct r as [|b2 r]; [split; [cbn; lia|done]|].
  destruct (is_cont b2) eqn:C2; [|destruct r; split; [cbn; lia|done|cbn; lia|done]].
  destruct r as [|b3 r]; [split; [cbn; lia|done]|].
  destruct (is_cont b3) eqn:C3; split; try (cbn; lia); try done.
  split; [done|]. intros rest. cbn [fst take app]. rewrite utf8_valid_cons. by rewrite E0, E1, E2, E3, C1, C2, C3.
Qed.

Lemma replacement_char_valid rest : utf8_valid (replacement_char ++ rest) = utf8_valid rest.
Proof. done. Qed.

(** The result is valid whatever the input, and a valid input is unchanged. *)
Lemma utf8_lossy_valid fuel bs : utf8_valid (utf8_lossy fuel bs) = true.
Proof.
  revert bs. induction fuel as [|fuel IH]; intros bs; [done|]. destruct (decide (bs = [])) as [->|Hne]; [done|].
  pose proof (utf8_chunk_spec bs Hne) as [_ Hspec].
  assert (utf8_lossy (S fuel) bs = let '(n, ok) := utf8_chunk bs in
            (if ok then take n bs else replacement_char) ++ utf8_lossy fuel (drop n bs)) as ->
    by by destruct bs.
  destruct (utf8_chunk bs) as [n [|]]; cbn [fst snd] in Hspec.
  - by rewrite (proj2 Hspec).
  - by rewrite replacement_char_valid.
Qed.

Lemma utf8_lossy_id fuel bs :
  (length bs ≤ fuel)%nat → utf8_valid bs = true → utf8_lossy fuel bs = bs.
Proof.
  revert bs. induction fuel as [|fuel IH]; intros bs Hf Hv; [by destruct bs; cbn in Hf; [|lia]|].
  destruct (decide (bs = [])) as [->|Hne]; [done|].
  pose proof (utf8_chunk_spec bs Hne) as [Hn Hspec].
  assert (utf8_lossy (S fuel) bs = let '(n, ok) := utf8_chunk bs in
            (if ok then take n bs else replacement_char) ++ utf8_lossy fuel (drop n bs)) as ->
    by by destruct bs.
  assert (1 ≤ length bs)%nat by (destruct bs; [done|cbn; lia]).
  destruct (utf8_chunk bs) as [n [|]]; cbn [fst snd] in *; [|congruence].
  rewrite IH; [apply take_drop|rewrite length_drop; lia|by rewrite <-(proj1 Hspec)].
Qed.
