(* ===== verification/Blockset.v ===== *)
(** * The content store that SliceFS is built on

    [blockset] (the [crates/data-id] submodule) is not part of this repository:
    it is a parameter of every model.  [Blockset] lists the operations the
    sources call on it and [BlocksetLaws] the documented behaviour they rely on
    ([.planning/phases/10-streaming-writes-core/10-RESEARCH.md]: [push_all] is
    [push_bytes], [end] and [fsa.end]; equal content has equal digests; what was
    pushed is read back by [file_storage_get] with the digest). *)

From S2P Require Import Prelude Types.
From stdpp Require Import base tactics numbers list gmap strings.
Open Scope Z_scope.

Class Blockset := {
  (** what the store directory behind [StoreIo] holds *)
  Io : Type;
  (** [blockset::State], the streaming Merkle accumulator *)
  BState : Type;
  (** [file_storage_get(io, digest)] *)
  file_storage_get : Io → Digest224 → option bytes;
  (** [State::push_all(&mut FileStorageAdd::new(io), bytes)] *)
  push_all : bytes → Io → Io * Digest224;
  (** [State::default()] *)
  state_default : BState;
  (** [state.push_bytes(&mut fsa, data)]; the flag is [fsa.take_io_error().is_some()] *)
  push_bytes : BState → bytes → Io → Io * BState * bool;
  (** [let d256 = state.end(&mut fsa); fsa.end(&d256)] *)
  state_end : BState → Io → Io * Digest224
}.

(** Everything readable before is still readable, with the same content. *)
Definition io_le {B : Blockset} (io io' : Io) : Prop :=
  ∀ d bs, file_storage_get io d = Some bs → file_storage_get io' d = Some bs.
Infix "⊑ᵢ" := io_le (at level 70).

#[export] Instance io_le_preorder {B : Blockset} : PreOrder (@io_le B).
Proof. split; [by intros io d bs | intros a b c H1 H2 d bs Hd; eauto]. Qed.

(** A digest has 224 bits, so distinct contents can share one in principle.
    [admissible] singles out the contents that the run under consideration
    stores, among which no two collide; [healthy] says that the store directory
    accepts writes and holds what was written to it; [streams io st bs] that the
    accumulator [st] has been fed exactly [bs]. *)
Class BlocksetLaws (B : Blockset) := {
  digest_of : bytes → Digest224;
  admissible : bytes → Prop;
  healthy : Io → Prop;
  streams : Io → BState → bytes → Prop;
  digest_of_wf bs : wf_digest (digest_of bs);
  digest_of_inj a b :
    admissible a → admissible b → digest_of a = digest_of b → a = b;
  push_all_digest bs io : (push_all bs io).2 = digest_of bs;
  push_all_spec bs io :
    healthy io → admissible bs →
    healthy (push_all bs io).1 ∧ io ⊑ᵢ (push_all bs io).1 ∧
    file_storage_get (push_all bs io).1 (digest_of bs) = Some bs;
  streams_default io : streams io state_default [];
  streams_mono io io' st bs : io ⊑ᵢ io' → streams io st bs → streams io' st bs;
  push_bytes_spec st bs data io :
    healthy io → streams io st bs → admissible (bs ++ data) →
    ∃ io' st', push_bytes st data io = (io', st', false) ∧
               healthy io' ∧ io ⊑ᵢ io' ∧ streams io' st' (bs ++ data);
  state_end_spec st bs io :
    healthy io → streams io st bs → admissible bs →
    healthy (state_end st io).1 ∧ io ⊑ᵢ (state_end st io).1 ∧
    (state_end st io).2 = digest_of bs ∧
    file_storage_get (state_end st io).1 (digest_of bs) = Some bs
}.
#[export] Hint Resolve digest_of_wf : slicefs.

(* ------------------------------------------------------------------------ *)
(** ** A small concrete content store

    Used to show that the laws can hold and to evaluate the models: a finite
    map from digests to contents, with a polynomial digest. *)

Definition toy_hash (bs : bytes) : Z :=
  foldl (λ h b, Z.land (h * 257 + Z_of_byte b + 1) (Z.ones 32)) 0 bs.

Definition toy_digest (bs : bytes) : Digest224 := [toy_hash bs; 0; 0; 0; 0; 0; 0].

#[export] Instance toy : Blockset := {|
  Io := gmap (list Z) bytes;
  BState := bytes;
  file_storage_get io d := io !! d;
  push_all bs io := (<[toy_digest bs := bs]> io, toy_digest bs);
  state_default := [];
  push_bytes st data io := (io, st ++ data, false);
  state_end st io := (<[toy_digest st := st]> io, toy_digest st)
|}.

Lemma toy_hash_u32 bs : is_u32 (toy_hash bs).
Proof.
  assert (is_u32 0) as H0 by done. unfold toy_hash. revert H0. generalize 0.
  induction bs as [|b bs IH]; intros h Hh; [done|]. cbn [foldl]. apply IH.
  rewrite Z.land_ones by lia. apply Z.mod_pos_bound. lia.
Qed.

Lemma toy_digest_wf bs : wf_digest (toy_digest bs).
Proof. split; [done|]. constructor; [apply toy_hash_u32|]. repeat constructor; done. Qed.

Section toy_laws.
(** The contents of a run, no two of which collide. *)
Context (contents : list bytes) (Hnd : NoDup (toy_digest <$> contents)).

Definition toy_healthy (io : gmap (list Z) bytes) : Prop :=
  map_Forall (λ d bs, d = toy_digest bs ∧ bs ∈ contents) io.

Lemma toy_digest_inj a b :
  a ∈ contents → b ∈ contents → toy_digest a = toy_digest b → a = b.
Proof.
  clear -Hnd. induction contents as [|c cs IH]; [by intros ?%elem_of_nil|].
  rewrite fmap_cons in Hnd. apply NoDup_cons in Hnd as [Hc Hcs].
  rewrite !elem_of_cons. intros [->|Ha] [->|Hb] Heq; [done|..|by apply IH].
  - destruct Hc. rewrite Heq. by apply list_elem_of_fmap_2.
  - destruct Hc. rewrite <-Heq. by apply list_elem_of_fmap_2.
Qed.

Lemma toy_insert (bs : bytes) (io : gmap (list Z) bytes) :
  toy_healthy io → bs ∈ contents →
  toy_healthy (<[toy_digest bs := bs]> io) ∧
  (∀ d c, io !! d = Some c → (<[toy_digest bs := bs]> io : gmap (list Z) bytes) !! d = Some c).
Proof.
  intros Hio Hbs. split.
  - apply map_Forall_insert_2; done.
  - intros d c Hd. destruct (Hio d c Hd) as [-> Hc].
    destruct (decide (toy_digest bs = toy_digest c)) as [Heq|Hne].
    + rewrite (toy_digest_inj bs c Hbs Hc Heq). by simplify_map_eq.
    + by rewrite lookup_insert_ne.
Qed.

Definition toy_laws : BlocksetLaws toy.
Proof.
  refine {|
    digest_of := toy_digest;
    admissible := λ bs, bs ∈ contents;
    healthy := toy_healthy;
    streams := λ _ st bs, st = bs
  |}.
  - apply toy_digest_wf.
  - apply toy_digest_inj.
  - done.
  - intros bs io Hio Hbs. cbn.
    destruct (toy_insert bs io Hio Hbs) as [H1 H2].
    split_and!; [done|done|by simplify_map_eq].
  - done.
  - done.
  - intros st bs data io Hio -> Hadm. by eexists _, _.
  - intros st bs io Hio -> Hadm. cbn.
    destruct (toy_insert bs io Hio Hadm) as [H1 H2].
    split_and!; [done|done|done|by simplify_map_eq].
Defined.
End toy_laws.
