(* ===== verification/Inode.v ===== *)
(** * Inode records

    [crates/metadata/src/inode.rs]: the fixed 56-byte encoding of [InodeMeta]
    and its storage in the content store. *)

From S2P Require Import Prelude Types Blockset.
From stdpp Require Import base tactics numbers list strings pretty.
Open Scope Z_scope.

(** [serialize_inode]: ten little-endian fields at fixed offsets. *)
Definition serialize_inode (meta : InodeMeta) : bytes :=
  le_bytes 8 (im_ino meta) ++          (* [0..8]   *)
  le_bytes 4 (im_mode meta) ++         (* [8..12]  *)
  le_bytes 4 (im_uid meta) ++          (* [12..16] *)
  le_bytes 4 (im_gid meta) ++          (* [16..20] *)
  le_bytes 4 (im_nlinks meta) ++       (* [20..24] *)
  le_bytes 8 (im_size meta) ++         (* [24..32] *)
  le_bytes 8 (im_mtime_sec meta) ++    (* [32..40] *)
  le_bytes 4 (im_mtime_nsec meta) ++   (* [40..44] *)
  le_bytes 8 (im_ctime_sec meta) ++    (* [44..52] *)
  le_bytes 4 (im_ctime_nsec meta).     (* [52..56] *)

(** [uN::from_le_bytes(buf[i..j].try_into().unwrap())]. *)
Definition field_at (buf : bytes) (i j : Z) : res MetaError Z :=
  le_decode <$> or_panic (slice buf i j).

(** [deserialize_inode]. *)
Definition deserialize_inode (buf : bytes) : res MetaError InodeMeta :=
  if decide (len buf ≠ 56)
  then Err (Corrupted ("expected 56 bytes, got " +:+ pretty (len buf)))
  else
    ino ← field_at buf 0 8;
    mode ← field_at buf 8 12;
    uid ← field_at buf 12 16;
    gid ← field_at buf 16 20;
    nlinks ← field_at buf 20 24;
    size ← field_at buf 24 32;
    mtime_sec ← field_at buf 32 40;
    mtime_nsec ← field_at buf 40 44;
    ctime_sec ← field_at buf 44 52;
    ctime_nsec ← field_at buf 52 56;
    Ok (mkInode ino mode uid gid nlinks size
          (to_i64 mtime_sec) mtime_nsec (to_i64 ctime_sec) ctime_nsec).

Section cas.
Context {B : Blockset}.

(** [intern_inode(storage, meta)]. *)
Definition intern_inode (meta : InodeMeta) (io : Io) : Io * Digest224 :=
  push_all (serialize_inode meta) io.

(** [load_inode(io, key)]. *)
Definition load_inode (io : Io) (key : Digest224) : res MetaError InodeMeta :=
  bs ← ok_or (file_storage_get io key)
         (Corrupted ("missing inode node " +:+ fmt_digest key));
  deserialize_inode bs.
End cas.

(* ------------------------------------------------------------------------ *)
(** ** Properties of the encoding *)

Lemma length_serialize_inode m : length (serialize_inode m) = 56%nat.
Proof. unfold serialize_inode. by rewrite !length_app, !length_le_bytes. Qed.

Lemma deserialize_serialize_inode m :
  wf_inode m → deserialize_inode (serialize_inode m) = Ok m.
Proof.
  intros (?&?&?&?&?&?&?&?&?&?). unfold deserialize_inode, field_at.
  rewrite decide_False by (unfold len; rewrite length_serialize_inode; lia).
  unfold serialize_inode.
  do 10 (eval_slice; cbn [or_panic fmap res_fmap mbind res_bind]).
  rewrite !le_u64, !le_u32, !le_i64 by done. by destruct m.
Qed.

Lemma deserialize_inode_inv buf m :
  deserialize_inode buf = Ok m → serialize_inode m = buf ∧ wf_inode m.
Proof.
  unfold deserialize_inode, field_at. case_decide as Hl; [done|].
  assert (length buf = 56%nat) as Hlen by (unfold len in Hl; lia). clear Hl.
  destruct (split_bytes 8 buf) as (f0&b0&->&L0&R0); [lia|].
  destruct (split_bytes 4 b0) as (f1&b1&->&L1&R1); [lia|].
  destruct (split_bytes 4 b1) as (f2&b2&->&L2&R2); [lia|].
  destruct (split_bytes 4 b2) as (f3&b3&->&L3&R3); [lia|].
  destruct (split_bytes 4 b3) as (f4&b4&->&L4&R4); [lia|].
  destruct (split_bytes 8 b4) as (f5&b5&->&L5&R5); [lia|].
  destruct (split_bytes 8 b5) as (f6&b6&->&L6&R6); [lia|].
  destruct (split_bytes 4 b6) as (f7&b7&->&L7&R7); [lia|].
  destruct (split_bytes 8 b7) as (f8&f9&->&L8&R8); [lia|].
  assert (length f9 = 4%nat) as L9 by lia.
  do 10 (eval_slice; cbn [or_panic fmap res_fmap mbind res_bind]).
  intros [= <-].
  split.
  - unfold serialize_inode; inode_simpl. rewrite !le_bytes_to_i64 by auto with slicefs.
    rewrite !le_bytes_decode' by done. done.
  - unfold wf_inode; inode_simpl. split_and!; auto with slicefs.
Qed.

(** A buffer decodes to an inode exactly when it is its encoding. *)
Lemma inode_encoded buf m : deserialize_inode buf = Ok m ↔ buf = serialize_inode m ∧ wf_inode m.
Proof.
  split.
  - intros H. destruct (deserialize_inode_inv buf m H). by subst.
  - intros [-> H]. by apply deserialize_serialize_inode.
Qed.

(** Decoding succeeds exactly on 56-byte buffers; it never panics. *)
Lemma deserialize_inode_total buf :
  (len buf = 56 ∧ ∃ m, deserialize_inode buf = Ok m) ∨
  (len buf ≠ 56 ∧
   deserialize_inode buf = Err (Corrupted ("expected 56 bytes, got " +:+ pretty (len buf)))).
Proof.
  unfold deserialize_inode. case_decide as Hl; [by right|left]. split; [lia|].
  unfold field_at, slice. do 10 (rewrite decide_True by lia; cbn). eauto.
Qed.

Section cas_lemmas.
Context {B : Blockset} {L : BlocksetLaws B}.

Lemma load_intern_inode io m :
  healthy io → wf_inode m → admissible (serialize_inode m) →
  load_inode (intern_inode m io).1 (intern_inode m io).2 = Ok m.
Proof.
  intros Hio Hm Hadm. unfold load_inode, intern_inode.
  rewrite push_all_digest. destruct (push_all_spec _ io Hio Hadm) as (_ & _ & ->).
  by apply deserialize_serialize_inode.
Qed.

Lemma load_inode_mono io io' d m :
  io ⊑ᵢ io' → load_inode io d = Ok m → load_inode io' d = Ok m.
Proof.
  intros Hle. unfold load_inode.
  destruct (file_storage_get io d) as [bs|] eqn:E; [|done].
  by rewrite (Hle _ _ E).
Qed.
End cas_lemmas.
