(* ===== verification/InodeMap.v ===== *)
(** * Tables keyed by inode number or digest

    [crates/metadata/src/inode_map.rs] (the inode allocator and its 36-byte
    records), the counted tables of [crates/metadata/src/store.rs]
    ([intern_u64_digest_map], [load_u64_digest_map] and the digest-keyed pair)
    and the block lists of [crates/metadata/src/manifest.rs]. *)

From S2P Require Import Prelude Types Blockset.
From stdpp Require Import base tactics numbers list gmap strings pretty.
Open Scope Z_scope.

(* ------------------------------------------------------------------------ *)
(** ** The inode allocator *)

(** [struct InodeMap]. *)
Record InodeMap := mkInodeMap {
  imap_map : gmap Z Digest224;
  imap_next_ino : Z
}.

Definition inode_map_new : InodeMap := mkInodeMap ∅ 2.

(** [allocate_ino]: the counter is a [u64] and wraps in release builds. *)
Definition allocate_ino (m : InodeMap) : InodeMap * Z :=
  (mkInodeMap (imap_map m) (wrap64 (imap_next_ino m + 1)), imap_next_ino m).

Definition inode_map_insert (ino : Z) (d : Digest224) (m : InodeMap) : InodeMap :=
  mkInodeMap (<[ino := d]> (imap_map m)) (imap_next_ino m).
Definition inode_map_get (ino : Z) (m : InodeMap) : option Digest224 := imap_map m !! ino.
Definition inode_map_remove (ino : Z) (m : InodeMap) : InodeMap :=
  mkInodeMap (delete ino (imap_map m)) (imap_next_ino m).
Definition inode_map_entries (m : InodeMap) : list (Z * Digest224) := btree_iter (imap_map m).
Definition set_next_ino (v : Z) (m : InodeMap) : InodeMap := mkInodeMap (imap_map m) v.

(** One 36-byte record: [u64] inode number, then the digest. *)
Definition enc_ino_digest (e : Z * Digest224) : bytes :=
  le_bytes 8 e.1 ++ digest_bytes e.2.
Definition dec_ino_digest (r : bytes) : Z * Digest224 :=
  (le_decode (take 8 r), parse_digest224 (drop 8 r)).

(** [serialize_inode_map]. *)
Definition serialize_inode_map (m : InodeMap) : bytes :=
  flat_map enc_ino_digest (btree_iter (imap_map m)).

(** [deserialize_inode_map]: [next_ino] becomes the largest key plus one. *)
Definition deserialize_inode_map (bs : bytes) : res MetaError InodeMap :=
  if decide (len bs `mod` 36 ≠ 0)
  then Err (Corrupted ("inode map: expected multiple-of-36 bytes, got " +:+ pretty (len bs)))
  else
    records ← or_panic (read_records 36 dec_ino_digest (Z.to_nat (len bs / 36)) bs);
    let max_ino := foldl (λ mx e, if decide (e.1 > mx) then e.1 else mx) 1 records in
    Ok (mkInodeMap (insert_all records) (wrap64 (max_ino + 1))).

(* ------------------------------------------------------------------------ *)
(** ** Counted tables *)

Definition enc_digest_count (e : Digest224 * Z) : bytes :=
  digest_bytes e.1 ++ le_bytes 8 e.2.
Definition dec_digest_count (r : bytes) : Digest224 * Z :=
  (parse_digest224 (take 28 r), le_decode (take 8 (drop 28 r))).

Definition serialize_u64_digest_map (m : gmap Z Digest224) : bytes :=
  le_bytes 8 (Z.of_nat (size m)) ++ flat_map enc_ino_digest (btree_iter m).
Definition serialize_digest224_u64_map (m : gmap Digest224 Z) : bytes :=
  le_bytes 8 (Z.of_nat (size m)) ++ flat_map enc_digest_count (btree_iter m).

(** The common body of [load_u64_digest_map] and [load_digest224_u64_map]:
    length checks, then one pass over the 36-byte records.  [8 + count * 36]
    is computed in [usize] and wraps in release builds; a record read past the
    end of the buffer panics. *)
Definition load_counted {K V} `{Countable K} (what : string) (dec : bytes → K * V)
    (bs : bytes) : res MetaError (gmap K V) :=
  if decide (len bs < 8)
  then Err (Corrupted (what +:+ ": expected at least 8 bytes, got " +:+ pretty (len bs)))
  else
    let count := le_decode (take 8 bs) in
    let expected := wrap64 (8 + count * 36) in
    if decide (len bs ≠ expected)
    then Err (Corrupted (what +:+ ": expected " +:+ pretty expected +:+ " bytes for "
                +:+ pretty count +:+ " entries, got " +:+ pretty (len bs)))
    else
      records ← or_panic (read_records 36 dec (Z.to_nat count) (drop 8 bs));
      Ok (insert_all records).

(* ------------------------------------------------------------------------ *)
(** ** Manifests *)

(** [intern_manifest]: the serialized list of block digests. *)
Definition serialize_manifest (blocks : list Digest224) : bytes :=
  flat_map digest_bytes blocks.

(** [load_manifest], after the blob has been read. *)
Definition deserialize_manifest (bs : bytes) : res MetaError (list Digest224) :=
  if decide (len bs `mod` 28 ≠ 0)
  then Err (Corrupted ("manifest: expected multiple-of-28 bytes, got " +:+ pretty (len bs)))
  else or_panic (read_records 28 parse_digest224 (Z.to_nat (len bs / 28)) bs).

Section cas.
Context {B : Blockset}.

Definition intern_inode_map (m : InodeMap) (io : Io) : Io * Digest224 :=
  push_all (serialize_inode_map m) io.
Definition load_inode_map (io : Io) (key : Digest224) : res MetaError InodeMap :=
  bs ← ok_or (file_storage_get io key)
         (Corrupted ("missing inode_map node " +:+ fmt_digest key));
  deserialize_inode_map bs.

Definition intern_u64_digest_map (m : gmap Z Digest224) (io : Io) : Io * Digest224 :=
  push_all (serialize_u64_digest_map m) io.
Definition load_u64_digest_map (io : Io) (key : Digest224)
    : res MetaError (gmap Z Digest224) :=
  bs ← ok_or (file_storage_get io key)
         (Corrupted ("missing u64-digest map node " +:+ fmt_digest key));
  load_counted "u64-digest map" dec_ino_digest bs.

Definition intern_digest224_u64_map (m : gmap Digest224 Z) (io : Io) : Io * Digest224 :=
  push_all (serialize_digest224_u64_map m) io.
Definition load_digest224_u64_map (io : Io) (key : Digest224)
    : res MetaError (gmap Digest224 Z) :=
  bs ← ok_or (file_storage_get io key)
         (Corrupted ("missing digest224-u64 map node " +:+ fmt_digest key));
  load_counted "digest224-u64 map" dec_digest_count bs.

Definition intern_manifest (blocks : list Digest224) (io : Io) : Io * Digest224 :=
  push_all (serialize_manifest blocks) io.
Definition load_manifest (io : Io) (key : Digest224) : res MetaError (list Digest224) :=
  bs ← ok_or (file_storage_get io key)
         (Corrupted ("missing manifest node " +:+ fmt_digest key));
  deserialize_manifest bs.
End cas.

(* ------------------------------------------------------------------------ *)
(** ** Well-formed tables and round trips *)

Definition wf_table (m : gmap Z Digest224) : Prop :=
  map_Forall (λ k d, is_u64 k ∧ wf_digest d) m.
Definition wf_counts (m : gmap Digest224 Z) : Prop :=
  map_Forall (λ d c, wf_digest d ∧ is_u64 c) m.
(** The table fits in one allocation of the address space. *)
Definition fits {K V} `{Countable K} (m : gmap K V) : Prop :=
  8 + Z.of_nat (size m) * 36 < 2 ^ 64.

Lemma length_enc_ino_digest e :
  wf_digest e.2 → length (enc_ino_digest e) = 36%nat.
Proof.
  intros H. unfold enc_ino_digest.
  by rewrite length_app, length_le_bytes, length_digest_bytes.
Qed.

Lemma dec_enc_ino_digest e :
  is_u64 e.1 → wf_digest e.2 → dec_ino_digest (enc_ino_digest e) = e.
Proof.
  intros H1 H2. unfold dec_ino_digest, enc_ino_digest.
  rewrite take_le, drop_le, le_u64, parse_digest_bytes' by done. by destruct e.
Qed.

Lemma length_enc_digest_count e :
  wf_digest e.1 → length (enc_digest_count e) = 36%nat.
Proof.
  intros H. unfold enc_digest_count.
  by rewrite length_app, length_le_bytes, length_digest_bytes.
Qed.

Lemma dec_enc_digest_count e :
  wf_digest e.1 → is_u64 e.2 → dec_digest_count (enc_digest_count e) = e.
Proof.
  intros H1 H2. unfold dec_digest_count, enc_digest_count.
  rewrite take_app_length', drop_app_length' by (by rewrite length_digest_bytes).
  rewrite parse_digest_bytes' by done. rewrite <-(app_nil_r (le_bytes 8 e.2)), take_le.
  rewrite le_u64 by done. by destruct e.
Qed.

(** The records of a table are read back in full. *)
Lemma read_table {K V} `{Countable K, BTreeKey K} (enc : K * V → bytes) dec
    (m : gmap K V) rest :
  (∀ e, m !! e.1 = Some e.2 → length (enc e) = 36%nat ∧ dec (enc e) = e) →
  read_records 36 dec (size m) (flat_map enc (btree_iter m) ++ rest)
  = Some (btree_iter m).
Proof.
  intros Hm. rewrite <-length_btree_iter. apply read_records_app.
  apply Forall_forall. intros [k v] Hin. apply Hm. by apply elem_of_btree_iter.
Qed.

Lemma length_table {K V} `{Countable K, BTreeKey K} (enc : K * V → bytes) (m : gmap K V) :
  (∀ e, m !! e.1 = Some e.2 → length (enc e) = 36%nat) →
  length (flat_map enc (btree_iter m)) = (size m * 36)%nat.
Proof.
  intros Hm. rewrite <-length_btree_iter. apply length_flat_map_const.
  intros [k v] Hin. apply Hm. by apply elem_of_btree_iter.
Qed.

Lemma load_counted_serialize {K V} `{Countable K, BTreeKey K} what (enc : K * V → bytes)
    dec (m : gmap K V) :
  (∀ e, m !! e.1 = Some e.2 → length (enc e) = 36%nat ∧ dec (enc e) = e) →
  fits m →
  load_counted what dec (le_bytes 8 (Z.of_nat (size m)) ++ flat_map enc (btree_iter m))
  = Ok m.
Proof.
  intros Hm Hfit. unfold fits in Hfit. unfold load_counted.
  assert (length (flat_map enc (btree_iter m)) = (size m * 36)%nat) as Hl.
  { apply length_table. intros e He. by apply Hm. }
  rewrite len_app, len_le_bytes. unfold len. rewrite Hl, take_le, drop_le.
  rewrite le_u64 by (unfold is_u64; lia).
  unfold wrap64. rewrite Z.mod_small by lia.
  rewrite decide_False by lia. rewrite decide_False by lia.
  rewrite Nat2Z.id. rewrite <-(app_nil_r (flat_map _ _)), read_table by done.
  cbn. by rewrite insert_all_btree_iter.
Qed.

Lemma load_u64_digest_serialize m :
  wf_table m → fits m →
  load_counted "u64-digest map" dec_ino_digest (serialize_u64_digest_map m) = Ok m.
Proof.
  intros Hm Hf. apply load_counted_serialize; [|done].
  intros [k d] Hk. destruct (Hm k d Hk).
  split; [by apply length_enc_ino_digest | by apply dec_enc_ino_digest].
Qed.

Lemma load_digest224_u64_serialize m :
  wf_counts m → fits m →
  load_counted "digest224-u64 map" dec_digest_count (serialize_digest224_u64_map m) = Ok m.
Proof.
  intros Hm Hf. apply load_counted_serialize; [|done].
  intros [d c] Hk. destruct (Hm d c Hk).
  split; [by apply length_enc_digest_count | by apply dec_enc_digest_count].
Qed.

Lemma deserialize_serialize_manifest blocks :
  Forall wf_digest blocks →
  deserialize_manifest (serialize_manifest blocks) = Ok blocks.
Proof.
  intros Hb. unfold deserialize_manifest, serialize_manifest.
  assert (length (flat_map digest_bytes blocks) = (length blocks * 28)%nat) as Hl.
  { apply length_flat_map_const. intros d Hd. apply length_digest_bytes.
    by apply (proj1 (Forall_forall _ _) Hb). }
  unfold len. rewrite Hl, Nat2Z.inj_mul, Z.mod_mul, Z.div_mul, Nat2Z.id by lia.
  rewrite decide_False by lia. rewrite <-(app_nil_r (flat_map _ _)), read_records_app; [done|].
  eapply Forall_impl; [exact Hb|]. intros d Hd. cbn beta. auto with slicefs.
Qed.

(** [foldl max] over the keys. *)
Lemma foldl_max_spec (l : list (Z * Digest224)) (mx : Z) :
  let m := foldl (λ mx e, if decide (e.1 > mx) then e.1 else mx) mx l in
  mx ≤ m ∧ (∀ e, e ∈ l → e.1 ≤ m) ∧ (m = mx ∨ ∃ e, e ∈ l ∧ m = e.1).
Proof.
  revert mx. induction l as [|e l IH]; intros mx; cbn.
  - split_and!; [lia|by intros e ?%elem_of_nil|by left].
  - destruct (IH (if decide (e.1 > mx) then e.1 else mx)) as (H1 & H2 & H3).
    cbn in *. split_and!.
    + case_decide; lia.
    + intros e' [->|Hin]%elem_of_cons; [|auto]. case_decide; lia.
    + destruct H3 as [H3|(e' & Hin & H3)].
      * rewrite H3. case_decide; [right|by left]. exists e. split; [left|done].
      * right. exists e'. split; [by right|done].
Qed.

(** Decoding an encoded table restores it; the recovered [next_ino] is above
    every allocated number. *)
Lemma deserialize_serialize_inode_map m :
  wf_table (imap_map m) →
  (∀ k, is_Some (imap_map m !! k) → k < u64_max) →
  ∃ n, deserialize_inode_map (serialize_inode_map m) = Ok (mkInodeMap (imap_map m) n)
       ∧ 2 ≤ n ∧ (∀ k, is_Some (imap_map m !! k) → k < n).
Proof.
  intros Hm Hmax. unfold deserialize_inode_map, serialize_inode_map.
  assert (∀ e, imap_map m !! e.1 = Some e.2 →
    length (enc_ino_digest e) = 36%nat ∧ dec_ino_digest (enc_ino_digest e) = e) as He.
  { intros [k d] Hk. destruct (Hm k d Hk).
    split; [by apply length_enc_ino_digest | by apply dec_enc_ino_digest]. }
  assert (length (flat_map enc_ino_digest (btree_iter (imap_map m)))
          = (size (imap_map m) * 36)%nat) as Hl.
  { apply length_table. intros e ?. by apply He. }
  unfold len. rewrite Hl, Nat2Z.inj_mul, Z.mod_mul, Z.div_mul, Nat2Z.id by lia.
  rewrite decide_False by lia.
  rewrite <-(app_nil_r (flat_map _ _)), read_table by done. cbn.
  rewrite insert_all_btree_iter.
  destruct (foldl_max_spec (btree_iter (imap_map m)) 1) as (H1 & H2 & H3).
  set (mx := foldl _ 1 _) in *. cbn in H1, H2, H3.
  assert (mx < u64_max) as Hlt.
  { destruct H3 as [->|(e & Hin & ->)]; [unfold u64_max; lia|].
    destruct e as [k d]. apply elem_of_btree_iter in Hin. apply Hmax. eauto. }
  unfold u64_max in Hlt. exists (mx + 1). unfold wrap64. rewrite Z.mod_small by lia.
  split_and!; [done|lia|]. intros k [d Hk].
  specialize (H2 (k, d)). cbn in H2. rewrite elem_of_btree_iter in H2. specialize (H2 Hk). lia.
Qed.

(** A stored count whose byte size wraps to the size of the buffer passes the
    length check and the first record read is out of bounds. *)
Lemma load_counted_panics {K V} `{Countable K} what (dec : bytes → K * V) :
  load_counted what dec (le_bytes 8 (2 ^ 62)) = Panic.
Proof.
  unfold load_counted. rewrite len_le_bytes. rewrite decide_False by lia.
  rewrite <-(app_nil_r (le_bytes 8 (2 ^ 62))), take_le, drop_le.
  rewrite le_u64 by (unfold is_u64; lia).
  rewrite decide_False by (rewrite ?app_nil_r, ?len_le_bytes; vm_compute; done).
  destruct (Z.to_nat (2 ^ 62)) eqn:E; [lia|]. done.
Qed.
