(* ===== verification/Xattr.v ===== *)
(** * Extended attributes

    [crates/metadata/src/xattr.rs]: the length-prefixed encoding of an
    attribute list, its storage, and the in-memory list operations. *)

From S2P Require Import Prelude Types Blockset.
From stdpp Require Import base tactics numbers list gmap strings pretty.
Open Scope Z_scope.

(** [Vec<(String, Vec<u8>)>]. *)
Abbreviation xattr_list := (list (bytes * bytes)).

(** [serialize_xattrs]: lengths are cast to [u32]. *)
Definition enc_xattr (x : bytes * bytes) : bytes :=
  le_bytes 4 (len x.1) ++ x.1 ++ le_bytes 4 (len x.2) ++ x.2.
Definition serialize_xattrs (xs : xattr_list) : bytes := flat_map enc_xattr xs.

(** The [while i < bytes.len()] loop of [deserialize_xattrs], on the bytes that
    are left to read.  Every iteration reads at least eight bytes, so fuel
    [length bs] is enough ([deserialize_xattrs_total] below). *)
Fixpoint deserialize_xattrs_loop (fuel : nat) (bs : bytes) : res MetaError xattr_list :=
  match bs, fuel with
  | [], _ => Ok []
  | _, O => Panic
  | _, S fuel =>
      if decide (len bs < 4) then Err (Corrupted "xattr: truncated at name_len") else
      let name_len := le_decode (take 4 bs) in
      let bs := drop 4 bs in
      if decide (len bs < name_len)
      then Err (Corrupted "xattr: truncated at name bytes") else
      name ← ok_or (from_utf8 (take (Z.to_nat name_len) bs))
               (Corrupted "xattr name not utf-8");
      let bs := drop (Z.to_nat name_len) bs in
      if decide (len bs < 4) then Err (Corrupted "xattr: truncated at value_len") else
      let value_len := le_decode (take 4 bs) in
      let bs := drop 4 bs in
      if decide (len bs < value_len)
      then Err (Corrupted "xattr: truncated at value bytes") else
      let value := take (Z.to_nat value_len) bs in
      rest ← deserialize_xattrs_loop fuel (drop (Z.to_nat value_len) bs);
      Ok ((name, value) :: rest)
  end.

Definition deserialize_xattrs (bs : bytes) : res MetaError xattr_list :=
  deserialize_xattrs_loop (length bs) bs.

Section cas.
Context {B : Blockset}.

Definition intern_xattrs (xs : xattr_list) (io : Io) : Io * Digest224 :=
  push_all (serialize_xattrs xs) io.
Definition load_xattrs (io : Io) (key : Digest224) : res MetaError xattr_list :=
  bs ← ok_or (file_storage_get io key)
         (Corrupted ("missing xattr node " +:+ fmt_digest key));
  deserialize_xattrs bs.
End cas.

(** [set_xattr_entry]: replace the first entry with the name, or push. *)
Fixpoint set_xattr_entry (xs : xattr_list) (name value : bytes) : xattr_list :=
  match xs with
  | [] => [(name, value)]
  | (k, v) :: xs =>
      if decide (k = name) then (k, value) :: xs
      else (k, v) :: set_xattr_entry xs name value
  end.

(** [get_xattr_entry]. *)
Definition get_xattr_entry (xs : xattr_list) (name : bytes) : option bytes :=
  snd <$> (snd <$> list_find (λ x, x.1 = name) xs).

(** [list_xattr_names]. *)
Definition list_xattr_names (xs : xattr_list) : list bytes := xs.*1.

(** [remove_xattr_entry]: the remaining list and whether it shrank. *)
Definition remove_xattr_entry (xs : xattr_list) (name : bytes) : xattr_list * bool :=
  let xs' := filter (λ x, x.1 ≠ name) xs in
  (xs', bool_decide (length xs' < length xs)%nat).

(* ------------------------------------------------------------------------ *)
(** ** Properties *)

(** A [String] name and lengths that fit the [u32] prefixes. *)
Definition wf_xattr (x : bytes * bytes) : Prop :=
  utf8_valid x.1 = true ∧ len x.1 < 2 ^ 32 ∧ len x.2 < 2 ^ 32.

Lemma to_nat_len bs : Z.to_nat (len bs) = length bs.
Proof. unfold len. lia. Qed.

Lemma deserialize_xattrs_loop_ok fuel xs :
  Forall wf_xattr xs → (length (serialize_xattrs xs) ≤ fuel)%nat →
  deserialize_xattrs_loop fuel (serialize_xattrs xs) = Ok xs.
Proof.
  intros Hxs. revert fuel. induction Hxs as [|[n v] xs (Hu & Hn & Hv) _ IH]; intros fuel Hf.
  { by destruct fuel. }
  assert (serialize_xattrs ((n, v) :: xs) =
    le_bytes 4 (len n) ++ n ++ le_bytes 4 (len v) ++ v ++ serialize_xattrs xs) as E.
  { cbn. unfold enc_xattr. cbn. by rewrite <-!app_assoc. }
  rewrite E in Hf |- *. clear E. rewrite !length_app, !length_le_bytes in Hf.
  destruct fuel as [|fuel]; [lia|].
  cbn [deserialize_xattrs_loop]. destruct (le_bytes 4 (len n) ++ _) eqn:E0.
  { apply (f_equal length) in E0. rewrite length_app, length_le_bytes in E0. done. }
  rewrite <-E0. clear E0 b l.
  pose proof (len_nonneg n). pose proof (len_nonneg v). pose proof (len_nonneg (serialize_xattrs xs)).
  rewrite take_le, drop_le, le_u32 by (split; cbn in *; lia).
  rewrite !len_app, !len_le_bytes.
  rewrite decide_False by lia. rewrite decide_False by lia.
  rewrite to_nat_len, take_app_length, drop_app_length, from_utf8_valid by done. cbn [ok_or mbind res_bind].
  rewrite !len_app, !len_le_bytes. rewrite decide_False by lia.
  rewrite take_le, drop_le, le_u32 by (split; cbn in *; lia).
  rewrite len_app. rewrite decide_False by lia.
  rewrite to_nat_len, take_app_length, drop_app_length.
  rewrite IH by lia. done.
Qed.

Lemma deserialize_serialize_xattrs xs :
  Forall wf_xattr xs → deserialize_xattrs (serialize_xattrs xs) = Ok xs.
Proof. intros H. by apply deserialize_xattrs_loop_ok. Qed.

(** On any input the loop ends with a value or a [Corrupted] error. *)
Lemma deserialize_xattrs_loop_total fuel bs :
  (length bs ≤ fuel)%nat →
  (∃ xs, deserialize_xattrs_loop fuel bs = Ok xs) ∨
  (∃ msg, deserialize_xattrs_loop fuel bs = Err (Corrupted msg)).
Proof.
  revert bs. induction fuel as [|fuel IH]; intros bs Hf.
  { destruct bs; [left; by eexists|cbn in Hf; lia]. }
  destruct bs as [|b bs]; [left; by eexists|].
  cbn [deserialize_xattrs_loop]. set (bs0 := b :: bs) in *.
  case_decide as H0; [right; eauto|]. cbv zeta. case_decide; [right; eauto|].
  destruct (from_utf8 _) as [n|]; cbn [ok_or mbind res_bind]; [|right; eauto].
  case_decide as H1; [right; eauto|]. case_decide; [right; eauto|].
  match goal with |- context [deserialize_xattrs_loop fuel ?r] =>
    destruct (IH r) as [[xs ->]|[msg ->]]; [|left|right]; cbn; eauto end.
  unfold len in *. rewrite !length_drop in *. cbn in *. lia.
Qed.

Lemma get_set_xattr_entry xs n v : get_xattr_entry (set_xattr_entry xs n v) n = Some v.
Proof.
  unfold get_xattr_entry.
  induction xs as [|[k w] xs IH]; cbn; [by rewrite decide_True|].
  case_decide as H; cbn; [by rewrite decide_True|].
  rewrite decide_False by done. by destruct (list_find _ (set_xattr_entry xs n v)) as [[]|].
Qed.

Lemma get_set_xattr_entry_ne xs n n' v :
  n ≠ n' → get_xattr_entry (set_xattr_entry xs n v) n' = get_xattr_entry xs n'.
Proof.
  intros Hne. unfold get_xattr_entry.
  induction xs as [|[k w] xs IH]; cbn; [by rewrite decide_False|].
  case_decide as H; cbn.
  - subst k. by rewrite !(decide_False (P := n = n')).
  - destruct (decide (k = n')); [done|].
    by destruct (list_find _ (set_xattr_entry xs n v)) as [[]|],
      (list_find _ xs) as [[]|].
Qed.

Lemma get_xattr_entry_elem xs n v :
  NoDup xs.*1 → get_xattr_entry xs n = Some v ↔ (n, v) ∈ xs.
Proof.
  unfold get_xattr_entry. intros Hnd.
  destruct (list_find (λ x, x.1 = n) xs) as [[i [k w]]|] eqn:E; cbn.
  - apply list_find_Some in E as (Hi & Hk & _). cbn in Hk. subst k.
    split; [intros [= ->]; by eapply list_elem_of_lookup_2|].
    intros Hin. apply list_elem_of_lookup in Hin as [j Hj].
    assert (i = j) as ->.
    { eapply (NoDup_lookup xs.*1 i j n); [done|..]; rewrite list_lookup_fmap.
      - by rewrite Hi. - by rewrite Hj. }
    congruence.
  - apply list_find_None in E. split; [done|]. intros Hin.
    rewrite Forall_forall in E. by destruct (E _ Hin).
Qed.

Lemma set_xattr_entry_names xs n v :
  (set_xattr_entry xs n v).*1 = if decide (n ∈ xs.*1) then xs.*1 else xs.*1 ++ [n].
Proof.
  induction xs as [|[k w] xs IH]; cbn.
  { rewrite decide_False; [done|]. by intros ?%elem_of_nil. }
  destruct (decide (k = n)) as [H|H]; cbn.
  - subst k. rewrite decide_True; [done|left].
  - rewrite IH. destruct (decide (n ∈ xs.*1)).
    + rewrite decide_True; [done|by right].
    + rewrite decide_False; [done|]. by intros [?|?]%elem_of_cons.
Qed.

Lemma set_xattr_entry_NoDup xs n v :
  NoDup xs.*1 → NoDup (set_xattr_entry xs n v).*1.
Proof.
  intros H. rewrite set_xattr_entry_names. case_decide; [done|].
  apply NoDup_app. split_and!; [done| |apply NoDup_singleton].
  by intros x Hx ->%list_elem_of_singleton.
Qed.

Lemma set_xattr_entry_wf xs n v :
  Forall wf_xattr xs → wf_xattr (n, v) → Forall wf_xattr (set_xattr_entry xs n v).
Proof.
  intros Hxs Hn. induction Hxs as [|[k w] xs Hk Hxs IH]; cbn; [by constructor|].
  case_decide; subst; constructor; auto.
Qed.

Lemma remove_xattr_entry_spec xs n :
  NoDup xs.*1 →
  (∀ n' v, (n', v) ∈ (remove_xattr_entry xs n).1 ↔ (n', v) ∈ xs ∧ n' ≠ n) ∧
  NoDup (remove_xattr_entry xs n).1.*1 ∧
  ((remove_xattr_entry xs n).2 = true ↔ n ∈ xs.*1).
Proof.
  intros Hnd. unfold remove_xattr_entry; cbn. split_and!.
  - intros n' v. rewrite list_elem_of_filter. cbn. tauto.
  - induction xs as [|[k w] xs IH]; [constructor|].
    cbn in Hnd. apply NoDup_cons in Hnd as [Hk Hnd]. rewrite filter_cons. cbn.
    case_decide; cbn; [|by apply IH]. apply NoDup_cons. split; [|by apply IH].
    intros ([? ?] & -> & Hin%list_elem_of_filter)%list_elem_of_fmap.
    apply Hk. apply list_elem_of_fmap. eexists; split; [|apply Hin]. done.
  - rewrite bool_decide_eq_true. clear Hnd. induction xs as [|[k w] xs IH].
    { cbn. split; [lia|by intros ?%elem_of_nil]. }
    rewrite filter_cons, fmap_cons, elem_of_cons. cbn [fst].
    pose proof (length_filter (λ x : bytes * bytes, x.1 ≠ n) xs).
    destruct (decide (k ≠ n)); cbn [length].
    + rewrite <-Nat.succ_lt_mono, IH. split; [by right|]. by intros [->|?].
    + split; [|lia]. left. symmetry. by apply dec_stable.
Qed.
