(* ===== verification/Directory.v ===== *)
(** * Directory entry lists

    [crates/metadata/src/directory.rs]: a directory is one blob holding its
    entries, keyed by the digest of the entry name. *)

From S2P Require Import Prelude Types Blockset.
From stdpp Require Import base tactics numbers list gmap strings pretty.
Open Scope Z_scope.

(** [struct EntryRecord]. *)
Record EntryRecord := mkEntry {
  er_key : Digest224;
  er_ino : Z;
  er_name : bytes
}.

(** One entry of [serialize_entry_list]. *)
Definition enc_entry (e : EntryRecord) : bytes :=
  digest_bytes (er_key e) ++ le_bytes 8 (er_ino e) ++
  le_bytes 4 (len (er_name e)) ++ er_name e.

(** [serialize_entry_list]: the count as [u32], then the values in key order. *)
Definition serialize_entry_list (entries : gmap Digest224 EntryRecord) : bytes :=
  le_bytes 4 (Z.of_nat (size entries)) ++ flat_map enc_entry (btree_iter entries).*2.

(** The [for _ in 0..count] loop of [deserialize_entry_list], on the bytes that
    are left to read. *)
Fixpoint deserialize_entries (count : nat) (bs : bytes)
    (map : gmap Digest224 EntryRecord) : res MetaError (gmap Digest224 EntryRecord) :=
  match count with
  | O => Ok map
  | S count =>
      if decide (len bs < 28) then Err (Corrupted "entry list truncated at key") else
      let key := parse_digest224 (take 28 bs) in
      let bs := drop 28 bs in
      if decide (len bs < 8) then Err (Corrupted "entry list truncated at ino") else
      let ino := le_decode (take 8 bs) in
      let bs := drop 8 bs in
      if decide (len bs < 4) then Err (Corrupted "entry list truncated at name_len") else
      let name_len := le_decode (take 4 bs) in
      let bs := drop 4 bs in
      if decide (len bs < name_len)
      then Err (Corrupted "entry list truncated at name bytes") else
      name ← ok_or (from_utf8 (take (Z.to_nat name_len) bs))
               (Corrupted "entry name not utf-8");
      deserialize_entries count (drop (Z.to_nat name_len) bs)
        (<[key := mkEntry key ino name]> map)
  end.

(** [deserialize_entry_list]; an empty blob is an empty directory. *)
Definition deserialize_entry_list (bs : bytes)
    : res MetaError (gmap Digest224 EntryRecord) :=
  if decide (bs = []) then Ok ∅
  else if decide (len bs < 4)
  then Err (Corrupted ("entry list too short: " +:+ pretty (len bs) +:+ " bytes"))
  else deserialize_entries (Z.to_nat (le_decode (take 4 bs))) (drop 4 bs) ∅.

Definition dot : bytes := str ".".
Definition dotdot : bytes := str "..".

Section ops.
Context {B : Blockset}.

(** A storage operation on [Io] as a method that cannot fail. *)
Definition io_do {E A} (f : Io → Io * A) : M Io E A :=
  λ io, let '(io', a) := f io in (io', Ok a).

(** [entry_key]: storing the name yields its key. *)
Definition entry_key (name : bytes) (io : Io) : Io * Digest224 := push_all name io.

Definition intern_entry_list (entries : gmap Digest224 EntryRecord) (io : Io)
    : Io * Digest224 := push_all (serialize_entry_list entries) io.

Definition load_entry_list (io : Io) (d : Digest224)
    : res MetaError (gmap Digest224 EntryRecord) :=
  bs ← ok_or (file_storage_get io d)
         (Corrupted ("missing dir entry list " +:+ fmt_digest d));
  deserialize_entry_list bs.

(** [create_dir_entries(storage, self_ino, parent_ino)]. *)
Definition create_dir_entries (self_ino parent_ino : Z) (io : Io) : Io * Digest224 :=
  let '(io, dot_key) := entry_key dot io in
  let '(io, dotdot_key) := entry_key dotdot io in
  let entries :=
    <[dotdot_key := mkEntry dotdot_key parent_ino dotdot]>
      (<[dot_key := mkEntry dot_key self_ino dot]> ∅) in
  intern_entry_list entries io.

(** [add_dir_entry(io, dir_digest, name, ino)]. *)
Definition add_dir_entry (d : Digest224) (name : bytes) (ino : Z)
    : M Io MetaError Digest224 :=
  if decide (name = dot ∨ name = dotdot) then throw (InvalidName name) else
  io ← gets id;
  entries ← lift (load_entry_list io d);
  key ← io_do (entry_key name);
  match entries !! key with
  | Some _ => throw (AlreadyExists ino)
  | None => io_do (intern_entry_list (<[key := mkEntry key ino name]> entries))
  end.

(** [remove_dir_entry(io, dir_digest, name)]. *)
Definition remove_dir_entry (d : Digest224) (name : bytes) : M Io MetaError Digest224 :=
  if decide (name = dot ∨ name = dotdot) then throw (InvalidName name) else
  io ← gets id;
  entries ← lift (load_entry_list io d);
  key ← io_do (entry_key name);
  match entries !! key with
  | None => throw (NotFound 0)
  | Some _ => io_do (intern_entry_list (delete key entries))
  end.

(** [lookup_dir_entry(io, dir_digest, name)]: also stores the name. *)
Definition lookup_dir_entry (d : Digest224) (name : bytes) : M Io MetaError Z :=
  io ← gets id;
  entries ← lift (load_entry_list io d);
  key ← io_do (entry_key name);
  lift (ok_or (er_ino <$> entries !! key) (NotFound 0)).

(** [list_dir_entries(io, dir_digest)]. *)
Definition list_dir_entries (io : Io) (d : Digest224) : res MetaError (list DirEntry) :=
  entries ← load_entry_list io d;
  Ok ((λ r, mkDirEntry (er_name r) (er_ino r)) <$> (btree_iter entries).*2).
End ops.

(* ------------------------------------------------------------------------ *)
(** ** The encoding *)

Definition wf_entry (e : EntryRecord) : Prop :=
  wf_digest (er_key e) ∧ is_u64 (er_ino e) ∧
  utf8_valid (er_name e) = true ∧ len (er_name e) < 2 ^ 32.

Lemma length_digest_bytes_Z d : wf_digest d → len (digest_bytes d) = 28.
Proof. intros H. unfold len. by rewrite length_digest_bytes. Qed.

Lemma deserialize_entries_ok es map :
  Forall wf_entry es →
  deserialize_entries (length es) (flat_map enc_entry es) map =
  Ok (foldl (λ m e, <[er_key e := e]> m) map es).
Proof.
  intros Hes. revert map. induction Hes as [|[k i n] es (Hk & Hi & Hu & Hn) _ IH]; intros map.
  { done. }
  assert (flat_map enc_entry (mkEntry k i n :: es) =
    digest_bytes k ++ le_bytes 8 i ++ le_bytes 4 (len n) ++ n ++ flat_map enc_entry es) as ->.
  { cbn. unfold enc_entry. cbn. by rewrite <-!app_assoc. }
  cbn [length deserialize_entries er_key er_ino er_name foldl] in *.
  pose proof (len_nonneg n). pose proof (len_nonneg (flat_map enc_entry es)).
  rewrite !len_app, !len_le_bytes, length_digest_bytes_Z by done.
  rewrite decide_False by lia.
  rewrite take_app_length', drop_app_length' by (by rewrite length_digest_bytes).
  rewrite parse_digest_bytes' by done.
  rewrite !len_app, !len_le_bytes. rewrite decide_False by lia.
  rewrite take_le, drop_le, le_u64 by done.
  rewrite !len_app, !len_le_bytes. rewrite decide_False by lia.
  rewrite take_le, drop_le, le_u32 by (split; lia).
  rewrite len_app. rewrite decide_False by lia.
  replace (Z.to_nat (len n)) with (length n) by (unfold len; lia).
  rewrite take_app_length, drop_app_length, from_utf8_valid by done.
  cbn [ok_or mbind res_bind]. apply IH.
Qed.

(** A table of entries stored under their own keys. *)
Definition wf_entries (m : gmap Digest224 EntryRecord) : Prop :=
  map_Forall (λ k e, er_key e = k ∧ wf_entry e) m ∧ Z.of_nat (size m) < 2 ^ 32.

Lemma foldl_insert_keys (l : list (Digest224 * EntryRecord)) :
  Forall (λ p, er_key p.2 = p.1) l →
  foldl (λ m e, <[er_key e := e]> m) (∅ : gmap Digest224 EntryRecord) l.*2 = insert_all l.
Proof.
  unfold insert_all. generalize (∅ : gmap Digest224 EntryRecord) as m.
  intros m Hl. revert m. induction Hl as [|[k e] l Hk _ IH]; intros m; [done|].
  cbn in *. subst k. apply IH.
Qed.

Lemma deserialize_serialize_entry_list m :
  wf_entries m → deserialize_entry_list (serialize_entry_list m) = Ok m.
Proof.
  intros [Hm Hsz]. unfold deserialize_entry_list, serialize_entry_list.
  rewrite decide_False.
  2:{ intros Hnil. apply (f_equal length) in Hnil.
      rewrite length_app, length_le_bytes in Hnil. done. }
  rewrite len_app, len_le_bytes, take_le, drop_le.
  pose proof (len_nonneg (flat_map enc_entry (btree_iter m).*2)).
  rewrite decide_False by lia. rewrite le_u32 by (split; lia). rewrite Nat2Z.id.
  rewrite <-(length_btree_iter m), <-(length_fmap snd (btree_iter m)).
  assert (Forall (λ p, er_key p.2 = p.1 ∧ wf_entry p.2) (btree_iter m)) as Hall.
  { apply Forall_forall. intros [k e] Hin. apply Hm. by apply elem_of_btree_iter. }
  rewrite deserialize_entries_ok.
  - rewrite foldl_insert_keys, insert_all_btree_iter; [done|].
    eapply Forall_impl; [exact Hall|]. by intros ? [].
  - apply Forall_fmap. eapply Forall_impl; [exact Hall|]. by intros ? [].
Qed.

(* ------------------------------------------------------------------------ *)
(** ** Directories as finite maps from names to inode numbers *)

Section refinement.
Context {B : Blockset} {L : BlocksetLaws B}.
Implicit Types (D : gmap bytes Z) (n : bytes).

(** A name is a [&str] whose length fits the [u32] prefix and whose digest
    does not collide. *)
Definition name_ok n : Prop :=
  utf8_valid n = true ∧ len n < 2 ^ 32 ∧ admissible n.

Definition dir_wf D : Prop :=
  map_Forall (λ n i, name_ok n ∧ is_u64 i) D ∧ Z.of_nat (size D) < 2 ^ 32.

Definition entry_pair (p : bytes * Z) : Digest224 * EntryRecord :=
  (digest_of p.1, mkEntry (digest_of p.1) p.2 p.1).
(** The entry table that represents [D], and the blob that stores it. *)
Definition entries_of D : gmap Digest224 EntryRecord :=
  list_to_map (entry_pair <$> map_to_list D).
Definition dir_content D : bytes := serialize_entry_list (entries_of D).
Definition dir_digest D : Digest224 := digest_of (dir_content D).
Definition dir_stored (io : Io) D : Prop :=
  file_storage_get io (dir_digest D) = Some (dir_content D).

Lemma entry_keys_NoDup D : dir_wf D → NoDup (entry_pair <$> map_to_list D).*1.
Proof.
  intros [HD _]. rewrite <-list_fmap_compose.
  apply NoDup_fmap_2_strong; [|apply NoDup_map_to_list].
  intros [n1 i1] [n2 i2] H1 H2 Heq. cbn in Heq.
  apply elem_of_map_to_list in H1, H2.
  destruct (HD _ _ H1) as [(_ & _ & Ha1) _]. destruct (HD _ _ H2) as [(_ & _ & Ha2) _].
  assert (n1 = n2) as -> by (by apply digest_of_inj). congruence.
Qed.

Lemma lookup_entries_of D k e :
  dir_wf D →
  entries_of D !! k = Some e ↔
  ∃ n i, D !! n = Some i ∧ k = digest_of n ∧ e = mkEntry (digest_of n) i n.
Proof.
  intros HD. unfold entries_of.
  rewrite <-elem_of_list_to_map by by apply entry_keys_NoDup.
  rewrite list_elem_of_fmap. split.
  - intros ([n i] & [= -> ->] & Hin%elem_of_map_to_list). eauto.
  - intros (n & i & Hn & -> & ->). exists (n, i). split; [done|].
    by apply elem_of_map_to_list.
Qed.

Lemma entries_of_name D n :
  dir_wf D → admissible n →
  entries_of D !! digest_of n = (λ i, mkEntry (digest_of n) i n) <$> D !! n.
Proof.
  intros HD Hn. apply option_eq. intros e. rewrite lookup_entries_of by done.
  rewrite fmap_Some. split.
  - intros (n' & i & Hn' & Heq & ->). destruct (proj1 HD _ _ Hn') as [(_ & _ & Ha) _].
    assert (n' = n) as -> by (by apply digest_of_inj). eauto.
  - intros (i & Hi & ->). eauto.
Qed.

Lemma size_entries_of D : dir_wf D → size (entries_of D) = size D.
Proof.
  intros HD. unfold entries_of. rewrite map_size_list_to_map by by apply entry_keys_NoDup.
  rewrite length_fmap. apply length_map_to_list.
Qed.

Lemma entries_of_wf D : dir_wf D → wf_entries (entries_of D).
Proof.
  intros HD. split; [|rewrite size_entries_of by done; apply HD].
  intros k e (n & i & Hn & -> & ->)%lookup_entries_of; [|done].
  destruct (proj1 HD _ _ Hn) as [(? & ? & ?) ?]. split; [done|].
  split_and!; cbn; auto with slicefs.
Qed.

Lemma dir_wf_insert D n i :
  dir_wf D → name_ok n → is_u64 i → Z.of_nat (size D) + 1 < 2 ^ 32 →
  dir_wf (<[n := i]> D).
Proof.
  intros [HD Hs] Hn Hi Hs'. split; [by apply map_Forall_insert_2|].
  destruct (D !! n) eqn:E.
  - rewrite map_size_insert_Some by eauto. done.
  - rewrite map_size_insert_None by done. lia.
Qed.

Lemma dir_wf_delete D n : dir_wf D → dir_wf (delete n D).
Proof.
  intros [HD Hs]. split; [by apply map_Forall_delete|].
  destruct (D !! n) eqn:E.
  - rewrite map_size_delete_Some by eauto. lia.
  - by rewrite delete_id.
Qed.

Lemma entries_of_insert D n i :
  dir_wf D → dir_wf (<[n := i]> D) → name_ok n →
  entries_of (<[n := i]> D) = <[digest_of n := mkEntry (digest_of n) i n]> (entries_of D).
Proof.
  intros HD HD' (_ & _ & Hn). apply map_eq. intros k. apply option_eq. intros e.
  rewrite lookup_entries_of by done. split.
  - intros (m & j & Hm & -> & ->). destruct (decide (n = m)) as [->|Hne].
    + by simplify_map_eq.
    + rewrite lookup_insert_ne in Hm by done.
      destruct (proj1 HD _ _ Hm) as [(_ & _ & Ha) _].
      rewrite lookup_insert_ne by (intros Heq; apply Hne; by apply digest_of_inj).
      rewrite entries_of_name, Hm by done. done.
  - destruct (decide (digest_of n = k)) as [<-|Hne].
    + rewrite lookup_insert_eq. intros [= <-]. exists n, i. by rewrite lookup_insert_eq.
    + rewrite lookup_insert_ne by done.
      intros (m & j & Hm & -> & ->)%lookup_entries_of; [|done].
      exists m, j. rewrite lookup_insert_ne by congruence. done.
Qed.

Lemma entries_of_delete D n :
  dir_wf D → admissible n → entries_of (delete n D) = delete (digest_of n) (entries_of D).
Proof.
  intros HD Hn. pose proof (dir_wf_delete D n HD) as HD'.
  apply map_eq. intros k. apply option_eq. intros e. rewrite lookup_entries_of by done.
  rewrite lookup_delete_Some, lookup_entries_of by done. split.
  - intros (m & j & [Hne Hm]%lookup_delete_Some & -> & ->).
    destruct (proj1 HD _ _ Hm) as [(_ & _ & Ha) _].
    split; [|eauto]. intros Heq. apply Hne. by apply digest_of_inj.
  - intros (Hne & m & j & Hm & -> & ->). exists m, j.
    rewrite lookup_delete_ne by congruence. done.
Qed.

Lemma load_entry_list_content (io : Io) (D : gmap bytes Z) :
  dir_wf D → dir_stored io D → load_entry_list io (dir_digest D) = Ok (entries_of D).
Proof.
  intros HD Hst. unfold load_entry_list. rewrite Hst. cbn.
  apply deserialize_serialize_entry_list. by apply entries_of_wf.
Qed.

Lemma dir_stored_mono (io io' : Io) (D : gmap bytes Z) : io ⊑ᵢ io' → dir_stored io D → dir_stored io' D.
Proof. intros Hle H. by apply Hle. Qed.

Lemma push_all_eta bs (io : Io) : push_all bs io = ((push_all bs io).1, digest_of bs).
Proof. rewrite <-(push_all_digest bs io). by destruct (push_all bs io). Qed.

Lemma io_do_push bs (io : Io) (E : Type) :
  @io_do _ E _ (push_all bs) io = ((push_all bs io).1, Ok (digest_of bs)).
Proof.
  unfold io_do. by rewrite push_all_eta.
Qed.

(** The first two steps of every name operation: read the list, store the name. *)
Lemma name_steps (io : Io) (D : gmap bytes Z) n {A} (k : gmap Digest224 EntryRecord → Digest224 → M Io MetaError A) :
  dir_wf D → dir_stored io D →
  (io0 ← gets id; es ← lift (load_entry_list io0 (dir_digest D));
   key ← io_do (entry_key n); k es key) io
  = k (entries_of D) (digest_of n) (push_all n io).1.
Proof.
  intros HD Hst. rewrite !run_bind. cbn.
  rewrite load_entry_list_content by done. rewrite !run_bind. cbn.
  unfold entry_key. by rewrite run_bind, io_do_push.
Qed.

Lemma add_dir_entry_ok (io : Io) (D : gmap bytes Z) n i :
  healthy io → dir_wf D → dir_stored io D →
  name_ok n → n ≠ dot → n ≠ dotdot → D !! n = None →
  is_u64 i → Z.of_nat (size D) + 1 < 2 ^ 32 →
  admissible (dir_content (<[n := i]> D)) →
  ∃ io', add_dir_entry (dir_digest D) n i io = (io', Ok (dir_digest (<[n := i]> D))) ∧
         healthy io' ∧ io ⊑ᵢ io' ∧ dir_wf (<[n := i]> D) ∧ dir_stored io' (<[n := i]> D).
Proof.
  intros Hio HD Hst Hn Hd1 Hd2 Hfresh Hi Hsz Hadm.
  pose proof (dir_wf_insert D n i HD Hn Hi Hsz) as HD'.
  destruct (push_all_spec n io Hio (proj2 (proj2 Hn))) as (Hio1 & Hle1 & _).
  destruct (push_all_spec _ _ Hio1 Hadm) as (Hio2 & Hle2 & Hst2).
  eexists. split_and!; [|exact Hio2|by etransitivity|done|exact Hst2].
  unfold add_dir_entry. rewrite decide_False by (by intros [?|?]).
  rewrite name_steps, entries_of_name, Hfresh by (done || apply Hn). cbn.
  unfold intern_entry_list. rewrite <-entries_of_insert by done.
  apply io_do_push.
Qed.

Lemma add_dir_entry_exists (io : Io) (D : gmap bytes Z) n i j :
  dir_wf D → dir_stored io D → admissible n → n ≠ dot → n ≠ dotdot → D !! n = Some j →
  add_dir_entry (dir_digest D) n i io = ((push_all n io).1, Err (AlreadyExists i)).
Proof.
  intros HD Hst Hn Hd1 Hd2 Hj. unfold add_dir_entry.
  rewrite decide_False by (by intros [?|?]).
  rewrite name_steps, entries_of_name, Hj by done. done.
Qed.

Lemma add_dir_entry_reserved (io : Io) d n i :
  n = dot ∨ n = dotdot → add_dir_entry d n i io = (io, Err (InvalidName n)).
Proof. intros H. unfold add_dir_entry. by rewrite decide_True. Qed.

Lemma remove_dir_entry_ok (io : Io) (D : gmap bytes Z) n i :
  healthy io → dir_wf D → dir_stored io D →
  admissible n → n ≠ dot → n ≠ dotdot → D !! n = Some i →
  admissible (dir_content (delete n D)) →
  ∃ io', remove_dir_entry (dir_digest D) n io = (io', Ok (dir_digest (delete n D))) ∧
         healthy io' ∧ io ⊑ᵢ io' ∧ dir_wf (delete n D) ∧ dir_stored io' (delete n D).
Proof.
  intros Hio HD Hst Hn Hd1 Hd2 Hi Hadm.
  pose proof (dir_wf_delete D n HD) as HD'.
  destruct (push_all_spec n io Hio Hn) as (Hio1 & Hle1 & _).
  destruct (push_all_spec _ _ Hio1 Hadm) as (Hio2 & Hle2 & Hst2).
  eexists. split_and!; [|exact Hio2|by etransitivity|done|exact Hst2].
  unfold remove_dir_entry. rewrite decide_False by (by intros [?|?]).
  rewrite name_steps, entries_of_name, Hi by done. cbn.
  unfold intern_entry_list. rewrite <-entries_of_delete by done.
  apply io_do_push.
Qed.

Lemma remove_dir_entry_missing (io : Io) (D : gmap bytes Z) n :
  dir_wf D → dir_stored io D → admissible n → n ≠ dot → n ≠ dotdot → D !! n = None →
  remove_dir_entry (dir_digest D) n io = ((push_all n io).1, Err (NotFound 0)).
Proof.
  intros HD Hst Hn Hd1 Hd2 Hi. unfold remove_dir_entry.
  rewrite decide_False by (by intros [?|?]).
  rewrite name_steps, entries_of_name, Hi by done. done.
Qed.

Lemma remove_dir_entry_reserved (io : Io) d n :
  n = dot ∨ n = dotdot → remove_dir_entry d n io = (io, Err (InvalidName n)).
Proof. intros H. unfold remove_dir_entry. by rewrite decide_True. Qed.

Lemma lookup_dir_entry_spec (io : Io) (D : gmap bytes Z) n :
  dir_wf D → dir_stored io D → admissible n →
  lookup_dir_entry (dir_digest D) n io = ((push_all n io).1, ok_or (D !! n) (NotFound 0)).
Proof.
  intros HD Hst Hn. unfold lookup_dir_entry.
  rewrite name_steps, entries_of_name by done.
  by destruct (D !! n).
Qed.

(** The entries of a directory, in the order of the digests of their names. *)
Definition dir_listing (D : gmap bytes Z) : list DirEntry :=
  (λ r, mkDirEntry (er_name r) (er_ino r)) <$> (btree_iter (entries_of D)).*2.

Lemma dir_listing_perm D : dir_wf D → dir_listing D ≡ₚ (λ p, mkDirEntry p.1 p.2) <$> map_to_list D.
Proof.
  intros HD. unfold dir_listing. rewrite btree_iter_perm. unfold entries_of.
  rewrite map_to_list_to_map by by apply entry_keys_NoDup. by rewrite <-!list_fmap_compose.
Qed.

Lemma list_dir_entries_spec (io : Io) (D : gmap bytes Z) :
  dir_wf D → dir_stored io D → list_dir_entries io (dir_digest D) = Ok (dir_listing D).
Proof. intros HD Hst. unfold list_dir_entries. by rewrite load_entry_list_content. Qed.

(** A fresh directory: [.] is itself, [..] its parent. *)
Definition fresh_dir (self parent : Z) : gmap bytes Z :=
  <[dotdot := parent]> {[dot := self]}.

Lemma fresh_dir_wf self parent :
  admissible dot → admissible dotdot → is_u64 self → is_u64 parent →
  dir_wf {[dot := self]} ∧ dir_wf (fresh_dir self parent).
Proof.
  intros H1 H2 Hs Hp.
  assert (dir_wf {[dot := self]}) as Hw.
  { split; [apply map_Forall_singleton|]; [|rewrite map_size_singleton; done].
    split; [|done]. by split_and!. }
  split; [done|]. apply dir_wf_insert; [done|by split_and!|done|].
  rewrite map_size_singleton. done.
Qed.

Lemma create_dir_entries_spec (io : Io) self parent :
  healthy io → admissible dot → admissible dotdot → is_u64 self → is_u64 parent →
  admissible (dir_content (fresh_dir self parent)) →
  ∃ io', create_dir_entries self parent io = (io', dir_digest (fresh_dir self parent)) ∧
         healthy io' ∧ io ⊑ᵢ io' ∧ dir_stored io' (fresh_dir self parent).
Proof.
  intros Hio Hd Hdd Hs Hp Hadm.
  destruct (fresh_dir_wf self parent Hd Hdd Hs Hp) as [Hw1 Hw2].
  assert (<[digest_of dotdot := mkEntry (digest_of dotdot) parent dotdot]>
            (<[digest_of dot := mkEntry (digest_of dot) self dot]> ∅)
          = entries_of (fresh_dir self parent)) as Heq.
  { unfold fresh_dir. rewrite entries_of_insert by (done || by split_and!).
    unfold entries_of. by rewrite map_to_list_singleton. }
  unfold create_dir_entries, entry_key, intern_entry_list.
  destruct (push_all_spec dot io Hio Hd) as (Hio1 & Hle1 & _).
  rewrite (push_all_eta dot io).
  destruct (push_all_spec dotdot _ Hio1 Hdd) as (Hio2 & Hle2 & _).
  rewrite (push_all_eta dotdot _), Heq.
  destruct (push_all_spec _ _ Hio2 Hadm) as (Hio3 & Hle3 & Hst).
  eexists. split_and!; [apply push_all_eta|done| |done].
  do 2 (etransitivity; [eassumption|]). done.
Qed.
End refinement.

(* ------------------------------------------------------------------------ *)
(** ** Inode numbers as inline digests *)

Section inline.
(** [blockset::from_bytes] and [to_data]: short values are kept in a 256-bit digest itself. *)
Context (from_bytes : bytes → option (list Z)) (to_data : list Z → bytes).

Definition ino_to_digest256 (ino : Z) : res Empty_set (list Z) :=
  match from_bytes (le_bytes 8 ino) with Some d => Ok d | None => Panic end.
(** [arr[..len].copy_from_slice(&bytes[..len])] into eight zero bytes. *)
Definition digest256_to_ino (d : list Z) : Z :=
  let bs := take 8 (to_data d) in le_decode (bs ++ replicate (8 - length bs) Byte.x00).

(** Eight bytes fit inline and are read back. *)
Lemma digest256_ino_roundtrip ino :
  (∀ bs, length bs = 8%nat → ∃ d, from_bytes bs = Some d ∧ to_data d = bs) → is_u64 ino →
  ∃ d, ino_to_digest256 ino = Ok d ∧ digest256_to_ino d = ino.
Proof.
  intros Hinline Hino. destruct (Hinline (le_bytes 8 ino)) as (d & Hd & Ht); [apply length_le_bytes|].
  exists d. unfold ino_to_digest256, digest256_to_ino. rewrite Hd, Ht. split; [done|].
  rewrite take_ge by (by rewrite length_le_bytes). rewrite length_le_bytes, app_nil_r. by apply le_u64.
Qed.
End inline.
