(* ===== verification/Segment.v ===== *)
(** * Segment files

    [crates/metadata/src/segment/]: the append-only log of root updates and
    snapshot records ([mod.rs]), its writer and crash-tolerant reader, the
    replay of a directory of segments and the compaction of one segment.

    A file is the byte string it holds, a directory a finite map from file names
    to files.  The operating system accepts every write; a crash is a
    truncation of what was written ([read_truncated] below). *)

From S2P Require Import Prelude Types Text.
From stdpp Require Import base tactics numbers option list gmap strings.
Open Scope Z_scope.

(* ------------------------------------------------------------------------ *)
(** ** The format *)

Definition SEGMENT_MAGIC : bytes := [Byte.x53; Byte.x4c; Byte.x53; Byte.x47].
Definition SEGMENT_VERSION : Z := 1.

(** [enum RecordType] with its discriminants. *)
Inductive RecordType := RtRootUpdate | RtSnapshotRecord | RtEofMarker.
Definition record_type_u8 (t : RecordType) : byte :=
  match t with
  | RtRootUpdate => Byte.x02
  | RtSnapshotRecord => Byte.x03
  | RtEofMarker => Byte.xff
  end.
Definition record_type_from_u8 (v : byte) : option RecordType :=
  match v with
  | Byte.x01 => None
  | Byte.x02 => Some RtRootUpdate
  | Byte.x03 => Some RtSnapshotRecord
  | Byte.xff => Some RtEofMarker
  | _ => None
  end.

(** [struct SegmentHeader]. *)
Record SegmentHeader := mkSegHeader {
  sh_magic : bytes;
  sh_version : Z;
  sh_segment_id : Z
}.
Definition segment_header_new (segment_id : Z) : SegmentHeader :=
  mkSegHeader SEGMENT_MAGIC SEGMENT_VERSION segment_id.
Definition segment_header_to_bytes (h : SegmentHeader) : bytes :=
  sh_magic h ++ le_bytes 4 (sh_version h) ++ le_bytes 8 (sh_segment_id h).
(** [SegmentHeader::from_bytes] on a 16-byte buffer. *)
Definition segment_header_from_bytes (buf : bytes) : option SegmentHeader :=
  let magic := take 4 buf in
  if decide (magic ≠ SEGMENT_MAGIC) then None else
  let version := le_decode (take 4 (drop 4 buf)) in
  if decide (version ≠ SEGMENT_VERSION) then None else
  Some (mkSegHeader magic version (le_decode (take 8 (drop 8 buf)))).

(** [enum SegmentEntry]. *)
Inductive SegmentEntry :=
  | RootUpdate (root : Digest224)
  | SnapshotRecord (version : Z) (root : Digest224) (created_at : Z) (name : option bytes).

#[export] Instance SegmentEntry_eq_dec : EqDecision SegmentEntry.
Proof. solve_decision. Defined.

Definition entry_record_type (e : SegmentEntry) : RecordType :=
  match e with
  | RootUpdate _ => RtRootUpdate
  | SnapshotRecord _ _ _ _ => RtSnapshotRecord
  end.

(** [payload_bytes]: an absent name is written like an empty one. *)
Definition payload_bytes (e : SegmentEntry) : bytes :=
  match e with
  | RootUpdate root => digest_bytes root
  | SnapshotRecord version root created_at name =>
      let name_bytes := default [] name in
      le_bytes 8 version ++ digest_bytes root ++ le_bytes 8 created_at ++
      le_bytes 4 (len name_bytes) ++ name_bytes
  end.

Definition parse_root_update (payload : bytes) : option SegmentEntry :=
  if decide (len payload < 28) then None
  else Some (RootUpdate (parse_digest224 (take 28 payload))).

Definition parse_snapshot_record (payload : bytes) : option SegmentEntry :=
  if decide (len payload < 48) then None else
  let version := le_decode (take 8 payload) in
  let root := parse_digest224 (take 28 (drop 8 payload)) in
  let created_at := le_decode (take 8 (drop 36 payload)) in
  let name_len := le_decode (take 4 (drop 44 payload)) in
  if decide (len payload < 48 + name_len) then None else
  if decide (name_len = 0) then Some (SnapshotRecord version root created_at None)
  else name ← from_utf8 (take (Z.to_nat name_len) (drop 48 payload));
       Some (SnapshotRecord version root created_at (Some name)).

(** [as_snapshot_entry]. *)
Definition as_snapshot_entry (e : SegmentEntry) : option SnapshotEntry :=
  match e with
  | SnapshotRecord version root created_at name =>
      Some (mkSnapshot version name root created_at)
  | RootUpdate _ => None
  end.

(* ------------------------------------------------------------------------ *)
(** ** Writer *)

(** The bytes [write_entry] appends. *)
Definition frame (e : SegmentEntry) : bytes :=
  let payload := payload_bytes e in
  record_type_u8 (entry_record_type e) :: le_bytes 4 (len payload) ++ payload.

(** [struct SegmentWriter]: what has been synced, what is still buffered in the
    [BufWriter] or the page cache, and the outcomes of the coming [sync_all]
    calls ([true] is an I/O error; past the end every call succeeds). *)
Record SegmentWriter := mkSegWriter {
  sw_synced : bytes;
  sw_pending : bytes;
  sw_faults : list bool
}.

Definition segment_writer_new (segment_id : Z) (faults : list bool) : SegmentWriter :=
  mkSegWriter [] (segment_header_to_bytes (segment_header_new segment_id)) faults.
Definition write_entry (e : SegmentEntry) (w : SegmentWriter) : SegmentWriter :=
  mkSegWriter (sw_synced w) (sw_pending w ++ frame e) (sw_faults w).
(** [sync]: the flag is [Result::is_ok]; a failed sync loses nothing. *)
Definition segment_sync (w : SegmentWriter) : SegmentWriter * bool :=
  match sw_faults w with
  | true :: fs => (mkSegWriter (sw_synced w) (sw_pending w) fs, false)
  | fs => (mkSegWriter (sw_synced w ++ sw_pending w) [] (tail fs), true)
  end.
(** [close]: the end marker, then [sync]. *)
Definition eof_marker : bytes := record_type_u8 RtEofMarker :: le_bytes 4 0.
Definition segment_close (w : SegmentWriter) : SegmentWriter * bool :=
  segment_sync (mkSegWriter (sw_synced w) (sw_pending w ++ eof_marker) (sw_faults w)).

(* ------------------------------------------------------------------------ *)
(** ** Reader *)

Inductive IoError :=
  | UnexpectedEof
  | InvalidData (msg : string)
  | OtherIo (msg : string).

(** [read_exact_or_none(reader, n)]: the bytes read and the rest of the file. *)
Definition read_exact (n : Z) (bs : bytes) : option (bytes * bytes) :=
  if decide (len bs < n) then None
  else Some (take (Z.to_nat n) bs, drop (Z.to_nat n) bs).

(** [SegmentReader::open]: the rest of the file after a valid header. *)
Definition segment_open (file : bytes) : res IoError bytes :=
  '(header_buf, rest) ← ok_or (read_exact 16 file) UnexpectedEof;
  _ ← ok_or (segment_header_from_bytes header_buf) (InvalidData "invalid segment header");
  Ok rest.

(** [Iterator::next] for [SegmentReader].  Every turn of the loop consumes at
    least five bytes, so [length bs] turns are enough ([reader_next_fuel]). *)
Fixpoint reader_next (fuel : nat) (bs : bytes) : option (SegmentEntry * bytes) :=
  match fuel with
  | O => None
  | S fuel =>
      '(type_buf, bs) ← read_exact 1 bs;
      '(payload_len_buf, bs) ← read_exact 4 bs;
      let payload_len := le_decode payload_len_buf in
      let t := default Byte.x00 (head type_buf) in
      if decide (t = Byte.x01) then
        '(_, bs) ← read_exact payload_len bs; reader_next fuel bs
      else
        match record_type_from_u8 t with
        | Some RtEofMarker => None
        | Some RtRootUpdate =>
            '(payload, bs) ← read_exact payload_len bs;
            entry ← parse_root_update payload; Some (entry, bs)
        | Some RtSnapshotRecord =>
            '(payload, bs) ← read_exact payload_len bs;
            entry ← parse_snapshot_record payload; Some (entry, bs)
        | None => '(_, bs) ← read_exact payload_len bs; reader_next fuel bs
        end
  end.

(** [reader.collect()]. *)
Fixpoint reader_collect (fuel : nat) (bs : bytes) : list SegmentEntry :=
  match fuel with
  | O => []
  | S fuel =>
      match reader_next (length bs) bs with
      | None => []
      | Some (e, bs) => e :: reader_collect fuel bs
      end
  end.
Definition reader_entries (bs : bytes) : list SegmentEntry := reader_collect (length bs) bs.

(** Open a file and collect its entries. *)
Definition read_segment (file : bytes) : res IoError (list SegmentEntry) :=
  reader_entries <$> segment_open file.

(* ------------------------------------------------------------------------ *)
(** ** Replay and compaction *)

(** The body of the [for entry in reader] loop. *)
Definition replay_entry (st : option Digest224 * list SnapshotEntry) (e : SegmentEntry)
    : option Digest224 * list SnapshotEntry :=
  match e with
  | RootUpdate root => (Some root, st.2)
  | SnapshotRecord _ _ _ _ =>
      match as_snapshot_entry e with
      | Some s => (st.1, st.2 ++ [s])
      | None => st
      end
  end.

Definition is_segment_name (name : bytes) : bool :=
  starts_with (str "segment-") name && ends_with (str ".seg") name.

(** The segment files of a directory in the order of [seg_paths.sort()]. *)
Definition segment_files (dir : gmap bytes bytes) : list (bytes * bytes) :=
  btree_iter (filter (λ p, is_segment_name p.1 = true) dir).

Fixpoint replay_files (files : list (bytes * bytes))
    (st : option Digest224 * list SnapshotEntry)
    : res IoError (option Digest224 * list SnapshotEntry) :=
  match files with
  | [] => Ok st
  | (_, file) :: files =>
      if decide (len file < 16) then replay_files files st
      else entries ← read_segment file;
           replay_files files (foldl replay_entry st entries)
  end.

(** [load_store_from_segments(segments_dir)]. *)
Definition load_store_from_segments (dir : gmap bytes bytes)
    : res IoError (option Digest224 * list SnapshotEntry) :=
  replay_files (segment_files dir) (None, []).

(** [struct CompactionResult]. *)
Record CompactionResult := mkCompaction { entries_kept : Z; entries_removed : Z }.

(** The bytes of a closed segment that holds [es]. *)
Definition closed_segment (segment_id : Z) (es : list SegmentEntry) : bytes :=
  segment_header_to_bytes (segment_header_new segment_id) ++ flat_map frame es ++ eof_marker.

Definition seg_file_name (w : nat) (id : Z) : bytes :=
  str "segment-" ++ fmt_pad w id ++ str ".seg".

(** [compact_segment]: read everything, write everything to [.tmp], close,
    rename over the final name.  [faults] are the outcomes of the syncs. *)
Definition compact_segment (name : bytes) (output_segment_id : Z) (faults : list bool)
    (dir : gmap bytes bytes) : gmap bytes bytes * res IoError CompactionResult :=
  let out := seg_file_name 3 output_segment_id in
  let tmp := out ++ str ".tmp" in
  match dir !! name with
  | None => (dir, Err (OtherIo "not found"))
  | Some file =>
      match read_segment file with
      | Err e => (dir, Err e)
      | Panic => (dir, Panic)
      | Ok input =>
          let w := segment_writer_new output_segment_id faults in
          let '(w, result) := foldl
            (λ st e, (write_entry e st.1,
                      mkCompaction (entries_kept st.2 + 1) (entries_removed st.2)))
            (w, mkCompaction 0 0) input in
          let '(w, ok) := segment_close w in
          if ok
          then (<[out := sw_synced w]> (delete tmp dir), Ok result)
          else (<[tmp := sw_synced w ++ sw_pending w]> dir, Err (OtherIo "sync_all"))
      end
  end.

(* ------------------------------------------------------------------------ *)
(** ** The reader terminates within its fuel *)

Lemma read_exact_Some n bs a b :
  read_exact n bs = Some (a, b) →
  n ≤ len bs ∧ a = take (Z.to_nat n) bs ∧ b = drop (Z.to_nat n) bs.
Proof. unfold read_exact. case_decide; [done|]. intros [= <- <-]. split_and!; [lia|done|done]. Qed.

Lemma read_exact_app n (a b : bytes) : len a = n → read_exact n (a ++ b) = Some (a, b).
Proof.
  intros <-. unfold read_exact. rewrite len_app. pose proof (len_nonneg b).
  rewrite decide_False by lia. unfold len. rewrite Nat2Z.id.
  by rewrite take_app_length, drop_app_length.
Qed.

Lemma read_exact_None n bs : len bs < n → read_exact n bs = None.
Proof. intros H. unfold read_exact. by rewrite decide_True. Qed.

(** Case analysis on the reads of one turn of the loop. *)
Ltac read_cases :=
  repeat match goal with
  | |- context [read_exact ?n ?bs ≫= _] =>
      let E := fresh "Er" in
      destruct (read_exact n bs) as [[??]|] eqn:E;
      [apply read_exact_Some in E as (? & -> & ->)|]; cbn [mbind option_bind]
  | H : context [read_exact ?n ?bs ≫= _] |- _ =>
      let E := fresh "Er" in
      destruct (read_exact n bs) as [[??]|] eqn:E;
      [apply read_exact_Some in E as (? & -> & ->)|]; cbn [mbind option_bind] in H
  end.

Lemma reader_next_fuel f g bs :
  (length bs ≤ f)%nat → (length bs ≤ g)%nat → reader_next f bs = reader_next g bs.
Proof.
  revert g bs. induction f as [|f IH]; intros [|g] bs Hf Hg; try done.
  - assert (bs = []) as -> by (apply nil_length_inv; lia). done.
  - assert (bs = []) as -> by (apply nil_length_inv; lia). done.
  - cbn [reader_next]. read_cases; try done. unfold len in *.
    repeat (case_decide || case_match); read_cases; try done;
      apply IH; rewrite !length_drop in *; unfold len in *; lia.
Qed.

Lemma reader_next_consumes f bs e bs' :
  reader_next f bs = Some (e, bs') → (length bs' + 5 ≤ length bs)%nat.
Proof.
  revert bs. induction f as [|f IH]; intros bs; [done|]. cbn [reader_next]. intros H.
  read_cases; try done. unfold len in *.
  case_decide; [|destruct (record_type_from_u8 _) as [[]|]]; read_cases; try done.
  all: try (by repeat (case_decide || case_match)).
  all: try (apply IH in H; rewrite !length_drop in *; lia).
  all: match type of H with context [?p ≫= _] => destruct p end; [|done].
  all: cbn in H; simplify_eq; rewrite !length_drop in *; lia.
Qed.

Lemma reader_collect_fuel f g bs :
  (length bs ≤ f)%nat → (length bs ≤ g)%nat → reader_collect f bs = reader_collect g bs.
Proof.
  revert g bs. induction f as [|f IH]; intros [|g] bs Hf Hg; try done.
  1,2: assert (bs = []) as -> by (apply nil_length_inv; lia); done.
  cbn [reader_collect]. destruct (reader_next _ bs) as [[e bs']|] eqn:E; [|done].
  apply reader_next_consumes in E. f_equal. apply IH; lia.
Qed.

Lemma reader_entries_next bs :
  reader_entries bs = match reader_next (length bs) bs with
                      | None => []
                      | Some (e, bs') => e :: reader_entries bs'
                      end.
Proof.
  unfold reader_entries. destruct (length bs) as [|n] eqn:Hn; [done|].
  cbn [reader_collect]. rewrite Hn.
  destruct (reader_next (S n) bs) as [[e bs']|] eqn:E; [|done].
  apply reader_next_consumes in E. f_equal. apply reader_collect_fuel; lia.
Qed.

(* ------------------------------------------------------------------------ *)
(** ** Writing then reading *)

(** The values the fields can hold; an empty name is written like no name, and
    the payload length must fit its [u32]. *)
Definition wf_name (name : option bytes) : Prop :=
  match name with
  | None => True
  | Some n => n ≠ [] ∧ utf8_valid n = true ∧ 48 + len n < 2 ^ 32
  end.
Definition wf_segentry (e : SegmentEntry) : Prop :=
  match e with
  | RootUpdate root => wf_digest root
  | SnapshotRecord version root created_at name =>
      is_u64 version ∧ wf_digest root ∧ is_u64 created_at ∧ wf_name name
  end.

Lemma len_digest_bytes d : wf_digest d → len (digest_bytes d) = 28.
Proof. intros H. unfold len. by rewrite length_digest_bytes. Qed.

Lemma take_digest d rest : wf_digest d → take 28 (digest_bytes d ++ rest) = digest_bytes d.
Proof. intros H. apply take_app_length'. by rewrite length_digest_bytes. Qed.

Lemma drop_app_plus {A} (a b : list A) n m : length a = n → drop (n + m) (a ++ b) = drop m b.
Proof. intros <-. rewrite drop_app_ge by lia. f_equal. lia. Qed.

Lemma len_payload e : wf_segentry e → 0 ≤ len (payload_bytes e) < 2 ^ 32.
Proof.
  destruct e as [root|version root created_at name]; cbn.
  - intros H. rewrite len_digest_bytes by done. lia.
  - intros (_ & Hd & _ & Hn). rewrite !len_app, !len_le_bytes, len_digest_bytes by done.
    destruct name as [n|]; cbn in *; [|rewrite len_nil; lia].
    pose proof (len_nonneg n). lia.
Qed.

Lemma parse_root_update_payload d :
  wf_digest d → parse_root_update (digest_bytes d) = Some (RootUpdate d).
Proof.
  intros Hd. unfold parse_root_update. rewrite len_digest_bytes by done.
  rewrite decide_False by lia. rewrite take_ge by (rewrite length_digest_bytes; done).
  by rewrite parse_digest_bytes'.
Qed.

Lemma parse_snapshot_payload v d c n :
  wf_segentry (SnapshotRecord v d c n) →
  parse_snapshot_record (payload_bytes (SnapshotRecord v d c n)) = Some (SnapshotRecord v d c n).
Proof.
  intros (Hv & Hd & Hc & Hn). cbn [payload_bytes].
  assert (0 ≤ len (default [] n) < 2 ^ 32 - 48) as Hl.
  { destruct n as [n|]; cbn; [|done]. destruct Hn as (_ & _ & Hn). pose proof (len_nonneg n). lia. }
  set (nb := default [] n) in *. unfold parse_snapshot_record.
  rewrite !len_app, !len_le_bytes, len_digest_bytes by done.
  rewrite decide_False by lia. rewrite take_le, drop_le, take_digest by done.
  change (drop 36) with (@drop byte (8 + (28 + 0))).
  change (drop 44) with (@drop byte (8 + (28 + (8 + 0)))).
  change (drop 48) with (@drop byte (8 + (28 + (8 + (4 + 0))))).
  repeat (rewrite drop_app_plus by (rewrite ?length_le_bytes, ?length_digest_bytes by done; done)).
  rewrite !drop_0, !take_le, !le_u64, le_u32, parse_digest_bytes' by (done || (unfold is_u32; lia)).
  rewrite decide_False by lia. subst nb. destruct n as [n|]; cbn [default from_option] in *.
  - destruct Hn as (Hne & Hu & _).
    rewrite decide_False by (intros H0; apply Hne; by apply len_0_nil).
    rewrite take_ge by (unfold len; lia). rewrite from_utf8_valid by done. done.
  - by rewrite decide_True.
Qed.

Lemma reader_next_frame f e rest :
  wf_segentry e → reader_next (S f) (frame e ++ rest) = Some (e, rest).
Proof.
  intros He. pose proof (len_payload e He) as Hl. unfold frame. cbn [reader_next].
  change (_ :: ?l) with ([record_type_u8 (entry_record_type e)] ++ l).
  rewrite <-!app_assoc, read_exact_app by done. cbn [mbind option_bind].
  rewrite read_exact_app by apply len_le_bytes. cbn [mbind option_bind head default from_option].
  rewrite le_u32 by done. cbn [app head].
  destruct e as [root|v d c n]; cbn [entry_record_type record_type_u8 record_type_from_u8 from_option].
  all: rewrite decide_False by done; rewrite read_exact_app by done; cbn [mbind option_bind].
  - cbn [payload_bytes]. by rewrite parse_root_update_payload.
  - by rewrite parse_snapshot_payload.
Qed.

Lemma length_frame e : length (frame e) = (5 + length (payload_bytes e))%nat.
Proof. unfold frame. cbn [length]. rewrite length_app, length_le_bytes. lia. Qed.

Lemma reader_entries_frame e rest :
  wf_segentry e → reader_entries (frame e ++ rest) = e :: reader_entries rest.
Proof.
  intros He. rewrite reader_entries_next, length_app, length_frame.
  cbn [Nat.add]. by rewrite reader_next_frame.
Qed.

Lemma reader_entries_frames es rest :
  Forall wf_segentry es → reader_entries (flat_map frame es ++ rest) = es ++ reader_entries rest.
Proof.
  induction 1 as [|e es He _ IH]; [done|]. cbn [flat_map].
  rewrite <-app_assoc, reader_entries_frame, IH by done. done.
Qed.

Lemma reader_entries_nil : reader_entries [] = [].
Proof. done. Qed.

Lemma reader_entries_eof : reader_entries eof_marker = [].
Proof. vm_compute. done. Qed.

(* ------------------------------------------------------------------------ *)
(** ** Truncated files *)

Lemma reader_next_short f e k :
  wf_segentry e → (k < length (frame e))%nat → reader_next f (take k (frame e)) = None.
Proof.
  intros He Hk. pose proof (len_payload e He) as Hl. rewrite length_frame in Hk.
  destruct f as [|f]; [done|]. unfold frame. cbn [reader_next].
  destruct k as [|k]; [done|]. cbn [take].
  change (_ :: ?l) with ([record_type_u8 (entry_record_type e)] ++ l).
  rewrite read_exact_app by done. cbn [mbind option_bind].
  destruct (decide (k < 4)%nat) as [Hk4|Hk4].
  { rewrite read_exact_None; [done|]. unfold len. rewrite length_take. lia. }
  rewrite take_app_ge, length_le_bytes by (rewrite length_le_bytes; lia).
  rewrite read_exact_app by apply len_le_bytes. cbn [mbind option_bind head app default from_option].
  rewrite le_u32 by done. rewrite read_exact_None.
  - destruct e; cbn; by repeat case_decide.
  - unfold len. rewrite length_take. lia.
Qed.

(** Reading a truncated log yields the entries that were written completely,
    and only those. *)
Lemma read_truncated k es :
  Forall wf_segentry es →
  ∃ es', reader_entries (take k (flat_map frame es)) = es' ∧ es' `prefix_of` es ∧
         ∀ es'', es'' `prefix_of` es → (length (flat_map frame es'') ≤ k)%nat →
                 es'' `prefix_of` es'.
Proof.
  intros Hes. revert k. induction Hes as [|e es He _ IH]; intros k; cbn [flat_map].
  - rewrite take_nil, reader_entries_nil. exists []. by split_and!.
  - destruct (decide (k < length (frame e))%nat) as [Hk|Hk].
    + rewrite take_app_le by lia. exists [].
      rewrite reader_entries_next, reader_next_short by done.
      split_and!; [done|apply prefix_nil|].
      intros [|e' es''] Hp Hl; [done|]. apply prefix_cons_inv_1 in Hp as ->.
      cbn [flat_map] in Hl. rewrite length_app in Hl. lia.
    + rewrite take_app_ge, reader_entries_frame by (done || lia).
      destruct (IH (k - length (frame e))%nat) as (es' & -> & Hp & Hmax).
      exists (e :: es'). split_and!; [done|by apply prefix_cons|].
      intros [|e' es''] Hp' Hl; [apply prefix_nil|].
      pose proof (prefix_cons_inv_1 _ _ _ _ Hp') as ->.
      apply prefix_cons_inv_2 in Hp'. cbn [flat_map] in Hl. rewrite length_app in Hl.
      apply prefix_cons, Hmax; [done|lia].
Qed.

Lemma length_header id : length (segment_header_to_bytes (segment_header_new id)) = 16%nat.
Proof.
  unfold segment_header_to_bytes. rewrite !length_app, !length_le_bytes. done.
Qed.

Lemma header_from_to_bytes id rest :
  is_u64 id →
  segment_header_from_bytes (segment_header_to_bytes (segment_header_new id) ++ rest)
  = Some (segment_header_new id).
Proof.
  intros Hid. unfold segment_header_from_bytes, segment_header_to_bytes. cbn [sh_magic sh_version sh_segment_id segment_header_new].
  rewrite <-!app_assoc. rewrite take_app_length', drop_app_length' by done.
  rewrite decide_False by (by intros H; apply H). rewrite take_le, le_u32 by done.
  rewrite decide_False by (by intros H; apply H).
  change (drop 8) with (@drop byte (4 + (4 + 0))).
  rewrite !drop_app_plus by done. rewrite drop_0, take_le, le_u64 by done. done.
Qed.

Lemma segment_open_header id rest :
  is_u64 id →
  segment_open (segment_header_to_bytes (segment_header_new id) ++ rest) = Ok rest.
Proof.
  intros Hid. unfold segment_open.
  rewrite read_exact_app by (unfold len; by rewrite length_header). cbn [ok_or mbind res_bind].
  rewrite <-(app_nil_r (segment_header_to_bytes _)), header_from_to_bytes by done. done.
Qed.

Lemma read_closed_segment id es :
  is_u64 id → Forall wf_segentry es → read_segment (closed_segment id es) = Ok es.
Proof.
  intros Hid Hes. unfold read_segment, closed_segment. rewrite segment_open_header by done.
  cbn. by rewrite reader_entries_frames, reader_entries_eof, app_nil_r.
Qed.

(* ------------------------------------------------------------------------ *)
(** ** What the reader returns can be written again *)

Lemma parse_snapshot_wf p e :
  len p < 2 ^ 32 → parse_snapshot_record p = Some e → wf_segentry e.
Proof.
  intros Hp. unfold parse_snapshot_record. case_decide as Hl; [done|].
  case_decide as Hl'; [done|]. unfold len in *.
  assert (is_u64 (le_decode (take 8 p))) as Hv.
  { apply le_decode_u64. rewrite length_take. lia. }
  assert (wf_digest (parse_digest224 (take 28 (drop 8 p)))) as Hd.
  { apply parse_digest_wf. rewrite length_take, length_drop. lia. }
  assert (is_u64 (le_decode (take 8 (drop 36 p)))) as Hc.
  { apply le_decode_u64. rewrite length_take, length_drop. lia. }
  pose proof (le_decode_range (take 4 (drop 44 p))) as [Hn _].
  set (n := le_decode (take 4 (drop 44 p))) in *.
  case_decide as Hn0; [by intros [= <-]|].
  unfold from_utf8. destruct (utf8_valid _) eqn:Hu; [|done]. cbn. intros [= <-].
  assert (length (take (Z.to_nat n) (drop 48 p)) = Z.to_nat n) as Hln.
  { rewrite length_take, length_drop. lia. }
  split_and!; [done..|].
  split_and!; [intros E; rewrite E in Hln; cbn in Hln; lia|done|unfold len; lia].
Qed.

Lemma reader_next_wf f bs e bs' : reader_next f bs = Some (e, bs') → wf_segentry e.
Proof.
  revert bs. induction f as [|f IH]; intros bs H; [done|]. cbn [reader_next] in H.
  destruct (read_exact 1 bs) as [[tb b1]|]; [|done]. cbn [mbind option_bind] in H.
  destruct (read_exact 4 b1) as [[lb b2]|] eqn:E4; [|done]. cbn [mbind option_bind] in H.
  apply read_exact_Some in E4 as (H4 & -> & ->).
  assert (is_u32 (le_decode (take (Z.to_nat 4) b1))) as Hlen.
  { apply le_decode_u32. unfold len in H4. rewrite length_take. lia. }
  set (n := le_decode _) in *.
  destruct (read_exact n _) as [[p b3]|] eqn:En; cbn [mbind option_bind] in H;
    [|by repeat (case_decide || case_match)].
  apply read_exact_Some in En as (Hn & -> & ->). unfold is_u32 in Hlen.
  case_decide; [by eapply IH|].
  destruct (record_type_from_u8 _) as [[]|]; [| |done|by eapply IH].
  - unfold parse_root_update in H. case_decide as Hd; [done|]. cbn in H. simplify_eq.
    apply parse_digest_wf. unfold len in Hd. rewrite length_take. lia.
  - destruct (parse_snapshot_record _) eqn:E; [|done]. cbn in H. simplify_eq.
    eapply parse_snapshot_wf; [|done]. unfold len in *. rewrite length_take. lia.
Qed.

Lemma reader_collect_wf f bs : Forall wf_segentry (reader_collect f bs).
Proof.
  revert bs. induction f as [|f IH]; intros bs; cbn; [done|].
  destruct (reader_next _ bs) as [[e bs']|] eqn:E; [|done].
  constructor; [by eapply reader_next_wf|apply IH].
Qed.

Lemma read_segment_wf file es : read_segment file = Ok es → Forall wf_segentry es.
Proof.
  unfold read_segment. destruct (segment_open file); cbn; [|done..]. intros [= <-].
  apply reader_collect_wf.
Qed.

(* ------------------------------------------------------------------------ *)
(** ** The log that a directory of segments denotes *)

Definition entry_root (e : SegmentEntry) : option Digest224 :=
  match e with RootUpdate root => Some root | SnapshotRecord _ _ _ _ => None end.
(** The last root update and the snapshot records of a log. *)
Definition log_root (es : list SegmentEntry) : option Digest224 := last (omap entry_root es).
Definition log_snapshots (es : list SegmentEntry) : list SnapshotEntry :=
  omap as_snapshot_entry es.

Lemma replay_log st es :
  foldl replay_entry st es =
  (match log_root es with Some r => Some r | None => st.1 end, st.2 ++ log_snapshots es).
Proof.
  revert st. induction es as [|e es IH]; intros [r ss]; cbn [foldl].
  { cbn. by rewrite app_nil_r. }
  rewrite IH. destruct e as [d|v d c n]; unfold log_root, log_snapshots; cbn.
  - rewrite last_cons. by destruct (last (omap entry_root es)).
  - by rewrite <-app_assoc.
Qed.

(** The readable files of a listing. *)
Definition files_entries (files : list (bytes * bytes)) : res IoError (list SegmentEntry) :=
  foldr (λ f acc, if decide (len f.2 < 16) then acc
                  else es ← read_segment f.2; rest ← acc; Ok (es ++ rest)) (Ok []) files.

Lemma replay_files_log files st :
  replay_files files st = foldl replay_entry st <$> files_entries files.
Proof.
  revert st. induction files as [|[n f] files IH]; intros st; [done|].
  cbn [replay_files files_entries foldr snd]. case_decide; [apply IH|].
  destruct (read_segment f) as [es|e|]; cbn [mbind res_bind]; [|done..].
  rewrite IH. unfold files_entries. destruct (foldr _ _ files); cbn; [|done..].
  by rewrite foldl_app.
Qed.

Lemma load_store_log dir :
  load_store_from_segments dir =
  (λ es, (log_root es, log_snapshots es)) <$> files_entries (segment_files dir).
Proof.
  unfold load_store_from_segments. rewrite replay_files_log.
  destruct (files_entries _) as [es|e|]; cbn; [|done..]. rewrite replay_log. cbn.
  by destruct (log_root es).
Qed.

(* ------------------------------------------------------------------------ *)
(** ** Compaction *)

Lemma compact_fold es w r :
  foldl (λ st e, (write_entry e st.1,
                  mkCompaction (entries_kept st.2 + 1) (entries_removed st.2)))
        (w, r) es =
  (mkSegWriter (sw_synced w) (sw_pending w ++ flat_map frame es) (sw_faults w),
   mkCompaction (entries_kept r + Z.of_nat (length es)) (entries_removed r)).
Proof.
  revert w r. induction es as [|e es IH]; intros [s p f] [k rm].
  { cbn. by rewrite app_nil_r, Z.add_0_r. }
  cbn [foldl fst snd]. rewrite IH. cbn [sw_synced sw_pending sw_faults write_entry
    entries_kept entries_removed flat_map length]. rewrite <-app_assoc. do 2 f_equal. lia.
Qed.

Lemma compact_segment_spec name id faults dir file es :
  dir !! name = Some file → read_segment file = Ok es →
  compact_segment name id faults dir =
  match faults with
  | true :: _ => (<[seg_file_name 3 id ++ str ".tmp" := closed_segment id es]> dir,
                  Err (OtherIo "sync_all"))
  | _ => (<[seg_file_name 3 id := closed_segment id es]>
            (delete (seg_file_name 3 id ++ str ".tmp") dir),
          Ok (mkCompaction (Z.of_nat (length es)) 0))
  end.
Proof.
  intros Hf Hr. unfold compact_segment. rewrite Hf, Hr, compact_fold.
  unfold segment_close, segment_sync, closed_segment. cbn [sw_synced sw_pending sw_faults
    segment_writer_new entries_kept entries_removed]. rewrite app_nil_l.
  destruct faults as [|[] faults]; cbn [sw_synced sw_pending app]; by rewrite <-?app_assoc, ?app_nil_r.
Qed.

(** The names of segments with at most six digits are ordered like their ids. *)
Lemma seg_file_name_order w a b :
  (0 < w)%nat → 0 ≤ a < 10 ^ Z.of_nat w → 0 ≤ b < 10 ^ Z.of_nat w →
  bytes_leb (seg_file_name w a) (seg_file_name w b) = (a <=? b).
Proof.
  intros Hw Ha Hb. unfold seg_file_name. rewrite !fmt_pad_digits by done.
  rewrite bytes_leb_app by done. rewrite bool_decide_eq_true_2 by done.
  rewrite bytes_leb_refl. cbn [andb negb orb].
  rewrite bytes_leb_app by by rewrite !length_digits.
  rewrite bytes_leb_digits, bytes_leb_refl by done.
  destruct (Z.leb_spec a b); cbn.
  - rewrite andb_true_r. by destruct (bool_decide _).
  - rewrite bool_decide_eq_false_2; [done|].
    intros Heq%digits_inj; [lia|done..].
Qed.
