(* ===== verification/Cas.v ===== *)
(** * Local block stores

    The traits [ContentHasher], [BlockStore] and [Chunker] of
    [crates/slicefs-traits/src] and their implementations in [crates/cas-local/src]:
    [MemBlockStore] (an in-memory map), [LocalDiskStore] (sharded files, written to
    a temporary file and renamed) and [FixedChunker].  The hash function itself
    ([blake3]) is a third-party crate and a parameter. *)

From S2P Require Import Prelude Text Segment.
From stdpp Require Import base tactics numbers option list gmap strings.
Open Scope Z_scope.

(* ------------------------------------------------------------------------ *)
(** ** Hashes, errors and the traits *)

(** [struct ChunkHash(Vec<u8>)]. *)
Abbreviation ChunkHash := bytes.

(** [enum CasError]; an I/O error is an [IoError], messages are strings. *)
Inductive CasError :=
  | NotFound (hash : ChunkHash)
  | IntegrityFailure (expected actual : ChunkHash)
  | HashCollision (hash : ChunkHash)
  | CasIo (e : IoError)
  | ChunkerError (msg : string)
  | IndexError (msg : string).

(** [trait ContentHasher]. *)
Record ContentHasher := mkHasher {
  ch_hash : bytes → ChunkHash;
  ch_algorithm_id : string
}.

(** [struct Blake3Hasher] over the function [blake3::hash]. *)
Definition blake3_hasher (blake3 : bytes → bytes) : ContentHasher := mkHasher blake3 "blake3".

(** [struct BlockStoreConfig] and its [Default]. *)
Record BlockStoreConfig := mkBsConfig { verify_on_read : bool }.
Definition default_config : BlockStoreConfig := mkBsConfig true.

(** [trait BlockStore]: every method locks, so a call is one atomic step. *)
Class BlockStore (S : Type) := {
  bs_put : ChunkHash → bytes → M S CasError unit;
  bs_get : ChunkHash → M S CasError bytes;
  bs_exists : ChunkHash → M S CasError bool;
  bs_delete : ChunkHash → M S CasError unit
}.

(** The check that [get] makes when [verify_on_read] is set. *)
Definition verified (config : BlockStoreConfig) (hasher : ContentHasher) (hash : ChunkHash)
    (data : bytes) : res CasError bytes :=
  if verify_on_read config then
    let actual := ch_hash hasher data in
    if decide (actual ≠ hash) then Err (IntegrityFailure hash actual) else Ok data
  else Ok data.

(* ------------------------------------------------------------------------ *)
(** ** [MemBlockStore] *)

Record MemBlockStore := mkMemStore {
  mb_store : gmap ChunkHash bytes;
  mb_config : BlockStoreConfig;
  mb_hasher : ContentHasher
}.
Definition mem_new (config : BlockStoreConfig) (hasher : ContentHasher) : MemBlockStore :=
  mkMemStore ∅ config hasher.
Definition upd_store (m : gmap ChunkHash bytes) (s : MemBlockStore) : MemBlockStore :=
  mkMemStore m (mb_config s) (mb_hasher s).

Definition mem_put (hash : ChunkHash) (data : bytes) : M MemBlockStore CasError unit :=
  hasher ← gets mb_hasher;
  let computed := ch_hash hasher data in
  if decide (computed ≠ hash) then throw (IntegrityFailure hash computed) else
  store ← gets mb_store;
  match store !! hash with
  | Some existing => if decide (existing ≠ data) then throw (HashCollision hash) else mret tt
  | None => modify (upd_store (<[hash := data]> store))
  end.

Definition mem_get (hash : ChunkHash) : M MemBlockStore CasError bytes :=
  s ← gets id;
  data ← lift (ok_or (mb_store s !! hash) (NotFound hash));
  lift (verified (mb_config s) (mb_hasher s) hash data).

Definition mem_exists (hash : ChunkHash) : M MemBlockStore CasError bool :=
  gets (λ s, bool_decide (is_Some (mb_store s !! hash))).

Definition mem_delete (hash : ChunkHash) : M MemBlockStore CasError unit :=
  modify (λ s, upd_store (delete hash (mb_store s)) s).

#[export] Instance mem_block_store : BlockStore MemBlockStore := {|
  bs_put := mem_put; bs_get := mem_get; bs_exists := mem_exists; bs_delete := mem_delete
|}.

(* ------------------------------------------------------------------------ *)
(** ** [LocalDiskStore] *)

(** A path below the root of the store: the shard directory and the file in it.
    An empty file name is the shard directory itself. *)
Abbreviation Path := (bytes * bytes)%type.

(** The directory tree below the root: shard directories, the files in them, and
    files directly below the root. *)
Record Disk := mkDisk {
  dk_shards : gset bytes;
  dk_files : gmap Path bytes;
  dk_top : gmap bytes bytes
}.

Record LocalDiskStore := mkDiskStore {
  ld_disk : Disk;
  ld_config : BlockStoreConfig;
  ld_hasher : ContentHasher
}.
Definition disk_new (disk : Disk) (config : BlockStoreConfig) (hasher : ContentHasher) : LocalDiskStore :=
  mkDiskStore disk config hasher.
Definition upd_disk (d : Disk) (s : LocalDiskStore) : LocalDiskStore :=
  mkDiskStore d (ld_config s) (ld_hasher s).

(** [hash_to_path(hash)]. *)
Definition hash_to_path (hash : ChunkHash) : Path :=
  let hex := hex_string hash in
  if decide (2 ≤ length hex)%nat then (take 2 hex, drop 2 hex) else (str "00", hex).

(** [path.exists()]. *)
Definition path_exists (p : Path) (d : Disk) : bool :=
  if decide (p.2 = []) then bool_decide (p.1 ∈ dk_shards d)
  else bool_decide (is_Some (dk_files d !! p)).

(** A file directly below the root, or in a shard. *)
Inductive Place := InRoot (name : bytes) | InShard (p : Path).

Definition file_at (f : Place) (d : Disk) : option bytes :=
  match f with InRoot n => dk_top d !! n | InShard p => dk_files d !! p end.
Definition set_file (f : Place) (data : bytes) (d : Disk) : Disk :=
  match f with
  | InRoot n => mkDisk (dk_shards d) (dk_files d) (<[n := data]> (dk_top d))
  | InShard p => mkDisk (dk_shards d) (<[p := data]> (dk_files d)) (dk_top d)
  end.
Definition remove_file (f : Place) (d : Disk) : Disk :=
  match f with
  | InRoot n => mkDisk (dk_shards d) (dk_files d) (delete n (dk_top d))
  | InShard p => mkDisk (dk_shards d) (delete p (dk_files d)) (dk_top d)
  end.

(** Calls of the file system: the directory of a path with [create_dir_all], [fs::write]
    and [fs::rename].  Creating a directory succeeds; a file needs its directory, and
    nothing is renamed over a directory. *)
Inductive DiskCall :=
  | CreateParent (p : Path)
  | WriteFile (f : Place) (data : bytes)
  | RenameFile (f : Place) (p : Path).

Definition disk_call (c : DiskCall) : M Disk CasError unit := λ d,
  match c with
  | CreateParent p =>
      (if decide (p.2 = []) then d else mkDisk ({[p.1]} ∪ dk_shards d) (dk_files d) (dk_top d), Ok tt)
  | WriteFile f data =>
      match f with
      | InShard p => if decide (p.1 ∈ dk_shards d) then (set_file f data d, Ok tt)
                     else (d, Err (CasIo (OtherIo "not found")))
      | InRoot _ => (set_file f data d, Ok tt)
      end
  | RenameFile f p =>
      if decide (p.2 = []) then (d, Err (CasIo (OtherIo "rename"))) else
      match file_at f d with
      | Some data => (set_file (InShard p) data (remove_file f d), Ok tt)
      | None => (d, Err (CasIo (OtherIo "not found")))
      end
  end.

(** [path.with_extension("tmp")] appends, since a hex string has no dot; for a shard
    directory it is a sibling of the directory. *)
Definition tmp_name (n : bytes) : bytes := n ++ str ".tmp".
Definition tmp_place (p : Path) : Place :=
  if decide (p.2 = []) then InRoot (tmp_name p.1) else InShard (p.1, tmp_name p.2).

(** The calls that [put] makes to write a block. *)
Definition put_calls (p : Path) (data : bytes) : list DiskCall :=
  [CreateParent p; WriteFile (tmp_place p) data; RenameFile (tmp_place p) p].

Fixpoint disk_calls (cs : list DiskCall) : M Disk CasError unit :=
  match cs with
  | [] => mret tt
  | c :: cs => _ ← disk_call c; disk_calls cs
  end.

(** What [put] decides before its calls: a wrong hash is an error, and a block that is
    there is not written again. *)
Definition put_plan (hash : ChunkHash) (data : bytes) (s : LocalDiskStore) : res CasError (list DiskCall) :=
  let computed := ch_hash (ld_hasher s) data in
  if decide (computed ≠ hash) then Err (IntegrityFailure hash computed) else
  let path := hash_to_path hash in
  if path_exists path (ld_disk s) then Ok [] else Ok (put_calls path data).

Definition disk_put (hash : ChunkHash) (data : bytes) : M LocalDiskStore CasError unit :=
  s ← gets id;
  calls ← lift (put_plan hash data s);
  zoom ld_disk upd_disk (disk_calls calls).

Definition disk_get (hash : ChunkHash) : M LocalDiskStore CasError bytes :=
  s ← gets id;
  let path := hash_to_path hash in
  if negb (path_exists path (ld_disk s)) then throw (NotFound hash) else
  data ← lift (ok_or (dk_files (ld_disk s) !! path) (CasIo (OtherIo "is a directory")));
  lift (verified (ld_config s) (ld_hasher s) hash data).

Definition disk_exists (hash : ChunkHash) : M LocalDiskStore CasError bool :=
  gets (λ s, path_exists (hash_to_path hash) (ld_disk s)).

Definition disk_delete (hash : ChunkHash) : M LocalDiskStore CasError unit :=
  s ← gets id;
  let path := hash_to_path hash in
  if path_exists path (ld_disk s) then
    if decide (path.2 = []) then throw (CasIo (OtherIo "is a directory")) else
    modify (λ s, upd_disk (mkDisk (dk_shards (ld_disk s)) (delete path (dk_files (ld_disk s)))
                             (dk_top (ld_disk s))) s)
  else mret tt.

#[export] Instance disk_block_store : BlockStore LocalDiskStore := {|
  bs_put := disk_put; bs_get := disk_get; bs_exists := disk_exists; bs_delete := disk_delete
|}.

(* ------------------------------------------------------------------------ *)
(** ** [FixedChunker] *)

(** [struct Chunk]. *)
Record Chunk := mkChunk { ck_offset : Z; ck_data : bytes }.
Record FixedChunker := mkChunker { fc_block_size : Z }.

(** [FixedChunker::new]: the assertion panics on 0. *)
Definition chunker_new (block_size : Z) : res CasError FixedChunker :=
  if decide (0 < block_size) then Ok (mkChunker block_size) else Panic.
Definition chunker_default : FixedChunker := mkChunker 4096.

(** The [while] loop of [chunk]; the fuel bounds its turns ([chunk_loop_spec]). *)
Fixpoint chunk_loop (fuel : nat) (block_size : Z) (data : bytes) (offset : Z)
    : res CasError (list Chunk) :=
  match fuel with
  | O => Panic
  | S fuel =>
      if decide (offset < len data) then
        let end_ := Z.min (wrap64 (offset + block_size)) (len data) in
        d ← or_panic (slice data offset end_);
        rest ← chunk_loop fuel block_size data end_;
        Ok (mkChunk offset d :: rest)
      else Ok []
  end.

Definition chunk (c : FixedChunker) (data : bytes) : res CasError (list Chunk) :=
  if decide (data = []) then Ok []
  else chunk_loop (S (length data)) (fc_block_size c) data 0.

Definition strategy_id (c : FixedChunker) : string :=
  if decide (fc_block_size c = 4096) then "fixed-4096"
  else if decide (fc_block_size c = 8192) then "fixed-8192"
  else "fixed-custom".
