(* ===== verification/CasRefine.v ===== *)
(** * What the local block stores promise

    A block store holds a finite map from hashes to contents.  [BlockStoreLaws] is
    the contract of the trait over that map; [MemBlockStore] and [LocalDiskStore]
    both meet it, for every setting of [verify_on_read], as long as no two contents
    that are stored share a hash.  The disk store moreover keeps it when [put] is
    cut short, and the chunker splits a buffer into blocks that make it up again. *)

From S2P Require Import Prelude Text Segment Cas.
From stdpp Require Import base tactics numbers option list gmap strings.
Open Scope Z_scope.

(* ------------------------------------------------------------------------ *)
(** ** The contract *)

(** The hash function of a store and the contents that a run stores: their hashes
    have at least two bytes and do not collide. *)
Class HashLaws (hasher : ContentHasher) (P : bytes → Prop) : Prop := {
  hash_long d : (2 ≤ length (ch_hash hasher d))%nat;
  hash_inj a b : P a → P b → ch_hash hasher a = ch_hash hasher b → a = b
}.

Section contract.
Context (hasher : ContentHasher) (P : bytes → Prop).
Implicit Types (m : gmap ChunkHash bytes) (h : ChunkHash) (d : bytes).

Definition abs_put h d m : gmap ChunkHash bytes * res CasError unit :=
  if decide (ch_hash hasher d = h) then (<[h := d]> m, Ok tt)
  else (m, Err (IntegrityFailure h (ch_hash hasher d))).
Definition abs_get h m : res CasError bytes := ok_or (m !! h) (NotFound h).

(** Every content is stored under its hash. *)
Definition valid_blocks m : Prop := map_Forall (λ h d, ch_hash hasher d = h ∧ P d) m.

Class BlockStoreLaws (S : Type) `{BlockStore S} := {
  bs_rep : S → gmap ChunkHash bytes → Prop;
  bs_rep_valid s m : bs_rep s m → valid_blocks m;
  bs_put_spec s m h d : bs_rep s m → P d →
    ∃ s', bs_put h d s = (s', (abs_put h d m).2) ∧ bs_rep s' (abs_put h d m).1;
  bs_get_spec s m h : bs_rep s m → (2 ≤ length h)%nat → bs_get h s = (s, abs_get h m);
  bs_exists_spec s m h : bs_rep s m → (2 ≤ length h)%nat →
    bs_exists h s = (s, Ok (bool_decide (is_Some (m !! h))));
  bs_delete_spec s m h : bs_rep s m → (2 ≤ length h)%nat →
    ∃ s', bs_delete h s = (s', Ok tt) ∧ bs_rep s' (delete h m)
}.

Lemma verified_ok config h d : ch_hash hasher d = h → verified config hasher h d = Ok d.
Proof. intros <-. unfold verified. destruct (verify_on_read config); [|done]. by rewrite decide_False by auto. Qed.

Lemma verified_inv config h d x :
  verify_on_read config = true → verified config hasher h d = Ok x → x = d ∧ ch_hash hasher x = h.
Proof.
  intros Hv. unfold verified. rewrite Hv. case_decide as Hd; intros [= <-].
  split; [done|]. by destruct (decide (ch_hash hasher d = h)).
Qed.

Lemma valid_insert m d : valid_blocks m → P d → valid_blocks (<[ch_hash hasher d := d]> m).
Proof. intros. by apply map_Forall_insert_2. Qed.
Lemma valid_delete m h : valid_blocks m → valid_blocks (delete h m).
Proof. intros Hm. by apply map_Forall_delete. Qed.

Context {HL : HashLaws hasher P}.

(** ** The in-memory store *)

Definition mem_rep (s : MemBlockStore) m : Prop :=
  mb_store s = m ∧ mb_hasher s = hasher ∧ valid_blocks m.

#[export] Program Instance mem_laws : BlockStoreLaws MemBlockStore := {| bs_rep := mem_rep |}.
Next Obligation. intros s m (_ & _ & H). exact H. Qed.
Next Obligation.
  intros s m h d (Hm & Hh & Hv) Hd. cbn [bs_put mem_block_store]. unfold mem_put, abs_put.
  rewrite run_bind. cbn [gets]. rewrite Hh. destruct (decide (ch_hash hasher d = h)) as [<-|Hne].
  - rewrite decide_False by auto. rewrite run_bind. cbn [gets]. rewrite Hm.
    destruct (m !! ch_hash hasher d) as [e|] eqn:He.
    + destruct (Hv _ _ He) as [Heq HP]. assert (e = d) as -> by by apply hash_inj.
      rewrite decide_False by auto. exists s. split; [done|]. cbn. by rewrite insert_id.
    + eexists. split; [done|]. split_and!; [done|done|]. by apply valid_insert.
  - rewrite decide_True by done. by exists s.
Qed.
Next Obligation.
  intros s m h (Hm & Hh & Hv) _. cbn [bs_get mem_block_store]. unfold mem_get, abs_get.
  rewrite run_bind. cbn [gets]. change (id s) with s. rewrite run_bind, Hm.
  destruct (m !! h) as [d|] eqn:Hd; [|done]. cbn [lift ok_or].
  rewrite Hh, verified_ok; [done|]. by destruct (Hv _ _ Hd).
Qed.
Next Obligation. intros s m h (<- & _) _. done. Qed.
Next Obligation.
  intros s m h (Hm & Hh & Hv) _. eexists. split; [done|].
  split_and!; [by rewrite <-Hm|done|]. by apply valid_delete.
Qed.

(** ** The disk store *)

Lemma hash_to_path_long h : (2 ≤ length h)%nat →
  hash_to_path h = (take 2 (hex_string h), drop 2 (hex_string h)) ∧ (hash_to_path h).2 ≠ [].
Proof.
  intros Hh. unfold hash_to_path. pose proof (length_hex_string h) as Hl.
  rewrite decide_True by lia. split; [done|]. cbn. intros Hd. apply (f_equal length) in Hd.
  rewrite length_drop in Hd. cbn in Hd. lia.
Qed.

Lemma hash_to_path_inj h h' :
  (2 ≤ length h)%nat → (2 ≤ length h')%nat → hash_to_path h = hash_to_path h' → h = h'.
Proof.
  intros H H'. rewrite (proj1 (hash_to_path_long h H)), (proj1 (hash_to_path_long h' H')). intros [= H1 H2].
  apply hex_string_inj. by rewrite <-(take_drop 2 (hex_string h)), <-(take_drop 2 (hex_string h')), H1, H2.
Qed.

(** A temporary file is never the file of a block. *)
Lemma tmp_not_path h n p : (2 ≤ length h)%nat → hash_to_path h ≠ (p, tmp_name n).
Proof.
  intros Hh Heq. rewrite (proj1 (hash_to_path_long _ Hh)) in Heq. injection Heq as _ Heq.
  apply (hex_string_no_dot h). rewrite <-(take_drop 2 (hex_string h)), Heq. unfold tmp_name.
  apply elem_of_app. right. apply elem_of_app. right. by left.
Qed.

Definition disk_files_rep (k : Disk) m : Prop :=
  ∀ h, (2 ≤ length h)%nat → dk_files k !! hash_to_path h = m !! h.
Definition disk_rep (s : LocalDiskStore) m : Prop :=
  disk_files_rep (ld_disk s) m ∧ ld_hasher s = hasher ∧ valid_blocks m.

Lemma path_exists_rep k m h :
  disk_files_rep k m → (2 ≤ length h)%nat →
  path_exists (hash_to_path h) k = bool_decide (is_Some (m !! h)).
Proof.
  intros Hk Hh. unfold path_exists. rewrite decide_False by by apply hash_to_path_long. by rewrite Hk.
Qed.

(** The temporary file of a block is in the shard of the block. *)
Lemma tmp_place_long h :
  (2 ≤ length h)%nat →
  tmp_place (hash_to_path h) = InShard ((hash_to_path h).1, tmp_name (hash_to_path h).2).
Proof. intros Hh. unfold tmp_place. by rewrite decide_False by by apply hash_to_path_long. Qed.

Lemma files_rep_shards k m sh : disk_files_rep k m → disk_files_rep (mkDisk sh (dk_files k) (dk_top k)) m.
Proof. done. Qed.

(** Writing a temporary file changes no block. *)
Lemma files_rep_write k m p n x : disk_files_rep k m → disk_files_rep (set_file (InShard (p, tmp_name n)) x k) m.
Proof.
  intros Hk h Hh. cbn. rewrite lookup_insert_ne; [by apply Hk|].
  intros Heq. by apply (tmp_not_path h n p Hh).
Qed.

(** Moving it to the file of a block adds the block. *)
Lemma files_rep_rename k m h d p n :
  disk_files_rep k m → (2 ≤ length h)%nat →
  disk_files_rep (set_file (InShard (hash_to_path h)) d (remove_file (InShard (p, tmp_name n)) k)) (<[h := d]> m).
Proof.
  intros Hk Hh h' Hh'. cbn. destruct (decide (h = h')) as [<-|Hne].
  - by rewrite !lookup_insert_eq.
  - rewrite !lookup_insert_ne; [|done|by intros ?%hash_to_path_inj].
    rewrite lookup_delete_ne; [by apply Hk|]. intros Heq. by apply (tmp_not_path h' n p Hh').
Qed.

(** ** A process that is killed

    A call that is cut short has done nothing, or has written the first bytes; creating
    and renaming are atomic.  The calls of [put] are killed in one of them, between two of
    them or after the last. *)
Inductive call_cut : DiskCall → Disk → Disk → Prop :=
  | cut_before c k : call_cut c k k
  | cut_write f data n k k' :
      disk_call (WriteFile f (take n data)) k = (k', Ok tt) → call_cut (WriteFile f data) k k'.
Inductive calls_cut : list DiskCall → Disk → Disk → Prop :=
  | cut_in c cs k k' : call_cut c k k' → calls_cut (c :: cs) k k'
  | cut_later c cs k k1 k' : disk_call c k = (k1, Ok tt) → calls_cut cs k1 k' → calls_cut (c :: cs) k k'
  | cut_done k : calls_cut [] k k.

Definition put_killed (h : ChunkHash) (d : bytes) (s s' : LocalDiskStore) : Prop :=
  ∃ cs k', put_plan h d s = Ok cs ∧ calls_cut cs (ld_disk s) k' ∧ s' = upd_disk k' s.

(** Calls that all succeed can be killed after the last one. *)
Lemma calls_cut_all cs : ∀ k k', disk_calls cs k = (k', Ok tt) → calls_cut cs k k'.
Proof.
  induction cs as [|c cs IH]; intros k k'; cbn [disk_calls]; [intros [= <-]; constructor|].
  rewrite run_bind. destruct (disk_call c k) as [k1 [[]|e|]] eqn:E; [|discriminate..].
  intros H. eapply cut_later; [exact E|by apply IH].
Qed.

(** Wherever the calls that write a block are killed, it is there completely or not at
    all. *)
Lemma put_calls_cut k m h d k' :
  disk_files_rep k m → (2 ≤ length h)%nat → calls_cut (put_calls (hash_to_path h) d) k k' →
  disk_files_rep k' m ∨ disk_files_rep k' (<[h := d]> m).
Proof.
  intros Hk Hh. destruct (hash_to_path_long h Hh) as [_ Hne]. unfold put_calls. rewrite tmp_place_long by done.
  intros Hc. inversion Hc as [? ? ? ? H|? ? ? k1 ? H Hc1|]; subst; clear Hc.
  { inversion H; subst. by left. }
  cbn [disk_call] in H. rewrite decide_False in H by done. injection H as <-.
  inversion Hc1 as [? ? ? ? H|? ? ? k2 ? H Hc2|]; subst; clear Hc1.
  { left. inversion H as [|? ? ? ? ? H1]; subst; [done|]. cbn [disk_call] in H1.
    destruct (decide _); [|discriminate]. injection H1 as <-. by apply files_rep_write. }
  cbn [disk_call] in H. destruct (decide _); [|discriminate]. injection H as <-.
  inversion Hc2 as [? ? ? ? H|? ? ? k3 ? H Hc3|]; subst; clear Hc2.
  { left. inversion H; subst. by apply files_rep_write. }
  right. cbn [disk_call] in H. rewrite decide_False in H by done. cbn [file_at set_file dk_files] in H.
  rewrite lookup_insert_eq in H. injection H as <-. inversion Hc3; subst.
  refine (files_rep_rename (mkDisk _ (<[_ := _]> (dk_files k)) (dk_top k)) m h d _ _ _ Hh).
  exact (files_rep_write (mkDisk _ (dk_files k) (dk_top k)) m _ _ _ Hk).
Qed.

Lemma put_calls_run k m h d :
  disk_files_rep k m → (2 ≤ length h)%nat →
  ∃ k', disk_calls (put_calls (hash_to_path h) d) k = (k', Ok tt) ∧ disk_files_rep k' (<[h := d]> m).
Proof.
  intros Hk Hh. destruct (hash_to_path_long h Hh) as [_ Hne].
  unfold put_calls. rewrite tmp_place_long by done. cbn [disk_calls]. rewrite run_bind. cbn [disk_call].
  rewrite decide_False by done. rewrite run_bind. cbn [disk_call dk_shards].
  rewrite decide_True by set_solver. rewrite run_bind. cbn [disk_call file_at set_file dk_files].
  rewrite decide_False by done. rewrite lookup_insert_eq. eexists. split; [done|].
  refine (files_rep_rename (mkDisk _ (<[_ := _]> (dk_files k)) (dk_top k)) m h d _ _ _ Hh).
  exact (files_rep_write (mkDisk _ (dk_files k) (dk_top k)) m _ _ _ Hk).
Qed.

#[export] Program Instance disk_laws : BlockStoreLaws LocalDiskStore := {| bs_rep := disk_rep |}.
Next Obligation. intros s m (_ & _ & H). exact H. Qed.
Next Obligation.
  intros s m h d (Hm & Hh & Hv) Hd. cbn [bs_put disk_block_store]. unfold disk_put, abs_put.
  rewrite run_bind. cbn [gets]. change (id s) with s. rewrite run_bind. unfold put_plan. rewrite Hh.
  destruct (decide (ch_hash hasher d = h)) as [<-|Hne].
  - rewrite decide_False by auto. rewrite (path_exists_rep _ m) by (done || apply hash_long).
    case_bool_decide as Hx.
    + destruct Hx as [e He]. destruct (Hv _ _ He) as [Heq HP].
      assert (e = d) as -> by by apply hash_inj. exists s. split; [by destruct s|]. by rewrite insert_id.
    + destruct (put_calls_run _ _ (ch_hash hasher d) d Hm (hash_long d)) as (k' & Hrun & Hk').
      cbn [lift]. unfold zoom. rewrite Hrun. eexists. split; [done|]. split_and!; [done|done|by apply valid_insert].
  - rewrite decide_True by done. by exists s.
Qed.
Next Obligation.
  intros s m h (Hm & Hh & Hv) Hl. cbn [bs_get disk_block_store]. unfold disk_get, abs_get.
  rewrite run_bind. cbn [gets]. change (id s) with s. rewrite (path_exists_rep _ m) by done.
  rewrite Hm by done. destruct (m !! h) as [d|] eqn:Hd.
  - rewrite bool_decide_eq_true_2 by done. cbn [negb]. rewrite run_bind. cbn [lift ok_or].
    rewrite Hh, verified_ok; [done|]. by destruct (Hv _ _ Hd).
  - rewrite bool_decide_eq_false_2 by (intros [? ?]; done). done.
Qed.
Next Obligation.
  intros s m h (Hm & _) Hl. cbn [bs_exists disk_block_store]. unfold disk_exists, gets.
  by rewrite (path_exists_rep _ m).
Qed.
Next Obligation.
  intros s m h (Hm & Hh & Hv) Hl. cbn [bs_delete disk_block_store]. unfold disk_delete.
  rewrite run_bind. cbn [gets]. change (id s) with s. rewrite (path_exists_rep _ m) by done.
  case_bool_decide as Hx.
  - rewrite decide_False by by apply hash_to_path_long. eexists. split; [done|].
    split_and!; [|done|by apply valid_delete]. intros h' Hh'. cbn.
    destruct (decide (h = h')) as [<-|Hne]; [by rewrite !lookup_delete_eq|].
    rewrite !lookup_delete_ne; [by apply Hm|done|by intros ?%hash_to_path_inj].
  - exists s. split; [done|]. rewrite delete_id; [done|]. by apply eq_None_not_Some.
Qed.

Lemma put_killed_rep s m h d s' :
  disk_rep s m → P d → put_killed h d s s' →
  disk_rep s' m ∨ ch_hash hasher d = h ∧ disk_rep s' (<[h := d]> m).
Proof.
  intros (Hm & Hh & Hv) Hd (cs & k' & Hplan & Hcut & ->). unfold put_plan in Hplan. rewrite Hh in Hplan.
  destruct (decide (ch_hash hasher d = h)) as [<-|Hne]; [|by rewrite decide_True in Hplan].
  rewrite decide_False in Hplan by auto. destruct (path_exists _ _); injection Hplan as <-.
  { inversion Hcut; subst. by left. }
  destruct (put_calls_cut _ m _ _ _ Hm (hash_long d) Hcut) as [Hk|Hk]; [left|right; split; [done|]].
  - by split_and!.
  - split_and!; [done|done|by apply valid_insert].
Qed.
End contract.

(* ------------------------------------------------------------------------ *)
(** ** Sequences of calls *)

Inductive BsCall :=
  | BsPut (h : ChunkHash) (d : bytes)
  | BsGet (h : ChunkHash)
  | BsExists (h : ChunkHash)
  | BsDelete (h : ChunkHash).
Inductive BsReply :=
  | RUnit (r : res CasError unit)
  | RData (r : res CasError bytes)
  | RBool (r : res CasError bool).

Definition bs_call {S} `{BlockStore S} (c : BsCall) (s : S) : S * BsReply :=
  match c with
  | BsPut h d => let '(s, r) := bs_put h d s in (s, RUnit r)
  | BsGet h => let '(s, r) := bs_get h s in (s, RData r)
  | BsExists h => let '(s, r) := bs_exists h s in (s, RBool r)
  | BsDelete h => let '(s, r) := bs_delete h s in (s, RUnit r)
  end.
Fixpoint bs_run {S} `{BlockStore S} (cs : list BsCall) (s : S) : S * list BsReply :=
  match cs with
  | [] => (s, [])
  | c :: cs => let '(s, r) := bs_call c s in let '(s, rs) := bs_run cs s in (s, r :: rs)
  end.

(** Only contents of the run are put, and only hashes of at least two bytes used. *)
Definition call_ok (P : bytes → Prop) (c : BsCall) : Prop :=
  match c with
  | BsPut h d => P d
  | BsGet h | BsExists h | BsDelete h => (2 ≤ length h)%nat
  end.

Section agree.
Context (hasher : ContentHasher) (P : bytes → Prop).
Context {S T : Type} `{!BlockStore S, !BlockStore T}.
Context {LS : BlockStoreLaws hasher P S} {LT : BlockStoreLaws hasher P T}.
Implicit Types (m : gmap ChunkHash bytes).

Lemma bs_call_agree c (s : S) (t : T) m :
  bs_rep (BlockStoreLaws := LS) hasher P s m → bs_rep (BlockStoreLaws := LT) hasher P t m → call_ok P c →
  ∃ s' t' m' r, bs_call c s = (s', r) ∧ bs_call c t = (t', r) ∧
    bs_rep (BlockStoreLaws := LS) hasher P s' m' ∧ bs_rep (BlockStoreLaws := LT) hasher P t' m'.
Proof.
  intros Hs Ht Hc. destruct c as [h d|h|h|h]; cbn [bs_call].
  - destruct (bs_put_spec _ _ s m h d Hs Hc) as (s' & -> & Hs').
    destruct (bs_put_spec _ _ t m h d Ht Hc) as (t' & -> & Ht'). by eexists s', t', _, _.
  - rewrite (bs_get_spec _ _ s m), (bs_get_spec _ _ t m) by done. by eexists s, t, m, _.
  - rewrite (bs_exists_spec _ _ s m), (bs_exists_spec _ _ t m) by done. by eexists s, t, m, _.
  - destruct (bs_delete_spec _ _ s m h Hs Hc) as (s' & -> & Hs').
    destruct (bs_delete_spec _ _ t m h Ht Hc) as (t' & -> & Ht'). by eexists s', t', _, _.
Qed.

Lemma bs_run_agree cs : ∀ (s : S) (t : T) m,
  bs_rep (BlockStoreLaws := LS) hasher P s m → bs_rep (BlockStoreLaws := LT) hasher P t m →
  Forall (call_ok P) cs →
  (bs_run cs s).2 = (bs_run cs t).2 ∧
  ∃ m', bs_rep (BlockStoreLaws := LS) hasher P (bs_run cs s).1 m' ∧
        bs_rep (BlockStoreLaws := LT) hasher P (bs_run cs t).1 m'.
Proof.
  induction cs as [|c cs IH]; intros s t m Hs Ht Hcs; [by split; [|exists m]|].
  apply Forall_cons in Hcs as [Hc Hcs]. cbn [bs_run].
  destruct (bs_call_agree c s t m Hs Ht Hc) as (s' & t' & m' & r & -> & -> & Hs' & Ht').
  destruct (IH s' t' m' Hs' Ht' Hcs) as [Heq Hrep].
  destruct (bs_run cs s') as [s1 rs], (bs_run cs t') as [t1 rt]. cbn in *. by rewrite Heq.
Qed.
End agree.

(* ------------------------------------------------------------------------ *)
(** ** The chunker *)

(** Block [i] of [data]. *)
Definition block_at (bs : Z) (data : bytes) (i : Z) : Chunk :=
  mkChunk (i * bs) (take (Z.to_nat bs) (drop (Z.to_nat (i * bs)) data)).
(** The number of blocks. *)
Definition block_count (bs : Z) (data : bytes) : Z := (len data + bs - 1) / bs.

Section chunker.
Context (bs : Z) (data : bytes).
Context (Hbs : 0 < bs < 2 ^ 64) (Hdata : len data < 2 ^ 63).

Lemma block_count_last : 0 ≤ block_count bs data ∧ len data ≤ block_count bs data * bs < len data + bs.
Proof using Hbs Hdata.
  unfold block_count. pose proof (len_nonneg data).
  pose proof (Z.div_mod (len data + bs - 1) bs ltac:(lia)).
  pose proof (Z.mod_pos_bound (len data + bs - 1) bs ltac:(lia)).
  split; [apply Z.div_pos; lia|]. nia.
Qed.

Lemma block_before i : 0 ≤ i → i < block_count bs data ↔ i * bs < len data.
Proof using Hbs Hdata. intros Hi. destruct block_count_last. nia. Qed.

Lemma chunk_loop_spec fuel : ∀ i,
  0 ≤ i ≤ block_count bs data → block_count bs data - i < Z.of_nat fuel →
  chunk_loop fuel bs data (Z.min (i * bs) (len data)) =
  Ok (block_at bs data <$> seqZ i (block_count bs data - i)).
Proof using Hbs Hdata.
  induction fuel as [|fuel IH]; intros i Hi Hf; [lia|]. cbn [chunk_loop].
  pose proof (len_nonneg data) as Hnn. pose proof (block_before i) as Hbef.
  destruct (decide (i < block_count bs data)) as [Hlt|Hge].
  - assert (i * bs < len data) as Hin by (apply Hbef; lia).
    rewrite decide_True by lia. rewrite (Z.min_l (i * bs)) by lia.
    assert (Z.min (wrap64 (i * bs + bs)) (len data) = Z.min ((i + 1) * bs) (len data)) as ->.
    { replace ((i + 1) * bs) with (i * bs + bs) by lia. unfold wrap64.
      destruct (decide (i * bs + bs < 2 ^ 64)); [by rewrite Z.mod_small by lia|].
      assert (i = 0) as -> by nia. lia. }
    unfold slice. rewrite decide_True by nia. cbn [or_panic mbind res_bind].
    rewrite IH by lia. cbn [mbind res_bind].
    rewrite (seqZ_cons i (block_count bs data - i)) by lia. rewrite fmap_cons. f_equal. f_equal.
    + unfold block_at. f_equal.
      destruct (decide ((i + 1) * bs ≤ len data)).
      * f_equal. lia.
      * rewrite !take_ge; [done|rewrite length_drop; unfold len in *; lia..].
    + f_equal. f_equal; lia.
  - rewrite decide_False by lia. by rewrite (seqZ_nil i) by lia.
Qed.

Lemma chunk_spec :
  chunk (mkChunker bs) data = Ok (block_at bs data <$> seqZ 0 (block_count bs data)).
Proof using Hbs Hdata.
  unfold chunk. pose proof block_count_last as [Hc1 Hc2]. case_decide as He.
  - subst data. assert (block_count bs [] = 0) as ->; [|done].
    unfold block_count. rewrite len_nil. apply Z.div_small. lia.
  - pose proof (chunk_loop_spec (S (length data)) 0) as H.
    rewrite Z.mul_0_l, Z.min_l, Z.sub_0_r in H by apply len_nonneg.
    apply H; [lia|]. unfold len in *. nia.
Qed.

Lemma blocks_concat n : ∀ i,
  0 ≤ i → block_count bs data - i = Z.of_nat n →
  concat (ck_data <$> (block_at bs data <$> seqZ i (Z.of_nat n))) = drop (Z.to_nat (i * bs)) data.
Proof using Hbs Hdata.
  induction n as [|n IH]; intros i Hi Hn.
  - cbn. rewrite drop_ge; [done|]. pose proof block_count_last. unfold len in *. nia.
  - rewrite (seqZ_cons i) by lia. rewrite !fmap_cons. cbn [concat]. cbn [ck_data block_at].
    replace (Z.pred (Z.of_nat (S n))) with (Z.of_nat n) by lia.
    rewrite IH by lia. replace (Z.to_nat (Z.succ i * bs)) with (Z.to_nat (i * bs) + Z.to_nat bs)%nat by nia.
    by rewrite <-drop_drop, take_drop.
Qed.

Lemma block_size i : 0 ≤ i < block_count bs data → 0 < len (ck_data (block_at bs data i)) ≤ bs ∧
  (i + 1 < block_count bs data → len (ck_data (block_at bs data i)) = bs).
Proof using Hbs Hdata.
  intros Hi. pose proof (block_before i ltac:(lia)) as [Hb _]. pose proof (block_before (i + 1) ltac:(lia)) as [Hb' _].
  cbn. unfold len in *. rewrite length_take, length_drop. split; [nia|]. intros ?%Hb'. nia.
Qed.
End chunker.
