(* ===== verification/Dedup.v ===== *)
(** * The dedup index

    [crates/cas-local/src/mem_dedup_index.rs]: a set of hashes with a Bloom filter in
    front of it, and its file format.  The filter is the third-party crate
    [fastbloom]: a parameter that may report hashes that were never inserted, but
    none that were as absent. *)

From S2P Require Import Prelude Segment Cas.
From stdpp Require Import base tactics numbers option list gmap strings.
Open Scope Z_scope.

(** [fastbloom::AtomicBloomFilter]; a rate is the 64 bits of its [f64]. *)
Class Bloom := {
  Filter : Type;
  (** [AtomicBloomFilter::with_false_pos(rate).expected_items(n)] *)
  bloom_new : Z → Z → Filter;
  bloom_insert : bytes → Filter → Filter;
  bloom_contains : bytes → Filter → bool
}.
Class BloomLaws (B : Bloom) : Prop := {
  bloom_insert_here h f : bloom_contains h (bloom_insert h f) = true;
  bloom_insert_keeps h k f : bloom_contains h f = true → bloom_contains h (bloom_insert k f) = true
}.

(** [enum DedupResult]. *)
Inductive DedupResult := DefinitelyAbsent | Present | Absent.

Record MemDedupIndex {B : Bloom} := mkIndex {
  di_bloom : Filter;
  di_present : gset ChunkHash;
  di_expected_items : Z;
  di_false_positive_rate : Z
}.
Arguments MemDedupIndex : clear implicits.

Section index.
Context {B : Bloom}.
Abbreviation Index := (MemDedupIndex B).

Definition index_new (expected_items rate : Z) : Index :=
  mkIndex B (bloom_new rate expected_items) ∅ expected_items rate.

Definition bloom_check (hash : ChunkHash) (s : Index) : bool := bloom_contains hash (di_bloom s).

Definition index_lookup (hash : ChunkHash) (s : Index) : res CasError DedupResult :=
  if negb (bloom_check hash s) then Ok DefinitelyAbsent
  else if decide (hash ∈ di_present s) then Ok Present else Ok Absent.

Definition index_insert (hash : ChunkHash) (s : Index) : Index :=
  mkIndex B (bloom_insert hash (di_bloom s)) ({[hash]} ∪ di_present s)
    (di_expected_items s) (di_false_positive_rate s).

Definition index_remove (hash : ChunkHash) (s : Index) : Index :=
  mkIndex B (di_bloom s) (di_present s ∖ {[hash]}) (di_expected_items s) (di_false_positive_rate s).

(* ------------------------------------------------------------------------ *)
(** ** Saving and loading *)

Definition enc_hash (h : ChunkHash) : bytes := le_bytes 4 (len h) ++ h.

(** [save_to_writer], on a [HashSet] that iterates in the order [order]. *)
Definition save_to_writer (order : list ChunkHash) : bytes :=
  le_bytes 8 (Z.of_nat (length order)) ++ flat_map enc_hash order.
(** [save_to_writer_with_header]. *)
Definition save_to_writer_with_header (order : list ChunkHash) (s : Index) : bytes :=
  le_bytes 8 (di_expected_items s) ++ le_bytes 8 (di_false_positive_rate s) ++ save_to_writer order.

(** [reader.read_exact] of [n] bytes, with the error of a short file. *)
Definition read_n (n : Z) (bs : bytes) : res CasError (bytes * bytes) :=
  ok_or (read_exact n bs) (CasIo UnexpectedEof).

(** The [for _ in 0..count] loop: every turn reads at least four bytes, so the
    length of the input bounds the turns ([load_loop_ok], [load_loop_total]). *)
Fixpoint load_loop (fuel : nat) (count : Z) (bs : bytes) (s : Index) : res CasError Index :=
  if decide (count ≤ 0) then Ok s else
  match fuel with
  | O => Panic
  | S fuel =>
      '(len_buf, bs) ← read_n 4 bs;
      '(h, bs) ← read_n (le_decode len_buf) bs;
      load_loop fuel (count - 1) bs
        (mkIndex B (bloom_insert h (di_bloom s)) ({[h]} ∪ di_present s)
           (di_expected_items s) (di_false_positive_rate s))
  end.

(** [reserve n] says whether [HashSet::with_capacity(n)] finds the memory; it panics
    if not. *)
Definition load_from_reader (reserve : Z → bool) (bs : bytes) : res CasError Index :=
  '(b1, bs) ← read_n 8 bs;
  '(b2, bs) ← read_n 8 bs;
  '(b3, bs) ← read_n 8 bs;
  let expected_items := le_decode b1 in
  let rate := le_decode b2 in
  let count := le_decode b3 in
  let bloom := bloom_new rate (Z.max (Z.max expected_items count) 1) in
  if negb (reserve count) then Panic else
  load_loop (S (length bs)) count bs (mkIndex B bloom ∅ expected_items rate).

(* ------------------------------------------------------------------------ *)
(** ** The invariant *)

(** The filter knows every hash of the set. *)
Definition index_inv (s : Index) : Prop := ∀ h, h ∈ di_present s → bloom_check h s = true.

Inductive index_reach (s0 : Index) : Index → Prop :=
  | reach_start : index_reach s0 s0
  | reach_insert s h : index_reach s0 s → index_reach s0 (index_insert h s)
  | reach_remove s h : index_reach s0 s → index_reach s0 (index_remove h s).

Context {L : BloomLaws B}.

Lemma insert_inv s h : index_inv s → index_inv (index_insert h s).
Proof using L.
  intros Hs k. cbn. rewrite elem_of_union, elem_of_singleton. unfold bloom_check. cbn.
  intros [->|Hk]; [apply bloom_insert_here|]. by apply bloom_insert_keeps, Hs.
Qed.

Lemma reach_inv s0 s : index_inv s0 → index_reach s0 s → index_inv s.
Proof using L.
  intros H0. induction 1 as [|s h _ IH|s h _ IH]; [done|by apply insert_inv|].
  intros k. cbn. intros [Hk _]%elem_of_difference. by apply IH.
Qed.

Lemma new_inv n rate : index_inv (index_new n rate).
Proof. by intros h ?%elem_of_empty. Qed.

(** A lookup is exact, whatever the filter makes up. *)
Lemma lookup_exact s h :
  index_inv s → (index_lookup h s = Ok Present ↔ h ∈ di_present s) ∧ index_lookup h s ≠ Panic.
Proof.
  intros Hs. unfold index_lookup. destruct (bloom_check h s) eqn:Hb; cbn [negb].
  - case_decide; split; done.
  - split; [|done]. split; [done|]. intros Hh. rewrite (Hs _ Hh) in Hb. done.
Qed.

(* ------------------------------------------------------------------------ *)
(** ** The round trip *)

Lemma read_n_app a bs : read_n (len a) (a ++ bs) = Ok (a, bs).
Proof. unfold read_n. by rewrite read_exact_app. Qed.

Lemma read_n_le n z bs : read_n (Z.of_nat n) (le_bytes n z ++ bs) = Ok (le_bytes n z, bs).
Proof. rewrite <-(len_le_bytes n z). apply read_n_app. Qed.

Lemma load_loop_ok order : ∀ fuel rest s,
  Forall (λ h, len h < 2 ^ 32) order → (length order ≤ fuel)%nat →
  load_loop fuel (Z.of_nat (length order)) (flat_map enc_hash order ++ rest) s =
  Ok (foldl (λ s h, index_insert h s) s order).
Proof.
  induction order as [|h order IH]; intros fuel rest s Ho Hf.
  { by destruct fuel. }
  apply Forall_cons in Ho as [Hh Ho]. destruct fuel as [|fuel]; [cbn in Hf; lia|].
  cbn [load_loop]. rewrite decide_False by (cbn; lia).
  cbn [flat_map]. unfold enc_hash at 1. rewrite <-!app_assoc.
  rewrite (read_n_le 4). cbn [mbind res_bind].
  rewrite le_u32 by (pose proof (len_nonneg h); unfold is_u32; lia).
  rewrite read_n_app. cbn [mbind res_bind].
  replace (Z.of_nat (length (h :: order)) - 1) with (Z.of_nat (length order)) by (cbn; lia).
  rewrite IH by (done || cbn in Hf; lia). done.
Qed.

Lemma insert_all_present order s :
  di_present (foldl (λ s h, index_insert h s) s order) = list_to_set order ∪ di_present s ∧
  di_expected_items (foldl (λ s h, index_insert h s) s order) = di_expected_items s ∧
  di_false_positive_rate (foldl (λ s h, index_insert h s) s order) = di_false_positive_rate s ∧
  (index_inv s → index_inv (foldl (λ s h, index_insert h s) s order)).
Proof using L.
  revert s. induction order as [|h order IH]; intros s; cbn [foldl].
  { split_and!; [change (di_present s = ∅ ∪ di_present s); by rewrite (left_id_L ∅ (∪))|done|done|done]. }
  destruct (IH (index_insert h s)) as (H1 & H2 & H3 & H4).
  split_and!; [|done|done|].
  { rewrite H1. cbn. by rewrite (assoc_L (∪)), (comm_L (∪) (list_to_set order) {[h]}). }
  intros Hs. by apply H4, insert_inv.
Qed.

Lemma flat_map_hash_length order : (length order ≤ length (flat_map enc_hash order))%nat.
Proof.
  induction order as [|h order IH]; [done|]. cbn [flat_map]. rewrite length_app.
  unfold enc_hash at 1. rewrite length_app, length_le_bytes. cbn [length]. lia.
Qed.

Lemma load_save reserve order s :
  reserve (Z.of_nat (length order)) = true → order ≡ₚ elements (di_present s) → Forall (λ h, len h < 2 ^ 32) order →
  is_u64 (di_expected_items s) → is_u64 (di_false_positive_rate s) → is_u64 (Z.of_nat (length order)) →
  ∃ s', load_from_reader reserve (save_to_writer_with_header order s) = Ok s' ∧ index_inv s' ∧
    di_present s' = di_present s ∧ di_expected_items s' = di_expected_items s ∧
    di_false_positive_rate s' = di_false_positive_rate s.
Proof using L.
  intros Hres Hp Hl He Hr Hc. unfold load_from_reader, save_to_writer_with_header, save_to_writer.
  rewrite (read_n_le 8). cbn [mbind res_bind]. rewrite (read_n_le 8). cbn [mbind res_bind].
  rewrite (read_n_le 8). cbn [mbind res_bind]. rewrite !le_u64 by done.
  rewrite Hres. cbn [negb]. set (s0 := mkIndex _ _ _ _ _).
  pose proof (load_loop_ok order (S (length (flat_map enc_hash order))) [] s0 Hl) as Hload.
  rewrite app_nil_r in Hload. rewrite Hload by (pose proof (flat_map_hash_length order); lia).
  destruct (insert_all_present order s0) as (H1 & H2 & H3 & H4).
  eexists. split; [done|]. split_and!; [apply H4; by intros h ?%elem_of_empty| |done|done].
  rewrite H1, Hp. cbn. rewrite union_empty_r_L. apply list_to_set_elements_L.
Qed.

(** Loading any file stops with an index or an I/O error, never by running out of
    fuel. *)
Lemma load_loop_total fuel : ∀ count bs s, (length bs < fuel)%nat →
  (∃ s', load_loop fuel count bs s = Ok s') ∨ load_loop fuel count bs s = Err (CasIo UnexpectedEof).
Proof.
  induction fuel as [|fuel IH]; intros count bs s Hf; [lia|]. cbn [load_loop].
  case_decide; [left; by eexists|]. unfold read_n.
  destruct (read_exact 4 bs) as [[b bs1]|] eqn:E1; [|by right]. cbn [ok_or mbind res_bind].
  apply read_exact_Some in E1.
  destruct (read_exact (le_decode b) bs1) as [[h bs2]|] eqn:E2; [|by right]. cbn [ok_or mbind res_bind].
  apply read_exact_Some in E2. destruct E1 as (Hb & _ & ->), E2 as (_ & _ & ->). apply IH.
  rewrite !length_drop. unfold len in Hb. lia.
Qed.
End index.
