(* ===== verification/Compression.v ===== *)
(** * Block compression

    [crates/slicefs-traits/src/compressor.rs] and [crates/slicefs-compression/src]: the
    [Compressor] trait, its three implementations and the self-describing block
    format.  The codecs ([zstd], [lz4_flex]) are third-party crates and parameters. *)

From S2P Require Import Prelude Text.
From stdpp Require Import base tactics numbers option list gmap strings.
Open Scope Z_scope.

(** [enum AlgorithmId]. *)
Inductive AlgorithmId := AlgNone | AlgZstd | AlgLz4 | AlgRaw.
Definition algorithm_u8 (a : AlgorithmId) : byte :=
  match a with AlgNone => Byte.x00 | AlgZstd => Byte.x01 | AlgLz4 => Byte.x02 | AlgRaw => Byte.x03 end.
Definition algorithm_from_u8 (v : byte) : option AlgorithmId :=
  match v with
  | Byte.x00 => Some AlgNone
  | Byte.x01 => Some AlgZstd
  | Byte.x02 => Some AlgLz4
  | Byte.x03 => Some AlgRaw
  | _ => None
  end.

(** [enum CompressorError]; the text of a codec's error is a parameter, too.  The last
    two are the messages of [Decompress] that the sources format, kept apart. *)
Inductive CompressorError :=
  | Compress (msg : string)
  | Decompress (msg : string)
  | UnknownAlgorithm (id : byte)
  | CannotDecompress (by_ : AlgorithmId) (data : AlgorithmId).

(** [trait Compressor]. *)
Record Compressor := mkCompressor {
  compress : bytes → res CompressorError (AlgorithmId * bytes);
  decompress : AlgorithmId → bytes → res CompressorError bytes;
  algorithm_id : AlgorithmId
}.

(** [zstd::encode_all], [zstd::Decoder] with [read_to_end],
    [lz4_flex::block::compress_prepend_size] and [decompress_size_prepended]. *)
Class Codecs := {
  zstd_encode : Z → bytes → string + bytes;
  zstd_decode : bytes → string + bytes;
  lz4_compress : bytes → bytes;
  lz4_decompress : bytes → string + bytes
}.
(** Decoding inverts encoding; the size that [lz4_flex] prepends has 32 bits. *)
Class CodecLaws (C : Codecs) : Prop := {
  zstd_inverse level bs out : zstd_encode level bs = inr out → zstd_decode out = inr bs;
  lz4_inverse bs : len bs < 2 ^ 32 → lz4_decompress (lz4_compress bs) = inr bs
}.

(** [r.map_err(f)] of a codec's result. *)
Definition codec_res {A} (f : string → CompressorError) (r : string + A) : res CompressorError A :=
  match r with inl e => Err (f e) | inr x => Ok x end.

Section compressors.
Context {C : Codecs}.

Definition zstd_compress (level : Z) (input : bytes) : res CompressorError (AlgorithmId * bytes) :=
  if decide (input = []) then Ok (AlgRaw, []) else
  compressed ← codec_res Compress (zstd_encode level input);
  if decide (len input ≤ len compressed) then Ok (AlgRaw, input) else Ok (AlgZstd, compressed).
Definition zstd_decompress (algorithm : AlgorithmId) (input : bytes) : res CompressorError bytes :=
  match algorithm with
  | AlgZstd => codec_res Decompress (zstd_decode input)
  | AlgRaw | AlgNone => Ok input
  | other => Err (CannotDecompress AlgZstd other)
  end.
Definition zstd_compressor (level : Z) : Compressor :=
  mkCompressor (zstd_compress level) zstd_decompress AlgZstd.

Definition lz4_compress_block (input : bytes) : res CompressorError (AlgorithmId * bytes) :=
  if decide (input = []) then Ok (AlgRaw, []) else
  let compressed := lz4_compress input in
  if decide (len input ≤ len compressed) then Ok (AlgRaw, input) else Ok (AlgLz4, compressed).
Definition lz4_decompress_block (algorithm : AlgorithmId) (input : bytes) : res CompressorError bytes :=
  match algorithm with
  | AlgLz4 => codec_res Decompress (lz4_decompress input)
  | AlgRaw | AlgNone => Ok input
  | other => Err (CannotDecompress AlgLz4 other)
  end.
Definition lz4_compressor : Compressor := mkCompressor lz4_compress_block lz4_decompress_block AlgLz4.

Definition none_compress (input : bytes) : res CompressorError (AlgorithmId * bytes) := Ok (AlgNone, input).
Definition none_decompress (algorithm : AlgorithmId) (input : bytes) : res CompressorError bytes :=
  match algorithm with
  | AlgNone | AlgRaw => Ok input
  | other => Err (CannotDecompress AlgNone other)
  end.
Definition none_compressor : Compressor := mkCompressor none_compress none_decompress AlgNone.

(** [compress_block]: a failure of the codec falls back to [Raw]. *)
Definition compress_block (c : Compressor) (raw : bytes) : res CompressorError bytes :=
  match compress c raw with
  | Ok (algo, payload) => Ok (algorithm_u8 algo :: payload)
  | Err _ => Ok (algorithm_u8 AlgRaw :: raw)
  | Panic => Panic
  end.

Definition decompress_block (c : Compressor) (wire : bytes) : res CompressorError bytes :=
  match wire with
  | [] => Ok []
  | id :: payload =>
      algo ← ok_or (algorithm_from_u8 id) (UnknownAlgorithm id);
      decompress c algo payload
  end.

(** [parse_compressor(name, level)]. *)
Definition parse_compressor (name : bytes) (level : option Z) : res CompressorError Compressor :=
  if decide (name = str "zstd") then Ok (zstd_compressor (default 3 level))
  else if decide (name = str "lz4") then Ok lz4_compressor
  else if decide (name = str "none") then Ok none_compressor
  else Panic.

(* ------------------------------------------------------------------------ *)
(** ** Laws of a compressor *)

(** What the trait asks for: [decompress] inverts [compress] and accepts raw data, and
    nothing that is compressed gets longer. *)
Record lawful (c : Compressor) (bs : bytes) : Prop := {
  lawful_raw : decompress c AlgRaw bs = Ok bs;
  lawful_inverse algo out : compress c bs = Ok (algo, out) →
                            decompress c algo out = Ok bs ∧ len out ≤ len bs;
  lawful_no_panic : compress c bs ≠ Panic
}.

Lemma algorithm_u8_inv a : algorithm_from_u8 (algorithm_u8 a) = Some a.
Proof. by destruct a. Qed.

Lemma algorithm_from_u8_inv v a : algorithm_from_u8 v = Some a → algorithm_u8 a = v.
Proof. destruct v; cbn; intros [= <-]; done. Qed.

Context {L : CodecLaws C}.

Lemma zstd_lawful level bs : lawful (zstd_compressor level) bs.
Proof using L.
  split; [done| |].
  - intros algo out. cbn. unfold zstd_compress. case_decide as He; [intros [= <- <-]; by rewrite He|].
    destruct (zstd_encode level bs) as [e|x] eqn:E; cbn; [done|].
    case_decide; intros [= <- <-]; [done|]. cbn. rewrite (zstd_inverse _ _ _ E). cbn. split; [done|lia].
  - cbn. unfold zstd_compress. case_decide; [done|]. destruct (zstd_encode level bs); cbn; [done|].
    by case_decide.
Qed.

Lemma lz4_lawful bs : len bs < 2 ^ 32 → lawful lz4_compressor bs.
Proof using L.
  intros Hl. split; [done| |].
  - intros algo out. cbn. unfold lz4_compress_block. case_decide as He; [intros [= <- <-]; by rewrite He|].
    case_decide; intros [= <- <-]; [done|]. cbn. rewrite lz4_inverse by done. cbn. split; [done|lia].
  - cbn. unfold lz4_compress_block. case_decide; [done|]. by case_decide.
Qed.

Lemma none_lawful bs : lawful none_compressor bs.
Proof. split; [done| |done]. by intros algo out [= <- <-]. Qed.

Lemma parse_compressor_lawful name level c bs :
  parse_compressor name level = Ok c → len bs < 2 ^ 32 → lawful c bs.
Proof using L.
  unfold parse_compressor. intros H Hl.
  repeat case_decide; simplify_eq; [apply zstd_lawful|by apply lz4_lawful|apply none_lawful].
Qed.

Lemma block_roundtrip c bs :
  lawful c bs → ∃ wire, compress_block c bs = Ok wire ∧ len wire ≤ len bs + 1 ∧
                        decompress_block c wire = Ok bs.
Proof.
  intros [Hraw Hinv Hnp]. unfold compress_block. destruct (compress c bs) as [[algo out]|e|] eqn:E; [| |done].
  - destruct (Hinv _ _ eq_refl) as [Hd Hl]. eexists. split; [done|]. split; [unfold len in *; cbn; lia|].
    cbn [decompress_block]. rewrite algorithm_u8_inv. exact Hd.
  - eexists. split; [done|]. split; [unfold len; cbn; lia|]. exact Hraw.
Qed.
End compressors.
