(* ===== verification/Wal.v ===== *)
(** * Write-ahead log strategies

    [crates/metadata/src/wal/]: the [WalStrategy] trait, its four
    implementations and the [create_wal] factory.  [WalLaws] states what the
    three durable strategies promise to the metadata store: which logged entries
    survive a crash.  The theorems about recovery are proved against it. *)

From S2P Require Import Prelude Types Text Segment.
From stdpp Require Import base tactics numbers option list gmap strings.
Open Scope Z_scope.

(** [enum WalEntry]. *)
Inductive WalEntry :=
  | WalRootUpdate (root : Digest224)
  | WalSnapshot (version : Z) (root : Digest224) (created_at : Z) (name : option bytes).

(** [enum WalError]. *)
Inductive WalError := WalIo (e : IoError).

(** [enum WalConfig]. *)
Inductive WalConfig :=
  | CfgPerOp
  | CfgFlushOnFsync
  | CfgPeriodic (interval_secs : Z)
  | CfgNoWal.

(** [wal_entry_to_segment]. *)
Definition wal_entry_to_segment (entry : WalEntry) : SegmentEntry :=
  match entry with
  | WalRootUpdate root => RootUpdate root
  | WalSnapshot version root created_at name => SnapshotRecord version root created_at name
  end.

(** [trait WalStrategy]. *)
Class WalStrategy (W : Type) := {
  log_mutation : WalEntry → M W WalError unit;
  flush_and_sync : M W WalError unit;
  shutdown : M W WalError unit
}.

(** [writer.sync()?]. *)
Definition sync_writer : M SegmentWriter WalError unit := λ w,
  let '(w', ok) := segment_sync w in
  (w', if ok then Ok tt else Err (WalIo (OtherIo "sync_all"))).

(** [struct PerOpWal]: one writer, synced by every call. *)
Record PerOpWal := mkPerOp { po_writer : SegmentWriter }.
Definition per_op_new (segment_id : Z) (faults : list bool) : PerOpWal :=
  mkPerOp (segment_writer_new segment_id faults).
Definition per_op_sync : M PerOpWal WalError unit :=
  zoom po_writer (λ w _, mkPerOp w) sync_writer.
Definition per_op_log (entry : WalEntry) : M PerOpWal WalError unit :=
  _ ← modify (λ s, mkPerOp (write_entry (wal_entry_to_segment entry) (po_writer s)));
  per_op_sync.
#[export] Instance per_op_strategy : WalStrategy PerOpWal := {|
  log_mutation := per_op_log;
  flush_and_sync := per_op_sync;
  shutdown := per_op_sync
|}.

(** [for entry in buffer.drain(..) { writer.write_entry(..)?; } writer.sync()?]. *)
Definition drain_buffer (buffer : list WalEntry) (w : SegmentWriter) : SegmentWriter :=
  foldl (λ w entry, write_entry (wal_entry_to_segment entry) w) w buffer.

(** [struct FlushOnFsyncWal]. *)
Record FlushOnFsyncWal := mkFlush { fl_buffer : list WalEntry; fl_writer : SegmentWriter }.
Definition flush_on_fsync_new (segment_id : Z) (faults : list bool) : FlushOnFsyncWal :=
  mkFlush [] (segment_writer_new segment_id faults).
Definition flush_on_fsync_log (entry : WalEntry) : M FlushOnFsyncWal WalError unit :=
  modify (λ s, mkFlush (fl_buffer s ++ [entry]) (fl_writer s)).
Definition flush_on_fsync_flush : M FlushOnFsyncWal WalError unit :=
  _ ← modify (λ s, mkFlush [] (drain_buffer (fl_buffer s) (fl_writer s)));
  zoom fl_writer (λ w s, mkFlush (fl_buffer s) w) sync_writer.
#[export] Instance flush_on_fsync_strategy : WalStrategy FlushOnFsyncWal := {|
  log_mutation := flush_on_fsync_log;
  flush_and_sync := flush_on_fsync_flush;
  shutdown := flush_on_fsync_flush
|}.

(** [struct PeriodicWal]: the same structure; the timer calls [flush_and_sync]. *)
Record PeriodicWal := mkPeriodic { pe_buffer : list WalEntry; pe_writer : SegmentWriter }.
Definition periodic_new (segment_id : Z) (faults : list bool) : PeriodicWal :=
  mkPeriodic [] (segment_writer_new segment_id faults).
Definition periodic_log (entry : WalEntry) : M PeriodicWal WalError unit :=
  modify (λ s, mkPeriodic (pe_buffer s ++ [entry]) (pe_writer s)).
Definition periodic_flush : M PeriodicWal WalError unit :=
  _ ← modify (λ s, mkPeriodic [] (drain_buffer (pe_buffer s) (pe_writer s)));
  zoom pe_writer (λ w s, mkPeriodic (pe_buffer s) w) sync_writer.
#[export] Instance periodic_strategy : WalStrategy PeriodicWal := {|
  log_mutation := periodic_log;
  flush_and_sync := periodic_flush;
  shutdown := periodic_flush
|}.

(** [struct NoWal]. *)
Inductive NoWal : Set := mkNoWal.
#[export] Instance no_wal_strategy : WalStrategy NoWal := {|
  log_mutation := λ _, mret tt;
  flush_and_sync := mret tt;
  shutdown := mret tt
|}.

(** [Box<dyn WalStrategy>]: dynamic dispatch. *)
Inductive WalBox :=
  | BoxPerOp (w : PerOpWal)
  | BoxFlushOnFsync (w : FlushOnFsyncWal)
  | BoxPeriodic (w : PeriodicWal)
  | BoxNoWal (w : NoWal).

Definition box_call (f : ∀ W, WalStrategy W → M W WalError unit) : M WalBox WalError unit :=
  λ b, match b with
       | BoxPerOp w => let '(w, r) := f _ _ w in (BoxPerOp w, r)
       | BoxFlushOnFsync w => let '(w, r) := f _ _ w in (BoxFlushOnFsync w, r)
       | BoxPeriodic w => let '(w, r) := f _ _ w in (BoxPeriodic w, r)
       | BoxNoWal w => let '(w, r) := f _ _ w in (BoxNoWal w, r)
       end.
#[export] Instance box_strategy : WalStrategy WalBox := {|
  log_mutation := λ e, box_call (λ _ _, log_mutation e);
  flush_and_sync := box_call (λ _ _, flush_and_sync);
  shutdown := box_call (λ _ _, shutdown)
|}.

(** [create_wal(config, store_path, segment_id)]. *)
Definition create_wal (config : WalConfig) (segment_id : Z) (faults : list bool) : WalBox :=
  match config with
  | CfgPerOp => BoxPerOp (per_op_new segment_id faults)
  | CfgFlushOnFsync => BoxFlushOnFsync (flush_on_fsync_new segment_id faults)
  | CfgPeriodic _ => BoxPeriodic (periodic_new segment_id faults)
  | CfgNoWal => BoxNoWal mkNoWal
  end.

(** The writer inside the box. *)
Definition box_writer (b : WalBox) : SegmentWriter :=
  match b with
  | BoxPerOp w => po_writer w
  | BoxFlushOnFsync w => fl_writer w
  | BoxPeriodic w => pe_writer w
  | BoxNoWal _ => mkSegWriter [] [] []
  end.

(* ------------------------------------------------------------------------ *)
(** ** Crashes *)

(** After a crash the file holds everything that was synced and any part of
    what was written after that. *)
Definition crash_image (w : SegmentWriter) (file : bytes) : Prop :=
  ∃ k, (length (sw_synced w) ≤ k)%nat ∧ file = take k (sw_synced w ++ sw_pending w).

Lemma crash_image_synced w : crash_image w (sw_synced w).
Proof. exists (length (sw_synced w)). split; [done|]. by rewrite take_app_length. Qed.

(** What the next mount reads from the file. *)
Definition recovered (file : bytes) : res IoError (list SegmentEntry) :=
  files_entries [([], file)].

Definition wf_walentry (e : WalEntry) : Prop := wf_segentry (wal_entry_to_segment e).

(** What a strategy promises: [wal_rep id w durable logged] relates its state to
    the entries logged so far and the part of them that survives a crash. *)
Class WalLaws (W : Type) `{WalStrategy W} := {
  wal_rep : Z → W → list WalEntry → list WalEntry → Prop;
  wal_writer : W → SegmentWriter;
  wal_log_spec id w d l e w' r :
    wal_rep id w d l → wf_walentry e → log_mutation e w = (w', r) →
    r ≠ Panic ∧ ∃ d', wal_rep id w' d' (l ++ [e]) ∧ d `prefix_of` d';
  wal_flush_spec id w d l w' r :
    wal_rep id w d l → flush_and_sync w = (w', r) →
    r ≠ Panic ∧ ∃ d', wal_rep id w' d' l ∧ d `prefix_of` d' ∧ (r = Ok tt → d' = l);
  wal_shutdown_spec id w d l w' r :
    wal_rep id w d l → shutdown w = (w', r) →
    r ≠ Panic ∧ ∃ d', wal_rep id w' d' l ∧ d `prefix_of` d' ∧ (r = Ok tt → d' = l);
  wal_crash_spec id w d l file :
    is_u64 id → wal_rep id w d l → crash_image (wal_writer w) file →
    ∃ es, recovered file = Ok (wal_entry_to_segment <$> es) ∧
          d `prefix_of` es ∧ es `prefix_of` l
}.

(* ------------------------------------------------------------------------ *)
(** ** The writer shared by the strategies *)

Definition frames (es : list WalEntry) : bytes := flat_map frame (wal_entry_to_segment <$> es).
Definition seg_header (id : Z) : bytes := segment_header_to_bytes (segment_header_new id).

(** [w] is the writer of segment [id] with [s] synced and [p] pending; before
    the first sync not even the header is. *)
Definition writer_rep (id : Z) (w : SegmentWriter) (s p : list WalEntry) : Prop :=
  Forall wf_walentry (s ++ p) ∧
  sw_synced w ++ sw_pending w = seg_header id ++ frames (s ++ p) ∧
  ((s = [] ∧ sw_synced w = []) ∨ sw_synced w = seg_header id ++ frames s).

Lemma frames_app a b : frames (a ++ b) = frames a ++ frames b.
Proof. unfold frames. by rewrite fmap_app, flat_map_app. Qed.

Lemma writer_rep_new id faults : writer_rep id (segment_writer_new id faults) [] [].
Proof. split_and!; [done|cbn; by rewrite app_nil_r|by left]. Qed.

Lemma writer_rep_write id w s p e :
  writer_rep id w s p → wf_walentry e →
  writer_rep id (write_entry (wal_entry_to_segment e) w) s (p ++ [e]).
Proof.
  intros (Hwf & Hb & Hs) He. split_and!; [|cbn [write_entry sw_synced sw_pending]|done].
  - rewrite app_assoc. apply Forall_app. split; [done|by constructor].
  - rewrite (app_assoc s), (frames_app (s ++ p)), app_assoc, Hb, <-!app_assoc.
    unfold frames at 3. cbn. by rewrite app_nil_r.
Qed.

Lemma writer_rep_drain id w s p b :
  writer_rep id w s p → Forall wf_walentry b → writer_rep id (drain_buffer b w) s (p ++ b).
Proof.
  intros Hw Hb. revert w p Hw. induction Hb as [|e b He _ IH]; intros w p Hw.
  { by rewrite app_nil_r. }
  cbn. replace (p ++ e :: b) with ((p ++ [e]) ++ b) by by rewrite <-app_assoc.
  apply IH. by apply writer_rep_write.
Qed.

Lemma writer_rep_sync id w s p w' r :
  writer_rep id w s p → sync_writer w = (w', r) →
  (r = Ok tt ∧ writer_rep id w' (s ++ p) []) ∨
  (∃ e, r = Err e ∧ writer_rep id w' s p).
Proof.
  intros (Hwf & Hb & Hs). unfold sync_writer, segment_sync.
  destruct (sw_faults w) as [|[] fs]; cbn; intros [= <- <-].
  - left. split; [done|]. split_and!; cbn; rewrite ?app_nil_r; [done|done|by right].
  - right. eexists. split; [done|]. by split_and!.
  - left. split; [done|]. split_and!; cbn; rewrite ?app_nil_r; [done|done|by right].
Qed.

(** No sync is going to fail. *)
Definition calm (faults : list bool) : Prop := Forall (eq false) faults.

Lemma sync_calm w w' r :
  sync_writer w = (w', r) → calm (sw_faults w) → r = Ok tt ∧ calm (sw_faults w').
Proof.
  unfold sync_writer, segment_sync. intros H Hc.
  destruct (sw_faults w) as [|[] fs]; [|by apply Forall_cons in Hc as []|]; injection H as <- <-.
  - by split; [|constructor].
  - split; [done|]. by apply Forall_cons in Hc as [].
Qed.

Lemma drain_buffer_faults b w : sw_faults (drain_buffer b w) = sw_faults w.
Proof.
  revert w. induction b as [|e b IH]; intros w; [done|].
  by etransitivity; [apply (IH (write_entry (wal_entry_to_segment e) w))|].
Qed.

Lemma fmap_prefix (a b : list WalEntry) :
  a `prefix_of` b → (wal_entry_to_segment <$> a) `prefix_of` (wal_entry_to_segment <$> b).
Proof. intros [c ->]. rewrite fmap_app. by eexists. Qed.

(** Every entry list read back from a cut log is the image of a prefix. *)
Lemma prefix_fmap_inv (es : list SegmentEntry) (l : list WalEntry) :
  es `prefix_of` (wal_entry_to_segment <$> l) →
  ∃ l', es = wal_entry_to_segment <$> l' ∧ l' `prefix_of` l.
Proof.
  intros [c Hc]. exists (take (length es) l). split.
  - rewrite fmap_take, Hc, take_app_length. done.
  - exists (drop (length es) l). by rewrite take_drop.
Qed.

#[export] Instance wal_entry_to_segment_inj : Inj (=) (=) wal_entry_to_segment.
Proof. intros [] []; cbn; intros; simplify_eq; done. Qed.

Lemma prefix_fmap_iff (a b : list WalEntry) :
  (wal_entry_to_segment <$> a) `prefix_of` (wal_entry_to_segment <$> b) → a `prefix_of` b.
Proof.
  intros (a' & Heq & Hp)%prefix_fmap_inv. apply (inj (fmap _)) in Heq. by subst.
Qed.

Lemma writer_rep_crash id w s p file :
  is_u64 id → writer_rep id w s p → crash_image w file →
  ∃ es, recovered file = Ok (wal_entry_to_segment <$> es) ∧
        s `prefix_of` es ∧ es `prefix_of` (s ++ p).
Proof.
  intros Hid (Hwf & Hb & Hs) (k & Hk & ->). unfold recovered, files_entries. cbn [foldr snd].
  pose proof (length_header id) as Hh.
  assert (length (seg_header id) = 16%nat) as Hh' by done.
  destruct (decide (k < 16)%nat) as [Hk16|Hk16].
  - assert (s = []) as ->.
    { destruct Hs as [[-> _]|Hs]; [done|]. rewrite Hs, length_app, Hh' in Hk. lia. }
    rewrite decide_True by (unfold len; rewrite length_take; lia).
    exists []. split_and!; [done|done|apply prefix_nil].
  - rewrite Hb, take_app_ge by lia. rewrite decide_False
      by (unfold len; rewrite length_app, Hh'; lia).
    unfold read_segment, seg_header. rewrite segment_open_header by done. cbn [fmap res_fmap mbind res_bind].
    destruct (read_truncated (k - length (seg_header id)) (wal_entry_to_segment <$> (s ++ p)))
      as (es' & Hes' & Hp & Hmax).
    { apply Forall_fmap. exact Hwf. }
    unfold frames, seg_header in *. rewrite Hes'. cbn [mbind res_bind]. rewrite app_nil_r.
    destruct (prefix_fmap_inv _ _ Hp) as (l' & -> & Hl').
    exists l'. split_and!; [done| |done]. apply prefix_fmap_iff, Hmax.
    { apply fmap_prefix. by eexists. }
    destruct Hs as [[-> _]|Hs]; [cbn; lia|]. rewrite Hs, length_app, Hh' in Hk. lia.
Qed.

(** The whole file of a writer, as a process that ends without a crash leaves it. *)
Lemma writer_rep_file id w s p :
  is_u64 id → writer_rep id w s p →
  recovered (sw_synced w ++ sw_pending w) = Ok (wal_entry_to_segment <$> (s ++ p)).
Proof.
  intros Hid (Hwf & Hb & _).
  set (w' := mkSegWriter (sw_synced w ++ sw_pending w) [] []).
  assert (writer_rep id w' (s ++ p) []) as Hw'.
  { split_and!; [by rewrite app_nil_r|cbn; by rewrite !app_nil_r|by right]. }
  destruct (writer_rep_crash id w' _ _ _ Hid Hw' (crash_image_synced w')) as (es & Hes & H1 & H2).
  change (sw_synced w') with (sw_synced w ++ sw_pending w) in Hes. rewrite Hes.
  rewrite app_nil_r in H2. by rewrite (anti_symm prefix _ _ H1 H2).
Qed.

(* ------------------------------------------------------------------------ *)
(** ** The durable strategies keep their promise *)

(** Syncing, whatever its outcome, keeps the log and can only extend its
    durable part; a successful sync makes all of it durable. *)
Lemma sync_durable id w d p w' r :
  writer_rep id w d p → sync_writer w = (w', r) →
  r ≠ Panic ∧ ∃ d' p', writer_rep id w' d' p' ∧ d' ++ p' = d ++ p ∧ d `prefix_of` d' ∧
                       (r = Ok tt → p' = []).
Proof.
  intros Hw Hs. destruct (writer_rep_sync _ _ _ _ _ _ Hw Hs) as [[-> H]|(e & -> & H)].
  - split; [done|]. exists (d ++ p), []. split_and!; [done|by rewrite app_nil_r|by eexists|done].
  - split; [done|]. by exists d, p.
Qed.

Definition per_op_rep (id : Z) (w : PerOpWal) (d l : list WalEntry) : Prop :=
  ∃ p, l = d ++ p ∧ writer_rep id (po_writer w) d p.

Lemma per_op_sync_spec id w d l w' r :
  per_op_rep id w d l → per_op_sync w = (w', r) →
  r ≠ Panic ∧ ∃ d', per_op_rep id w' d' l ∧ d `prefix_of` d' ∧ (r = Ok tt → d' = l).
Proof.
  intros (p & -> & Hw). unfold per_op_sync, zoom.
  destruct (sync_writer _) as [w1 r1] eqn:Es. intros [= <- <-].
  destruct (sync_durable _ _ _ _ _ _ Hw Es) as (? & d' & p' & H & Heq & Hp & Hok).
  split; [done|]. exists d'. split_and!; [by exists p'|done|].
  intros ->. rewrite <-Heq, Hok by done. by rewrite app_nil_r.
Qed.

Lemma per_op_log_spec id w d l e w' r :
  per_op_rep id w d l → wf_walentry e → per_op_log e w = (w', r) →
  r ≠ Panic ∧ ∃ d', per_op_rep id w' d' (l ++ [e]) ∧ d `prefix_of` d' ∧
                    (r = Ok tt → d' = l ++ [e]).
Proof.
  intros (p & -> & Hw) He. unfold per_op_log. rewrite run_bind. cbn [modify].
  intros Hs. eapply per_op_sync_spec; [|exact Hs].
  exists (p ++ [e]). rewrite <-app_assoc. split; [done|]. by apply writer_rep_write.
Qed.

#[export] Program Instance per_op_laws : WalLaws PerOpWal := {|
  wal_rep := per_op_rep;
  wal_writer := po_writer
|}.
Next Obligation.
  intros id w d l e w' r Hw He Hl.
  destruct (per_op_log_spec _ _ _ _ _ _ _ Hw He Hl) as (? & d' & ? & ? & _). eauto.
Qed.
Next Obligation. intros. by eapply per_op_sync_spec. Qed.
Next Obligation. intros. by eapply per_op_sync_spec. Qed.
Next Obligation. intros id w d l file Hid (p & -> & Hw) Hc. by eapply writer_rep_crash. Qed.

(** The two buffering strategies keep a list of entries before the writer. *)
Definition buffered_rep (id : Z) (w : SegmentWriter) (buf d l : list WalEntry) : Prop :=
  ∃ p, l = d ++ p ++ buf ∧ writer_rep id w d p ∧ Forall wf_walentry buf.

Lemma buffered_log id w buf d l e :
  buffered_rep id w buf d l → wf_walentry e → buffered_rep id w (buf ++ [e]) d (l ++ [e]).
Proof.
  intros (p & -> & Hw & Hb) He. exists p. rewrite !app_assoc. split_and!; [done|done|].
  apply Forall_app. split; [done|by constructor].
Qed.

Lemma buffered_flush id w buf d l w' r :
  buffered_rep id w buf d l → sync_writer (drain_buffer buf w) = (w', r) →
  r ≠ Panic ∧ ∃ d', buffered_rep id w' [] d' l ∧ d `prefix_of` d' ∧ (r = Ok tt → d' = l).
Proof.
  intros (p & -> & Hw & Hb) Hs.
  pose proof (writer_rep_drain _ _ _ _ _ Hw Hb) as Hw'.
  destruct (sync_durable _ _ _ _ _ _ Hw' Hs) as (? & d' & p' & H & Heq & Hp & Hok).
  split; [done|]. exists d'. split_and!; [exists p'; rewrite app_nil_r; by split_and!|done|].
  intros ->. rewrite <-Heq, Hok by done. by rewrite app_nil_r.
Qed.

Lemma buffered_crash id w buf d l file :
  is_u64 id → buffered_rep id w buf d l → crash_image w file →
  ∃ es, recovered file = Ok (wal_entry_to_segment <$> es) ∧ d `prefix_of` es ∧ es `prefix_of` l.
Proof.
  intros Hid (p & -> & Hw & _) Hc.
  destruct (writer_rep_crash _ _ _ _ _ Hid Hw Hc) as (es & ? & ? & Hp).
  exists es. split_and!; [done|done|]. etransitivity; [exact Hp|]. exists buf. by rewrite app_assoc.
Qed.

Definition flush_on_fsync_rep (id : Z) (w : FlushOnFsyncWal) (d l : list WalEntry) : Prop :=
  buffered_rep id (fl_writer w) (fl_buffer w) d l.

Lemma flush_on_fsync_flush_spec id w d l w' r :
  flush_on_fsync_rep id w d l → flush_on_fsync_flush w = (w', r) →
  r ≠ Panic ∧ ∃ d', flush_on_fsync_rep id w' d' l ∧ d `prefix_of` d' ∧ (r = Ok tt → d' = l).
Proof.
  unfold flush_on_fsync_rep. intros Hw. unfold flush_on_fsync_flush, zoom. rewrite run_bind. cbn [modify fl_writer fl_buffer].
  destruct (sync_writer _) as [w1 r1] eqn:Es. intros [= <- <-]. by eapply buffered_flush.
Qed.

Definition periodic_rep (id : Z) (w : PeriodicWal) (d l : list WalEntry) : Prop :=
  buffered_rep id (pe_writer w) (pe_buffer w) d l.

Lemma periodic_flush_spec id w d l w' r :
  periodic_rep id w d l → periodic_flush w = (w', r) →
  r ≠ Panic ∧ ∃ d', periodic_rep id w' d' l ∧ d `prefix_of` d' ∧ (r = Ok tt → d' = l).
Proof.
  unfold periodic_rep. intros Hw. unfold periodic_flush, zoom. rewrite run_bind. cbn [modify pe_writer pe_buffer].
  destruct (sync_writer _) as [w1 r1] eqn:Es. intros [= <- <-]. by eapply buffered_flush.
Qed.

#[export] Program Instance flush_on_fsync_laws : WalLaws FlushOnFsyncWal := {|
  wal_rep := flush_on_fsync_rep;
  wal_writer := fl_writer
|}.
Next Obligation.
  intros id w d l e w' r Hw He [= <- <-]. split; [done|]. exists d. split; [|done].
  by apply buffered_log.
Qed.
Next Obligation. intros. by eapply flush_on_fsync_flush_spec. Qed.
Next Obligation. intros. by eapply flush_on_fsync_flush_spec. Qed.
Next Obligation. intros. by eapply buffered_crash. Qed.

#[export] Program Instance periodic_laws : WalLaws PeriodicWal := {|
  wal_rep := periodic_rep;
  wal_writer := pe_writer
|}.
Next Obligation.
  intros id w d l e w' r Hw He [= <- <-]. split; [done|]. exists d. split; [|done].
  by apply buffered_log.
Qed.
Next Obligation. intros. by eapply periodic_flush_spec. Qed.
Next Obligation. intros. by eapply periodic_flush_spec. Qed.
Next Obligation. intros. by eapply buffered_crash. Qed.

(* ------------------------------------------------------------------------ *)
(** ** Histories *)

(** A call on the log, and what it returned. *)
Inductive WalOp := OpLog (e : WalEntry) | OpFlush | OpShutdown.

Section histories.
Context {W : Type} `{WalLaws W}.

Definition wal_call (o : WalOp) : M W WalError unit :=
  match o with
  | OpLog e => log_mutation e
  | OpFlush => flush_and_sync
  | OpShutdown => shutdown
  end.

(** Run calls in order, whatever they return; the result says for each call
    whether it was [Ok]. *)
Fixpoint wal_run (ops : list WalOp) (w : W) : W * list bool :=
  match ops with
  | [] => (w, [])
  | o :: ops =>
      let '(w, r) := wal_call o w in
      let '(w, rs) := wal_run ops w in
      (w, match r with Ok _ => true | _ => false end :: rs)
  end.

Definition op_entry (o : WalOp) : option WalEntry :=
  match o with OpLog e => Some e | _ => None end.
(** The entries a history logs. *)
Definition logged (ops : list WalOp) : list WalEntry := omap op_entry ops.

(** What an acknowledged flush or shutdown covers: the entries logged before
    the last one.  ([PerOpWal] promises more, see [per_op_log_durable].) *)
Fixpoint acknowledged (ops : list WalOp) (rs : list bool) (seen acc : list WalEntry)
    : list WalEntry :=
  match ops, rs with
  | OpLog e :: ops, _ :: rs => acknowledged ops rs (seen ++ [e]) acc
  | _ :: ops, ok :: rs => acknowledged ops rs seen (if ok then seen else acc)
  | _, _ => acc
  end.

Definition wf_op (o : WalOp) : Prop :=
  match o with OpLog e => wf_walentry e | _ => True end.

Lemma wal_run_rep ops : ∀ id w d l acc w' rs,
  wal_rep id w d l → Forall wf_op ops → acc `prefix_of` d →
  wal_run ops w = (w', rs) →
  ∃ d', wal_rep id w' d' (l ++ logged ops) ∧ acknowledged ops rs l acc `prefix_of` d'.
Proof.
  induction ops as [|o ops IH]; intros id w d l acc w' rs Hw Hwf Hacc.
  { intros [= <- <-]. exists d. unfold logged. cbn. by rewrite app_nil_r. }
  inversion_clear Hwf as [|? ? Ho Hops]. cbn [wal_run].
  destruct (wal_call o w) as [w1 r] eqn:E1.
  destruct (wal_run ops w1) as [w2 rs2] eqn:E2. intros [= <- <-].
  destruct o as [e| |]; cbn [wal_call] in E1.
  - destruct (wal_log_spec _ _ _ _ _ _ _ Hw Ho E1) as (_ & d' & Hw' & Hp).
    destruct (IH id w1 d' (l ++ [e]) acc w2 rs2) as (d2 & H2 & Ha); [done|done|by etransitivity|done|].
    exists d2. cbn. rewrite <-app_assoc in H2. done.
  - destruct (wal_flush_spec _ _ _ _ _ _ Hw E1) as (Hnp & d' & Hw' & Hp & Hok).
    eapply IH in E2; [exact E2|exact Hw'|done|].
    destruct r as [[]| |]; [by rewrite Hok|by etransitivity|done].
  - destruct (wal_shutdown_spec _ _ _ _ _ _ Hw E1) as (Hnp & d' & Hw' & Hp & Hok).
    eapply IH in E2; [exact E2|exact Hw'|done|].
    destruct r as [[]| |]; [by rewrite Hok|by etransitivity|done].
Qed.

(** After any history and a crash, the next mount reads back a prefix of what
    was logged that contains everything acknowledged. *)
Lemma wal_recovery id w ops w' rs file :
  is_u64 id → wal_rep id w [] [] → Forall wf_op ops →
  wal_run ops w = (w', rs) → crash_image (wal_writer w') file →
  ∃ es, recovered file = Ok (wal_entry_to_segment <$> es) ∧
        acknowledged ops rs [] [] `prefix_of` es ∧ es `prefix_of` logged ops.
Proof.
  intros Hid Hw Hops Hr Hc.
  destruct (wal_run_rep ops id w [] [] [] w' rs Hw Hops) as (d & Hd & Ha); [done|done|].
  destruct (wal_crash_spec _ _ _ _ _ Hid Hd Hc) as (es & ? & ? & ?).
  exists es. split_and!; [done|by etransitivity|done].
Qed.
End histories.

Lemma per_op_new_rep id faults : per_op_rep id (per_op_new id faults) [] [].
Proof. exists []. split; [done|apply writer_rep_new]. Qed.

Lemma buffered_new_rep id faults : buffered_rep id (segment_writer_new id faults) [] [] [].
Proof. exists []. split_and!; [done|apply writer_rep_new|done]. Qed.

(** With the per-operation strategy every logged entry whose call returned [Ok]
    is durable when the call returns. *)
Lemma per_op_log_durable id w d l e w' file :
  is_u64 id → per_op_rep id w d l → wf_walentry e →
  log_mutation e w = (w', Ok tt) → crash_image (po_writer w') file →
  recovered file = Ok (wal_entry_to_segment <$> (l ++ [e])).
Proof.
  intros Hid Hw He Hl Hc.
  destruct (per_op_log_spec _ _ _ _ _ _ _ Hw He Hl) as (_ & d' & Hw' & _ & Hok).
  rewrite Hok in Hw' by done.
  destruct (wal_crash_spec (WalLaws := per_op_laws) _ _ _ _ _ Hid Hw' Hc) as (es & -> & H1 & H2).
  f_equal. f_equal. apply (anti_symm prefix); done.
Qed.
