(* ===== verification/SegmentDir.v ===== *)
(** * Directories of numbered segments

    The segment files of a store are named [segment-{id:06}.seg].  [dir_rep] reads
    a directory as a finite map from segment numbers to files; up to six digits
    the order of the names is the order of the numbers, so that the log a
    directory denotes is that of the map. *)

From S2P Require Import Prelude Types Text Segment Wal.
From stdpp Require Import base tactics numbers option list gmap strings sorting.
Open Scope Z_scope.

(** [format!("segment-{:06}.seg", id)]. *)
Definition seg_name (id : Z) : bytes := seg_file_name 6 id.
(** The numbers that six digits can hold. *)
Definition seg_number (id : Z) : Prop := 0 ≤ id < 10 ^ 6.

Record dir_rep (dir : gmap bytes bytes) (m : gmap Z bytes) : Prop := {
  dir_named name f : dir !! name = Some f → is_segment_name name = true →
                     ∃ k, name = seg_name k ∧ m !! k = Some f;
  dir_numbered k f : m !! k = Some f → seg_number k ∧ dir !! seg_name k = Some f
}.

Definition by_number (p : Z * bytes) : bytes * bytes := (seg_name p.1, p.2).

Lemma starts_with_app p s : starts_with p (p ++ s) = true.
Proof. unfold starts_with. rewrite take_app_length. by apply bool_decide_eq_true. Qed.

Lemma ends_with_app p s : ends_with p (s ++ p) = true.
Proof.
  unfold ends_with. rewrite length_app, Nat.add_sub, drop_app_length.
  rewrite !bool_decide_eq_true_2; [done|done|lia].
Qed.

Lemma is_segment_name_file w id : is_segment_name (seg_file_name w id) = true.
Proof.
  unfold is_segment_name, seg_file_name. rewrite starts_with_app, app_assoc, ends_with_app. done.
Qed.

Lemma is_segment_name_tmp n : is_segment_name (n ++ str ".tmp") = false.
Proof.
  unfold is_segment_name. rewrite andb_false_iff. right.
  unfold ends_with. rewrite length_app. change (length (str ".tmp")) with 4%nat.
  change (length (str ".seg")) with 4%nat. rewrite Nat.add_sub, drop_app_length, andb_false_iff. right. done.
Qed.

Lemma seg_name_le a b :
  seg_number a → seg_number b → bytes_leb (seg_name a) (seg_name b) = (a <=? b).
Proof. intros Ha Hb. apply seg_file_name_order; [lia|exact Ha|exact Hb]. Qed.

Lemma seg_name_inj a b : seg_number a → seg_number b → seg_name a = seg_name b → a = b.
Proof.
  intros Ha Hb Heq. pose proof (seg_name_le a b Ha Hb) as H1. pose proof (seg_name_le b a Hb Ha) as H2.
  rewrite Heq, bytes_leb_refl in H1, H2. symmetry in H1, H2. rewrite Z.leb_le in *. lia.
Qed.

(** Wider numerals look the same whatever the padding asked for. *)
Lemma seg_file_name_wide id : 10 ^ 5 ≤ id < 10 ^ 6 → seg_file_name 3 id = seg_name id.
Proof.
  intros Hid. unfold seg_name, seg_file_name. f_equal. f_equal. unfold fmt_pad. f_equal.
  assert (6 ≤ ndigits 20 id)%nat; [|lia].
  destruct (decide (ndigits 20 id ≤ 5)%nat) as [Hle|]; [|lia].
  pose proof (ndigits_bound 20 id) as Hb. exfalso.
  assert (id < 10 ^ Z.of_nat (ndigits 20 id)) as Hlt by (apply Hb; lia).
  assert (10 ^ Z.of_nat (ndigits 20 id) ≤ 10 ^ 5) by (apply Z.pow_le_mono_r; lia). lia.
Qed.

Section rep.
Context (dir : gmap bytes bytes) (m : gmap Z bytes) (Hrep : dir_rep dir m).

Lemma dir_rep_number k f : m !! k = Some f → seg_number k.
Proof using Hrep. intros Hk. by destruct (dir_numbered _ _ Hrep _ _ Hk). Qed.

(** Replay order is the order of the numbers. *)
Lemma segment_files_rep : segment_files dir = by_number <$> btree_iter m.
Proof using Hrep.
  apply btree_iter_unique.
  - apply (StronglySorted_fmap_in by_number entry_le); [|apply btree_iter_sorted].
    intros [a x] [b y] Ha Hb Hle. apply elem_of_btree_iter in Ha, Hb.
    unfold entry_le. cbn [fst by_number]. change (bytes_leb (seg_name a) (seg_name b) = true).
    rewrite seg_name_le; [exact Hle|by eapply dir_rep_number..].
  - rewrite <-list_fmap_compose. apply (NoDup_fmap_in seg_name fst).
    + intros [a x] [b y] Ha Hb. apply elem_of_btree_iter in Ha, Hb.
      apply seg_name_inj; by eapply dir_rep_number.
    + apply NoDup_btree_keys.
  - intros n f. rewrite list_elem_of_fmap, map_lookup_filter_Some. split.
    + intros ([k f'] & [= -> ->] & Hk). apply elem_of_btree_iter in Hk.
      split; [by apply Hrep|apply is_segment_name_file].
    + intros [Hn Hseg]. destruct (dir_named _ _ Hrep _ _ Hn Hseg) as (k & -> & Hk).
      exists (k, f). split; [done|]. by apply elem_of_btree_iter.
Qed.

Lemma dir_rep_insert k f :
  seg_number k → dir_rep (<[seg_name k := f]> dir) (<[k := f]> m).
Proof using Hrep.
  intros Hk. split.
  - intros n g Hn Hseg. destruct (decide (n = seg_name k)) as [->|Hne].
    + exists k. rewrite lookup_insert_eq in Hn. by rewrite lookup_insert_eq.
    + rewrite lookup_insert_ne in Hn by done.
      destruct (dir_named _ _ Hrep _ _ Hn Hseg) as (j & -> & Hj). exists j. split; [done|].
      rewrite lookup_insert_ne; [done|]. by intros ->.
  - intros j g [[<- <-]|[Hne Hj]]%lookup_insert_Some.
    + split; [done|]. apply lookup_insert_eq.
    + destruct (dir_numbered _ _ Hrep _ _ Hj) as [Hj' Hn]. split; [done|].
      rewrite lookup_insert_ne; [done|]. intros Heq%seg_name_inj; done.
Qed.

(** Files that are not segments do not matter. *)
Lemma dir_rep_delete n : is_segment_name n = false → dir_rep (delete n dir) m.
Proof using Hrep.
  intros Hn. split.
  - intros n' f [Hne Hn']%lookup_delete_Some Hseg. by apply Hrep.
  - intros k f Hk. destruct (dir_numbered _ _ Hrep _ _ Hk) as [Hk' Hd]. split; [done|].
    rewrite lookup_delete_ne; [done|]. intros ->.
    unfold seg_name in Hn. by rewrite is_segment_name_file in Hn.
Qed.
End rep.

(* ------------------------------------------------------------------------ *)
(** ** The log of a numbered directory *)

(** The entries of all segments, in the order of their numbers. *)
Definition numbered_log (m : gmap Z bytes) : res IoError (list SegmentEntry) :=
  files_entries (by_number <$> btree_iter m).

Lemma files_entries_app a b :
  files_entries (a ++ b) = (x ← files_entries a; y ← files_entries b; Ok (x ++ y)).
Proof.
  induction a as [|f a IH]; cbn [app files_entries foldr].
  - change (foldr _ (Ok []) b) with (files_entries b). by destruct (files_entries b).
  - change (foldr _ (Ok []) (a ++ b)) with (files_entries (a ++ b)).
    change (foldr _ (Ok []) a) with (files_entries a). rewrite IH.
    case_decide; [done|]. destruct (read_segment f.2) as [es|e|]; cbn; [|done..].
    destruct (files_entries a) as [x|e|]; cbn; [|done..].
    destruct (files_entries b); cbn; [|done..]. by rewrite app_assoc.
Qed.

(** A segment with a number above all others comes last in the log. *)
Lemma numbered_log_last m k f :
  map_Forall (λ j _, j < k) m →
  numbered_log (<[k := f]> m) = (x ← numbered_log m; y ← recovered f; Ok (x ++ y)).
Proof.
  intros Hm. unfold numbered_log. rewrite btree_iter_insert_last.
  - by rewrite fmap_app, files_entries_app.
  - intros j g Hj. specialize (Hm _ _ Hj). cbn in Hm. split; [|lia].
    apply Z.leb_le. lia.
Qed.

Lemma load_store_numbered dir m :
  dir_rep dir m →
  load_store_from_segments dir = (λ es, (log_root es, log_snapshots es)) <$> numbered_log m.
Proof. intros Hrep. by rewrite load_store_log, (segment_files_rep _ _ Hrep). Qed.

Lemma log_root_app a b :
  log_root (a ++ b) = match log_root b with Some r => Some r | None => log_root a end.
Proof.
  unfold log_root. rewrite omap_app. destruct (omap entry_root b) as [|x l] using rev_ind.
  - by rewrite app_nil_r.
  - by rewrite app_assoc, !last_snoc.
Qed.

Lemma dir_rep_empty : dir_rep ∅ ∅.
Proof. split; intros ?? H; by rewrite lookup_empty in H. Qed.

Lemma numbered_log_empty : numbered_log ∅ = Ok [].
Proof. done. Qed.

Lemma len_closed_segment id es : 16 ≤ len (closed_segment id es).
Proof.
  unfold closed_segment. rewrite len_app. unfold len at 1. rewrite length_header.
  pose proof (len_nonneg (flat_map frame es ++ eof_marker)). lia.
Qed.

(** A closed segment is read back whole; an empty file counts as no entries. *)
Lemma recovered_closed id es :
  is_u64 id → Forall wf_segentry es → recovered (closed_segment id es) = Ok es.
Proof.
  intros Hid Hes. pose proof (len_closed_segment id es). unfold recovered. cbn [files_entries foldr snd].
  rewrite decide_False by lia. rewrite read_closed_segment by done. cbn. by rewrite app_nil_r.
Qed.

Lemma recovered_empty : recovered [] = Ok [].
Proof. done. Qed.

(** A directory with one more segment after all others. *)
Lemma dir_rep_last dir m es k f es' :
  dir_rep dir m → numbered_log m = Ok es → map_Forall (λ j _, j < k) m → seg_number k →
  recovered f = Ok es' →
  dir_rep (<[seg_name k := f]> dir) (<[k := f]> m) ∧
  numbered_log (<[k := f]> m) = Ok (es ++ es').
Proof.
  intros Hrep Hes Hm Hk Hf. split; [by apply dir_rep_insert|]. by rewrite numbered_log_last, Hes, Hf.
Qed.
