(* ===== verification/Gc.v ===== *)
(** * The garbage collector

    [crates/metadata/src/gc/mod.rs]: one pass over a directory of segments, which
    compacts every segment into a copy whose number is 100000 higher.  The live
    set is a stub in the source and empty here. *)

From S2P Require Import Prelude Types Text Segment Wal SegmentDir.
From stdpp Require Import base tactics numbers option list gmap strings sorting.
Open Scope Z_scope.

(** [struct GcStats]. *)
Record GcStats := mkGcStats {
  gs_entries_scanned : Z;
  gs_entries_removed : Z;
  gs_segments_compacted : Z
}.

(** [p.extension() == Some("seg")] for a file name. *)
Definition has_seg_extension (name : bytes) : bool :=
  ends_with (str ".seg") name && bool_decide (4 < length name)%nat.

(** [parse_segment_id]: the stem without [segment-], as a number. *)
Definition parse_segment_id (name : bytes) : option Z :=
  let stem := take (length name - 4) name in
  if starts_with (str "segment-") stem then parse_u64 (drop 8 stem) else None.

(** [collect_live_set]. *)
Definition collect_live_set (roots : list Digest224) : gset (list Z) := ∅.

(** The compaction of one segment: the number of its copy is 100000 higher. *)
Definition compact_id (path : bytes) : Z :=
  let seg_id := default 0 (parse_segment_id path) in
  wrap64 (seg_id + 100000).
Definition gc_visit (path : bytes) (faults : list bool) : M (gmap bytes bytes) IoError CompactionResult :=
  compact_segment path (compact_id path) faults.

(** The loop of [run_gc_inner]; every compaction syncs once. *)
Fixpoint gc_loop (paths : list bytes) (faults : list bool) (stats : GcStats)
    : M (gmap bytes bytes) IoError GcStats :=
  match paths with
  | [] => mret stats
  | path :: paths =>
      result ← gc_visit path (take 1 faults);
      gc_loop paths (drop 1 faults)
        (mkGcStats (gs_entries_scanned stats + (entries_kept result + entries_removed result))
           (gs_entries_removed stats + entries_removed result)
           (gs_segments_compacted stats + 1))
  end.

(** [run_gc_inner] on a directory whose names [read_dir] lists in the order
    [listing]. *)
Definition run_gc_inner (listing : list bytes) (faults : list bool)
    : M (gmap bytes bytes) IoError GcStats :=
  gc_loop (filter (λ n, has_seg_extension n = true) listing) faults (mkGcStats 0 0 0).

Definition run_gc_roots_only (roots : list Digest224) := run_gc_inner.
Definition run_gc (roots : list Digest224) (listing : list bytes) (faults : list bool)
    : M (gmap bytes bytes) IoError GcStats :=
  let _live_set := collect_live_set roots in
  run_gc_inner listing faults.

(* ------------------------------------------------------------------------ *)
(** ** Numbers *)

Lemma drop_stem (a b : bytes) : take (length (a ++ b) - length b) (a ++ b) = a.
Proof. rewrite length_app, Nat.add_sub. apply take_app_length. Qed.

Lemma parse_segment_id_name w id : is_u64 id → parse_segment_id (seg_file_name w id) = Some id.
Proof.
  intros Hid. unfold parse_segment_id, seg_file_name. rewrite app_assoc.
  rewrite (drop_stem _ (str ".seg")). rewrite starts_with_app.
  rewrite drop_app_length' by done. by apply parse_fmt_pad.
Qed.

Lemma parse_segment_id_seg k : seg_number k → parse_segment_id (seg_name k) = Some k.
Proof. intros Hk. apply parse_segment_id_name. unfold seg_number, is_u64 in *. lia. Qed.

Lemma has_seg_extension_name w id : has_seg_extension (seg_file_name w id) = true.
Proof.
  unfold has_seg_extension, seg_file_name. rewrite app_assoc, ends_with_app.
  rewrite bool_decide_eq_true_2; [done|]. rewrite !length_app. cbn. lia.
Qed.

(* ------------------------------------------------------------------------ *)
(** ** A pass that succeeds *)

Section pass.
Context (m : gmap Z bytes).

(** The entries of segment [k], and the copy that a pass makes of it. *)
Definition entries_at (k : Z) : list SegmentEntry :=
  match m !! k with
  | Some f => match read_segment f with Ok es => es | _ => [] end
  | None => []
  end.
Definition copy_of (k : Z) : bytes := closed_segment (k + 100000) (entries_at k).

(** Every segment can be read and has a number that leaves room for its copy. *)
Definition collectable : Prop :=
  map_Forall (λ k f, k < 100000 ∧ ∃ es, read_segment f = Ok es) m.

Definition with_copies (ks : list Z) : gmap Z bytes :=
  foldl (λ M k, <[k + 100000 := copy_of k]> M) m ks.

Lemma with_copies_snoc ks k :
  with_copies (ks ++ [k]) = <[k + 100000 := copy_of k]> (with_copies ks).
Proof. unfold with_copies. by rewrite foldl_app. Qed.

(** With all numbers below 100000 the copies do not touch the originals. *)
Lemma lookup_with_copies ks j v :
  collectable → Forall (λ k, 0 ≤ k) ks →
  with_copies ks !! j = Some v ↔
  m !! j = Some v ∨ ∃ k, k ∈ ks ∧ j = k + 100000 ∧ v = copy_of k.
Proof.
  intros Hc. induction ks as [|k ks IH] using rev_ind; intros Hks.
  { cbn. split; [by left|]. intros [?|(k & []%elem_of_nil & _)]. done. }
  apply Forall_app in Hks as [Hks Hk]. rewrite Forall_singleton in Hk.
  rewrite with_copies_snoc, lookup_insert_Some, IH by done.
  setoid_rewrite elem_of_app. setoid_rewrite list_elem_of_singleton. split.
  - intros [[<- <-]|[_ [?|(k' & ? & ?)]]]; [right; exists k; auto|by left|right; exists k'; tauto].
  - intros [Hj|(k' & [Hk'| ->] & -> & ->)].
    + right. split; [|by left]. destruct (Hc _ _ Hj). lia.
    + destruct (decide (k' = k)) as [->|Hne]; [by left|right]. split; [lia|]. right. by exists k'.
    + by left.
Qed.

Lemma btree_iter_copies ks :
  collectable → map_Forall (λ k _, 0 ≤ k) m → ks ≡ₚ (btree_iter m).*1 →
  btree_iter (with_copies ks) =
  btree_iter m ++ ((λ k, (k + 100000, copy_of k)) <$> (btree_iter m).*1).
Proof.
  intros Hc Hpos Hks.
  assert (∀ k, k ∈ ks ↔ is_Some (m !! k)) as Hin.
  { intros k. rewrite Hks, list_elem_of_fmap. split.
    - intros ([k' f] & -> & Hk%elem_of_btree_iter). by eexists.
    - intros [f Hf]. exists (k, f). split; [done|]. by apply elem_of_btree_iter. }
  assert (Forall (λ k, 0 ≤ k) ks) as Hks0.
  { apply Forall_forall. intros k [f Hf]%Hin. by apply (Hpos k f). }
  assert (∀ k, k ∈ (btree_iter m).*1 → k < 100000) as Hlt.
  { intros k. rewrite <-Hks, Hin. intros [f Hf]. by apply (Hc k f). }
  apply btree_iter_unique.
  - apply StronglySorted_app_2; [|apply btree_iter_sorted|].
    + intros [k f] [j g] Hk (k' & [= -> ->] & Hk')%list_elem_of_fmap.
      apply (list_elem_of_fmap_2 fst) in Hk. apply Hlt in Hk. rewrite <-Hks in Hk'.
      rewrite Forall_forall in Hks0. specialize (Hks0 _ Hk'). cbn in Hk.
      unfold entry_le, key_leb, Z_key. cbn [fst]. apply Z.leb_le. lia.
    + rewrite <-list_fmap_compose. apply (StronglySorted_fmap_in _ entry_le); [|apply btree_iter_sorted].
      intros [a x] [b y] _ _. unfold entry_le, key_leb, Z_key. cbn. rewrite !Z.leb_le. lia.
  - rewrite fmap_app, <-list_fmap_compose. apply NoDup_app. split_and!; [apply NoDup_btree_keys| |].
    + intros k Hk (k' & -> & Hk')%list_elem_of_fmap. apply Hlt in Hk. rewrite <-Hks in Hk'.
      rewrite Forall_forall in Hks0. specialize (Hks0 _ Hk'). cbn in *. lia.
    + apply NoDup_fmap_2; [intros ?? ?; cbn in *; lia|apply NoDup_btree_keys].
  - intros j v. rewrite elem_of_app, elem_of_btree_iter, lookup_with_copies by done.
    apply or_iff_compat_l. rewrite list_elem_of_fmap. setoid_rewrite Hks. split.
    + intros (k & [= -> ->] & Hk). by exists k.
    + intros (k & Hk & -> & ->). by exists k.
Qed.

Lemma read_segment_long f es : read_segment f = Ok es → 16 ≤ len f.
Proof.
  unfold read_segment, segment_open, read_exact. case_decide; [done|]. lia.
Qed.

(** The copies denote the same log as the originals. *)
Lemma copies_log l :
  collectable → map_Forall (λ k _, 0 ≤ k) m → (∀ k f, (k, f) ∈ l → m !! k = Some f) →
  files_entries (by_number <$> ((λ k, (k + 100000, copy_of k)) <$> l.*1)) =
  files_entries (by_number <$> l) ∧ ∃ es, files_entries (by_number <$> l) = Ok es.
Proof.
  intros Hc Hpos. induction l as [|[k f] l IH]; intros Hl; [by split; [|eexists]|].
  destruct IH as [IH [rest Hrest]]; [intros ???; apply Hl; by right|].
  assert (m !! k = Some f) as Hk by (apply Hl; by left).
  destruct (Hc _ _ Hk) as [Hlt [es Hes]]. specialize (Hpos _ _ Hk). cbn in Hpos.
  pose proof (read_segment_long _ _ Hes). pose proof (len_closed_segment (k + 100000) es).
  assert (copy_of k = closed_segment (k + 100000) es) as Hcopy.
  { unfold copy_of, entries_at. by rewrite Hk, Hes. }
  rewrite !fmap_cons. cbn [files_entries foldr by_number fst snd]. fold files_entries.
  change (foldr _ (Ok []) ?x) with (files_entries x) in *.
  rewrite Hcopy, !decide_False by lia. rewrite Hes, read_closed_segment; cycle 1.
  { split; lia. } { by eapply read_segment_wf. }
  rewrite IH, Hrest. split; [done|by eexists].
Qed.

(** One pass over the segments [ks] of a directory that already has some copies. *)
Lemma gc_loop_run ks : ∀ done dir stats,
  collectable → Forall (λ k, 0 ≤ k ∧ is_Some (m !! k)) (done ++ ks) →
  dir_rep dir (with_copies done) →
  ∃ dir' stats', gc_loop (seg_name <$> ks) [] stats dir = (dir', Ok stats') ∧
                 dir_rep dir' (with_copies (done ++ ks)) ∧
                 gs_segments_compacted stats' = gs_segments_compacted stats + Z.of_nat (length ks).
Proof.
  induction ks as [|k ks IH]; intros dn dir stats Hc Hks Hrep.
  { rewrite app_nil_r. eexists _, _. split_and!; [reflexivity|done|cbn; lia]. }
  assert (Forall (λ k, 0 ≤ k) dn) as Hdn.
  { apply Forall_app in Hks as [Hks _]. eapply Forall_impl; [exact Hks|]. by intros ? [? _]. }
  pose proof Hks as Hks'. apply Forall_app in Hks' as [_ Hks'].
  apply Forall_cons in Hks' as [[Hk [f Hf]] _].
  destruct (Hc _ _ Hf) as [Hlt [es Hes]].
  assert (with_copies dn !! k = Some f) as Hf' by (apply lookup_with_copies; auto).
  destruct (dir_numbered _ _ Hrep _ _ Hf') as [Hnum Hdir].
  rewrite fmap_cons. cbn [gc_loop]. rewrite run_bind. unfold gc_visit, compact_id.
  rewrite parse_segment_id_seg by done. change (default 0 (Some k)) with k.
  assert (wrap64 (k + 100000) = k + 100000) as -> by (apply Z.mod_small; lia).
  rewrite (compact_segment_spec _ _ _ _ f es) by done. cbn [take].
  rewrite seg_file_name_wide by lia.
  assert (closed_segment (k + 100000) es = copy_of k) as ->.
  { unfold copy_of, entries_at. by rewrite Hf, Hes. }
  destruct (IH (dn ++ [k]) (<[seg_name (k + 100000) := copy_of k]>
     (delete (seg_name (k + 100000) ++ str ".tmp") dir))
     (mkGcStats (gs_entries_scanned stats + (Z.of_nat (length es) + 0))
        (gs_entries_removed stats + 0) (gs_segments_compacted stats + 1)))
    as (dir' & stats' & H1 & H2 & H3); [done|by rewrite <-app_assoc| |].
  { rewrite with_copies_snoc. apply dir_rep_insert; [|unfold seg_number; lia].
    by apply dir_rep_delete, is_segment_name_tmp. }
  exists dir', stats'. split_and!; [exact H1|by rewrite <-app_assoc in H2|].
  rewrite H3. cbn [gs_segments_compacted length]. lia.
Qed.
End pass.

Section run.
Context (dir : gmap bytes bytes) (m : gmap Z bytes) (listing : list bytes).
Context (Hrep : dir_rep dir m) (Hlist : listing ≡ₚ (map_to_list dir).*1).
(** No file other than a segment has the extension. *)
Context (Hext : ∀ n, is_Some (dir !! n) → has_seg_extension n = true → is_segment_name n = true).

(** The pass visits every segment once. *)
Lemma gc_listing :
  ∃ ks, filter (λ n, has_seg_extension n = true) listing = seg_name <$> ks ∧
        ks ≡ₚ (btree_iter m).*1.
Proof using Hrep Hlist Hext.
  assert (filter (λ n, has_seg_extension n = true) listing ≡ₚ seg_name <$> (btree_iter m).*1) as Hp.
  { apply NoDup_Permutation.
    - apply NoDup_filter. rewrite Hlist. apply NoDup_fst_map_to_list.
    - rewrite <-list_fmap_compose. apply (NoDup_fmap_in seg_name fst); [|apply NoDup_btree_keys].
      intros [a x] [b y] Ha Hb. apply elem_of_btree_iter in Ha, Hb.
      apply seg_name_inj; by eapply dir_rep_number.
    - intros n. rewrite list_elem_of_filter, Hlist, !list_elem_of_fmap. split.
      + intros [Hn ([n' f] & -> & Hf%elem_of_map_to_list)].
        destruct (dir_named _ _ Hrep _ _ Hf) as (k & -> & Hk); [by apply Hext; [eexists|]|].
        exists k. split; [done|]. apply (list_elem_of_fmap_2 fst _ (k, f)). by apply elem_of_btree_iter.
      + intros (k & -> & ([k' f] & -> & Hk%elem_of_btree_iter)%list_elem_of_fmap).
        destruct (dir_numbered _ _ Hrep _ _ Hk) as [_ Hd].
        split; [apply has_seg_extension_name|]. exists (seg_name k', f). split; [done|].
        by apply elem_of_map_to_list. }
  apply Permutation_map_inv in Hp as (ks & Heq & Hks). by exists ks.
Qed.

(** A pass over readable segments keeps the log: afterwards it is there twice. *)
Lemma run_gc_log :
  collectable m →
  ∃ dir' m' stats es,
    run_gc_inner listing [] dir = (dir', Ok stats) ∧ numbered_log m = Ok es ∧
    dir_rep dir' m' ∧ numbered_log m' = Ok (es ++ es) ∧
    gs_segments_compacted stats = Z.of_nat (size m).
Proof using Hrep Hlist Hext.
  intros Hc. destruct gc_listing as (ks & Hls & Hks).
  assert (map_Forall (λ k _, 0 ≤ k) m) as Hpos.
  { intros k f Hk. by destruct (dir_numbered _ _ Hrep _ _ Hk) as [[??] _]. }
  destruct (copies_log m (btree_iter m) Hc Hpos) as [Hcopies [es Hes]].
  { intros k f. by rewrite elem_of_btree_iter. }
  destruct (gc_loop_run m ks [] dir (mkGcStats 0 0 0) Hc) as (dir' & stats & Hrun & Hrep' & Hst);
    [|exact Hrep|].
  { apply Forall_forall. intros k. rewrite app_nil_l, Hks.
    intros ([k' f] & -> & Hk%elem_of_btree_iter)%list_elem_of_fmap.
    split; [by apply (Hpos k' f)|by eexists]. }
  exists dir', (with_copies m ks), stats, es. unfold run_gc_inner. rewrite Hls.
  split_and!; [exact Hrun|exact Hes|exact Hrep'| |].
  - unfold numbered_log. rewrite btree_iter_copies by done.
    by rewrite fmap_app, files_entries_app, Hcopies, Hes.
  - rewrite Hst, Hks, length_fmap, length_btree_iter. cbn. lia.
Qed.
End run.

(* ------------------------------------------------------------------------ *)
(** ** A pass that fails *)

Lemma seg_names_kept (ks : list Z) :
  filter (λ n, has_seg_extension n = true) (seg_name <$> ks) = seg_name <$> ks.
Proof.
  induction ks as [|k ks IH]; [done|]. rewrite fmap_cons, filter_cons_True, IH; [done|].
  apply has_seg_extension_name.
Qed.

(** The pass stops at an empty segment [j], and the copy it has made stays. *)
Lemma run_gc_stops dir m k j (ks : list Z) f es :
  dir_rep dir m → m !! k = Some f → read_segment f = Ok es → m !! j = Some [] → k < 100000 →
  j ≠ k + 100000 →
  run_gc_inner (seg_name <$> k :: j :: ks) [] dir =
  (<[seg_name (k + 100000) := closed_segment (k + 100000) es]>
     (delete (seg_name (k + 100000) ++ str ".tmp") dir), Err UnexpectedEof).
Proof.
  intros Hrep Hk Hes Hj Hlt Hne. destruct (dir_numbered _ _ Hrep _ _ Hk) as [Hnk Hdk].
  destruct (dir_numbered _ _ Hrep _ _ Hj) as [Hnj Hdj].
  unfold run_gc_inner. rewrite seg_names_kept, !fmap_cons. cbn [gc_loop].
  rewrite run_bind. unfold gc_visit, compact_id. rewrite parse_segment_id_seg by done. cbn [default from_option].
  change (id k) with k. rewrite (compact_segment_spec _ _ _ _ f es) by done. cbn [take drop].
  unfold seg_number in Hnk. unfold wrap64. rewrite (Z.mod_small (k + 100000)) by lia.
  rewrite seg_file_name_wide by lia. rewrite run_bind. unfold compact_segment at 1.
  rewrite lookup_insert_ne by (intros ?%seg_name_inj; unfold seg_number in *; lia).
  rewrite lookup_delete_ne, Hdj; [done|].
  intros Heq. pose proof (is_segment_name_tmp (seg_name (k + 100000))) as Ht.
  rewrite Heq in Ht. unfold seg_name in Ht. by rewrite is_segment_name_file in Ht.
Qed.
