(* ===== verification/Background.v ===== *)
(** * The background collector

    [crates/metadata/src/gc/background.rs]: the thread that [spawn_background_gc]
    starts, as a state machine beside the mount it belongs to.  The steps of the thread,
    the shutdown of its handle, the end of the store and the writes of the mount to the
    segment directory are the events; they come in any order, also between the check of
    the flag and a pass and between two segments of a pass.  The compaction of one
    segment is one step: until its last rename it writes only its own temporary file. *)

From S2P Require Import Prelude Types Text Segment Wal SegmentDir Gc.
From stdpp Require Import base tactics numbers option list gmap strings.
Open Scope Z_scope.

(** Where the thread is: asleep before the check of the flag; between that check and the
    upgrade of its [Weak] reference; in a pass, with the segments that are left of the
    listing; after its loop. *)
Inductive GcPc := PcLoop | PcUpgrade | PcPass (paths : list bytes) | PcStopped.

(** What the thread sees: the shared flag, whether the mount still has the store, and the
    segment directory. *)
Record GcThread := mkBg {
  bg_shutdown : bool;
  bg_alive : bool;
  bg_pc : GcPc;
  bg_dir : gmap bytes bytes
}.

(** A step of the thread finds the [listing] if it starts a pass, and [faults] if it
    compacts; a write replaces, creates or removes a file. *)
Inductive GcEvent :=
  | BgStep (listing : list bytes) (faults : list bool)
  | BgShutdown
  | BgUnmount
  | BgWrite (name : bytes) (data : option bytes).

(** [spawn_background_gc]. *)
Definition spawn_background_gc (dir : gmap bytes bytes) : GcThread := mkBg false true PcLoop dir.

Definition set_pc (pc : GcPc) (t : GcThread) : GcThread := mkBg (bg_shutdown t) (bg_alive t) pc (bg_dir t).

(** One step of the loop.  An error ends the pass, and its result is dropped; the store is
    released at the end of the pass. *)
Definition gc_iteration (orphan_threshold : Z) (listing : list bytes) (faults : list bool) (t : GcThread)
    : GcThread :=
  match bg_pc t with
  | PcLoop => set_pc (if bg_shutdown t then PcStopped else PcUpgrade) t
  | PcUpgrade =>
      if negb (bg_alive t) then set_pc PcStopped t else
      let orphan_count := 1 in
      if decide (orphan_threshold < orphan_count)
      then set_pc (PcPass (filter (λ n, has_seg_extension n = true) listing)) t
      else set_pc PcLoop t
  | PcPass [] => set_pc PcLoop t
  | PcPass (path :: paths) =>
      let '(dir, r) := gc_visit path (take 1 faults) (bg_dir t) in
      mkBg (bg_shutdown t) (bg_alive t)
        (match r with Ok _ => PcPass paths | Err _ => PcLoop | Panic => PcStopped end) dir
  | PcStopped => t
  end.

Definition write_file (name : bytes) (data : option bytes) (dir : gmap bytes bytes) : gmap bytes bytes :=
  partial_alter (λ _, data) name dir.

(** [GcHandle::shutdown] and its [Drop] both set the flag; [shutdown] then waits until the
    thread has stopped. *)
Definition gc_event (orphan_threshold : Z) (t : GcThread) (e : GcEvent) : GcThread :=
  match e with
  | BgStep listing faults => gc_iteration orphan_threshold listing faults t
  | BgShutdown => mkBg true (bg_alive t) (bg_pc t) (bg_dir t)
  | BgUnmount => mkBg (bg_shutdown t) false (bg_pc t) (bg_dir t)
  | BgWrite name data => mkBg (bg_shutdown t) (bg_alive t) (bg_pc t) (write_file name data (bg_dir t))
  end.
Definition gc_run (orphan_threshold : Z) (es : list GcEvent) (t : GcThread) : GcThread :=
  foldl (gc_event orphan_threshold) t es.

(** The threshold that [run_mount] passes. *)
Definition mount_orphan_threshold : Z := 1000.

(* ------------------------------------------------------------------------ *)
(** ** Runs *)

(** The directory if only the mount writes. *)
Definition mount_writes (es : list GcEvent) (dir : gmap bytes bytes) : gmap bytes bytes :=
  foldl (λ dir e, match e with BgWrite name data => write_file name data dir | _ => dir end) dir es.
Definition is_step (e : GcEvent) : bool := match e with BgStep _ _ => true | _ => false end.
Definition ends_store (e : GcEvent) : bool :=
  match e with BgShutdown | BgUnmount => true | _ => false end.
(** How many steps of its own the thread takes. *)
Definition own_steps (es : list GcEvent) : nat := length (filter (λ e, is_step e = true) es).
(** The segments that an event lists, and that are left of a pass. *)
Definition step_listing (e : GcEvent) : list bytes := match e with BgStep listing _ => listing | _ => [] end.
Definition pass_left (t : GcThread) : list bytes := match bg_pc t with PcPass paths => paths | _ => [] end.
Definition ended (t : GcThread) : Prop := bg_shutdown t = true ∨ bg_alive t = false.

Lemma gc_run_app th es es' t : gc_run th (es ++ es') t = gc_run th es' (gc_run th es t).
Proof. apply foldl_app. Qed.

(** Steps change neither the flag nor the store. *)
Lemma gc_iteration_flags th listing faults t :
  bg_shutdown (gc_iteration th listing faults t) = bg_shutdown t ∧
  bg_alive (gc_iteration th listing faults t) = bg_alive t.
Proof.
  unfold gc_iteration. destruct (bg_pc t) as [| |[|path paths]|]; [done|..|done].
  - destruct (bg_alive t) eqn:E; cbn [negb]; [case_decide|]; cbn; by rewrite E.
  - done.
  - by destruct (gc_visit _ _ _).
Qed.

(** The flag and the end of the store are final. *)
Lemma gc_event_ended th e t : ended t → ended (gc_event th t e).
Proof.
  unfold ended. destruct e as [listing faults| | |name data]; cbn [gc_event]; [|by left|by right|done].
  by destruct (gc_iteration_flags th listing faults t) as [-> ->].
Qed.
Lemma gc_run_ended th es t : ended t → ended (gc_run th es t).
Proof. revert t. induction es as [|e es IH]; intros t Ht; [done|]. by apply IH, gc_event_ended. Qed.
Lemma gc_run_ends th es t : existsb ends_store es = true → ended (gc_run th es t).
Proof.
  revert t. induction es as [|e es IH]; intros t; cbn [existsb]; [done|].
  change (gc_run th (e :: es) t) with (gc_run th es (gc_event th t e)).
  intros [He|He]%orb_prop; [|by apply IH]. apply gc_run_ended. destruct e; [done|by left|by right|done].
Qed.

(** A thread that has stopped leaves the directory to the mount. *)
Lemma gc_run_stopped th es t :
  bg_pc t = PcStopped →
  bg_pc (gc_run th es t) = PcStopped ∧ bg_dir (gc_run th es t) = mount_writes es (bg_dir t).
Proof.
  revert t. induction es as [|e es IH]; intros t Ht; [done|].
  change (gc_run th (e :: es) t) with (gc_run th es (gc_event th t e)).
  destruct e; cbn [mount_writes foldl gc_event]; [|by apply IH..].
  unfold gc_iteration. rewrite Ht. by apply IH.
Qed.

(* ------------------------------------------------------------------------ *)
(** ** The thread stops *)

(** The steps that are left when the store has ended and no listing is longer than [n]. *)
Definition steps_left (n : nat) (t : GcThread) : nat :=
  let final := if bg_shutdown t then 1%nat else 2%nat in
  match bg_pc t with
  | PcLoop => final
  | PcUpgrade => if bg_alive t then (n + 3)%nat else 1%nat
  | PcPass paths => (length paths + 1 + final)%nat
  | PcStopped => 0%nat
  end.

Lemma steps_left_iteration n th listing faults t :
  ended t → (length listing ≤ n)%nat →
  (steps_left n (gc_iteration th listing faults t) ≤ steps_left n t - 1)%nat.
Proof.
  intros Ht Hn. destruct t as [sd al pc dir]. unfold ended in Ht. cbn in Ht.
  pose proof (length_filter (λ n, has_seg_extension n = true) listing) as Hl.
  unfold gc_iteration, steps_left. cbn [bg_pc bg_shutdown bg_alive bg_dir set_pc].
  destruct pc as [| |[|path paths]|]; [| | | |done].
  - destruct sd; cbn; [lia|]. destruct Ht as [?| ->]; [done|]. cbn. lia.
  - destruct al; cbn [negb]; [|cbn; lia]. destruct Ht as [->|]; [|done]. case_decide; cbn; lia.
  - destruct sd; cbn; lia.
  - destruct (gc_visit _ _ _) as [dir' [x|e|]]; destruct sd; cbn; lia.
Qed.
Lemma steps_left_other n th e t : is_step e = false → (steps_left n (gc_event th t e) ≤ steps_left n t)%nat.
Proof.
  destruct e; intros He; [done|..]; unfold steps_left; cbn [gc_event bg_pc bg_shutdown bg_alive];
    destruct (bg_pc t), (bg_shutdown t), (bg_alive t); lia.
Qed.

Lemma gc_run_left n th es : ∀ t,
  ended t → Forall (λ e, length (step_listing e) ≤ n)%nat es →
  (steps_left n (gc_run th es t) ≤ steps_left n t - own_steps es)%nat.
Proof.
  induction es as [|e es IH]; intros t Ht Hn; [cbn; lia|]. apply Forall_cons in Hn as [He Hn].
  change (gc_run th (e :: es) t) with (gc_run th es (gc_event th t e)).
  specialize (IH (gc_event th t e) (gc_event_ended _ _ _ Ht) Hn). unfold own_steps in *.
  destruct (is_step e) eqn:Es.
  - rewrite filter_cons_True by done. destruct e; [|done..]. cbn [gc_event step_listing length] in *.
    pose proof (steps_left_iteration n th listing faults t Ht He). lia.
  - rewrite filter_cons_False by congruence. pose proof (steps_left_other n th e t Es). lia.
Qed.

(** After the shutdown or the end of the store, the thread takes at most three steps and
    one pass more. *)
Lemma gc_run_stops n th es es' t :
  existsb ends_store es = true → (length (pass_left (gc_run th es t)) ≤ n)%nat →
  Forall (λ e, length (step_listing e) ≤ n)%nat es' → (n + 3 ≤ own_steps es')%nat →
  bg_pc (gc_run th (es ++ es') t) = PcStopped.
Proof.
  intros Hend Hleft Hn Hs. rewrite gc_run_app. pose proof (gc_run_ends th es t Hend) as Ht.
  revert Hleft Ht. generalize (gc_run th es t). clear t Hend. intros t Hleft Ht.
  pose proof (gc_run_left n th es' t Ht Hn) as Hl.
  assert (steps_left n t ≤ n + 3)%nat as Hb.
  { unfold steps_left, pass_left in *. destruct (bg_pc t), (bg_shutdown t), (bg_alive t); cbn in *; lia. }
  unfold steps_left in Hl at 1.
  destruct (bg_pc (gc_run th es' t)), (bg_shutdown (gc_run th es' t)), (bg_alive (gc_run th es' t)); try done; lia.
Qed.

(* ------------------------------------------------------------------------ *)
(** ** What the thread writes *)

(** The copies of the segments [paths], and their temporary files. *)
Definition outputs (path : bytes) : list bytes :=
  let out := seg_file_name 3 (compact_id path) in [out; out ++ str ".tmp"].

Lemma compact_segment_frame name id faults dir n :
  n ≠ seg_file_name 3 id → n ≠ seg_file_name 3 id ++ str ".tmp" →
  (compact_segment name id faults dir).1 !! n = dir !! n.
Proof.
  intros Hn Hn'. unfold compact_segment. destruct (dir !! name) as [file|]; [|done].
  destruct (read_segment file) as [es|e|]; [|done..].
  destruct (foldl _ _ es) as [w result]. destruct (segment_close w) as [w' []]; cbn [fst].
  - by rewrite lookup_insert_ne, lookup_delete_ne.
  - by rewrite lookup_insert_ne.
Qed.

(** Files that are no copy of a segment the thread has listed are as the mount wrote
    them. *)
Lemma gc_run_writes th es n : ∀ t dir,
  bg_dir t !! n = dir !! n →
  (∀ path, path ∈ pass_left t ∨ path ∈ concat (step_listing <$> es) → n ∉ outputs path) →
  bg_dir (gc_run th es t) !! n = mount_writes es dir !! n.
Proof.
  induction es as [|e es IH]; intros t dir Hd Hn; [done|].
  change (gc_run th (e :: es) t) with (gc_run th es (gc_event th t e)).
  destruct e as [listing faults| | |name data]; cbn [gc_event mount_writes foldl].
  2,3: apply IH; [done|]; intros path [Hp|Hp]; apply Hn; [by left|by right].
  2: { apply IH; [|intros path [Hp|Hp]; apply Hn; [by left|by right]].
       cbn [bg_dir]. unfold write_file. destruct (decide (n = name)) as [->|Hne].
       - by rewrite !lookup_partial_alter_eq.
       - by rewrite !lookup_partial_alter_ne. }
  cbn [fmap list_fmap concat step_listing] in Hn. apply IH.
  - unfold gc_iteration. destruct (bg_pc t) as [| |[|path paths]|] eqn:Epc; [done|..|done].
    + destruct (negb (bg_alive t)); [done|]. by case_decide.
    + done.
    + assert (n ∉ outputs path) as Hout.
      { apply Hn. left. unfold pass_left. rewrite Epc. by left. }
      pose proof (compact_segment_frame path (compact_id path) (take 1 faults) (bg_dir t) n) as Hf.
      unfold gc_visit. destruct (compact_segment _ _ _ _) as [dir' r]. cbn [bg_dir fst] in *.
      rewrite Hf; [done|intros ->; apply Hout..]; [by left|by right; left].
  - intros p Hp. apply Hn. rewrite elem_of_app. destruct Hp as [Hp|Hp]; [|tauto].
    unfold pass_left, gc_iteration in *. destruct (bg_pc t) as [| |[|path paths]|] eqn:Epc.
    + cbn in Hp. by destruct (bg_shutdown t); apply not_elem_of_nil in Hp.
    + destruct (negb (bg_alive t)); [by apply not_elem_of_nil in Hp|].
      case_decide; cbn in Hp; [|by apply not_elem_of_nil in Hp].
      apply list_elem_of_filter in Hp as [_ Hp]. tauto.
    + by apply not_elem_of_nil in Hp.
    + left. right. destruct (gc_visit _ _ _) as [dir' [x|e|]]; cbn in Hp; [done|by apply not_elem_of_nil in Hp..].
    + rewrite Epc in Hp. by apply not_elem_of_nil in Hp.
Qed.

Lemma gc_run_quiet th es t :
  pass_left t = [] → concat (step_listing <$> es) = [] → bg_dir (gc_run th es t) = mount_writes es (bg_dir t).
Proof.
  intros Hp Hl. apply map_eq. intros n. apply gc_run_writes; [done|].
  intros path. rewrite Hp, Hl. intros []; by apply not_elem_of_nil in H.
Qed.

(** A pass that nothing comes between is that of [run_gc_roots_only]. *)
Fixpoint pass_steps (n : nat) (faults : list bool) : list GcEvent :=
  match n with
  | O => []
  | S n => BgStep [] (take 1 faults) :: pass_steps n (drop 1 faults)
  end.

Lemma pass_steps_quiet n : ∀ faults,
  concat (step_listing <$> pass_steps n faults) = [] ∧ ∀ dir, mount_writes (pass_steps n faults) dir = dir.
Proof. induction n as [|n IH]; intros faults; [done|]. apply IH. Qed.

Lemma gc_pass_alone th listing faults t :
  bg_pc t = PcUpgrade → bg_alive t = true → th < 1 →
  let n := length (filter (λ n, has_seg_extension n = true) listing) in
  bg_dir (gc_run th (BgStep listing [] :: pass_steps n faults) t) = (run_gc_roots_only [] listing faults (bg_dir t)).1.
Proof.
  intros Hpc Ha Hth. unfold run_gc_roots_only, run_gc_inner. cbn zeta.
  change (gc_run th (?e :: ?es) t) with (gc_run th es (gc_event th t e)). cbn [gc_event].
  assert (gc_iteration th listing [] t = set_pc (PcPass (filter (λ n, has_seg_extension n = true) listing)) t) as ->.
  { unfold gc_iteration. rewrite Hpc, Ha. cbn [negb]. by rewrite decide_True by lia. }
  generalize (filter (λ n, has_seg_extension n = true) listing), (mkGcStats 0 0 0). clear Hpc Ha Hth listing.
  intros paths. revert faults t. induction paths as [|path paths IH]; intros faults t stats; [done|].
  cbn [length pass_steps gc_loop]. change (gc_run th (?e :: ?es) ?t) with (gc_run th es (gc_event th t e)).
  cbn [gc_event]. unfold gc_iteration. cbn [bg_pc set_pc bg_dir]. rewrite run_bind, take_take.
  replace (1 `min` 1)%nat with 1%nat by done. destruct (pass_steps_quiet (length paths) (drop 1 faults)) as [Hl Hw].
  destruct (gc_visit path (take 1 faults) (bg_dir t)) as [dir [x|e|]]; cbn [fst].
  - by apply (IH (drop 1 faults) (mkBg (bg_shutdown t) (bg_alive t) PcLoop dir)).
  - rewrite gc_run_quiet by done. by rewrite Hw.
  - rewrite gc_run_quiet by done. by rewrite Hw.
Qed.

(** At a threshold of 1 or more, also that of the mount, nothing is ever collected. *)
Lemma gc_run_idle th es : ∀ t,
  1 ≤ th → pass_left t = [] → bg_dir (gc_run th es t) = mount_writes es (bg_dir t).
Proof.
  induction es as [|e es IH]; intros t Hth Ht; [done|].
  change (gc_run th (e :: es) t) with (gc_run th es (gc_event th t e)).
  destruct e as [listing faults| | |name data]; cbn [gc_event mount_writes foldl]; [|by apply IH..].
  unfold pass_left, gc_iteration in *. destruct (bg_pc t) as [| |[|path paths]|] eqn:Epc; [..|done|].
  - rewrite IH; [done|done|]. by destruct (bg_shutdown t).
  - destruct (bg_alive t); cbn [negb]; [rewrite decide_False by lia|]; by rewrite IH.
  - by rewrite IH.
  - rewrite IH; [done|done|]. by rewrite Epc.
Qed.
