(* ===== verification/Backend.v ===== *)
(** * Choosing a FUSE-T backend

    [crates/slicefs-cli/src/backend.rs] and the part of [mount.rs] that writes
    [fuse-t.ini]: the backends, the command line flag, the installed version, the
    selection rule, the question to the user, and the edit of the configuration
    file around a mount.  The directory listing, [sw_vers], the terminal and the
    contents of [fuse-t.ini] are arguments. *)

From S2P Require Import Prelude Types Text.
From stdpp Require Import base tactics numbers option list sets strings.
Open Scope Z_scope.

Inductive FuseTBackend := Fskit | Smb | Nfs.
#[export] Instance FuseTBackend_eq_dec : EqDecision FuseTBackend.
Proof. solve_decision. Defined.

(** The messages of the errors, as the cases that build them. *)
Inductive BackendError :=
  | UnknownBackend (s : bytes)
  | FuseTNotFound
  | FuseTTooOld (version : Z * Z * Z)
  | FskitUnavailable
  | MountCancelled
  | ReadLineFailed.

Definition as_mount_option (b : FuseTBackend) : bytes :=
  match b with
  | Fskit => str "backend=fskit"
  | Smb => str "backend=smb"
  | Nfs => str "backend=nfs"
  end.

Definition parse_backend_flag (s : bytes) : res BackendError FuseTBackend :=
  if decide (s = str "smb") then Ok Smb
  else if decide (s = str "nfs") then Ok Nfs
  else if decide (s = str "fskit") then Ok Fskit
  else Err (UnknownBackend s).

(** ** Text *)
(** [s.parse::<u32>().ok()]: the digits read so far never exceed the value read. *)
Definition parse_u32 (s : bytes) : option Z :=
  v ← parse_u64 s; if decide (v < 2 ^ 32) then Some v else None.

(** [s.strip_prefix(p)] and [s.strip_suffix(p)]. *)
Definition strip_prefix (p s : bytes) : option bytes :=
  if starts_with p s then Some (drop (length p) s) else None.
Definition strip_suffix (p s : bytes) : option bytes :=
  if ends_with p s then Some (take (length s - length p) s) else None.

(** [s.split(c).collect()]. *)
Fixpoint split_on (c : byte) (s : bytes) : list bytes :=
  match s with
  | [] => [[]]
  | b :: s =>
      if decide (b = c) then [] :: split_on c s
      else match split_on c s with [] => [[b]] | l :: ls => (b :: l) :: ls end
  end.

Definition newline : byte := Byte.x0a.
Definition carriage_return : byte := Byte.x0d.

(** [s.split_inclusive('\n')]. *)
Fixpoint split_inclusive (s : bytes) : list bytes :=
  match s with
  | [] => []
  | b :: s =>
      if decide (b = newline) then [b] :: split_inclusive s
      else match split_inclusive s with [] => [[b]] | l :: ls => (b :: l) :: ls end
  end.
(** One line of [s.lines()]: its end, [\n] or [\r\n], is dropped. *)
Definition line_body (l : bytes) : bytes :=
  match strip_suffix [newline] l with
  | None => l
  | Some l => default l (strip_suffix [carriage_return] l)
  end.
Definition lines (s : bytes) : list bytes := line_body <$> split_inclusive s.

(** The characters of Unicode's [White_Space], in UTF-8. *)
Definition white_space : list bytes :=
  [[Byte.x09]; [Byte.x0a]; [Byte.x0b]; [Byte.x0c]; [Byte.x0d]; [Byte.x20];
   [Byte.xc2; Byte.x85]; [Byte.xc2; Byte.xa0]; [Byte.xe1; Byte.x9a; Byte.x80]]
  ++ ((λ b, [Byte.xe2; Byte.x80; b]) <$>
      [Byte.x80; Byte.x81; Byte.x82; Byte.x83; Byte.x84; Byte.x85; Byte.x86; Byte.x87;
       Byte.x88; Byte.x89; Byte.x8a; Byte.xa8; Byte.xa9; Byte.xaf])
  ++ [[Byte.xe2; Byte.x81; Byte.x9f]; [Byte.xe3; Byte.x80; Byte.x80]].

Fixpoint trim_start_from (fuel : nat) (s : bytes) : bytes :=
  match fuel with
  | O => s
  | S fuel => match list_find (λ w, starts_with w s = true) white_space with
              | Some (_, w) => trim_start_from fuel (drop (length w) s)
              | None => s
              end
  end.
Fixpoint trim_end_from (fuel : nat) (s : bytes) : bytes :=
  match fuel with
  | O => s
  | S fuel => match list_find (λ w, ends_with w s = true) white_space with
              | Some (_, w) => trim_end_from fuel (take (length s - length w) s)
              | None => s
              end
  end.
(** [s.trim()]. *)
Definition trim (s : bytes) : bytes :=
  let e := trim_end_from (length s) s in trim_start_from (length e) e.

Definition ascii_lower (b : byte) : byte :=
  if decide (65 ≤ Z_of_byte b ≤ 90) then byte_of_Z (Z_of_byte b + 32) else b.
Definition eq_ignore_ascii_case (a b : bytes) : bool :=
  bool_decide (ascii_lower <$> a = ascii_lower <$> b).

(** ** The installed version *)
Definition parse_libfuse_t_filename (name : bytes) : option (Z * Z * Z) :=
  rest ← strip_prefix (str "libfuse-t-") name;
  stem ← strip_suffix (str ".dylib") rest;
  match split_on (Byte.x2e) stem with
  | [a; b; c] =>
      major ← parse_u32 a; minor ← parse_u32 b; patch ← parse_u32 c;
      Some (major, minor, patch)
  | _ => None
  end.

(** The entries of the directory in the order it lists them; [None] when it cannot be
    read. *)
Fixpoint first_version (names : list bytes) : option (Z * Z * Z) :=
  match names with
  | [] => None
  | n :: names =>
      match parse_libfuse_t_filename (to_string_lossy n) with
      | Some version => Some version
      | None => first_version names
      end
  end.
Definition detect_fuse_t_version_from_path (listing : option (list bytes)) : option (Z * Z * Z) :=
  names ← listing; first_version names.

(** [sw_vers -productVersion]: what it prints, when it can be run and succeeds. *)
Definition check_macos_version_26_or_later (sw_vers : option bytes) : bool :=
  match sw_vers with
  | None => false
  | Some out =>
      match parse_u32 (hd (str "0") (split_on (Byte.x2e) (trim (to_string_lossy out)))) with
      | Some major => bool_decide (26 ≤ major)
      | None => false
      end
  end.
Definition is_fskit_available (sw_vers : option bytes) (app_exists : bool) : bool :=
  check_macos_version_26_or_later sw_vers && app_exists.

(** ** Selection *)
Definition MIN_VERSION : Z * Z * Z := (1, 0, 35).

(** [<] on triples. *)
Definition version_lt (v w : Z * Z * Z) : bool :=
  let '(a, b, c) := v in let '(a', b', c') := w in
  (a <? a') || ((a =? a') && ((b <? b') || ((b =? b') && (c <? c')))).

Definition select_backend (requested : option FuseTBackend) (force : bool) (version : Z * Z * Z)
    (fskit_available : bool) : res BackendError FuseTBackend :=
  if version_lt version MIN_VERSION then Err (FuseTTooOld version) else
  match requested with
  | Some Fskit => if fskit_available then Ok Fskit else Err FskitUnavailable
  | Some backend => Ok backend
  | None => Ok Nfs
  end.

(** [detect_fuse_t_version], given what [/usr/local/lib] lists. *)
Definition detect_fuse_t_version (usr_local_lib : option (list bytes)) : option (Z * Z * Z) :=
  detect_fuse_t_version_from_path usr_local_lib.

(** [select_backend_auto], with what the machine shows. *)
Definition select_backend_auto (requested : option FuseTBackend) (force : bool)
    (listing : option (list bytes)) (sw_vers : option bytes) (app_exists : bool)
    : res BackendError (FuseTBackend * (Z * Z * Z)) :=
  version ← ok_or (detect_fuse_t_version listing) FuseTNotFound;
  backend ← select_backend requested force version (is_fskit_available sw_vers app_exists);
  Ok (backend, version).

(** [confirm_fallback_with_tty]; the reader holds [input], or [None] when it fails. *)
Definition confirm_fallback_with_tty (fallback_backend : FuseTBackend) (input : option bytes)
    (is_tty : bool) : res BackendError FuseTBackend :=
  if is_tty then
    bs ← ok_or input ReadLineFailed;
    line ← ok_or (from_utf8 (hd [] (split_inclusive bs))) ReadLineFailed;
    let trimmed := trim line in
    if decide (trimmed = str "n" ∨ trimmed = str "N") then Err MountCancelled
    else Ok fallback_backend
  else Ok fallback_backend.

(** [confirm_fallback]; [is_interactive] asks the host about the standard input. *)
Definition confirm_fallback (is_interactive : bool) (fallback_backend : FuseTBackend) (input : option bytes)
    : res BackendError FuseTBackend :=
  confirm_fallback_with_tty fallback_backend input is_interactive.

(** ** fuse-t.ini *)
Record IniState := mkIni { ini_result : bytes; ini_in_default : bool; ini_injected : bool }.

(** [result.push_str(l); result.push('\n')]. *)
Definition push_line (l result : bytes) : bytes := result ++ l ++ [newline].

Definition ini_line (new_entry : bytes) (st : IniState) (line : bytes) : IniState :=
  let trimmed := trim line in
  if starts_with (str "[") trimmed then
    let late := ini_in_default st && negb (ini_injected st) in
    mkIni (push_line line (if late then push_line new_entry (ini_result st) else ini_result st))
      (eq_ignore_ascii_case trimmed (str "[Default]"))
      (if late then true else ini_injected st)
  else if ini_in_default st && starts_with (str "backend=") trimmed then
    mkIni (push_line new_entry (ini_result st)) (ini_in_default st) true
  else mkIni (push_line line (ini_result st)) (ini_in_default st) (ini_injected st).

Definition inject_backend_into_ini (ini backend : bytes) : bytes :=
  let new_entry := str "backend=" ++ backend in
  let st := foldl (ini_line new_entry) (mkIni [] false false) (lines ini) in
  if ini_injected st then ini_result st
  else if ini_in_default st then push_line new_entry (ini_result st)
  else
    let result := if negb (bool_decide (ini_result st = [])) && negb (ends_with [newline] (ini_result st))
                  then ini_result st ++ [newline] else ini_result st in
    push_line new_entry (push_line (str "[Default]") result).

(** [struct FuseTIniGuard]: dropping it writes the original content back to the file, if
    there was one. *)
Record FuseTIniGuard := mkIniGuard { ig_original : option bytes }.
Definition ini_guard_drop (g : FuseTIniGuard) (file : bytes) : bytes := default file (ig_original g).

(** [with_fuse_t_ini_backend(backend, f)], without the state of [f]: the file that [f]
    sees and the file when the guard is dropped.  [None] is a file that cannot be read;
    [write_ok] is whether the file can be written. *)
Definition with_fuse_t_ini_backend (backend : bytes) (original : option bytes) (write_ok : bool)
    : res unit (bytes * bytes) :=
  let modified := match original with
    | Some content => inject_backend_into_ini (default [] (from_utf8 content)) backend
    | None => str "[Default]" ++ [newline] ++ str "backend=" ++ backend ++ [newline]
    end in
  if write_ok then Ok (modified, ini_guard_drop (mkIniGuard original) modified) else Err tt.

(** * Lemmas *)

(** ** What an ini file says *)
Definition is_section (line : bytes) : bool := starts_with (str "[") (trim line).
Definition is_default (line : bytes) : bool := eq_ignore_ascii_case (trim line) (str "[Default]").
Definition is_backend (line : bytes) : bool := starts_with (str "backend=") (trim line).

(** Whether the lines end inside [[Default]], when they start inside it or not. *)
Definition section_after (d : bool) (ls : list bytes) : bool :=
  foldl (λ d l, if is_section l then is_default l else d) d ls.

(** Whether there is a [[Default]] section. *)
Definition has_default (ls : list bytes) : bool := existsb (λ l, is_section l && is_default l) ls.

(** The backend entries of the [[Default]] sections, and all the other lines. *)
Fixpoint settings (d : bool) (ls : list bytes) : list bytes :=
  match ls with
  | [] => []
  | l :: ls =>
      if is_section l then settings (is_default l) ls
      else if d && is_backend l then trim l :: settings d ls else settings d ls
  end.
Fixpoint other_lines (d : bool) (ls : list bytes) : list bytes :=
  match ls with
  | [] => []
  | l :: ls =>
      if is_section l then trim l :: other_lines (is_default l) ls
      else if d && is_backend l then other_lines d ls else trim l :: other_lines d ls
  end.

Lemma section_after_app d a b : section_after d (a ++ b) = section_after (section_after d a) b.
Proof. apply foldl_app. Qed.

Lemma settings_app d a b : settings d (a ++ b) = settings d a ++ settings (section_after d a) b.
Proof.
  revert d. induction a as [|l a IH]; intros d; [done|].
  cbn [app settings section_after foldl]. destruct (is_section l); [apply IH|].
  destruct (d && is_backend l); cbn [app]; [f_equal|]; apply IH.
Qed.

Lemma other_lines_app d a b :
  other_lines d (a ++ b) = other_lines d a ++ other_lines (section_after d a) b.
Proof.
  revert d. induction a as [|l a IH]; intros d; [done|].
  cbn [app other_lines section_after foldl]. destruct (is_section l); [cbn [app]; f_equal; apply IH|].
  destruct (d && is_backend l); cbn [app]; [|f_equal]; apply IH.
Qed.

(** ** Lines *)
Definition unlines (ls : list bytes) : bytes := flat_map (λ l, l ++ [newline]) ls.

Lemma ends_with_last b s : ends_with [b] (s ++ [b]) = true.
Proof.
  unfold ends_with. rewrite length_app. cbn [length]. rewrite Nat.add_sub, drop_app_length.
  rewrite !bool_decide_true; [done|done|lia].
Qed.

Lemma ends_with_inv b s : ends_with [b] s = true → ∃ s', s = s' ++ [b].
Proof.
  unfold ends_with. rewrite andb_true_iff, !bool_decide_eq_true. intros [_ Hd].
  exists (take (length s - length [b]) s). rewrite <-Hd at 2. by rewrite take_drop.
Qed.

Lemma strip_suffix_last b s : strip_suffix [b] (s ++ [b]) = Some s.
Proof.
  unfold strip_suffix. rewrite ends_with_last, length_app. cbn [length].
  by rewrite Nat.add_sub, take_app_length.
Qed.

Lemma strip_suffix_inv b s s' : strip_suffix [b] s = Some s' → s = s' ++ [b].
Proof.
  unfold strip_suffix. destruct (ends_with [b] s) eqn:He; [|done]. intros [= <-].
  destruct (ends_with_inv _ _ He) as [t ->]. rewrite length_app. cbn [length].
  by rewrite Nat.add_sub, take_app_length.
Qed.

Lemma ends_with_split w s : ends_with w s = true → ∃ s', s = s' ++ w.
Proof.
  unfold ends_with. rewrite andb_true_iff, !bool_decide_eq_true. intros [_ Hd].
  exists (take (length s - length w) s). rewrite <-Hd at 2. by rewrite take_drop.
Qed.

(** [trim] does not see the carriage return that [lines] may drop. *)
Lemma trim_carriage_return s : trim (s ++ [carriage_return]) = trim s.
Proof.
  unfold trim. rewrite length_app, Nat.add_comm. cbn [length Nat.add trim_end_from].
  assert (Forall (λ w, w ≠ [] ∧ (last w = Some carriage_return → w = [carriage_return])) white_space) as Hall.
  { apply Forall_forall. intros w Hw. unfold white_space in Hw. cbn in Hw.
    repeat (apply elem_of_cons in Hw as [->|Hw]; [by split|]). by apply elem_of_nil in Hw. }
  destruct (list_find (λ w, ends_with w (s ++ [carriage_return]) = true) white_space)
    as [[i w]|] eqn:Hf.
  - apply list_find_Some in Hf as (Hi & He & _).
    destruct (Forall_lookup_1 _ _ _ _ Hall Hi) as [Hne Hw].
    destruct (ends_with_split _ _ He) as [t Ht].
    assert (w = [carriage_return]) as ->.
    { apply Hw. assert (last (t ++ w) = Some carriage_return) as Hl by (rewrite <-Ht; apply last_snoc).
      rewrite last_app in Hl. destruct (last w) eqn:Hlw; [done|]. by apply last_None in Hlw. }
    cbn [length]. by rewrite length_app, Nat.add_sub, take_app_length.
  - apply list_find_None, Forall_forall with (x := [carriage_return]) in Hf.
    + by rewrite ends_with_last in Hf.
    + apply list_elem_of_lookup. by exists 4%nat.
Qed.

Lemma split_inclusive_snoc l s :
  newline ∉ l → split_inclusive (l ++ newline :: s) = (l ++ [newline]) :: split_inclusive s.
Proof.
  induction l as [|b l IH]; intros Hl; [done|]. apply not_elem_of_cons in Hl as [Hb Hl].
  cbn [app split_inclusive]. rewrite decide_False by done. by rewrite IH.
Qed.

(** Reading back what [push_line] wrote: each line, perhaps without a carriage return. *)
Definition same_text (l l' : bytes) : Prop := trim l = trim l'.

Lemma line_body_newline l : same_text (line_body (l ++ [newline])) l.
Proof.
  unfold line_body, same_text. rewrite strip_suffix_last.
  destruct (strip_suffix [carriage_return] l) as [l'|] eqn:Hs; [|done].
  rewrite (strip_suffix_inv _ _ _ Hs). by rewrite trim_carriage_return.
Qed.

Lemma lines_unlines ls :
  Forall (λ l, newline ∉ l) ls → Forall2 same_text (lines (unlines ls)) ls.
Proof.
  induction 1 as [|l ls Hl _ IH]; [constructor|].
  unfold lines, unlines. cbn [flat_map]. rewrite <-app_assoc. cbn [app].
  rewrite split_inclusive_snoc by done. constructor; [apply line_body_newline|exact IH].
Qed.

Lemma split_inclusive_pieces s :
  Forall (λ l, ∃ l', (newline ∉ l') ∧ (l = l' ∨ l = l' ++ [newline])) (split_inclusive s).
Proof.
  induction s as [|b s IH]; cbn [split_inclusive]; [constructor|]. case_decide as Hb.
  - constructor; [|done]. exists []. split; [apply not_elem_of_nil|right; by rewrite Hb].
  - destruct (split_inclusive s) as [|l ls].
    + repeat constructor. exists [b]. split; [by apply not_elem_of_cons; split; [|apply not_elem_of_nil]|by left].
    + apply Forall_cons in IH as [(l' & Hl & Hor) Hls]. constructor; [|done].
      exists (b :: l'). split; [by apply not_elem_of_cons|]. destruct Hor as [-> | ->]; [by left|by right].
Qed.

Lemma lines_no_newline s : Forall (λ l, newline ∉ l) (lines s).
Proof.
  unfold lines. apply Forall_fmap. eapply Forall_impl; [apply split_inclusive_pieces|].
  intros l (l' & Hl & Hor). cbn. unfold line_body.
  destruct (strip_suffix [newline] l) as [t|] eqn:Hs.
  - apply strip_suffix_inv in Hs. assert (t = l') as ->.
    { destruct Hor as [-> | ->]; [destruct Hl; rewrite Hs; apply elem_of_app; right; by left|].
      by apply app_inj_tail in Hs as []. }
    destruct (strip_suffix [carriage_return] l') as [t|] eqn:Ht; [|done].
    apply strip_suffix_inv in Ht. cbn. set_solver.
  - destruct Hor as [-> | ->]; [done|]. by rewrite strip_suffix_last in Hs.
Qed.

(** The two readings depend only on the text of the lines. *)
Lemma settings_same d ls ls' : Forall2 same_text ls ls' → settings d ls = settings d ls'.
Proof.
  intros H. revert d. induction H as [|l l' ls ls' Hl _ IH]; intros d; [done|].
  cbn [settings]. unfold is_section, is_default, is_backend. by rewrite Hl, !IH.
Qed.

Lemma other_lines_same d ls ls' : Forall2 same_text ls ls' → other_lines d ls = other_lines d ls'.
Proof.
  intros H. revert d. induction H as [|l l' ls ls' Hl _ IH]; intros d; [done|].
  cbn [other_lines]. unfold is_section, is_default, is_backend. by rewrite Hl, !IH.
Qed.

Lemma unlines_snoc ls l : unlines (ls ++ [l]) = push_line l (unlines ls).
Proof. unfold unlines, push_line. rewrite flat_map_app. cbn. by rewrite app_nil_r. Qed.

(** ** The edit *)
Section inject.
Context (entry : bytes).
Context (entry_newline : newline ∉ entry) (entry_trim : trim entry = entry)
  (entry_backend : is_backend entry = true) (entry_section : is_section entry = false).

(** The lines written for the lines [ls] read so far. *)
Record ini_rep (ls : list bytes) (st : IniState) (out : list bytes) : Prop := {
  ir_result : ini_result st = unlines out;
  ir_newline : Forall (λ l, newline ∉ l) out;
  ir_section : section_after false out = ini_in_default st;
  ir_source : section_after false ls = ini_in_default st;
  ir_others : other_lines false out = other_lines false ls;
  ir_settings : Forall (eq entry) (settings false out);
  ir_injected : ini_injected st = negb (bool_decide (settings false out = []));
  ir_default : has_default ls = ini_in_default st || ini_injected st
}.

Lemma settings_entry : settings true [entry] = [entry].
Proof. cbn. by rewrite entry_section, entry_backend, entry_trim. Qed.

Lemma other_entry : other_lines true [entry] = [].
Proof. cbn. by rewrite entry_section, entry_backend. Qed.

Lemma section_entry d : section_after d [entry] = d.
Proof. cbn. by rewrite entry_section. Qed.

(** An entry written inside [[Default]]. *)
Lemma ini_rep_entry ls st out :
  ini_rep ls st out → ini_in_default st = true →
  ini_rep ls (mkIni (push_line entry (ini_result st)) true true) (out ++ [entry]).
Proof.
  intros [Hr Hn Hs Hsrc Ho Hset _ Hdef] Hd. rewrite Hd in *.
  split; cbn [ini_result ini_in_default ini_injected].
  - by rewrite unlines_snoc, Hr.
  - apply Forall_app; auto.
  - by rewrite section_after_app, Hs, section_entry.
  - done.
  - by rewrite other_lines_app, Hs, other_entry, app_nil_r.
  - rewrite settings_app, Hs, settings_entry. apply Forall_app; auto.
  - rewrite settings_app, Hs, settings_entry. rewrite bool_decide_false; [done|].
    by destruct (settings false out).
  - done.
Qed.

(** A line that is copied. *)
Lemma ini_rep_copy ls st out l :
  ini_rep ls st out → newline ∉ l → settings (ini_in_default st) [l] = [] →
  (is_section l = true → ini_injected st = false → ini_in_default st = false) →
  ini_rep (ls ++ [l])
    (mkIni (push_line l (ini_result st)) (section_after (ini_in_default st) [l]) (ini_injected st))
    (out ++ [l]).
Proof.
  intros [Hr Hn Hs Hsrc Ho Hset Hi Hdef] Hl Hnone Hsec.
  split; cbn [ini_result ini_in_default ini_injected].
  - by rewrite unlines_snoc, Hr.
  - apply Forall_app; auto.
  - by rewrite section_after_app, Hs.
  - by rewrite section_after_app, Hsrc.
  - by rewrite !other_lines_app, Ho, Hs, Hsrc.
  - by rewrite settings_app, Hs, Hnone, app_nil_r.
  - by rewrite settings_app, Hs, Hnone, app_nil_r.
  - unfold has_default. rewrite existsb_app. fold (has_default ls). rewrite Hdef.
    cbn. rewrite orb_false_r. destruct (is_section l); [|by rewrite orb_false_r].
    cbn. destruct (ini_injected st); [by rewrite !orb_true_r|]. rewrite Hsec by done.
    by destruct (is_default l).
Qed.

Lemma ini_line_rep ls st out l :
  ini_rep ls st out → newline ∉ l → ∃ out', ini_rep (ls ++ [l]) (ini_line entry st l) out'.
Proof.
  intros Hrep Hl. unfold ini_line. fold (is_section l) (is_backend l) (is_default l).
  destruct (is_section l) eqn:Hsec.
  - assert (∀ d, settings d [l] = [] ∧ section_after d [l] = is_default l) as Hcopy.
    { intros d. cbn. by rewrite Hsec. }
    destruct (ini_in_default st && negb (ini_injected st)) eqn:Hlate.
    + apply andb_true_iff in Hlate as [Hd _]. pose proof (ini_rep_entry _ _ _ Hrep Hd) as Hrep'.
      eexists. epose proof (ini_rep_copy _ _ _ l Hrep' Hl (proj1 (Hcopy _))) as Hc.
      rewrite (proj2 (Hcopy _)) in Hc. by apply Hc.
    + eexists. epose proof (ini_rep_copy _ _ _ l Hrep Hl (proj1 (Hcopy _))) as Hc.
      rewrite (proj2 (Hcopy _)) in Hc. apply Hc. intros _ Hi. rewrite Hi in Hlate.
      by rewrite andb_true_r in Hlate.
  - destruct (ini_in_default st && is_backend l) eqn:Hb.
    + apply andb_true_iff in Hb as [Hd Hb]. rewrite Hd. exists (out ++ [entry]).
      destruct (ini_rep_entry _ _ _ Hrep Hd) as [Hr Hn Hs Hsrc Ho Hset Hi Hdef].
      cbn [ini_result ini_in_default ini_injected] in *. split; try done.
      * rewrite section_after_app, Hsrc. cbn. by rewrite Hsec.
      * rewrite Ho, other_lines_app, Hsrc. cbn. by rewrite Hsec, Hb, app_nil_r.
      * unfold has_default. rewrite existsb_app. fold (has_default ls). by rewrite Hdef.
    + eexists. epose proof (ini_rep_copy _ _ _ l Hrep Hl) as Hc. cbn in Hc. rewrite Hsec, Hb in Hc.
      by apply Hc.
Qed.

Lemma ini_lines_rep ls :
  Forall (λ l, newline ∉ l) ls → ∃ out, ini_rep ls (foldl (ini_line entry) (mkIni [] false false) ls) out.
Proof.
  induction ls as [|l ls IH] using rev_ind; intros Hls.
  - exists []. by split.
  - apply Forall_app in Hls as [Hls Hl]. apply Forall_cons in Hl as [Hl _].
    destruct (IH Hls) as [out Hout]. rewrite foldl_app. by eapply ini_line_rep.
Qed.
End inject.

(** The entry of a backend named by a plain word. *)
Record plain_word (w : bytes) : Prop := {
  pw_newline : newline ∉ w;
  pw_trim : trim (str "backend=" ++ w) = str "backend=" ++ w
}.

(** What is written is read back. *)
Lemma ini_rep_read entry ls st out : ini_rep entry ls st out → ini_injected st = true →
  let ls' := lines (ini_result st) in
  settings false ls' ≠ [] ∧ Forall (eq entry) (settings false ls') ∧
  other_lines false ls' = other_lines false ls.
Proof.
  intros [Hr Hn _ _ Ho Hset Hi _] Hinj. pose proof (lines_unlines _ Hn) as Hsame.
  cbv zeta. rewrite Hr, (settings_same _ _ _ Hsame), (other_lines_same _ _ _ Hsame).
  split_and!; [|done|done]. rewrite Hinj in Hi. intros He.
  by rewrite bool_decide_true in Hi.
Qed.

Lemma inject_holds ini w : plain_word w →
  let ls := lines (inject_backend_into_ini ini w) in
  settings false ls ≠ [] ∧ Forall (eq (str "backend=" ++ w)) (settings false ls) ∧
  other_lines false ls
  = other_lines false (lines ini) ++ if has_default (lines ini) then [] else [str "[Default]"].
Proof.
  intros [Hn Ht]. set (entry := str "backend=" ++ w) in *.
  assert (newline ∉ entry) as Hnl.
  { unfold entry. intros [H|H]%elem_of_app; [|done]. vm_compute in H. set_solver. }
  assert (is_backend entry = true) as Hb by (unfold is_backend; by rewrite Ht).
  assert (is_section entry = false) as Hs by (unfold is_section; by rewrite Ht).
  destruct (ini_lines_rep entry Hnl Ht Hb Hs (lines ini) (lines_no_newline ini)) as [out Hrep].
  unfold inject_backend_into_ini. fold entry. cbv zeta.
  set (st := foldl _ _ _) in *. rewrite (ir_default _ _ _ _ Hrep).
  destruct (ini_injected st) eqn:Hinj.
  { rewrite orb_true_r, app_nil_r. by apply (ini_rep_read _ _ _ _ Hrep). }
  destruct (ini_in_default st) eqn:Hd; cbn [orb].
  { rewrite app_nil_r. pose proof (ini_rep_entry _ Hnl Ht Hb Hs _ _ _ Hrep Hd) as Hrep'.
    by apply (ini_rep_read _ _ _ _ Hrep'). }
  assert (negb (bool_decide (ini_result st = [])) && negb (ends_with [newline] (ini_result st)) = false)
    as Hend.
  { rewrite (ir_result _ _ _ _ Hrep). destruct out as [|l out _] using rev_ind; [done|].
    rewrite unlines_snoc. unfold push_line. rewrite app_assoc, ends_with_last. apply andb_false_r. }
  rewrite Hend.
  assert (newline ∉ str "[Default]") as Hdn by (vm_compute; set_solver).
  pose proof (ini_rep_copy entry _ _ _ (str "[Default]") Hrep Hdn) as Hc. rewrite Hd, Hinj in Hc.
  specialize (Hc eq_refl (λ _ _, eq_refl)).
  pose proof (ini_rep_entry _ Hnl Ht Hb Hs _ _ _ Hc eq_refl) as Hrep'.
  destruct (ini_rep_read _ _ _ _ Hrep' eq_refl) as (H1 & H2 & H3). split_and!; [done|done|].
  rewrite other_lines_app in H3. exact H3.
Qed.

(** A file name with three numbers is read as that version. *)
Definition libfuse_t_filename (v : Z * Z * Z) : bytes :=
  let '(a, b, c) := v in
  str "libfuse-t-" ++ (fmt_dec a ++ [Byte.x2e] ++ fmt_dec b ++ [Byte.x2e] ++ fmt_dec c) ++ str ".dylib".

Lemma strip_prefix_app p s : strip_prefix p (p ++ s) = Some s.
Proof.
  unfold strip_prefix, starts_with. rewrite take_app_length, drop_app_length.
  by rewrite bool_decide_true.
Qed.

Lemma strip_suffix_app p s : strip_suffix p (s ++ p) = Some s.
Proof.
  unfold strip_suffix, ends_with. rewrite length_app, Nat.add_sub, take_app_length, drop_app_length.
  rewrite !bool_decide_true; [done|done|lia].
Qed.

Lemma split_on_app c a s : c ∉ a → split_on c (a ++ c :: s) = a :: split_on c s.
Proof.
  induction a as [|b a IH]; intros Ha; cbn [app split_on]; [by rewrite decide_True|].
  apply not_elem_of_cons in Ha as [Hb Ha]. rewrite decide_False by done. by rewrite IH.
Qed.

Lemma split_on_none c a : c ∉ a → split_on c a = [a].
Proof.
  induction a as [|b a IH]; intros Ha; cbn [split_on]; [done|].
  apply not_elem_of_cons in Ha as [Hb Ha]. rewrite decide_False by done. by rewrite IH.
Qed.

Lemma digits_no_dot n z : 0 ≤ z → Byte.x2e ∉ digits n z.
Proof.
  revert z. induction n as [|n IH]; intros z Hz; cbn [digits]; [apply not_elem_of_nil|].
  rewrite not_elem_of_app. split; [apply IH, Z.div_pos; lia|].
  intros H%list_elem_of_singleton. apply (f_equal Z_of_byte) in H. rewrite Z_of_digit in H.
  - change (Z_of_byte Byte.x2e) with 46 in H. pose proof (Z.mod_pos_bound z 10 ltac:(lia)). lia.
  - apply Z.mod_pos_bound. lia.
Qed.

Lemma parse_u32_fmt z : is_u32 z → parse_u32 (fmt_dec z) = Some z.
Proof.
  unfold is_u32. intros Hz. unfold parse_u32, fmt_dec. rewrite parse_fmt_pad by (unfold is_u64; lia).
  cbn. by rewrite decide_True by lia.
Qed.

Lemma parse_libfuse_t_print a b c : is_u32 a → is_u32 b → is_u32 c →
  parse_libfuse_t_filename (libfuse_t_filename (a, b, c)) = Some (a, b, c).
Proof.
  intros Ha Hb Hc. unfold parse_libfuse_t_filename, libfuse_t_filename.
  rewrite strip_prefix_app. cbn [mbind option_bind]. rewrite strip_suffix_app. cbn [mbind option_bind].
  assert (∀ z, is_u32 z → Byte.x2e ∉ fmt_dec z) as Hdot by (intros z Hz; apply digits_no_dot, Hz).
  cbn [app]. rewrite split_on_app, split_on_app, split_on_none by auto.
  by rewrite !parse_u32_fmt by done.
Qed.
