(* ===== verification/StoreIo.v ===== *)
(** * The content store on the host's file system

    [StoreIo] of [crates/metadata/src/store_io.rs]: the [Io] that the content store of
    [blockset] reads and writes its blobs with, one file per blob under the root of the
    store.  The host is a map from paths to files and directories, without symbolic links.
    A blob is written in place, so a crash can leave a part of it under its name.

    The host resolves [..] in a path, and the model does not: it speaks of names and roots
    without [..] ([no_parent]), as the names of [blockset] are, such as [vt0/ABCDEF].  Among
    them different paths are different files. *)

From S2P Require Import Prelude Types Text Segment Backend.
From stdpp Require Import base tactics numbers option list gmap strings.
Open Scope Z_scope.

(* ------------------------------------------------------------------------ *)
(** ** The host *)

Inductive FsNode := FsFile (data : bytes) | FsDir.
#[export] Instance FsNode_eq_dec : EqDecision FsNode.
Proof. solve_decision. Defined.
(** The components of an absolute path; the host's root is [[]]. *)
Abbreviation Path := (list bytes).
Abbreviation HostFs := (gmap Path FsNode).

Definition slash : byte := Byte.x2f.
(** The components of a file name, and that [..] is not among them. *)
Definition components (s : bytes) : Path := filter (λ c, c ≠ [] ∧ c ≠ str ".") (split_on slash s).
Definition no_parent (s : bytes) : Prop := str ".." ∉ split_on slash s.
#[export] Instance no_parent_dec s : Decision (no_parent s).
Proof. apply _. Defined.

Definition host_dir (h : HostFs) (p : Path) : Prop := p = [] ∨ h !! p = Some FsDir.
#[export] Instance host_dir_dec h p : Decision (host_dir h p).
Proof. apply _. Defined.

(** [std::fs::read], [create_dir_all] and [write]. *)
Definition fs_read (p : Path) : M HostFs IoError bytes := λ h,
  (h, match h !! p with
      | Some (FsFile data) => Ok data
      | Some FsDir => Err (OtherIo "is a directory")
      | None => Err (OtherIo "not found")
      end).
Fixpoint create_dirs_from (p rest : Path) : M HostFs IoError unit := λ h,
  match rest with
  | [] => (h, Ok tt)
  | c :: rest =>
      match h !! (p ++ [c]) with
      | Some (FsFile _) => (h, Err (OtherIo "not a directory"))
      | Some FsDir => create_dirs_from (p ++ [c]) rest h
      | None => create_dirs_from (p ++ [c]) rest (<[p ++ [c] := FsDir]> h)
      end
  end.
Definition create_dir_all (p : Path) : M HostFs IoError unit := create_dirs_from [] p.
Definition fs_write (p : Path) (data : bytes) : M HostFs IoError unit := λ h,
  if decide (host_dir h p) then (h, Err (OtherIo "is a directory")) else
  if decide (host_dir h (removelast p)) then (<[p := FsFile data]> h, Ok tt)
  else (h, Err (OtherIo "not found")).

(* ------------------------------------------------------------------------ *)
(** ** [StoreIo] *)

Record StoreIo := mkStoreIo { sio_root : Path }.
Definition store_io_new (root : Path) : StoreIo := mkStoreIo root.

(** [self.root.join(filename)]: an absolute name replaces the root.  The result is the
    place of a file for names with [no_parent]. *)
Definition full_path (self : StoreIo) (filename : bytes) : Path :=
  if starts_with [slash] filename then components filename else sio_root self ++ components filename.
(** [path.parent()]. *)
Definition path_parent (p : Path) : option Path :=
  match p with [] => None | _ => Some (removelast p) end.

Definition io_read (self : StoreIo) (filename : bytes) : M HostFs IoError bytes :=
  fs_read (full_path self filename).
Definition io_write (self : StoreIo) (filename data : bytes) : M HostFs IoError unit :=
  let path := full_path self filename in
  _ ← match path_parent path with
      | Some parent => create_dir_all parent
      | None => mret tt
      end;
  fs_write path data.
(** [args] has no argument, and [print] prints nothing. *)
Definition io_args (self : StoreIo) : list bytes := [].
Definition io_print (self : StoreIo) (text : bytes) : list bytes := [].

(** What a crash of the host can leave of a write: nothing or some of the directories, or
    the file with a part of its data. *)
Definition crashed_write (self : StoreIo) (filename data : bytes) (h h' : HostFs) : Prop :=
  let path := full_path self filename in
  (∃ k, h' = (create_dirs_from [] (take k (default [] (path_parent path))) h).1) ∨
  (∃ n, (io_write self filename data h).2 = Ok tt ∧ h' = (io_write self filename (take n data) h).1).

(* ------------------------------------------------------------------------ *)
(** ** Blobs *)

Section blobs.
Implicit Types (h : HostFs) (p : Path).

Lemma create_dirs_files rest : ∀ p h h' r q d,
  create_dirs_from p rest h = (h', r) → (h' !! q = Some (FsFile d) ↔ h !! q = Some (FsFile d)).
Proof.
  induction rest as [|c rest IH]; intros p h h' r q d; cbn; [by intros [= <- <-]|].
  destruct (h !! (p ++ [c])) as [[]|] eqn:E; intros H.
  - by injection H as <- <-.
  - by eapply IH.
  - rewrite (IH _ _ _ _ _ _ H), lookup_insert_Some. split; [intros [[_ ?]|[_ ?]]; [discriminate|done]|].
    intros Hq. right. split; [intros <-; congruence|done].
Qed.

Lemma create_dirs_made rest : ∀ p h h',
  create_dirs_from p rest h = (h', Ok tt) → host_dir h p → host_dir h' (p ++ rest) ∧ h ⊆ h'.
Proof.
  induction rest as [|c rest IH]; intros p h h'; cbn; [by intros [= <-]; rewrite app_nil_r|].
  destruct (h !! (p ++ [c])) as [[]|] eqn:E; intros H Hp; [discriminate|..].
  - destruct (IH _ _ _ H) as [H1 H2]; [by right|]. by rewrite <-app_assoc in H1.
  - destruct (IH _ _ _ H) as [H1 H2]; [right; apply lookup_insert_eq|]. rewrite <-app_assoc in H1.
    split; [done|]. etransitivity; [by apply insert_subseteq|done].
Qed.

(** A write that succeeded put the data there and nothing else that can be read. *)
Lemma io_write_spec self f data h h' :
  io_write self f data h = (h', Ok tt) →
  h' !! full_path self f = Some (FsFile data) ∧
  ∀ p d, p ≠ full_path self f → h' !! p = Some (FsFile d) ↔ h !! p = Some (FsFile d).
Proof.
  unfold io_write. set (path := full_path self f).
  set (mk := match path_parent path with Some parent => create_dir_all parent | None => mret tt end).
  assert (∀ h1 r q d, mk h = (h1, r) → (h1 !! q = Some (FsFile d) ↔ h !! q = Some (FsFile d))) as Hmk.
  { intros h1 r q d. unfold mk. destruct (path_parent path); [apply create_dirs_files|by intros [= <- <-]]. }
  rewrite run_bind. destruct (mk h) as [h1 [u|e|]] eqn:E; [|discriminate..]. unfold fs_write.
  repeat case_decide; [discriminate| |discriminate]. intros [= <-]. split; [apply lookup_insert_eq|].
  intros p d Hp. rewrite lookup_insert_ne by done. by eapply Hmk.
Qed.

(** It succeeds wherever the path can be one of a file. *)
Lemma create_dirs_ok rest : ∀ p h,
  (∀ k d, h !! (p ++ take k rest) ≠ Some (FsFile d)) → ∃ h', create_dirs_from p rest h = (h', Ok tt).
Proof.
  induction rest as [|c rest IH]; intros p h Hfree; cbn; [by eexists|].
  assert (∀ h1, (∀ q d, h1 !! q = Some (FsFile d) → h !! q = Some (FsFile d)) →
            ∃ h', create_dirs_from (p ++ [c]) rest h1 = (h', Ok tt)) as Hgo.
  { intros h1 H1. apply IH. intros k d Hk. apply H1 in Hk. apply (Hfree (S k) d). cbn.
    by rewrite <-app_assoc in Hk. }
  destruct (h !! (p ++ [c])) as [[d|]|] eqn:E; [by destruct (Hfree 1%nat d)| |].
  - apply Hgo. done.
  - apply Hgo. intros q d. rewrite lookup_insert_Some. intros [[_ ?]|[_ ?]]; [discriminate|done].
Qed.
Lemma create_dirs_new rest : ∀ p h h' r q,
  create_dirs_from p rest h = (h', r) → h' !! q = Some FsDir → (length (p ++ rest) < length q)%nat →
  h !! q = Some FsDir.
Proof.
  induction rest as [|c rest IH]; intros p h h' r q; cbn; [by intros [= <- <-]|]. intros H Hq Hlen.
  rewrite length_app in Hlen. cbn in Hlen.
  destruct (h !! (p ++ [c])) as [[]|] eqn:E.
  - by injection H as <- <-.
  - eapply IH; [exact H|done|]. rewrite !length_app. cbn. lia.
  - assert (<[p ++ [c] := FsDir]> h !! q = Some FsDir) as Hq'
      by (apply (IH _ _ _ _ _ H Hq); rewrite !length_app; cbn; lia).
    apply lookup_insert_Some in Hq' as [[<- _]|[_ ?]]; [|done]. rewrite length_app in Hlen. cbn in Hlen. lia.
Qed.
Lemma io_write_ok self f data h :
  full_path self f ≠ [] → h !! full_path self f ≠ Some FsDir →
  (∀ k d, (k < length (full_path self f))%nat → h !! take k (full_path self f) ≠ Some (FsFile d)) →
  ∃ h', io_write self f data h = (h', Ok tt).
Proof.
  intros Hne Hdir Hfree. unfold io_write. set (path := full_path self f) in *.
  assert (path_parent path = Some (removelast path)) as -> by (by destruct path).
  destruct (create_dirs_ok (removelast path) [] h) as [h1 H1].
  { intros k d. rewrite app_nil_l, removelast_firstn_len.
    change (firstn ?n ?l) with (take n l). rewrite take_take. apply Hfree. destruct path; [done|]. cbn. lia. }
  rewrite run_bind. unfold create_dir_all. rewrite H1. unfold fs_write.
  destruct (create_dirs_made _ _ _ _ H1) as [Hmade Hsub]; [by left|].
  rewrite decide_False, decide_True; [by eexists|exact Hmade|].
  intros [?|Hd]; [done|]. apply Hdir. eapply (create_dirs_new _ _ _ _ _ _ H1 Hd).
  rewrite app_nil_l, removelast_firstn_len. change (firstn ?n ?l) with (take n l). rewrite length_take.
  destruct path; [done|]. cbn. lia.
Qed.

(** Whether a write succeeds does not depend on the data. *)
Lemma io_write_data self f data data' h :
  (io_write self f data h).2 = Ok tt → ∃ h', io_write self f data' h = (h', Ok tt).
Proof.
  unfold io_write. set (mk := match path_parent _ with Some parent => _ | None => _ end). rewrite !run_bind.
  destruct (mk h) as [h1 [u|e|]]; [|discriminate..]. unfold fs_write.
  repeat case_decide; [discriminate| |discriminate]. by eexists.
Qed.
(** A crash touches no other blob, and leaves a part of the new one at most. *)
Lemma crashed_write_spec self f data h h' :
  crashed_write self f data h h' →
  (∀ p d, p ≠ full_path self f → h' !! p = Some (FsFile d) ↔ h !! p = Some (FsFile d)) ∧
  (∀ d, h' !! full_path self f = Some (FsFile d) →
        h !! full_path self f = Some (FsFile d) ∨ ∃ n, d = take n data).
Proof.
  intros [[k ->]|(n & Hok & ->)].
  - destruct (create_dirs_from [] _ h) as [h1 r] eqn:E. cbn [fst].
    split; [intros p d _; by apply (create_dirs_files _ _ _ _ _ _ _ E)|]. intros d Hd. left. by apply (create_dirs_files _ _ _ _ _ _ _ E).
  - destruct (io_write_data self f data (take n data) h Hok) as [h1 H1]. rewrite H1. cbn [fst].
    destruct (io_write_spec _ _ _ _ _ H1) as [H2 H3]. split; [done|]. intros d. rewrite H2. intros [= <-].
    right. by exists n.
Qed.
End blobs.
