(* ===== verification/Store.v ===== *)
(** * The metadata store

    [crates/metadata/src/store.rs]: [DictMetadataStore], its in-memory tables
    over the content store, the [MetadataStore] operations, reference counts,
    snapshots, [commit] and [load_from_root].

    The source guards each table with a mutex and every method takes them one at
    a time; a method is modelled as one atomic step on the whole state.
    Arithmetic is that of a release build: [u64] additions wrap. *)

From S2P Require Import Prelude Types Text Blockset Inode InodeMap Xattr Directory Segment Wal.
From stdpp Require Import base tactics numbers option list gmap strings pretty sorting.
Open Scope Z_scope.

(** [struct DictMetadataStore]. *)
Record DictMetadataStore {B : Blockset} := mkStore {
  st_io : Io;
  st_inode_map : InodeMap;
  st_inode_data : gmap Z Digest224;
  st_dir_data : gmap Z Digest224;
  st_manifest_data : gmap Z Digest224;
  st_xattr_data : gmap Z Digest224;
  st_refcounts : gmap Digest224 Z;
  st_logical_bytes : Z;
  st_inode_count : Z;
  st_wal : option WalBox;
  st_last_root : option Digest224;
  st_by_version : gmap Z SnapshotEntry;
  st_by_name : gmap bytes Z
}.
Arguments DictMetadataStore : clear implicits.

(** [snaps.sort_by_key(|s| s.version)]. *)
Definition version_le (a b : SnapshotEntry) : Prop := sn_version a ≤ sn_version b.
#[export] Instance version_le_dec : RelDecision version_le.
Proof. intros a b. unfold version_le. apply _. Defined.

Section setters.
Context {B : Blockset}.
Abbreviation Store := (DictMetadataStore B).

(** Field updates [*self.f.lock().unwrap() = v]. *)
Definition upd_io (v : Io) (s : Store) : Store :=
  mkStore B v (st_inode_map s) (st_inode_data s) (st_dir_data s) (st_manifest_data s)
    (st_xattr_data s) (st_refcounts s) (st_logical_bytes s) (st_inode_count s) (st_wal s)
    (st_last_root s) (st_by_version s) (st_by_name s).
Definition upd_inode_map (v : InodeMap) (s : Store) : Store :=
  mkStore B (st_io s) v (st_inode_data s) (st_dir_data s) (st_manifest_data s)
    (st_xattr_data s) (st_refcounts s) (st_logical_bytes s) (st_inode_count s) (st_wal s)
    (st_last_root s) (st_by_version s) (st_by_name s).
Definition upd_inode_data (v : gmap Z Digest224) (s : Store) : Store :=
  mkStore B (st_io s) (st_inode_map s) v (st_dir_data s) (st_manifest_data s)
    (st_xattr_data s) (st_refcounts s) (st_logical_bytes s) (st_inode_count s) (st_wal s)
    (st_last_root s) (st_by_version s) (st_by_name s).
Definition upd_dir_data (v : gmap Z Digest224) (s : Store) : Store :=
  mkStore B (st_io s) (st_inode_map s) (st_inode_data s) v (st_manifest_data s)
    (st_xattr_data s) (st_refcounts s) (st_logical_bytes s) (st_inode_count s) (st_wal s)
    (st_last_root s) (st_by_version s) (st_by_name s).
Definition upd_manifest_data (v : gmap Z Digest224) (s : Store) : Store :=
  mkStore B (st_io s) (st_inode_map s) (st_inode_data s) (st_dir_data s) v
    (st_xattr_data s) (st_refcounts s) (st_logical_bytes s) (st_inode_count s) (st_wal s)
    (st_last_root s) (st_by_version s) (st_by_name s).
Definition upd_xattr_data (v : gmap Z Digest224) (s : Store) : Store :=
  mkStore B (st_io s) (st_inode_map s) (st_inode_data s) (st_dir_data s)
    (st_manifest_data s) v (st_refcounts s) (st_logical_bytes s) (st_inode_count s)
    (st_wal s) (st_last_root s) (st_by_version s) (st_by_name s).
Definition upd_refcounts (v : gmap Digest224 Z) (s : Store) : Store :=
  mkStore B (st_io s) (st_inode_map s) (st_inode_data s) (st_dir_data s)
    (st_manifest_data s) (st_xattr_data s) v (st_logical_bytes s) (st_inode_count s)
    (st_wal s) (st_last_root s) (st_by_version s) (st_by_name s).
Definition upd_logical_bytes (v : Z) (s : Store) : Store :=
  mkStore B (st_io s) (st_inode_map s) (st_inode_data s) (st_dir_data s)
    (st_manifest_data s) (st_xattr_data s) (st_refcounts s) v (st_inode_count s)
    (st_wal s) (st_last_root s) (st_by_version s) (st_by_name s).
Definition upd_inode_count (v : Z) (s : Store) : Store :=
  mkStore B (st_io s) (st_inode_map s) (st_inode_data s) (st_dir_data s)
    (st_manifest_data s) (st_xattr_data s) (st_refcounts s) (st_logical_bytes s) v
    (st_wal s) (st_last_root s) (st_by_version s) (st_by_name s).
Definition upd_wal (v : option WalBox) (s : Store) : Store :=
  mkStore B (st_io s) (st_inode_map s) (st_inode_data s) (st_dir_data s)
    (st_manifest_data s) (st_xattr_data s) (st_refcounts s) (st_logical_bytes s)
    (st_inode_count s) v (st_last_root s) (st_by_version s) (st_by_name s).
Definition upd_last_root (v : option Digest224) (s : Store) : Store :=
  mkStore B (st_io s) (st_inode_map s) (st_inode_data s) (st_dir_data s)
    (st_manifest_data s) (st_xattr_data s) (st_refcounts s) (st_logical_bytes s)
    (st_inode_count s) (st_wal s) v (st_by_version s) (st_by_name s).
Definition upd_snapshots (v : gmap Z SnapshotEntry) (n : gmap bytes Z) (s : Store) : Store :=
  mkStore B (st_io s) (st_inode_map s) (st_inode_data s) (st_dir_data s)
    (st_manifest_data s) (st_xattr_data s) (st_refcounts s) (st_logical_bytes s)
    (st_inode_count s) (st_wal s) (st_last_root s) v n.
End setters.
Abbreviation Store := (DictMetadataStore _).

(** Reduce projections of updated stores. *)
Ltac store_simpl := cbn [st_io st_inode_map st_inode_data st_dir_data st_manifest_data
  st_xattr_data st_refcounts st_logical_bytes st_inode_count st_wal st_last_root
  st_by_version st_by_name upd_io upd_inode_map upd_inode_data upd_dir_data
  upd_manifest_data upd_xattr_data upd_refcounts upd_logical_bytes upd_inode_count
  upd_wal upd_last_root upd_snapshots].

Section ops.
Context {B : Blockset}.
Implicit Types (s : DictMetadataStore B).

(** [{ let mut fsa = FileStorageAdd::new(..); f(&mut fsa) }]. *)
Definition with_io {E A} (f : Io → Io * A) : M (DictMetadataStore B) E A :=
  zoom st_io upd_io (io_do f).

(* ---------------------------------------------------------------------- *)
(** ** Construction *)

(** [DictMetadataStore::new(io)] in a process of user [uid] and group [gid]. *)
Definition store_new (uid gid : Z) (io : Io) : DictMetadataStore B :=
  let root_meta := new_directory 1 uid gid (Z.lor S_IFDIR 493 (* 0o755 *)) in
  let '(io, root_inode_digest) := intern_inode root_meta io in
  let '(io, root_dir_digest) := create_dir_entries 1 1 io in
  mkStore B io (inode_map_insert 1 root_inode_digest inode_map_new)
    {[ 1 := root_inode_digest ]} {[ 1 := root_dir_digest ]} ∅ ∅ ∅ 0 1 None None ∅ ∅.

(* ---------------------------------------------------------------------- *)
(** ** Reference counts *)

Definition increment_refcount (d : Digest224) (s : DictMetadataStore B)
    : DictMetadataStore B :=
  let val := default 0 (st_refcounts s !! d) in
  if decide (val = u64_max) then upd_refcounts (<[d := val]> (st_refcounts s)) s
  else upd_refcounts (<[d := val + 1]> (st_refcounts s)) s.

Definition decrement_refcount (d : Digest224) (s : DictMetadataStore B)
    : DictMetadataStore B :=
  match st_refcounts s !! d with
  | None => s
  | Some count =>
      if decide (count = u64_max) then s
      else if decide (count ≤ 1) then upd_refcounts (delete d (st_refcounts s)) s
      else upd_refcounts (<[d := count - 1]> (st_refcounts s)) s
  end.

Definition get_refcount (d : Digest224) (s : DictMetadataStore B) : Z :=
  default 0 (st_refcounts s !! d).

Definition saturated_refcount_count (s : DictMetadataStore B) : Z :=
  Z.of_nat (size (filter (λ p, p.2 = u64_max) (st_refcounts s))).

(* ---------------------------------------------------------------------- *)
(** ** The write-ahead log *)

Definition set_wal (w : WalBox) (s : DictMetadataStore B) : DictMetadataStore B :=
  upd_wal (Some w) s.

(** Run a method of the configured log; nothing without one. *)
Definition on_wal (f : M WalBox WalError unit) : M (DictMetadataStore B) WalError unit := λ s,
  match st_wal s with
  | None => (s, Ok tt)
  | Some w => let '(w, r) := f w in (upd_wal (Some w) s, r)
  end.
Definition flush_wal : M (DictMetadataStore B) WalError unit := on_wal flush_and_sync.
Definition shutdown_wal : M (DictMetadataStore B) WalError unit := on_wal shutdown.

(** [log_wal_entry]: the [Result] of the strategy is ignored. *)
Definition log_wal_entry {E} (entry : WalEntry) : M (DictMetadataStore B) E unit :=
  _ ← attempt (on_wal (log_mutation entry)); mret tt.

(* ---------------------------------------------------------------------- *)
(** ** Inodes *)

Definition create_inode (meta : InodeMeta) : M (DictMetadataStore B) MetaError Z :=
  m ← gets st_inode_map;
  let '(m, ino) := allocate_ino m in
  let full_meta := set_ino ino meta in
  digest ← with_io (intern_inode full_meta);
  _ ← modify (upd_inode_map (inode_map_insert ino digest m));
  _ ← modify (λ s, upd_inode_data (<[ino := digest]> (st_inode_data s)) s);
  _ ← (if decide (0 < im_size full_meta)
       then modify (λ s, upd_logical_bytes (wrap64 (st_logical_bytes s + im_size full_meta)) s)
       else mret tt);
  _ ← modify (λ s, upd_inode_count (wrap64 (st_inode_count s + 1)) s);
  mret ino.

Definition get_inode (ino : Z) : M (DictMetadataStore B) MetaError InodeMeta :=
  data ← gets st_inode_data;
  digest ← lift (ok_or (data !! ino) (NotFound ino));
  io ← gets st_io;
  lift (load_inode io digest).

(** [load_inode(io, digest).map(|m| m.size).unwrap_or(0)]. *)
Definition inode_size_or_0 (io : Io) (digest : Digest224) : Z :=
  match load_inode io digest with Ok m => im_size m | _ => 0 end.

Definition update_inode (meta : InodeMeta) : M (DictMetadataStore B) MetaError unit :=
  let ino := im_ino meta in
  data ← gets st_inode_data;
  old_digest ← lift (ok_or (data !! ino) (NotFound ino));
  io ← gets st_io;
  let old_size := inode_size_or_0 io old_digest in
  new_digest ← with_io (intern_inode meta);
  _ ← modify (λ s, upd_inode_data (<[ino := new_digest]> (st_inode_data s)) s);
  _ ← modify (λ s, upd_inode_map (inode_map_insert ino new_digest (st_inode_map s)) s);
  let new_size := im_size meta in
  if decide (old_size < new_size) then
    modify (λ s, upd_logical_bytes (wrap64 (st_logical_bytes s + (new_size - old_size))) s)
  else if decide (new_size < old_size) then
    modify (λ s, upd_logical_bytes (sat_sub (st_logical_bytes s) (old_size - new_size)) s)
  else mret tt.

Definition delete_inode (ino : Z) : M (DictMetadataStore B) MetaError unit :=
  data ← gets st_inode_data;
  digest ← lift (ok_or (data !! ino) (NotFound ino));
  io ← gets st_io;
  let size := inode_size_or_0 io digest in
  _ ← modify (λ s, upd_inode_data (delete ino (st_inode_data s)) s);
  _ ← modify (λ s, upd_inode_map (inode_map_remove ino (st_inode_map s)) s);
  _ ← (if decide (0 < size)
       then modify (λ s, upd_logical_bytes (sat_sub (st_logical_bytes s) size) s)
       else mret tt);
  modify (λ s, upd_inode_count (sat_sub (st_inode_count s) 1) s).

(* ---------------------------------------------------------------------- *)
(** ** Directories *)

Definition create_directory (parent_ino : Z) (name : bytes) (meta : InodeMeta)
    : M (DictMetadataStore B) MetaError Z :=
  parent_meta ← get_inode parent_ino;
  if decide (Z.land (im_mode parent_meta) S_IFDIR = 0) then throw (NotADirectory parent_ino) else
  dirs ← gets st_dir_data;
  if decide (dirs !! parent_ino = None) then throw (NotADirectory parent_ino) else
  m ← gets st_inode_map;
  let '(m, ino) := allocate_ino m in
  _ ← modify (upd_inode_map m);
  let dir_meta := set_ino ino meta in
  let dir_meta := if decide (Z.land (im_mode dir_meta) S_IFDIR = 0)
                  then set_mode (Z.lor (im_mode dir_meta) S_IFDIR) dir_meta else dir_meta in
  dirs ← gets st_dir_data;
  parent_dir_digest ← lift (ok_or (dirs !! parent_ino) (NotADirectory parent_ino));
  dir_inode_digest ← with_io (intern_inode dir_meta);
  dir_entry_digest ← with_io (create_dir_entries ino parent_ino);
  new_parent_dir_digest ← zoom st_io upd_io (add_dir_entry parent_dir_digest name ino);
  _ ← modify (λ s, upd_inode_map (inode_map_insert ino dir_inode_digest (st_inode_map s)) s);
  _ ← modify (λ s, upd_inode_data (<[ino := dir_inode_digest]> (st_inode_data s)) s);
  _ ← modify (λ s, upd_dir_data (<[ino := dir_entry_digest]> (st_dir_data s)) s);
  _ ← modify (λ s, upd_dir_data (<[parent_ino := new_parent_dir_digest]> (st_dir_data s)) s);
  parent_meta ← get_inode parent_ino;
  _ ← update_inode (set_nlinks (wrap32 (im_nlinks parent_meta + 1)) parent_meta);
  _ ← modify (λ s, upd_inode_count (wrap64 (st_inode_count s + 1)) s);
  mret ino.

(** [dir_data.get(&ino).copied().ok_or(NotADirectory(ino))?]. *)
Definition get_dir_digest (ino : Z) : M (DictMetadataStore B) MetaError Digest224 :=
  dirs ← gets st_dir_data;
  lift (ok_or (dirs !! ino) (NotADirectory ino)).

Definition list_directory (ino : Z) : M (DictMetadataStore B) MetaError (list DirEntry) :=
  d ← get_dir_digest ino;
  io ← gets st_io;
  lift (list_dir_entries io d).

(** [lookup] (the name is taken): every error of the entry list becomes [NotFound(0)]. *)
Definition store_lookup (parent_ino : Z) (name : bytes) : M (DictMetadataStore B) MetaError Z :=
  d ← get_dir_digest parent_ino;
  map_err (λ _, NotFound 0) (zoom st_io upd_io (lookup_dir_entry d name)).

Definition link (parent_ino : Z) (name : bytes) (ino : Z)
    : M (DictMetadataStore B) MetaError unit :=
  d ← get_dir_digest parent_ino;
  d' ← zoom st_io upd_io (add_dir_entry d name ino);
  modify (λ s, upd_dir_data (<[parent_ino := d']> (st_dir_data s)) s).

Definition unlink (parent_ino : Z) (name : bytes) : M (DictMetadataStore B) MetaError unit :=
  d ← get_dir_digest parent_ino;
  d' ← zoom st_io upd_io (remove_dir_entry d name);
  modify (λ s, upd_dir_data (<[parent_ino := d']> (st_dir_data s)) s).

(* ---------------------------------------------------------------------- *)
(** ** Manifests and extended attributes *)

Definition set_manifest (ino : Z) (blocks : list Digest224)
    : M (DictMetadataStore B) MetaError unit :=
  digest ← with_io (intern_manifest blocks);
  modify (λ s, upd_manifest_data (<[ino := digest]> (st_manifest_data s)) s).

Definition get_manifest (ino : Z) : M (DictMetadataStore B) MetaError (list Digest224) :=
  data ← gets st_manifest_data;
  digest ← lift (ok_or (data !! ino) (NotFound ino));
  io ← gets st_io;
  lift (load_manifest io digest).

Definition set_xattr (ino : Z) (name value : bytes) : M (DictMetadataStore B) MetaError unit :=
  data ← gets st_xattr_data;
  io ← gets st_io;
  xattrs ← match data !! ino with
           | Some digest => lift (load_xattrs io digest)
           | None => mret []
           end;
  new_digest ← with_io (intern_xattrs (set_xattr_entry xattrs name value));
  modify (λ s, upd_xattr_data (<[ino := new_digest]> (st_xattr_data s)) s).

Definition get_xattr (ino : Z) (name : bytes) : M (DictMetadataStore B) MetaError bytes :=
  data ← gets st_xattr_data;
  digest ← lift (ok_or (data !! ino) (NotFound ino));
  io ← gets st_io;
  xattrs ← lift (load_xattrs io digest);
  lift (ok_or (get_xattr_entry xattrs name) (NotFound ino)).

Definition list_xattrs (ino : Z) : M (DictMetadataStore B) MetaError (list bytes) :=
  data ← gets st_xattr_data;
  match data !! ino with
  | None => mret []
  | Some digest =>
      io ← gets st_io;
      xattrs ← lift (load_xattrs io digest);
      mret (list_xattr_names xattrs)
  end.

Definition remove_xattr (ino : Z) (name : bytes) : M (DictMetadataStore B) MetaError unit :=
  data ← gets st_xattr_data;
  digest ← lift (ok_or (data !! ino) (NotFound ino));
  io ← gets st_io;
  xattrs ← lift (load_xattrs io digest);
  let '(xattrs, removed) := remove_xattr_entry xattrs name in
  if negb removed then throw (NotFound ino) else
  new_digest ← with_io (intern_xattrs xattrs);
  modify (λ s, upd_xattr_data (<[ino := new_digest]> (st_xattr_data s)) s).

Definition root_ino : Z := 1.

(* ---------------------------------------------------------------------- *)
(** ** Commit and reload *)

(** The 184 bytes of a root record. *)
Definition root_record (inode_map : Digest224) (root_dir_ino next_ino : Z)
    (inode_data dir_data manifest_data xattr_data refcounts : Digest224) : bytes :=
  digest_bytes inode_map ++ le_bytes 8 root_dir_ino ++ le_bytes 8 next_ino ++
  digest_bytes inode_data ++ digest_bytes dir_data ++ digest_bytes manifest_data ++
  digest_bytes xattr_data ++ digest_bytes refcounts.

Definition commit : M (DictMetadataStore B) MetaError Digest224 :=
  s ← gets id;
  inode_map_digest ← with_io (intern_inode_map (st_inode_map s));
  let next_ino := imap_next_ino (st_inode_map s) in
  inode_data_digest ← with_io (intern_u64_digest_map (st_inode_data s));
  dir_data_digest ← with_io (intern_u64_digest_map (st_dir_data s));
  manifest_data_digest ← with_io (intern_u64_digest_map (st_manifest_data s));
  xattr_data_digest ← with_io (intern_u64_digest_map (st_xattr_data s));
  refcount_data_digest ← with_io (intern_digest224_u64_map (st_refcounts s));
  let root_bytes := root_record inode_map_digest 1 next_ino inode_data_digest
    dir_data_digest manifest_data_digest xattr_data_digest refcount_data_digest in
  if decide (len root_bytes ≠ 184) then lift Panic else
  root_digest ← with_io (push_all root_bytes);
  _ ← modify (upd_last_root (Some root_digest));
  _ ← log_wal_entry (WalRootUpdate root_digest);
  mret root_digest.

Definition commit_root (root : Digest224) : M (DictMetadataStore B) MetaError unit :=
  _ ← modify (upd_last_root (Some root));
  log_wal_entry (WalRootUpdate root).

(** [parse_digest224(&bytes[i..i + 28])]. *)
Definition digest_at (bs : bytes) (i : Z) : res MetaError Digest224 :=
  parse_digest224 <$> or_panic (slice bs i (i + 28)).

Definition load_from_root (io : Io) (root : Digest224)
    : res MetaError (DictMetadataStore B) :=
  bs ← ok_or (file_storage_get io root) (Corrupted "missing root node");
  has_refcounts ← (if decide (len bs = 156) then Ok false
                   else if decide (len bs = 184) then Ok true
                   else Err (Corrupted ("root record: expected 156 or 184 bytes, got "
                                          +:+ pretty (len bs))));
  inode_map_digest ← digest_at bs 0;
  root_dir_ino ← field_at bs 28 36;
  next_ino ← field_at bs 36 44;
  inode_data_digest ← digest_at bs 44;
  dir_data_digest ← digest_at bs 72;
  manifest_data_digest ← digest_at bs 100;
  xattr_data_digest ← digest_at bs 128;
  refcount_data_digest_opt ← (if (has_refcounts : bool)
                              then Some <$> digest_at bs 156 else Ok None);
  inode_map ← load_inode_map io inode_map_digest;
  let inode_map := set_next_ino next_ino inode_map in
  inode_data ← load_u64_digest_map io inode_data_digest;
  dir_data ← load_u64_digest_map io dir_data_digest;
  manifest_data ← load_u64_digest_map io manifest_data_digest;
  xattr_data ← load_u64_digest_map io xattr_data_digest;
  refcounts ← match refcount_data_digest_opt with
              | Some rc_digest => load_digest224_u64_map io rc_digest
              | None => Ok ∅
              end;
  if decide (inode_data !! root_dir_ino = None)
  then Err (Corrupted ("root dir ino " +:+ pretty root_dir_ino
                         +:+ " not found in inode_data after reload"))
  else
    let initial_logical_bytes :=
      wrap64 (foldr (λ e acc, inode_size_or_0 io e.2 + acc) 0 (btree_iter inode_data)) in
    Ok (mkStore B io inode_map inode_data dir_data manifest_data xattr_data refcounts
          initial_logical_bytes (Z.of_nat (size inode_data)) None (Some root) ∅ ∅).

(* ---------------------------------------------------------------------- *)
(** ** Snapshots *)

Definition set_snapshots (snapshots : list SnapshotEntry) (s : DictMetadataStore B)
    : DictMetadataStore B :=
  upd_snapshots
    (insert_all ((λ e, (sn_version e, e)) <$> snapshots))
    (insert_all (omap (λ e, (λ n, (n, sn_version e)) <$> sn_name e) snapshots)) s.

(** [by_ver.keys().max().copied().unwrap_or(0)]. *)
Definition max_version (m : gmap Z SnapshotEntry) : Z :=
  foldr (λ e acc, Z.max e.1 acc) 0 (map_to_list m).

(** [create_snapshot(name)] at time [now] (seconds since the epoch). *)
Definition create_snapshot (now : Z) (name : option bytes)
    : M (DictMetadataStore B) MetaError SnapshotEntry :=
  root ← commit;
  by_ver ← gets st_by_version;
  let version := wrap64 (max_version by_ver + 1) in
  let entry := mkSnapshot version name root now in
  _ ← log_wal_entry (WalSnapshot version root now name);
  _ ← modify (λ s, upd_snapshots (<[version := entry]> (st_by_version s))
                     (match name with
                      | Some n => <[n := version]> (st_by_name s)
                      | None => st_by_name s
                      end) s);
  mret entry.

(** [list_snapshots]: sorted by version. *)
Definition list_snapshots (s : DictMetadataStore B) : list SnapshotEntry :=
  merge_sort version_le (map_to_list (st_by_version s)).*2.

Definition find_snapshot (reference : bytes) (s : DictMetadataStore B)
    : option SnapshotEntry :=
  match parse_u64 reference with
  | Some version => st_by_version s !! version
  | None => version ← st_by_name s !! reference; st_by_version s !! version
  end.

(** [snapshot_roots]; the source iterates a [HashMap], the order is not fixed. *)
Definition snapshot_roots (s : DictMetadataStore B) : list Digest224 :=
  (sn_root <$> (map_to_list (st_by_version s)).*2) ++
  match st_last_root s with Some r => [r] | None => [] end.
End ops.
