(* ===== verification/StoreSpec.v ===== *)
(** * What the metadata store promises

    [AbsFs] is the contract of the [MetadataStore] trait
    ([crates/slicefs-traits/src/metadata.rs]) without digests, encodings or a
    content store: finite maps from inode numbers to inode records, directories,
    block lists and attribute lists.  [store_rep] relates a [DictMetadataStore]
    to it; [StoreRefine] proves every operation of the store against the
    operation of the same name here. *)

From S2P Require Import Prelude Types Blockset Inode InodeMap Xattr Directory Store.
From stdpp Require Import base tactics numbers option list gmap.
Open Scope Z_scope.

Record AbsFs := mkAbs {
  a_inodes : gmap Z InodeMeta;
  a_dirs : gmap Z (gmap bytes Z);
  a_manifests : gmap Z (list Digest224);
  a_xattrs : gmap Z xattr_list;
  a_next : Z
}.

Definition a_set_inodes (v : gmap Z InodeMeta) (a : AbsFs) : AbsFs :=
  mkAbs v (a_dirs a) (a_manifests a) (a_xattrs a) (a_next a).
Definition a_set_dirs (v : gmap Z (gmap bytes Z)) (a : AbsFs) : AbsFs :=
  mkAbs (a_inodes a) v (a_manifests a) (a_xattrs a) (a_next a).
Definition a_set_manifests (v : gmap Z (list Digest224)) (a : AbsFs) : AbsFs :=
  mkAbs (a_inodes a) (a_dirs a) v (a_xattrs a) (a_next a).
Definition a_set_xattrs (v : gmap Z xattr_list) (a : AbsFs) : AbsFs :=
  mkAbs (a_inodes a) (a_dirs a) (a_manifests a) v (a_next a).
Definition a_set_next (v : Z) (a : AbsFs) : AbsFs :=
  mkAbs (a_inodes a) (a_dirs a) (a_manifests a) (a_xattrs a) v.

Ltac abs_simpl := cbn [a_inodes a_dirs a_manifests a_xattrs a_next a_set_inodes a_set_dirs
  a_set_manifests a_set_xattrs a_set_next].

Tactic Notation "abs_simpl_in" hyp(H) := cbn [a_inodes a_dirs a_manifests a_xattrs a_next
  a_set_inodes a_set_dirs a_set_manifests a_set_xattrs a_set_next] in H.

(* ------------------------------------------------------------------------ *)
(** ** The operations *)

Definition abs_create_inode (meta : InodeMeta) : M AbsFs MetaError Z := λ a,
  let ino := a_next a in
  (a_set_next (ino + 1) (a_set_inodes (<[ino := set_ino ino meta]> (a_inodes a)) a), Ok ino).

Definition abs_get_inode (ino : Z) : M AbsFs MetaError InodeMeta := λ a,
  (a, ok_or (a_inodes a !! ino) (NotFound ino)).

Definition abs_update_inode (meta : InodeMeta) : M AbsFs MetaError unit := λ a,
  match a_inodes a !! im_ino meta with
  | None => (a, Err (NotFound (im_ino meta)))
  | Some _ => (a_set_inodes (<[im_ino meta := meta]> (a_inodes a)) a, Ok tt)
  end.

Definition abs_delete_inode (ino : Z) : M AbsFs MetaError unit := λ a,
  match a_inodes a !! ino with
  | None => (a, Err (NotFound ino))
  | Some _ => (a_set_inodes (delete ino (a_inodes a)) a, Ok tt)
  end.

(** The directory record a new directory gets. *)
Definition dir_inode (ino : Z) (meta : InodeMeta) : InodeMeta :=
  let m := set_ino ino meta in
  if decide (Z.land (im_mode m) S_IFDIR = 0) then set_mode (Z.lor (im_mode m) S_IFDIR) m else m.
Definition add_link (m : InodeMeta) : InodeMeta := set_nlinks (wrap32 (im_nlinks m + 1)) m.

(** A failed creation still consumes an inode number. *)
Definition abs_create_directory (parent : Z) (name : bytes) (meta : InodeMeta)
    : M AbsFs MetaError Z := λ a,
  match a_inodes a !! parent with
  | None => (a, Err (NotFound parent))
  | Some pm =>
      if decide (Z.land (im_mode pm) S_IFDIR = 0) then (a, Err (NotADirectory parent)) else
      match a_dirs a !! parent with
      | None => (a, Err (NotADirectory parent))
      | Some D =>
          let ino := a_next a in
          let a1 := a_set_next (ino + 1) a in
          if decide (name = dot ∨ name = dotdot) then (a1, Err (InvalidName name)) else
          match D !! name with
          | Some _ => (a1, Err (AlreadyExists ino))
          | None =>
              (a_set_inodes (<[parent := add_link pm]> (<[ino := dir_inode ino meta]> (a_inodes a)))
                 (a_set_dirs (<[parent := <[name := ino]> D]>
                                (<[ino := fresh_dir ino parent]> (a_dirs a))) a1), Ok ino)
          end
      end
  end.

Definition abs_lookup (parent : Z) (name : bytes) : M AbsFs MetaError Z := λ a,
  (a, match a_dirs a !! parent with
      | None => Err (NotADirectory parent)
      | Some D => ok_or (D !! name) (NotFound 0)
      end).

Definition abs_link (parent : Z) (name : bytes) (ino : Z) : M AbsFs MetaError unit := λ a,
  match a_dirs a !! parent with
  | None => (a, Err (NotADirectory parent))
  | Some D =>
      if decide (name = dot ∨ name = dotdot) then (a, Err (InvalidName name)) else
      match D !! name with
      | Some _ => (a, Err (AlreadyExists ino))
      | None => (a_set_dirs (<[parent := <[name := ino]> D]> (a_dirs a)) a, Ok tt)
      end
  end.

Definition abs_unlink (parent : Z) (name : bytes) : M AbsFs MetaError unit := λ a,
  match a_dirs a !! parent with
  | None => (a, Err (NotADirectory parent))
  | Some D =>
      if decide (name = dot ∨ name = dotdot) then (a, Err (InvalidName name)) else
      match D !! name with
      | None => (a, Err (NotFound 0))
      | Some _ => (a_set_dirs (<[parent := delete name D]> (a_dirs a)) a, Ok tt)
      end
  end.

Definition abs_set_manifest (ino : Z) (blocks : list Digest224) : M AbsFs MetaError unit := λ a,
  (a_set_manifests (<[ino := blocks]> (a_manifests a)) a, Ok tt).
Definition abs_get_manifest (ino : Z) : M AbsFs MetaError (list Digest224) := λ a,
  (a, ok_or (a_manifests a !! ino) (NotFound ino)).

Definition abs_set_xattr (ino : Z) (name value : bytes) : M AbsFs MetaError unit := λ a,
  (a_set_xattrs (<[ino := set_xattr_entry (default [] (a_xattrs a !! ino)) name value]>
                   (a_xattrs a)) a, Ok tt).
Definition abs_get_xattr (ino : Z) (name : bytes) : M AbsFs MetaError bytes := λ a,
  (a, ok_or (xs ← a_xattrs a !! ino; get_xattr_entry xs name) (NotFound ino)).
Definition abs_list_xattrs (ino : Z) : M AbsFs MetaError (list bytes) := λ a,
  (a, Ok (list_xattr_names (default [] (a_xattrs a !! ino)))).
Definition abs_remove_xattr (ino : Z) (name : bytes) : M AbsFs MetaError unit := λ a,
  match a_xattrs a !! ino with
  | None => (a, Err (NotFound ino))
  | Some xs =>
      let '(xs', removed) := remove_xattr_entry xs name in
      if negb removed then (a, Err (NotFound ino))
      else (a_set_xattrs (<[ino := xs']> (a_xattrs a)) a, Ok tt)
  end.

(* ------------------------------------------------------------------------ *)
(** ** Sizes *)

Definition sizes_of (l : list (Z * InodeMeta)) : Z := foldr (λ e acc, im_size e.2 + acc) 0 l.
(** The sum of the sizes of all inodes. *)
Definition total_size (m : gmap Z InodeMeta) : Z := sizes_of (map_to_list m).

Lemma foldr_add_perm {A} (g : A → Z) l l' :
  l ≡ₚ l' → foldr (λ e acc, g e + acc) 0 l = foldr (λ e acc, g e + acc) 0 l'.
Proof. induction 1; cbn; lia. Qed.

Lemma sizes_of_perm l l' : l ≡ₚ l' → sizes_of l = sizes_of l'.
Proof. apply (foldr_add_perm (λ e : Z * InodeMeta, im_size e.2)). Qed.

Lemma total_size_insert m i x :
  m !! i = None → total_size (<[i := x]> m) = im_size x + total_size m.
Proof. intros H. unfold total_size. by rewrite (sizes_of_perm _ _ (map_to_list_insert m i x H)). Qed.

Lemma total_size_delete m i x :
  m !! i = Some x → total_size m = im_size x + total_size (delete i m).
Proof.
  intros H. unfold total_size. by rewrite <-(sizes_of_perm _ _ (map_to_list_delete m i x H)).
Qed.

Lemma total_size_update m i x y :
  m !! i = Some x → total_size (<[i := y]> m) = total_size m - im_size x + im_size y.
Proof.
  intros H. rewrite <-insert_delete_eq, total_size_insert by apply lookup_delete_eq.
  rewrite (total_size_delete m i x H). lia.
Qed.

Lemma total_size_nonneg m : map_Forall (λ _ x, 0 ≤ im_size x) m → 0 ≤ total_size m.
Proof.
  intros H. unfold total_size, sizes_of. apply map_Forall_to_list in H.
  induction H as [|[k x] l Hx _ IH]; cbn in *; lia.
Qed.

(* ------------------------------------------------------------------------ *)
(** ** Representation *)

Section rep.
Context {B : Blockset} {L : BlocksetLaws B}.

Definition inode_digest (m : InodeMeta) : Digest224 := digest_of (serialize_inode m).
Definition manifest_digest (l : list Digest224) : Digest224 := digest_of (serialize_manifest l).
Definition xattr_digest (xs : xattr_list) : Digest224 := digest_of (serialize_xattrs xs).

(** The content store holds [bs] under its digest. *)
Definition stored (io : Io) (bs : bytes) : Prop :=
  file_storage_get io (digest_of bs) = Some bs.

(** The abstract invariant: every value fits its machine type, every inode is
    filed under its own number and below the next one to allocate, and the
    sizes add up to a [u64]. *)
Record abs_wf (a : AbsFs) : Prop := {
  wf_inodes : map_Forall (λ k m, im_ino m = k ∧ wf_inode m ∧ k < a_next a) (a_inodes a);
  wf_dirs : map_Forall (λ k D, is_u64 k ∧ dir_wf D) (a_dirs a);
  wf_manifests : map_Forall (λ k l, is_u64 k ∧ Forall wf_digest l) (a_manifests a);
  wf_xattrs : map_Forall (λ k xs, is_u64 k ∧ Forall wf_xattr xs) (a_xattrs a);
  wf_next : 2 ≤ a_next a < 2 ^ 64;
  wf_count : Z.of_nat (size (a_inodes a)) < a_next a;
  wf_total : total_size (a_inodes a) < 2 ^ 64
}.

Record abs_stored (io : Io) (a : AbsFs) : Prop := {
  stored_inodes : map_Forall (λ _ m, stored io (serialize_inode m)) (a_inodes a);
  stored_dirs : map_Forall (λ _ D, dir_stored io D) (a_dirs a);
  stored_manifests : map_Forall (λ _ l, stored io (serialize_manifest l)) (a_manifests a);
  stored_xattrs : map_Forall (λ _ xs, stored io (serialize_xattrs xs)) (a_xattrs a)
}.

(** [s] implements [a]: its tables hold the digests of the encoded values,
    the content store can produce them, and the counters are exact. *)
Record store_rep (s : DictMetadataStore B) (a : AbsFs) : Prop := {
  rep_io : healthy (st_io s);
  rep_inodes : st_inode_data s = inode_digest <$> a_inodes a;
  rep_imap : imap_map (st_inode_map s) = st_inode_data s;
  rep_next : imap_next_ino (st_inode_map s) = a_next a;
  rep_dirs : st_dir_data s = dir_digest <$> a_dirs a;
  rep_manifests : st_manifest_data s = manifest_digest <$> a_manifests a;
  rep_xattrs : st_xattr_data s = xattr_digest <$> a_xattrs a;
  rep_stored : abs_stored (st_io s) a;
  rep_logical : st_logical_bytes s = total_size (a_inodes a);
  rep_count : st_inode_count s = Z.of_nat (size (a_inodes a));
  rep_wf : abs_wf a
}.

(** The two computations return the same result and keep the relation. *)
Definition refines {A} (c : M (DictMetadataStore B) MetaError A) (spec : M AbsFs MetaError A)
    (s : DictMetadataStore B) (a : AbsFs) : Prop :=
  (c s).2 = (spec a).2 ∧ store_rep (c s).1 (spec a).1 ∧ st_io s ⊑ᵢ st_io (c s).1.

Lemma stored_mono io io' bs : io ⊑ᵢ io' → stored io bs → stored io' bs.
Proof. intros Hle H. by apply Hle. Qed.

Lemma abs_stored_mono io io' a : io ⊑ᵢ io' → abs_stored io a → abs_stored io' a.
Proof.
  intros Hle [H1 H2 H3 H4].
  split; (eapply map_Forall_impl; [eassumption|]); intros k x Hx; by apply Hle.
Qed.

(** Storing more content keeps the relation. *)
Lemma rep_io_grows (s : DictMetadataStore B) (a : AbsFs) io' :
  store_rep s a → healthy io' → st_io s ⊑ᵢ io' → store_rep (upd_io io' s) a.
Proof.
  intros [] Hio Hle. split; store_simpl; try done. by eapply abs_stored_mono.
Qed.

Lemma with_io_push {E} bs (s : DictMetadataStore B) :
  @with_io _ E _ (push_all bs) s = (upd_io (push_all bs (st_io s)).1 s, Ok (digest_of bs)).
Proof. unfold with_io, zoom. by rewrite io_do_push. Qed.

Lemma load_inode_stored io m :
  wf_inode m → stored io (serialize_inode m) → load_inode io (inode_digest m) = Ok m.
Proof.
  intros Hm Hst. unfold load_inode, inode_digest. rewrite Hst. cbn.
  by apply deserialize_serialize_inode.
Qed.

Lemma load_manifest_stored io l :
  Forall wf_digest l → stored io (serialize_manifest l) →
  load_manifest io (manifest_digest l) = Ok l.
Proof.
  intros Hm Hst. unfold load_manifest, manifest_digest. rewrite Hst. cbn.
  by apply deserialize_serialize_manifest.
Qed.

Lemma load_xattrs_stored io xs :
  Forall wf_xattr xs → stored io (serialize_xattrs xs) →
  load_xattrs io (xattr_digest xs) = Ok xs.
Proof.
  intros Hm Hst. unfold load_xattrs, xattr_digest. rewrite Hst. cbn.
  by apply deserialize_serialize_xattrs.
Qed.
End rep.
