(* ===== verification/StoreRefine.v ===== *)
(** * The metadata store implements its specification

    For each operation of [Store]: run from a state that represents an abstract
    file system, it returns what the abstract operation returns and ends in a
    state that represents the abstract outcome, on every branch.  What is assumed
    of an operation is that the values it is given fit their types, that the
    contents it stores are among those of the run ([admissible]) and that the
    counters it advances have room. *)

From S2P Require Import Prelude Types Blockset Inode InodeMap Xattr Directory Store StoreSpec.
From stdpp Require Import base tactics numbers option list gmap.
Open Scope Z_scope.

(** Run a method: unfold the monad and evaluate the storage calls. *)
Ltac mrun := repeat (progress (
  rewrite ?run_bind;
  cbn [mbind M_bind mret M_ret gets modify lift throw ok_or id fst snd option_fmap option_map fmap];
  rewrite ?with_io_push); store_simpl).

#[local] Arguments load_inode : simpl never.
#[local] Arguments inode_digest : simpl never.
#[local] Arguments load_manifest : simpl never.
#[local] Arguments manifest_digest : simpl never.
#[local] Arguments load_xattrs : simpl never.
#[local] Arguments xattr_digest : simpl never.
#[local] Arguments serialize_inode : simpl never.

Section refine.
Context {B : Blockset} {L : BlocksetLaws B}.
Implicit Types (s : DictMetadataStore B) (a : AbsFs).

Lemma rep_inode_lookup s a ino :
  store_rep s a → st_inode_data s !! ino = inode_digest <$> a_inodes a !! ino.
Proof. intros Hr. rewrite (rep_inodes _ _ Hr). apply lookup_fmap. Qed.

Lemma rep_load_inode s a ino m :
  store_rep s a → a_inodes a !! ino = Some m → load_inode (st_io s) (inode_digest m) = Ok m.
Proof.
  intros Hr Hm. apply load_inode_stored.
  - by destruct (wf_inodes _ (rep_wf _ _ Hr) _ _ Hm) as (_ & ? & _).
  - by apply (stored_inodes _ _ (rep_stored _ _ Hr) ino).
Qed.

Lemma get_inode_run s a ino :
  store_rep s a → get_inode ino s = (s, ok_or (a_inodes a !! ino) (NotFound ino)).
Proof.
  intros Hr. unfold get_inode. mrun. rewrite (rep_inode_lookup s a) by done.
  destruct (a_inodes a !! ino) as [m|] eqn:Hm; mrun; [|done].
  by rewrite (rep_load_inode s a ino).
Qed.

Lemma refines_intro {A} (c : M (DictMetadataStore B) MetaError A) spec s a s' a' r :
  c s = (s', r) → spec a = (a', r) → store_rep s' a' → st_io s ⊑ᵢ st_io s' →
  refines c spec s a.
Proof. unfold refines. by intros -> ->. Qed.

Lemma get_inode_refines s a ino :
  store_rep s a → refines (get_inode ino) (abs_get_inode ino) s a.
Proof. intros Hr. by eapply refines_intro; [apply get_inode_run| |..]. Qed.

(** Replacing the inode table, the allocator and the counters. *)
Lemma rep_set_inodes s a s' (I : gmap Z InodeMeta) next :
  store_rep s a →
  healthy (st_io s') → st_io s ⊑ᵢ st_io s' →
  st_inode_data s' = inode_digest <$> I → imap_map (st_inode_map s') = st_inode_data s' →
  imap_next_ino (st_inode_map s') = next →
  st_dir_data s' = st_dir_data s → st_manifest_data s' = st_manifest_data s →
  st_xattr_data s' = st_xattr_data s →
  st_logical_bytes s' = total_size I → st_inode_count s' = Z.of_nat (size I) →
  map_Forall (λ k m, im_ino m = k ∧ wf_inode m ∧ k < next) I →
  map_Forall (λ _ m, stored (st_io s') (serialize_inode m)) I →
  2 ≤ next < 2 ^ 64 → Z.of_nat (size I) < next → total_size I < 2 ^ 64 →
  store_rep s' (a_set_next next (a_set_inodes I a)).
Proof.
  intros [] ? Hle ? ? ? Hd Hm Hx ? ? Hwf Hst Hn Hc Ht.
  destruct (abs_stored_mono _ _ _ Hle rep_stored). destruct rep_wf.
  split; abs_simpl; rewrite ?Hd, ?Hm, ?Hx; try done; by split.
Qed.

Lemma rep_inode_stored s a io' :
  store_rep s a → st_io s ⊑ᵢ io' →
  map_Forall (λ _ m, stored io' (serialize_inode m)) (a_inodes a).
Proof.
  intros Hr Hle. by destruct (abs_stored_mono _ _ _ Hle (rep_stored _ _ Hr)).
Qed.

Lemma upd_logical_same s : upd_logical_bytes (st_logical_bytes s) s = s.
Proof. by destruct s. Qed.

(** [if n > 0 { logical_bytes.fetch_add(n) }] *)
Lemma add_logical s n :
  0 ≤ n → is_u64 (st_logical_bytes s) →
  (if decide (0 < n)
   then modify (λ s, upd_logical_bytes (wrap64 (st_logical_bytes s + n)) s)
   else mret tt : M (DictMetadataStore B) MetaError unit) s =
  (upd_logical_bytes (wrap64 (st_logical_bytes s + n)) s, Ok tt).
Proof.
  intros Hn Hs. case_decide; [done|]. replace n with 0 by lia.
  unfold wrap64. rewrite Z.add_0_r, Z.mod_small by done. by rewrite upd_logical_same.
Qed.

Lemma rep_total_range s a : store_rep s a → is_u64 (total_size (a_inodes a)).
Proof.
  intros Hr. destruct (rep_wf _ _ Hr). split; [|done]. apply total_size_nonneg.
  eapply map_Forall_impl; [exact wf_inodes|]. intros k m (_ & Hm & _).
  by destruct Hm as (_&_&_&_&_&[? _]&_).
Qed.

Lemma a_set_next_same a : a_set_next (a_next a) a = a.
Proof. by destruct a. Qed.

Lemma rep_fresh s a : store_rep s a → a_inodes a !! a_next a = None.
Proof.
  intros Hr. destruct (a_inodes a !! a_next a) as [m|] eqn:E; [|done].
  destruct (wf_inodes _ (rep_wf _ _ Hr) _ _ E) as (_ & _ & ?). lia.
Qed.

Lemma create_inode_refines s a meta :
  store_rep s a → a_next a + 1 < 2 ^ 64 →
  let m := set_ino (a_next a) meta in
  wf_inode m → admissible (serialize_inode m) →
  total_size (a_inodes a) + im_size meta < 2 ^ 64 →
  refines (create_inode meta) (abs_create_inode meta) s a.
Proof.
  intros Hr Hnext m Hm Hadm Htot.
  pose proof (rep_total_range s a Hr) as Hrange. pose proof (rep_fresh s a Hr) as Hfresh.
  destruct (push_all_spec _ _ (rep_io _ _ Hr) Hadm) as (Hio & Hle & Hst).
  assert (0 ≤ im_size m) as Hsz by (destruct Hm as (_&_&_&_&_&[? _]&_); done).
  assert (im_size m = im_size meta) as Hsm by done. unfold is_u64 in Hrange.
  destruct (rep_wf _ _ Hr) as [Hwi _ _ _ Hwn Hwc _].
  eapply refines_intro; [|done| |].
  - unfold create_inode, intern_inode, allocate_ino. mrun.
    rewrite (rep_next _ _ Hr). fold m. rewrite add_logical; [|done|store_simpl].
    2:{ by rewrite (rep_logical _ _ Hr). }
    mrun. done.
  - apply (rep_set_inodes s a); store_simpl; try done.
    + rewrite (rep_inodes _ _ Hr), fmap_insert. done.
    + unfold inode_map_insert. cbn. by rewrite (rep_imap _ _ Hr).
    + unfold wrap64. cbn. apply Z.mod_small. lia.
    + rewrite (rep_logical _ _ Hr), total_size_insert by done.
      fold m. unfold wrap64. rewrite Z.mod_small by lia. lia.
    + rewrite (rep_count _ _ Hr), map_size_insert_None by done.
      unfold wrap64. rewrite Z.mod_small; lia.
    + apply map_Forall_insert_2; [split_and!; [done|done|lia]|].
      eapply map_Forall_impl; [exact Hwi|]. intros k x (? & ? & ?). split_and!; [done|done|lia].
    + apply map_Forall_insert_2; [exact Hst|]. by eapply rep_inode_stored.
    + lia.
    + rewrite map_size_insert_None by done. lia.
    + rewrite total_size_insert by done. fold m. lia.
  - done.
Qed.

Lemma rep_size_or_0 s a ino m :
  store_rep s a → a_inodes a !! ino = Some m →
  inode_size_or_0 (st_io s) (inode_digest m) = im_size m.
Proof. intros Hr Hm. unfold inode_size_or_0. by rewrite (rep_load_inode s a ino). Qed.

(** The counter adjustment of [update_inode]. *)
Lemma adjust_logical s old new :
  is_u64 (st_logical_bytes s) → 0 ≤ st_logical_bytes s - old + new < 2 ^ 64 →
  old ≤ st_logical_bytes s →
  (if decide (old < new) then
     modify (λ s, upd_logical_bytes (wrap64 (st_logical_bytes s + (new - old))) s)
   else if decide (new < old) then
     modify (λ s, upd_logical_bytes (sat_sub (st_logical_bytes s) (old - new)) s)
   else mret tt : M (DictMetadataStore B) MetaError unit) s =
  (upd_logical_bytes (st_logical_bytes s - old + new) s, Ok tt).
Proof.
  intros Hs Hr Ho. unfold wrap64, sat_sub. repeat case_decide; unfold modify.
  - rewrite Z.mod_small by lia. do 2 f_equal. lia.
  - do 2 f_equal. lia.
  - replace (st_logical_bytes s - old + new) with (st_logical_bytes s) by lia.
    by rewrite upd_logical_same.
Qed.

Lemma total_size_ge s a ino m :
  store_rep s a → a_inodes a !! ino = Some m → im_size m ≤ total_size (a_inodes a).
Proof.
  intros Hr Hm. rewrite (total_size_delete _ _ _ Hm).
  enough (0 ≤ total_size (delete ino (a_inodes a))) by lia.
  apply total_size_nonneg, map_Forall_delete.
  eapply map_Forall_impl; [exact (wf_inodes _ (rep_wf _ _ Hr))|].
  intros k x (_ & Hx & _). by destruct Hx as (_&_&_&_&_&[? _]&_).
Qed.

Lemma update_inode_refines s a meta :
  store_rep s a → wf_inode meta → admissible (serialize_inode meta) →
  (∀ old, a_inodes a !! im_ino meta = Some old →
          total_size (a_inodes a) - im_size old + im_size meta < 2 ^ 64) →
  refines (update_inode meta) (abs_update_inode meta) s a.
Proof.
  intros Hr Hm Hadm Htot. set (ino := im_ino meta) in *.
  destruct (push_all_spec _ _ (rep_io _ _ Hr) Hadm) as (Hio & Hle & Hst).
  destruct (rep_wf _ _ Hr) as [Hwi _ _ _ Hwn Hwc _].
  destruct (a_inodes a !! ino) as [old|] eqn:Hold.
  2:{ eapply refines_intro with (s' := s); [| |done|done].
      - unfold update_inode. mrun. fold ino. rewrite (rep_inode_lookup s a), Hold by done. done.
      - unfold abs_update_inode. fold ino. by rewrite Hold. }
  pose proof (total_size_ge s a _ _ Hr Hold) as Hge. specialize (Htot old eq_refl).
  assert (0 ≤ im_size meta) as Hsz by (destruct Hm as (_&_&_&_&_&[? _]&_); done).
  eapply refines_intro with
    (a' := a_set_next (a_next a) (a_set_inodes (<[ino := meta]> (a_inodes a)) a)).
  - unfold update_inode, intern_inode. mrun. fold ino.
    rewrite (rep_inode_lookup s a), Hold by done. mrun.
    rewrite (rep_size_or_0 s a ino) by done.
    rewrite adjust_logical; store_simpl; rewrite ?(rep_logical _ _ Hr); [done|..|lia].
    + by eapply rep_total_range.
    + lia.
  - unfold abs_update_inode. fold ino. rewrite Hold. by destruct a.
  - apply (rep_set_inodes s a); store_simpl; try done.
    + by rewrite (rep_inodes _ _ Hr), fmap_insert.
    + cbn. by rewrite (rep_imap _ _ Hr).
    + apply (rep_next _ _ Hr).
    + rewrite ?(rep_logical _ _ Hr). by rewrite (total_size_update _ _ _ _ Hold).
    + rewrite (rep_count _ _ Hr). by rewrite map_size_insert_Some by eauto.
    + apply map_Forall_insert_2; [|done]. split_and!; [done|done|].
      by destruct (Hwi _ _ Hold) as (_ & _ & ?).
    + apply map_Forall_insert_2; [exact Hst|]. by eapply rep_inode_stored.
    + by rewrite map_size_insert_Some by eauto.
    + by rewrite (total_size_update _ _ _ _ Hold).
  - done.
Qed.

Lemma delete_inode_refines s a ino :
  store_rep s a → refines (delete_inode ino) (abs_delete_inode ino) s a.
Proof.
  intros Hr. destruct (rep_wf _ _ Hr) as [Hwi _ _ _ Hwn Hwc Hwt].
  destruct (a_inodes a !! ino) as [m|] eqn:Hm.
  2:{ eapply refines_intro with (s' := s); [| |done|done].
      - unfold delete_inode. mrun. rewrite (rep_inode_lookup s a), Hm by done. done.
      - unfold abs_delete_inode. by rewrite Hm. }
  pose proof (total_size_ge s a _ _ Hr Hm) as Hge.
  pose proof (total_size_delete _ _ _ Hm) as Hdel.
  assert (0 ≤ im_size m) as Hsz by (by destruct (Hwi _ _ Hm) as (_ & (_&_&_&_&_&[? _]&_) & _)).
  assert (size (delete ino (a_inodes a)) = pred (size (a_inodes a))) as Hsize
    by (apply map_size_delete_Some; eauto).
  assert (size (a_inodes a) ≠ 0%nat) as Hne.
  { intros H0. apply map_size_empty_inv in H0. by rewrite H0 in Hm. }
  eapply refines_intro with
    (a' := a_set_next (a_next a) (a_set_inodes (delete ino (a_inodes a)) a))
    (s' := upd_inode_count (sat_sub (st_inode_count s) 1)
             (upd_logical_bytes (sat_sub (st_logical_bytes s) (im_size m))
               (upd_inode_map (inode_map_remove ino (st_inode_map s))
                 (upd_inode_data (delete ino (st_inode_data s)) s)))).
  - unfold delete_inode. mrun. rewrite (rep_inode_lookup s a), Hm by done. mrun.
    rewrite (rep_size_or_0 s a ino) by done. case_decide; mrun; [done|].
    assert (sat_sub (st_logical_bytes s) (im_size m) = st_logical_bytes s) as ->
      by (rewrite (rep_logical _ _ Hr); unfold sat_sub; lia). done.
  - unfold abs_delete_inode. rewrite Hm. by destruct a.
  - apply (rep_set_inodes s a); store_simpl; try done.
    + apply (rep_io _ _ Hr).
    + by rewrite (rep_inodes _ _ Hr), fmap_delete.
    + cbn. by rewrite (rep_imap _ _ Hr).
    + apply (rep_next _ _ Hr).
    + rewrite (rep_logical _ _ Hr). unfold sat_sub. lia.
    + rewrite (rep_count _ _ Hr), Hsize. unfold sat_sub. lia.
    + by apply map_Forall_delete.
    + apply map_Forall_delete. by eapply rep_inode_stored.
    + lia.
    + lia.
  - done.
Qed.

(* ---------------------------------------------------------------------- *)
(** ** Directories *)

Lemma rep_dir_lookup s a ino :
  store_rep s a → st_dir_data s !! ino = dir_digest <$> a_dirs a !! ino.
Proof. intros Hr. rewrite (rep_dirs _ _ Hr). apply lookup_fmap. Qed.

Lemma get_dir_digest_run s a ino :
  store_rep s a →
  get_dir_digest ino s = (s, ok_or (dir_digest <$> a_dirs a !! ino) (NotADirectory ino)).
Proof. intros Hr. unfold get_dir_digest. mrun. by rewrite (rep_dir_lookup s a). Qed.

Lemma on_dir {A} (k : Digest224 → M (DictMetadataStore B) MetaError A) s a parent :
  store_rep s a →
  (d ← get_dir_digest parent; k d) s =
  match a_dirs a !! parent with
  | None => (s, Err (NotADirectory parent))
  | Some D => k (dir_digest D) s
  end.
Proof.
  intros Hr. rewrite run_bind, (get_dir_digest_run s a) by done. by destruct (a_dirs a !! parent).
Qed.

Lemma rep_dir_facts s a ino D :
  store_rep s a → a_dirs a !! ino = Some D → dir_wf D ∧ dir_stored (st_io s) D.
Proof.
  intros Hr HD. split.
  - by apply (wf_dirs _ (rep_wf _ _ Hr) ino).
  - by apply (stored_dirs _ _ (rep_stored _ _ Hr) ino).
Qed.

(** Replacing one directory, with more content stored. *)
Lemma rep_set_dir s a ino D io' :
  store_rep s a → healthy io' → st_io s ⊑ᵢ io' → is_u64 ino → dir_wf D → dir_stored io' D →
  store_rep (upd_dir_data (<[ino := dir_digest D]> (st_dir_data s)) (upd_io io' s))
            (a_set_dirs (<[ino := D]> (a_dirs a)) a).
Proof.
  intros [] Hio Hle Hino HD Hst. destruct (abs_stored_mono _ _ _ Hle rep_stored).
  destruct rep_wf. split; store_simpl; abs_simpl; try done.
  - by rewrite rep_dirs, fmap_insert.
  - split; try done. by apply map_Forall_insert_2.
  - split; try done. by apply map_Forall_insert_2.
Qed.

Lemma rep_dir_u64 s a ino D : store_rep s a → a_dirs a !! ino = Some D → is_u64 ino.
Proof. intros Hr HD. by destruct (wf_dirs _ (rep_wf _ _ Hr) ino D HD). Qed.

Lemma lookup_run s a parent name :
  store_rep s a → admissible name →
  ∃ io', store_lookup parent name s =
         (upd_io io' s, match a_dirs a !! parent with
                        | None => Err (NotADirectory parent)
                        | Some D => ok_or (D !! name) (NotFound 0)
                        end) ∧ healthy io' ∧ st_io s ⊑ᵢ io'.
Proof.
  intros Hr Hn. unfold store_lookup. rewrite (on_dir _ s a) by done.
  destruct (a_dirs a !! parent) as [D|] eqn:HD.
  - destruct (rep_dir_facts s a _ _ Hr HD) as [Hwf Hst].
    destruct (push_all_spec _ _ (rep_io _ _ Hr) Hn) as (Hio & Hle & _).
    exists (push_all name (st_io s)).1. split; [|done].
    unfold map_err, zoom. rewrite lookup_dir_entry_spec by done.
    by destruct (D !! name).
  - exists (st_io s). split; [by destruct s|]. split; [apply (rep_io _ _ Hr)|done].
Qed.

Lemma lookup_refines s a parent name :
  store_rep s a → admissible name → refines (store_lookup parent name) (abs_lookup parent name) s a.
Proof.
  intros Hr Hn. destruct (lookup_run s a parent name Hr Hn) as (io' & Hrun & Hio & Hle).
  eapply refines_intro; [exact Hrun|done| |done]. by apply rep_io_grows.
Qed.

Lemma list_directory_run s a ino :
  store_rep s a →
  match a_dirs a !! ino with
  | None => list_directory ino s = (s, Err (NotADirectory ino))
  | Some D => ∃ l, list_directory ino s = (s, Ok l) ∧
                   l ≡ₚ (λ p, mkDirEntry p.1 p.2) <$> map_to_list D
  end.
Proof.
  intros Hr. unfold list_directory. rewrite (on_dir _ s a) by done.
  destruct (a_dirs a !! ino) as [D|] eqn:HD; [|done].
  destruct (rep_dir_facts s a _ _ Hr HD) as [Hwf Hst].
  exists (dir_listing D). split; [|by apply dir_listing_perm]. mrun. by rewrite list_dir_entries_spec.
Qed.

(** What a name operation needs to know about the directory it extends. *)
Definition dir_room (a : AbsFs) (parent : Z) (name : bytes) (ino : Z) : Prop :=
  ∀ D, a_dirs a !! parent = Some D → D !! name = None →
       Z.of_nat (size D) + 1 < 2 ^ 32 ∧ admissible (dir_content (<[name := ino]> D)).

Lemma link_refines s a parent name ino :
  store_rep s a → name_ok name → is_u64 ino → dir_room a parent name ino →
  refines (link parent name ino) (abs_link parent name ino) s a.
Proof.
  intros Hr Hn Hino Hroom. unfold link.
  destruct (push_all_spec _ _ (rep_io _ _ Hr) (proj2 (proj2 Hn))) as (Hio & Hle & _).
  destruct (a_dirs a !! parent) as [D|] eqn:HD.
  2:{ eapply refines_intro with (s' := s); [| |done|done].
      - by rewrite (on_dir _ s a), HD.
      - unfold abs_link. by rewrite HD. }
  destruct (rep_dir_facts s a _ _ Hr HD) as [Hwf Hst].
  pose proof (rep_dir_u64 _ _ _ _ Hr HD) as Hpar.
  destruct (decide (name = dot ∨ name = dotdot)) as [Hres|Hres].
  { eapply refines_intro with (s' := s); [| |done|done].
    - rewrite (on_dir _ s a), HD by done. rewrite run_bind. unfold zoom. rewrite add_dir_entry_reserved by done. by destruct s.
    - unfold abs_link. by rewrite HD, decide_True. }
  destruct (D !! name) as [j|] eqn:Hj.
  { eapply refines_intro with (s' := upd_io (push_all name (st_io s)).1 s);
      [| |by apply rep_io_grows|done].
    - rewrite (on_dir _ s a), HD by done. rewrite run_bind. unfold zoom.
      rewrite (add_dir_entry_exists _ _ _ _ j) by (tauto || apply Hn). done.
    - unfold abs_link. by rewrite HD, decide_False, Hj by done. }
  destruct (Hroom D HD Hj) as [Hsz Hadm].
  destruct (add_dir_entry_ok (st_io s) D name ino) as (io' & Hadd & Hio' & Hle' & Hwf' & Hst');
    try tauto. { apply (rep_io _ _ Hr). }
  eapply refines_intro; [| |by apply (rep_set_dir s a parent (<[name := ino]> D) io')|done].
  - rewrite (on_dir _ s a), HD by done. rewrite run_bind. unfold zoom. rewrite Hadd. done.
  - unfold abs_link. by rewrite HD, decide_False, Hj by done.
Qed.

Lemma unlink_refines s a parent name :
  store_rep s a → admissible name →
  (∀ D, a_dirs a !! parent = Some D → is_Some (D !! name) →
        admissible (dir_content (delete name D))) →
  refines (unlink parent name) (abs_unlink parent name) s a.
Proof.
  intros Hr Hn Hroom. unfold unlink.
  destruct (push_all_spec _ _ (rep_io _ _ Hr) Hn) as (Hio & Hle & _).
  destruct (a_dirs a !! parent) as [D|] eqn:HD.
  2:{ eapply refines_intro with (s' := s); [| |done|done].
      - by rewrite (on_dir _ s a), HD.
      - unfold abs_unlink. by rewrite HD. }
  destruct (rep_dir_facts s a _ _ Hr HD) as [Hwf Hst].
  pose proof (rep_dir_u64 _ _ _ _ Hr HD) as Hpar.
  destruct (decide (name = dot ∨ name = dotdot)) as [Hres|Hres].
  { eapply refines_intro with (s' := s); [| |done|done].
    - rewrite (on_dir _ s a), HD by done. rewrite run_bind. unfold zoom. rewrite remove_dir_entry_reserved by done. by destruct s.
    - unfold abs_unlink. by rewrite HD, decide_True. }
  destruct (D !! name) as [j|] eqn:Hj.
  2:{ eapply refines_intro with (s' := upd_io (push_all name (st_io s)).1 s);
        [| |by apply rep_io_grows|done].
    - rewrite (on_dir _ s a), HD by done. rewrite run_bind. unfold zoom. rewrite remove_dir_entry_missing by tauto. done.
    - unfold abs_unlink. by rewrite HD, decide_False, Hj by done. }
  destruct (remove_dir_entry_ok (st_io s) D name j) as (io' & Hrm & Hio' & Hle' & Hwf' & Hst');
    try tauto. { apply (rep_io _ _ Hr). } { apply Hroom; eauto. }
  eapply refines_intro; [| |by apply (rep_set_dir s a parent (delete name D) io')|done].
  - rewrite (on_dir _ s a), HD by done. rewrite run_bind. unfold zoom. rewrite Hrm. done.
  - unfold abs_unlink. by rewrite HD, decide_False, Hj by done.
Qed.

(** Only the allocator moves and content is stored: a failed creation. *)
Lemma rep_skip_ino s a io' :
  store_rep s a → a_next a + 1 < 2 ^ 64 → healthy io' → st_io s ⊑ᵢ io' →
  store_rep (upd_io io' (upd_inode_map (allocate_ino (st_inode_map s)).1 s))
            (a_set_next (a_next a + 1) a).
Proof.
  intros Hr Hn Hio Hle. pose proof (rep_total_range s a Hr) as [_ ?].
  replace (a_set_next (a_next a + 1) a)
    with (a_set_next (a_next a + 1) (a_set_inodes (a_inodes a) a)) by by destruct a.
  destruct (rep_wf _ _ Hr) as [Hwi _ _ _ Hwn Hwc _].
  apply (rep_set_inodes s a); store_simpl; try done; try apply Hr; try lia.
  - cbn. rewrite (rep_next _ _ Hr). unfold wrap64. apply Z.mod_small. lia.
  - eapply map_Forall_impl; [exact Hwi|]. intros k x (? & ? & ?). split_and!; [done|done|lia].
  - by eapply rep_inode_stored.
Qed.

Lemma update_inode_same_size s meta d old :
  st_inode_data s !! im_ino meta = Some d → load_inode (st_io s) d = Ok old →
  im_size old = im_size meta →
  update_inode meta s =
  (upd_inode_map (inode_map_insert (im_ino meta) (inode_digest meta) (st_inode_map s))
     (upd_inode_data (<[im_ino meta := inode_digest meta]> (st_inode_data s))
        (upd_io (push_all (serialize_inode meta) (st_io s)).1 s)), Ok tt).
Proof.
  intros Hd Hl Hsz. unfold update_inode, intern_inode. mrun. rewrite Hd. mrun.
  unfold inode_size_or_0. rewrite Hl, Hsz, !decide_False by lia. done.
Qed.

(** The prefix of [create_directory] up to the insertion into the parent. *)
Lemma create_directory_prefix s a parent name meta pm D :
  store_rep s a → a_inodes a !! parent = Some pm → Z.land (im_mode pm) S_IFDIR ≠ 0 →
  a_dirs a !! parent = Some D →
  let ino := a_next a in
  let io1 := (push_all (serialize_inode (dir_inode ino meta)) (st_io s)).1 in
  create_directory parent name meta s =
  ('(dir_entry_digest) ← with_io (create_dir_entries ino parent);
   new_parent ← zoom st_io upd_io (add_dir_entry (dir_digest D) name ino);
   _ ← modify (λ s, upd_inode_map (inode_map_insert ino (inode_digest (dir_inode ino meta)) (st_inode_map s)) s);
   _ ← modify (λ s, upd_inode_data (<[ino := inode_digest (dir_inode ino meta)]> (st_inode_data s)) s);
   _ ← modify (λ s, upd_dir_data (<[ino := dir_entry_digest]> (st_dir_data s)) s);
   _ ← modify (λ s, upd_dir_data (<[parent := new_parent]> (st_dir_data s)) s);
   pm ← get_inode parent;
   _ ← update_inode (add_link pm);
   _ ← modify (λ s, upd_inode_count (wrap64 (st_inode_count s + 1)) s);
   mret ino) (upd_io io1 (upd_inode_map (allocate_ino (st_inode_map s)).1 s)).
Proof.
  intros Hr Hpm Hmode HD ino io1. unfold create_directory.
  rewrite run_bind, (get_inode_run s a), Hpm by done. cbn [ok_or].
  rewrite decide_False by done. mrun.
  rewrite (rep_dir_lookup s a), HD by done. rewrite decide_False by done. mrun.
  unfold allocate_ino. mrun. rewrite (rep_dir_lookup s a), HD by done. mrun.
  rewrite (rep_next _ _ Hr). fold ino. unfold intern_inode.
  fold (dir_inode ino meta). rewrite with_io_push. done.
Qed.

(** What [create_directory] stores is admissible and fits. *)
Record mkdir_room (a : AbsFs) (parent : Z) (name : bytes) (meta : InodeMeta) : Prop := {
  mr_next : a_next a + 1 < 2 ^ 64;
  mr_name : name_ok name;
  mr_dots : admissible dot ∧ admissible dotdot;
  mr_inode : wf_inode (dir_inode (a_next a) meta) ∧
             admissible (serialize_inode (dir_inode (a_next a) meta));
  mr_size : im_size meta = 0;
  mr_fresh : admissible (dir_content (fresh_dir (a_next a) parent));
  mr_parent : ∀ pm, a_inodes a !! parent = Some pm → admissible (serialize_inode (add_link pm));
  mr_dir : dir_room a parent name (a_next a)
}.

Lemma add_link_wf m : wf_inode m → wf_inode (add_link m).
Proof.
  intros (?&?&?&?&?&?&?&?&?&?). unfold add_link, set_nlinks, wf_inode. inode_simpl.
  split_and!; try done. unfold is_u32, wrap32. apply Z.mod_pos_bound. lia.
Qed.

Lemma with_io_fresh {E} (s : DictMetadataStore B) self parent io' :
  create_dir_entries self parent (st_io s) = (io', dir_digest (fresh_dir self parent)) →
  @with_io _ E _ (create_dir_entries self parent) s =
  (upd_io io' s, Ok (dir_digest (fresh_dir self parent))).
Proof. intros H. unfold with_io, zoom, io_do. by rewrite H. Qed.

(** The new inode table of a successful creation is well formed. *)
Lemma mkdir_inodes s a parent pm meta s' :
  store_rep s a → a_inodes a !! parent = Some pm → a_next a + 1 < 2 ^ 64 →
  let ino := a_next a in
  wf_inode (dir_inode ino meta) → im_size meta = 0 →
  healthy (st_io s') → st_io s ⊑ᵢ st_io s' →
  stored (st_io s') (serialize_inode (dir_inode ino meta)) →
  stored (st_io s') (serialize_inode (add_link pm)) →
  st_inode_data s' = <[parent := inode_digest (add_link pm)]>
                       (<[ino := inode_digest (dir_inode ino meta)]> (st_inode_data s)) →
  imap_map (st_inode_map s') = st_inode_data s' →
  imap_next_ino (st_inode_map s') = ino + 1 →
  st_dir_data s' = st_dir_data s → st_manifest_data s' = st_manifest_data s →
  st_xattr_data s' = st_xattr_data s → st_logical_bytes s' = st_logical_bytes s →
  st_inode_count s' = st_inode_count s + 1 →
  store_rep s' (a_set_next (ino + 1)
    (a_set_inodes (<[parent := add_link pm]> (<[ino := dir_inode ino meta]> (a_inodes a))) a)).
Proof.
  intros Hr Hpm Hnext ino Hwf Hsz Hio Hle Hst1 Hst2 Hdata Himap Hnx Hd Hm Hx Hl Hc.
  pose proof (rep_fresh s a Hr) as Hfresh. fold ino in Hfresh.
  destruct (rep_wf _ _ Hr) as [Hwi _ _ _ Hwn Hwc Hwt].
  assert (im_ino (dir_inode ino meta) = ino ∧ im_size (dir_inode ino meta) = 0) as [Hdi Hds].
  { unfold dir_inode. by case_decide. }
  assert (parent ≠ ino) as Hne by congruence.
  assert (<[ino := dir_inode ino meta]> (a_inodes a) !! parent = Some pm) as Hpm'
    by by rewrite lookup_insert_ne.
  assert (size (<[parent := add_link pm]> (<[ino := dir_inode ino meta]> (a_inodes a)))
          = S (size (a_inodes a))) as Hsize.
  { rewrite map_size_insert_Some by eauto. by rewrite map_size_insert_None. }
  assert (total_size (<[parent := add_link pm]> (<[ino := dir_inode ino meta]> (a_inodes a)))
          = total_size (a_inodes a)) as Htot.
  { rewrite (total_size_update _ _ _ _ Hpm'), total_size_insert, Hds by done. cbn. lia. }
  apply (rep_set_inodes s a); try done; rewrite ?Htot, ?Hsize; try lia.
  - by rewrite Hdata, !fmap_insert, (rep_inodes _ _ Hr).
  - rewrite Hl. apply (rep_logical _ _ Hr).
  - rewrite Hc, (rep_count _ _ Hr). lia.
  - destruct (Hwi _ _ Hpm) as (Hp1 & Hp2 & Hp3).
    apply map_Forall_insert_2; [split_and!; [done|by apply add_link_wf|lia]|].
    apply map_Forall_insert_2; [split_and!; [done|done|lia]|].
    eapply map_Forall_impl; [exact Hwi|]. intros k x (? & ? & ?). split_and!; [done|done|lia].
  - apply map_Forall_insert_2; [done|]. apply map_Forall_insert_2; [done|].
    by eapply rep_inode_stored.
Qed.

(** The outcome of a successful creation. *)
Definition mkdir_abs (a : AbsFs) (parent : Z) (name : bytes) (meta pm : InodeMeta)
    (D : gmap bytes Z) : AbsFs :=
  let ino := a_next a in
  a_set_dirs (<[parent := <[name := ino]> D]> (<[ino := fresh_dir ino parent]> (a_dirs a)))
    (a_set_next (ino + 1)
      (a_set_inodes (<[parent := add_link pm]> (<[ino := dir_inode ino meta]> (a_inodes a))) a)).
Definition mkdir_store s (io : Io) (parent : Z) (name : bytes) (ino : Z) (meta pm : InodeMeta)
    (D : gmap bytes Z) : DictMetadataStore B :=
  mkStore B io
    (inode_map_insert parent (inode_digest (add_link pm))
      (inode_map_insert ino (inode_digest (dir_inode ino meta)) (allocate_ino (st_inode_map s)).1))
    (<[parent := inode_digest (add_link pm)]>
       (<[ino := inode_digest (dir_inode ino meta)]> (st_inode_data s)))
    (<[parent := dir_digest (<[name := ino]> D)]>
       (<[ino := dir_digest (fresh_dir ino parent)]> (st_dir_data s)))
    (st_manifest_data s) (st_xattr_data s) (st_refcounts s)
    (st_logical_bytes s) (wrap64 (st_inode_count s + 1)) (st_wal s) (st_last_root s)
    (st_by_version s) (st_by_name s).

Lemma abs_create_directory_new a parent name meta pm D :
  a_inodes a !! parent = Some pm → Z.land (im_mode pm) S_IFDIR ≠ 0 →
  a_dirs a !! parent = Some D → ¬ (name = dot ∨ name = dotdot) → D !! name = None →
  abs_create_directory parent name meta a = (mkdir_abs a parent name meta pm D, Ok (a_next a)).
Proof.
  intros Hpm Hmode HD Hres Hnone. unfold abs_create_directory.
  rewrite Hpm, decide_False, HD by done. by rewrite decide_False, Hnone by done.
Qed.

Lemma mkdir_rep s a parent name meta pm D io4 :
  store_rep s a → a_inodes a !! parent = Some pm → a_next a + 1 < 2 ^ 64 →
  let ino := a_next a in
  wf_inode (dir_inode ino meta) → im_size meta = 0 →
  admissible dot → admissible dotdot → is_u64 parent → is_u64 ino →
  healthy io4 → st_io s ⊑ᵢ io4 →
  stored io4 (serialize_inode (dir_inode ino meta)) →
  stored io4 (serialize_inode (add_link pm)) →
  dir_stored io4 (fresh_dir ino parent) →
  dir_wf (<[name := ino]> D) → dir_stored io4 (<[name := ino]> D) →
  store_rep (mkdir_store s io4 parent name ino meta pm D) (mkdir_abs a parent name meta pm D).
Proof.
  intros Hr Hpm Hnext ino Hwf Hsz Hdot Hddot Hpu Hiu Hio Hle Hst1 Hst2 HstF HwfD HstD.
  pose proof (wf_count _ (rep_wf _ _ Hr)). pose proof (rep_count _ _ Hr).
  pose proof (wf_next _ (rep_wf _ _ Hr)).
  set (s1 := upd_dir_data (st_dir_data s) (mkdir_store s io4 parent name ino meta pm D)).
  assert (store_rep s1 (a_set_next (ino + 1) (a_set_inodes
    (<[parent := add_link pm]> (<[ino := dir_inode ino meta]> (a_inodes a))) a))) as Hr1.
  { apply (mkdir_inodes s a); subst s1; unfold mkdir_store; store_simpl; try done.
    - unfold inode_map_insert. cbn. by rewrite (rep_imap _ _ Hr).
    - cbn. rewrite (rep_next _ _ Hr). unfold wrap64. apply Z.mod_small. lia.
    - unfold wrap64. rewrite Z.mod_small; lia. }
  assert (dir_wf (fresh_dir ino parent)) as HwF by by apply fresh_dir_wf.
  pose proof (rep_set_dir s1 _ ino (fresh_dir ino parent) io4 Hr1 Hio
    (reflexivity _) Hiu HwF HstF) as Hr2.
  exact (rep_set_dir _ _ parent (<[name := ino]> D) io4 Hr2 Hio (reflexivity _) Hpu HwfD HstD).
Qed.

Lemma create_directory_new s a parent name meta pm D :
  store_rep s a → mkdir_room a parent name meta →
  a_inodes a !! parent = Some pm → Z.land (im_mode pm) S_IFDIR ≠ 0 →
  a_dirs a !! parent = Some D → ¬ (name = dot ∨ name = dotdot) → D !! name = None →
  refines (create_directory parent name meta) (abs_create_directory parent name meta) s a.
Proof.
  intros Hr [Hnext Hname [Hdot Hddot] [Hwf Hadm] Hsz Hfr Hpar Hroom] Hpm Hmode HD Hres Hnone.
  set (ino := a_next a) in *.
  destruct (rep_dir_facts s a _ _ Hr HD) as [HwfD HstD].
  pose proof (rep_dir_u64 _ _ _ _ Hr HD) as Hpu.
  destruct (wf_inodes _ (rep_wf _ _ Hr) _ _ Hpm) as (Hpi & Hpw & Hpn). fold ino in Hpn.
  assert (is_u64 ino) as Hiu by (pose proof (wf_next _ (rep_wf _ _ Hr)); unfold is_u64; lia).
  destruct (push_all_spec _ _ (rep_io _ _ Hr) Hadm) as (Hio1 & Hle1 & Hst1).
  destruct (create_dir_entries_spec _ ino parent Hio1) as (io2 & Hcr & Hio2 & Hle2 & Hst2);
    [done..|].
  destruct (Hroom D HD Hnone) as [HszD HadmD].
  destruct (add_dir_entry_ok io2 D name ino) as (io3 & Hadd & Hio3 & Hle3 & HwfD' & HstD');
    try done; try tauto.
  { eapply dir_stored_mono; [|exact HstD]. by etransitivity. }
  destruct (push_all_spec _ _ Hio3 (Hpar pm Hpm)) as (Hio4 & Hle4 & Hst4).
  set (io4 := (push_all (serialize_inode (add_link pm)) io3).1) in *.
  assert (st_io s ⊑ᵢ io3) as Hle03 by (do 2 (etransitivity; [eassumption|]); done).
  assert (st_io s ⊑ᵢ io4) as Hle04 by by etransitivity.
  pose proof (mkdir_rep s a parent name meta pm D io4 Hr) as Hrep. fold ino in Hrep.
  eapply refines_intro; [| |apply Hrep; try done|done].
  3:{ eapply stored_mono; [|exact Hst1]. do 2 (etransitivity; [eassumption|]). done. }
  3:{ eapply dir_stored_mono; [|exact Hst2]. by etransitivity. }
  3:{ exact (dir_stored_mono _ _ _ Hle4 HstD'). }
  - rewrite (create_directory_prefix s a _ _ _ pm D) by done. fold ino.
    rewrite run_bind, (with_io_fresh _ ino parent io2) by exact Hcr. rewrite run_bind.
    unfold zoom at 1. store_simpl. rewrite Hadd. mrun.
    set (s2 := upd_dir_data _ _).
    assert (st_inode_data s2 !! parent = Some (inode_digest pm)) as Hl2.
    { subst s2. store_simpl. rewrite lookup_insert_ne by lia.
      by rewrite (rep_inode_lookup s a), Hpm. }
    assert (load_inode (st_io s2) (inode_digest pm) = Ok pm) as Hld.
    { eapply load_inode_mono; [exact Hle03|]. by eapply rep_load_inode. }
    assert (get_inode parent s2 = (s2, Ok pm)) as Hget.
    { unfold get_inode. mrun. rewrite Hl2. mrun. by rewrite Hld. }
    rewrite Hget. mrun. rewrite (update_inode_same_size s2 (add_link pm) (inode_digest pm) pm);
      [|by rewrite <-Hpi in Hl2|done|done].
    mrun. subst s2. store_simpl. cbn [add_link set_nlinks im_ino]. rewrite Hpi. reflexivity.
  - by apply abs_create_directory_new.
Qed.

Lemma create_directory_refines s a parent name meta :
  store_rep s a → mkdir_room a parent name meta →
  refines (create_directory parent name meta) (abs_create_directory parent name meta) s a.
Proof.
  intros Hr Hroom. destruct (a_inodes a !! parent) as [pm|] eqn:Hpm.
  2:{ eapply refines_intro with (s' := s); [| |done|done].
      - unfold create_directory. by rewrite run_bind, (get_inode_run s a), Hpm.
      - unfold abs_create_directory. by rewrite Hpm. }
  destruct (decide (Z.land (im_mode pm) S_IFDIR = 0)) as [Hmode|Hmode].
  { eapply refines_intro with (s' := s); [| |done|done].
    - unfold create_directory. rewrite run_bind, (get_inode_run s a), Hpm by done.
      cbn [ok_or]. by rewrite decide_True.
    - unfold abs_create_directory. by rewrite Hpm, decide_True. }
  destruct (a_dirs a !! parent) as [D|] eqn:HD.
  2:{ eapply refines_intro with (s' := s); [| |done|done].
      - unfold create_directory. rewrite run_bind, (get_inode_run s a), Hpm by done.
        cbn [ok_or]. rewrite decide_False by done. mrun.
        rewrite (rep_dir_lookup s a), HD by done. by rewrite decide_True.
      - unfold abs_create_directory. by rewrite Hpm, decide_False, HD. }
  pose proof Hroom as [Hnext Hname [Hdot Hddot] [Hwf Hadm] Hsz Hfr Hpar Hdr].
  destruct (decide (name = dot ∨ name = dotdot)) as [Hres|Hres];
    [|destruct (D !! name) as [j|] eqn:Hj; [|by eapply create_directory_new]].
  all: destruct (rep_dir_facts s a _ _ Hr HD) as [HwfD HstD].
  all: destruct (push_all_spec _ _ (rep_io _ _ Hr) Hadm) as (Hio1 & Hle1 & _).
  all: assert (is_u64 (a_next a)) as Hiu
         by (pose proof (wf_next _ (rep_wf _ _ Hr)); unfold is_u64; lia).
  all: destruct (create_dir_entries_spec _ (a_next a) parent Hio1)
         as (io2 & Hcr & Hio2 & Hle2 & _); [done|done|done|by eapply rep_dir_u64|done|].
  all: assert (st_io s ⊑ᵢ io2) as Hle02 by by etransitivity.
  - eapply refines_intro; [| |apply (rep_skip_ino s a io2); done|done].
    + rewrite (create_directory_prefix s a _ _ _ pm D) by done.
      rewrite run_bind, (with_io_fresh _ _ parent io2) by exact Hcr. rewrite run_bind.
      unfold zoom at 1. store_simpl. by rewrite add_dir_entry_reserved.
    + unfold abs_create_directory. rewrite Hpm, decide_False, HD by done. by rewrite decide_True.
  - destruct (push_all_spec _ _ Hio2 (proj2 (proj2 Hname))) as (Hio3 & Hle3 & _).
    eapply refines_intro; [| |apply (rep_skip_ino s a (push_all name io2).1); [done..|]|].
    + rewrite (create_directory_prefix s a _ _ _ pm D) by done.
      rewrite run_bind, (with_io_fresh _ _ parent io2) by exact Hcr. rewrite run_bind.
      unfold zoom at 1. store_simpl. rewrite (add_dir_entry_exists _ _ _ _ j); try tauto.
      * by eapply dir_stored_mono.
      * apply Hname.
    + unfold abs_create_directory. rewrite Hpm, decide_False, HD by done.
      by rewrite decide_False, Hj by done.
    + by etransitivity.
    + store_simpl. by etransitivity.
Qed.

(* ---------------------------------------------------------------------- *)
(** ** Manifests and extended attributes *)

Lemma set_manifest_refines s a ino blocks :
  store_rep s a → is_u64 ino → Forall wf_digest blocks → admissible (serialize_manifest blocks) →
  refines (set_manifest ino blocks) (abs_set_manifest ino blocks) s a.
Proof.
  intros Hr Hino Hb Hadm.
  destruct (push_all_spec _ _ (rep_io _ _ Hr) Hadm) as (Hio & Hle & Hst).
  eapply refines_intro; [unfold set_manifest, intern_manifest; mrun; done|done| |done].
  destruct Hr. destruct (abs_stored_mono _ _ _ Hle rep_stored). destruct rep_wf.
  split; store_simpl; abs_simpl; try done.
  - by rewrite rep_manifests, fmap_insert.
  - split; try done. by apply map_Forall_insert_2.
  - split; try done. by apply map_Forall_insert_2.
Qed.

Lemma get_manifest_run s a ino :
  store_rep s a → get_manifest ino s = (s, ok_or (a_manifests a !! ino) (NotFound ino)).
Proof.
  intros Hr. unfold get_manifest. mrun. rewrite (rep_manifests _ _ Hr), lookup_fmap.
  destruct (a_manifests a !! ino) as [l|] eqn:Hl; mrun; [|done].
  rewrite load_manifest_stored; [done|..].
  - by apply (wf_manifests _ (rep_wf _ _ Hr) ino).
  - by apply (stored_manifests _ _ (rep_stored _ _ Hr) ino).
Qed.

Lemma get_manifest_refines s a ino :
  store_rep s a → refines (get_manifest ino) (abs_get_manifest ino) s a.
Proof. intros Hr. by eapply refines_intro; [apply get_manifest_run| |..]. Qed.

Lemma rep_xattr_lookup s a ino :
  store_rep s a → st_xattr_data s !! ino = xattr_digest <$> a_xattrs a !! ino.
Proof. intros Hr. rewrite (rep_xattrs _ _ Hr). apply lookup_fmap. Qed.

Lemma rep_load_xattrs s a ino xs :
  store_rep s a → a_xattrs a !! ino = Some xs → load_xattrs (st_io s) (xattr_digest xs) = Ok xs.
Proof.
  intros Hr Hxs. apply load_xattrs_stored.
  - by apply (wf_xattrs _ (rep_wf _ _ Hr) ino).
  - by apply (stored_xattrs _ _ (rep_stored _ _ Hr) ino).
Qed.

(** Replacing one attribute list, with more content stored. *)
Lemma rep_set_xattrs s a ino xs io' :
  store_rep s a → healthy io' → st_io s ⊑ᵢ io' → is_u64 ino → Forall wf_xattr xs →
  stored io' (serialize_xattrs xs) →
  store_rep (upd_xattr_data (<[ino := xattr_digest xs]> (st_xattr_data s)) (upd_io io' s))
            (a_set_xattrs (<[ino := xs]> (a_xattrs a)) a).
Proof.
  intros [] Hio Hle Hino HD Hst. destruct (abs_stored_mono _ _ _ Hle rep_stored).
  destruct rep_wf. split; store_simpl; abs_simpl; try done.
  - by rewrite rep_xattrs, fmap_insert.
  - split; try done. by apply map_Forall_insert_2.
  - split; try done. by apply map_Forall_insert_2.
Qed.

Lemma rep_xattrs_wf s a ino :
  store_rep s a → Forall wf_xattr (default [] (a_xattrs a !! ino)).
Proof.
  intros Hr. destruct (a_xattrs a !! ino) as [xs|] eqn:Hxs; cbn; [|constructor].
  by apply (wf_xattrs _ (rep_wf _ _ Hr) ino).
Qed.

Lemma set_xattr_refines s a ino name value :
  store_rep s a → is_u64 ino → wf_xattr (name, value) →
  admissible (serialize_xattrs (set_xattr_entry (default [] (a_xattrs a !! ino)) name value)) →
  refines (set_xattr ino name value) (abs_set_xattr ino name value) s a.
Proof.
  intros Hr Hino Hx Hadm. set (xs := default [] (a_xattrs a !! ino)) in *.
  destruct (push_all_spec _ _ (rep_io _ _ Hr) Hadm) as (Hio & Hle & Hst).
  eapply refines_intro; [| |by apply (rep_set_xattrs s a ino (set_xattr_entry xs name value));
    try apply set_xattr_entry_wf; try eapply rep_xattrs_wf|done]; [|done].
  unfold set_xattr, intern_xattrs. mrun. rewrite (rep_xattr_lookup s a) by done.
  subst xs. destruct (a_xattrs a !! ino) as [xs|] eqn:Hxs; mrun; [|done].
  rewrite (rep_load_xattrs s a ino) by done. mrun. done.
Qed.

Lemma get_xattr_run s a ino name :
  store_rep s a →
  get_xattr ino name s = (s, ok_or (xs ← a_xattrs a !! ino; get_xattr_entry xs name) (NotFound ino)).
Proof.
  intros Hr. unfold get_xattr. mrun. rewrite (rep_xattr_lookup s a) by done.
  destruct (a_xattrs a !! ino) as [xs|] eqn:Hxs; mrun; [|done].
  rewrite (rep_load_xattrs s a ino) by done. mrun. done.
Qed.

Lemma get_xattr_refines s a ino name :
  store_rep s a → refines (get_xattr ino name) (abs_get_xattr ino name) s a.
Proof. intros Hr. by eapply refines_intro; [apply get_xattr_run| |..]. Qed.

Lemma list_xattrs_refines s a ino :
  store_rep s a → refines (list_xattrs ino) (abs_list_xattrs ino) s a.
Proof.
  intros Hr. eapply refines_intro with (s' := s); [|done..].
  unfold list_xattrs. mrun. rewrite (rep_xattr_lookup s a) by done.
  destruct (a_xattrs a !! ino) as [xs|] eqn:Hxs; mrun; [|done].
  rewrite (rep_load_xattrs s a ino) by done. mrun. done.
Qed.

Lemma remove_xattr_refines s a ino name :
  store_rep s a →
  (∀ xs, a_xattrs a !! ino = Some xs →
         admissible (serialize_xattrs (remove_xattr_entry xs name).1)) →
  refines (remove_xattr ino name) (abs_remove_xattr ino name) s a.
Proof.
  intros Hr Hadm. destruct (a_xattrs a !! ino) as [xs|] eqn:Hxs.
  2:{ eapply refines_intro with (s' := s); [| |done|done].
      - unfold remove_xattr. mrun. by rewrite (rep_xattr_lookup s a), Hxs.
      - unfold abs_remove_xattr. by rewrite Hxs. }
  specialize (Hadm xs eq_refl).
  destruct (wf_xattrs _ (rep_wf _ _ Hr) _ _ Hxs) as [Hino Hwf].
  destruct (push_all_spec _ _ (rep_io _ _ Hr) Hadm) as (Hio & Hle & Hst).
  destruct (remove_xattr_entry xs name) as [xs' []] eqn:Hrm; cbn [fst] in *.
  - eapply refines_intro; [| |apply (rep_set_xattrs s a ino xs' (push_all (serialize_xattrs xs') (st_io s)).1); try done|done].
    + unfold remove_xattr, intern_xattrs. mrun. rewrite (rep_xattr_lookup s a), Hxs by done. mrun.
      rewrite (rep_load_xattrs s a ino) by done. mrun. rewrite Hrm. cbn [negb]. mrun. done.
    + unfold abs_remove_xattr. by rewrite Hxs, Hrm.
    + injection Hrm as <- _. apply Forall_forall. intros x [_ Hx]%list_elem_of_filter.
      by apply (proj1 (Forall_forall _ _) Hwf).
  - eapply refines_intro with (s' := s); [| |done|done].
    + unfold remove_xattr, intern_xattrs. mrun. rewrite (rep_xattr_lookup s a), Hxs by done. mrun.
      rewrite (rep_load_xattrs s a ino) by done. mrun. rewrite Hrm. done.
    + unfold abs_remove_xattr. by rewrite Hxs, Hrm.
Qed.
End refine.
