(* ===== verification/MetadataStoreTrait.v ===== *)
(** * The [MetadataStore] trait

    The trait of [crates/slicefs-traits/src/metadata.rs] as an interface with two
    implementations: [DictMetadataStore], and the abstract file system that is its
    specification.  A client calls its methods and may choose every call by the replies
    so far; it cannot tell the two apart. *)

From S2P Require Import Prelude Types Text Blockset Inode InodeMap Xattr Directory Segment Wal.
From S2P Require Import Store StoreSpec StoreRefine.
From stdpp Require Import base tactics numbers option list gmap strings.
Open Scope Z_scope.

(** [trait MetadataStore], without [root_ino], a constant, and [commit], which relates a
    store to its directory. *)
Class MetadataStore (S : Type) := {
  ms_create_inode : InodeMeta → M S MetaError Z;
  ms_get_inode : Z → M S MetaError InodeMeta;
  ms_update_inode : InodeMeta → M S MetaError unit;
  ms_delete_inode : Z → M S MetaError unit;
  ms_create_directory : Z → bytes → InodeMeta → M S MetaError Z;
  ms_list_directory : Z → M S MetaError (list DirEntry);
  ms_lookup : Z → bytes → M S MetaError Z;
  ms_link : Z → bytes → Z → M S MetaError unit;
  ms_unlink : Z → bytes → M S MetaError unit;
  ms_set_manifest : Z → list Digest224 → M S MetaError unit;
  ms_get_manifest : Z → M S MetaError (list Digest224);
  ms_set_xattr : Z → bytes → bytes → M S MetaError unit;
  ms_get_xattr : Z → bytes → M S MetaError bytes;
  ms_list_xattrs : Z → M S MetaError (list bytes);
  ms_remove_xattr : Z → bytes → M S MetaError unit
}.

#[export] Instance dict_metadata_store {B : Blockset} : MetadataStore (DictMetadataStore B) := {|
  ms_create_inode := create_inode;
  ms_get_inode := get_inode;
  ms_update_inode := update_inode;
  ms_delete_inode := delete_inode;
  ms_create_directory := create_directory;
  ms_list_directory := list_directory;
  ms_lookup := store_lookup;
  ms_link := link;
  ms_unlink := unlink;
  ms_set_manifest := set_manifest;
  ms_get_manifest := get_manifest;
  ms_set_xattr := set_xattr;
  ms_get_xattr := get_xattr;
  ms_list_xattrs := list_xattrs;
  ms_remove_xattr := remove_xattr
|}.

(** The specification lists a directory in the order of its map. *)
Definition abs_list_directory (ino : Z) : M AbsFs MetaError (list DirEntry) := λ a,
  (a, match a_dirs a !! ino with
      | None => Err (NotADirectory ino)
      | Some D => Ok ((λ p, mkDirEntry p.1 p.2) <$> map_to_list D)
      end).

#[export] Instance abs_metadata_store : MetadataStore AbsFs := {|
  ms_create_inode := abs_create_inode;
  ms_get_inode := abs_get_inode;
  ms_update_inode := abs_update_inode;
  ms_delete_inode := abs_delete_inode;
  ms_create_directory := abs_create_directory;
  ms_list_directory := abs_list_directory;
  ms_lookup := abs_lookup;
  ms_link := abs_link;
  ms_unlink := abs_unlink;
  ms_set_manifest := abs_set_manifest;
  ms_get_manifest := abs_get_manifest;
  ms_set_xattr := abs_set_xattr;
  ms_get_xattr := abs_get_xattr;
  ms_list_xattrs := abs_list_xattrs;
  ms_remove_xattr := abs_remove_xattr
|}.

(* ------------------------------------------------------------------------ *)
(** ** Clients *)

Inductive StoreCall :=
  | CallCreateInode (meta : InodeMeta)
  | CallGetInode (ino : Z)
  | CallUpdateInode (meta : InodeMeta)
  | CallDeleteInode (ino : Z)
  | CallCreateDirectory (parent : Z) (name : bytes) (meta : InodeMeta)
  | CallListDirectory (ino : Z)
  | CallLookup (parent : Z) (name : bytes)
  | CallLink (parent : Z) (name : bytes) (ino : Z)
  | CallUnlink (parent : Z) (name : bytes)
  | CallSetManifest (ino : Z) (blocks : list Digest224)
  | CallGetManifest (ino : Z)
  | CallSetXattr (ino : Z) (name value : bytes)
  | CallGetXattr (ino : Z) (name : bytes)
  | CallListXattrs (ino : Z)
  | CallRemoveXattr (ino : Z) (name : bytes).

(** A reply; a listing is the map that it shows and the number of its entries, since the
    trait promises no order. *)
Inductive StoreReply :=
  | GotIno (r : res MetaError Z)
  | GotInode (r : res MetaError InodeMeta)
  | GotUnit (r : res MetaError unit)
  | GotListing (r : res MetaError (gmap bytes Z * nat))
  | GotBlocks (r : res MetaError (list Digest224))
  | GotBytes (r : res MetaError bytes)
  | GotNames (r : res MetaError (list bytes)).

Definition listing_of (l : list DirEntry) : gmap bytes Z * nat :=
  (list_to_map ((λ e, (de_name e, de_ino e)) <$> l), length l).

(** Run a method and wrap its result. *)
Definition wrap {S A} (g : res MetaError A → StoreReply) (m : M S MetaError A) (s : S) : S * StoreReply :=
  let '(s, r) := m s in (s, g r).

Definition store_call {S} `{MetadataStore S} (c : StoreCall) : S → S * StoreReply :=
  match c with
  | CallCreateInode meta => wrap GotIno (ms_create_inode meta)
  | CallGetInode ino => wrap GotInode (ms_get_inode ino)
  | CallUpdateInode meta => wrap GotUnit (ms_update_inode meta)
  | CallDeleteInode ino => wrap GotUnit (ms_delete_inode ino)
  | CallCreateDirectory parent name meta => wrap GotIno (ms_create_directory parent name meta)
  | CallListDirectory ino => wrap (λ r, GotListing (listing_of <$> r)) (ms_list_directory ino)
  | CallLookup parent name => wrap GotIno (ms_lookup parent name)
  | CallLink parent name ino => wrap GotUnit (ms_link parent name ino)
  | CallUnlink parent name => wrap GotUnit (ms_unlink parent name)
  | CallSetManifest ino blocks => wrap GotUnit (ms_set_manifest ino blocks)
  | CallGetManifest ino => wrap GotBlocks (ms_get_manifest ino)
  | CallSetXattr ino name value => wrap GotUnit (ms_set_xattr ino name value)
  | CallGetXattr ino name => wrap GotBytes (ms_get_xattr ino name)
  | CallListXattrs ino => wrap GotNames (ms_list_xattrs ino)
  | CallRemoveXattr ino name => wrap GotUnit (ms_remove_xattr ino name)
  end.

(** A client that chooses each of its [n] calls by the replies so far. *)
Definition Client : Type := list StoreReply → option StoreCall.
Fixpoint run_client {S} `{MetadataStore S} (n : nat) (client : Client) (log : list StoreReply) (s : S)
    : S * list StoreReply :=
  match n with
  | O => (s, log)
  | Datatypes.S n =>
      match client log with
      | None => (s, log)
      | Some c => let '(s, r) := store_call c s in run_client n client (log ++ [r]) s
      end
  end.

(* ------------------------------------------------------------------------ *)
(** ** Refinement *)

Section refinement.
Context {B : Blockset} {L : BlocksetLaws B}.
Implicit Types (s : DictMetadataStore B) (a : AbsFs).

(** What a call needs of the content store and of the number ranges. *)
Definition call_room a (c : StoreCall) : Prop :=
  match c with
  | CallCreateInode meta =>
      a_next a + 1 < 2 ^ 64 ∧ wf_inode (set_ino (a_next a) meta) ∧
      admissible (serialize_inode (set_ino (a_next a) meta)) ∧
      total_size (a_inodes a) + im_size meta < 2 ^ 64
  | CallUpdateInode meta =>
      wf_inode meta ∧ admissible (serialize_inode meta) ∧
      ∀ old, a_inodes a !! im_ino meta = Some old →
             total_size (a_inodes a) - im_size old + im_size meta < 2 ^ 64
  | CallCreateDirectory parent name meta => mkdir_room a parent name meta
  | CallLookup _ name => admissible name
  | CallLink parent name ino => name_ok name ∧ is_u64 ino ∧ dir_room a parent name ino
  | CallUnlink parent name =>
      admissible name ∧ ∀ D, a_dirs a !! parent = Some D → is_Some (D !! name) →
                             admissible (dir_content (delete name D))
  | CallSetManifest ino blocks =>
      is_u64 ino ∧ Forall wf_digest blocks ∧ admissible (serialize_manifest blocks)
  | CallSetXattr ino name value =>
      is_u64 ino ∧ wf_xattr (name, value) ∧
      admissible (serialize_xattrs (set_xattr_entry (default [] (a_xattrs a !! ino)) name value))
  | CallRemoveXattr ino name =>
      ∀ xs, a_xattrs a !! ino = Some xs → admissible (serialize_xattrs (remove_xattr_entry xs name).1)
  | CallGetInode _ | CallDeleteInode _ | CallListDirectory _ | CallGetManifest _
  | CallGetXattr _ _ | CallListXattrs _ => True
  end.

(** Every call of the client has it when it is made. *)
Fixpoint client_room (n : nat) (client : Client) (log : list StoreReply) a : Prop :=
  match n with
  | O => True
  | Datatypes.S n =>
      match client log with
      | None => True
      | Some c => call_room a c ∧ client_room n client (log ++ [(store_call c a).2]) (store_call c a).1
      end
  end.

(** The same reply, and a store that represents the new state. *)
Definition call_refines (c : StoreCall) s a : Prop :=
  (store_call c s).2 = (store_call c a).2 ∧ store_rep (store_call c s).1 (store_call c a).1 ∧
  st_io s ⊑ᵢ st_io (store_call c s).1.

Lemma wrap_refines {A} (g : res MetaError A → StoreReply) (m : M (DictMetadataStore B) MetaError A) spec s a :
  refines m spec s a →
  (wrap g m s).2 = (wrap g spec a).2 ∧ store_rep (wrap g m s).1 (wrap g spec a).1 ∧
  st_io s ⊑ᵢ st_io (wrap g m s).1.
Proof.
  intros (H1 & H2 & H3). unfold wrap. destruct (m s) as [s' r], (spec a) as [a' r']. cbn in *. by subst.
Qed.

Lemma listing_of_map (D : gmap bytes Z) l :
  l ≡ₚ (λ p, mkDirEntry p.1 p.2) <$> map_to_list D → listing_of l = (D, size D).
Proof.
  intros Hl. unfold listing_of. rewrite Hl at 2. rewrite length_fmap, length_map_to_list. f_equal.
  assert ((λ e, (de_name e, de_ino e)) <$> l ≡ₚ map_to_list D) as Hp.
  { rewrite Hl, <-list_fmap_compose. rewrite <-(list_fmap_id (map_to_list D)) at 2.
    apply Permutation_refl', list_fmap_ext. by intros ? []. }
  rewrite <-(list_to_map_to_list D) at 1. apply list_to_map_proper; [|done].
  rewrite Hp. apply NoDup_fst_map_to_list.
Qed.

Lemma list_call_refines s a ino : store_rep s a → call_refines (CallListDirectory ino) s a.
Proof.
  intros Hr. pose proof (list_directory_run s a ino Hr) as H. unfold call_refines, store_call, wrap.
  cbn [ms_list_directory dict_metadata_store abs_metadata_store]. unfold abs_list_directory.
  destruct (a_dirs a !! ino) as [D|].
  - destruct H as (l & -> & Hl). cbn. split_and!; [|done|done].
    by rewrite (listing_of_map D l), (listing_of_map D) by done.
  - rewrite H. done.
Qed.

Lemma call_refines_room s a c : store_rep s a → call_room a c → call_refines c s a.
Proof.
  intros Hr Hroom. destruct c; cbn [call_room] in Hroom;
    lazymatch goal with
    | |- call_refines (CallListDirectory _) _ _ => by apply list_call_refines
    | _ => apply wrap_refines
    end.
  - destruct Hroom as (?&?&?&?). by apply create_inode_refines.
  - by apply get_inode_refines.
  - destruct Hroom as (?&?&?). by apply update_inode_refines.
  - by apply delete_inode_refines.
  - by apply create_directory_refines.
  - by apply lookup_refines.
  - destruct Hroom as (?&?&?). by apply link_refines.
  - destruct Hroom as (?&?). by apply unlink_refines.
  - destruct Hroom as (?&?&?). by apply set_manifest_refines.
  - by apply get_manifest_refines.
  - destruct Hroom as (?&?&?). by apply set_xattr_refines.
  - by apply get_xattr_refines.
  - by apply list_xattrs_refines.
  - by apply remove_xattr_refines.
Qed.

Lemma run_client_refines n client : ∀ log s a,
  store_rep s a → client_room n client log a →
  (run_client n client log s).2 = (run_client n client log a).2 ∧
  store_rep (run_client n client log s).1 (run_client n client log a).1 ∧
  st_io s ⊑ᵢ st_io (run_client n client log s).1.
Proof.
  induction n as [|n IH]; intros log s a Hr Hroom; [done|]. cbn [run_client client_room] in *.
  destruct (client log) as [c|]; [|done]. destruct Hroom as [Hc Hroom].
  destruct (call_refines_room s a c Hr Hc) as (H1 & H2 & H3).
  destruct (store_call c s) as [s' r], (store_call c a) as [a' r']. cbn [fst snd] in *. subst r'.
  destruct (IH _ s' a' H2 Hroom) as (I1 & I2 & I3). split_and!; [done|done|by etransitivity].
Qed.
End refinement.
