(* ===== verification/StoreCommit.v ===== *)
(** * Commit, reload and crash recovery

    A fresh store represents the empty file system; [commit] writes a root
    record from which [load_from_root] rebuilds the same tables, counters and
    allocator, from any content store that still holds what was written. *)

From S2P Require Import Prelude Types Text Blockset Inode InodeMap Xattr Directory Segment Wal.
From S2P Require Import Store StoreSpec StoreRefine.
From stdpp Require Import base tactics numbers option list gmap strings pretty.
Open Scope Z_scope.

Section commit.
Context {B : Blockset} {L : BlocksetLaws B}.
Implicit Types (s : DictMetadataStore B) (a : AbsFs).

(* ---------------------------------------------------------------------- *)
(** ** A new store *)

Definition root_inode (uid gid : Z) : InodeMeta := new_directory 1 uid gid (Z.lor S_IFDIR 493).
Definition abs_new (uid gid : Z) : AbsFs :=
  mkAbs {[1 := root_inode uid gid]} {[1 := fresh_dir 1 1]} ∅ ∅ 2.

Lemma store_new_rep uid gid (io : Io) :
  healthy io → is_u32 uid → is_u32 gid → admissible dot → admissible dotdot →
  admissible (serialize_inode (root_inode uid gid)) →
  admissible (dir_content (fresh_dir 1 1)) →
  store_rep (store_new uid gid io) (abs_new uid gid) ∧ io ⊑ᵢ st_io (store_new uid gid io).
Proof.
  intros Hio Hu Hg Hd Hdd Hadm Hadm'.
  assert (wf_inode (root_inode uid gid)) as Hwf by (by split_and!).
  assert (dir_wf (fresh_dir 1 1)) as Hdir by by apply fresh_dir_wf.
  unfold store_new, intern_inode. fold (root_inode uid gid).
  destruct (push_all_spec _ io Hio Hadm) as (Hio1 & Hle1 & Hst1).
  rewrite push_all_eta.
  destruct (create_dir_entries_spec _ 1 1 Hio1) as (io2 & -> & Hio2 & Hle2 & Hst2); [done..|].
  split; [|store_simpl; by etransitivity].
  assert (stored io2 (serialize_inode (root_inode uid gid))) as Hst by by eapply stored_mono.
  split; store_simpl; unfold abs_new; abs_simpl.
  - done.
  - by rewrite map_fmap_singleton.
  - done.
  - done.
  - by rewrite map_fmap_singleton.
  - by rewrite fmap_empty.
  - by rewrite fmap_empty.
  - split; abs_simpl; try apply map_Forall_singleton; try apply map_Forall_empty; done.
  - done.
  - by rewrite map_size_singleton.
  - split; abs_simpl; try done; try apply map_Forall_empty; try by apply map_Forall_singleton.
Qed.

(* ---------------------------------------------------------------------- *)
(** ** Logging never fails the caller *)

Lemma box_log_total e (w : WalBox) : ∃ w' r, log_mutation e w = (w', r) ∧ r ≠ Panic.
Proof.
  destruct w as [w|w|w|w]; cbn; [|eexists _, _; split; [reflexivity|done]..].
  unfold per_op_log. rewrite run_bind. cbn [modify].
  unfold per_op_sync, zoom, sync_writer, segment_sync. cbn [po_writer write_entry sw_faults].
  destruct (sw_faults (po_writer w)) as [|[]]; (eexists _, _; split; [reflexivity|done]).
Qed.

(** The log after one more entry. *)
Definition wal_logged (e : WalEntry) (w : option WalBox) : option WalBox :=
  (λ b, (log_mutation e b).1) <$> w.

(** [log_wal_entry] changes nothing but the log, and always returns. *)
Lemma log_wal_entry_run {E} e s :
  @log_wal_entry B E e s = (upd_wal (wal_logged e (st_wal s)) s, Ok tt).
Proof.
  unfold log_wal_entry, attempt, on_wal, wal_logged. rewrite run_bind.
  destruct (st_wal s) as [w|] eqn:Hw; cbn [fmap option_fmap option_map].
  - destruct (box_log_total e w) as (w' & r & -> & Hr). by destruct r.
  - cbn. rewrite <-Hw. by destruct s.
Qed.

Lemma rep_upd_wal s a w : store_rep s a → store_rep (upd_wal w s) a.
Proof. intros []. by split. Qed.
Lemma rep_upd_last_root s a r : store_rep s a → store_rep (upd_last_root r s) a.
Proof. intros []. by split. Qed.

(* ---------------------------------------------------------------------- *)
(** ** Commit *)

(** The root record [commit] writes for [s], and every blob it stores. *)
Definition commit_record s : bytes :=
  root_record (digest_of (serialize_inode_map (st_inode_map s))) 1
    (imap_next_ino (st_inode_map s))
    (digest_of (serialize_u64_digest_map (st_inode_data s)))
    (digest_of (serialize_u64_digest_map (st_dir_data s)))
    (digest_of (serialize_u64_digest_map (st_manifest_data s)))
    (digest_of (serialize_u64_digest_map (st_xattr_data s)))
    (digest_of (serialize_digest224_u64_map (st_refcounts s))).
Definition commit_tables s : list bytes :=
  [serialize_inode_map (st_inode_map s);
   serialize_u64_digest_map (st_inode_data s);
   serialize_u64_digest_map (st_dir_data s);
   serialize_u64_digest_map (st_manifest_data s);
   serialize_u64_digest_map (st_xattr_data s);
   serialize_digest224_u64_map (st_refcounts s)].
Definition commit_contents s : list bytes := commit_tables s ++ [commit_record s].

Definition push_list (l : list bytes) (io : Io) : Io :=
  foldl (λ io bs, (push_all bs io).1) io l.

Lemma push_list_spec l (io : Io) :
  healthy io → Forall admissible l →
  healthy (push_list l io) ∧ io ⊑ᵢ push_list l io ∧ Forall (stored (push_list l io)) l.
Proof.
  intros Hio Hl. revert io Hio. induction Hl as [|bs l Hbs _ IH]; intros io Hio; [done|].
  destruct (push_all_spec bs io Hio Hbs) as (Hio1 & Hle1 & Hst1).
  destruct (IH _ Hio1) as (Hio2 & Hle2 & Hst2). cbn [push_list foldl].
  split_and!; [done|by etransitivity|]. constructor; [|done]. by eapply stored_mono.
Qed.

Lemma length_commit_record s : len (commit_record s) = 184.
Proof.
  unfold commit_record, root_record. rewrite !len_app, !len_le_bytes.
  rewrite !len_digest_bytes by apply digest_of_wf. done.
Qed.

Definition commit_digest s : Digest224 := digest_of (commit_record s).

Lemma commit_run s :
  commit s = (upd_wal (wal_logged (WalRootUpdate (commit_digest s)) (st_wal s))
                (upd_last_root (Some (commit_digest s))
                  (upd_io (push_list (commit_contents s) (st_io s)) s)),
              Ok (commit_digest s)).
Proof.
  unfold commit, intern_inode_map, intern_u64_digest_map, intern_digest224_u64_map. mrun.
  change (root_record _ _ _ _ _ _ _ _) with (commit_record s).
  rewrite length_commit_record, decide_False by (intros H; by apply H). mrun.
  rewrite log_wal_entry_run. done.
Qed.

(** Committing keeps what the store represents. *)
Lemma commit_rep s a :
  store_rep s a → Forall admissible (commit_contents s) →
  ∃ s', commit s = (s', Ok (commit_digest s)) ∧ store_rep s' a ∧
        st_io s' = push_list (commit_contents s) (st_io s) ∧
        st_last_root s' = Some (commit_digest s) ∧
        st_by_version s' = st_by_version s ∧ st_by_name s' = st_by_name s ∧
        st_refcounts s' = st_refcounts s ∧
        Forall (stored (st_io s')) (commit_contents s).
Proof.
  intros Hr Hadm. rewrite commit_run.
  destruct (push_list_spec _ _ (rep_io _ _ Hr) Hadm) as (Hio & Hle & Hst).
  eexists. split_and!; [done| |done..|exact Hst].
  apply rep_upd_wal, rep_upd_last_root. by apply rep_io_grows.
Qed.

(* ---------------------------------------------------------------------- *)
(** ** Reload *)

(** Every table fits in memory and the counts are [u64]. *)
Record tables_fit s : Prop := {
  fit_inodes : fits (st_inode_data s);
  fit_dirs : fits (st_dir_data s);
  fit_manifests : fits (st_manifest_data s);
  fit_xattrs : fits (st_xattr_data s);
  fit_refcounts : fits (st_refcounts s);
  wf_refcounts : wf_counts (st_refcounts s)
}.

Lemma fmap_digest_wf {A} (f : A → bytes) (m : gmap Z A) :
  (∀ k x, m !! k = Some x → is_u64 k) → wf_table ((λ x, digest_of (f x)) <$> m).
Proof.
  intros Hm k d Hk. apply lookup_fmap_Some in Hk as (x & <- & Hx).
  split; [by eapply Hm|apply digest_of_wf].
Qed.

Lemma rep_tables_wf s a :
  store_rep s a →
  wf_table (st_inode_data s) ∧ wf_table (st_dir_data s) ∧
  wf_table (st_manifest_data s) ∧ wf_table (st_xattr_data s).
Proof.
  intros []. destruct rep_wf. rewrite rep_inodes, rep_dirs, rep_manifests, rep_xattrs.
  split_and!; apply fmap_digest_wf; intros k x Hx.
  - destruct (wf_inodes _ _ Hx) as (<- & [? _] & _). done.
  - by destruct (wf_dirs _ _ Hx).
  - by destruct (wf_manifests _ _ Hx).
  - by destruct (wf_xattrs _ _ Hx).
Qed.

Lemma load_u64_digest_map_stored io m :
  stored io (serialize_u64_digest_map m) → wf_table m → fits m →
  load_u64_digest_map io (digest_of (serialize_u64_digest_map m)) = Ok m.
Proof.
  intros Hst Hm Hf. unfold load_u64_digest_map. rewrite Hst. cbn [ok_or mbind res_bind].
  by apply load_u64_digest_serialize.
Qed.

Lemma load_digest224_u64_map_stored io m :
  stored io (serialize_digest224_u64_map m) → wf_counts m → fits m →
  load_digest224_u64_map io (digest_of (serialize_digest224_u64_map m)) = Ok m.
Proof.
  intros Hst Hm Hf. unfold load_digest224_u64_map. rewrite Hst. cbn [ok_or mbind res_bind].
  by apply load_digest224_u64_serialize.
Qed.

(** The recomputed byte count is the sum of the sizes. *)
Lemma reload_total s a io :
  store_rep s a → st_io s ⊑ᵢ io →
  foldr (λ e acc, inode_size_or_0 io e.2 + acc) 0 (btree_iter (st_inode_data s))
  = total_size (a_inodes a).
Proof.
  intros Hr Hle.
  rewrite (foldr_add_perm (λ e : Z * Digest224, inode_size_or_0 io e.2) _ _ (btree_iter_perm _)).
  rewrite (rep_inodes _ _ Hr), map_to_list_fmap. unfold total_size, sizes_of.
  assert (Forall (λ e, a_inodes a !! e.1 = Some e.2) (map_to_list (a_inodes a))) as Hall.
  { apply Forall_forall. intros [k m] Hin. by apply elem_of_map_to_list. }
  induction Hall as [|[k m] l Hm _ IH]; [done|]. cbn [fmap list_fmap foldr]. rewrite IH.
  cbn [snd prod_map fst]. f_equal. unfold inode_size_or_0.
  cbn in Hm. rewrite (load_inode_mono _ _ _ m Hle); [done|]. by eapply rep_load_inode.
Qed.

(** Reading back the fields of the root record. *)
Lemma root_record_fields d1 n2 n3 d4 d5 d6 d7 d8 :
  wf_digest d1 → is_u64 n2 → is_u64 n3 → wf_digest d4 → wf_digest d5 → wf_digest d6 →
  wf_digest d7 → wf_digest d8 →
  let bs := root_record d1 n2 n3 d4 d5 d6 d7 d8 in
  digest_at bs 0 = Ok d1 ∧ field_at bs 28 36 = Ok n2 ∧ field_at bs 36 44 = Ok n3 ∧
  digest_at bs 44 = Ok d4 ∧ digest_at bs 72 = Ok d5 ∧ digest_at bs 100 = Ok d6 ∧
  digest_at bs 128 = Ok d7 ∧ digest_at bs 156 = Ok d8.
Proof.
  intros H1 H2 H3 H4 H5 H6 H7 H8 bs. subst bs. unfold root_record, digest_at, field_at.
  pose proof (length_digest_bytes _ H1). pose proof (length_digest_bytes _ H4).
  pose proof (length_digest_bytes _ H5). pose proof (length_digest_bytes _ H6).
  pose proof (length_digest_bytes _ H7). pose proof (length_digest_bytes _ H8).
  split_and!; eval_slice; cbn [or_panic fmap res_fmap]; f_equal;
    first [by apply parse_digest_bytes' | by apply le_u64].
Qed.

Lemma commit_record_fields s :
  is_u64 (imap_next_ino (st_inode_map s)) →
  let bs := commit_record s in
  digest_at bs 0 = Ok (digest_of (serialize_inode_map (st_inode_map s))) ∧
  field_at bs 28 36 = Ok 1 ∧ field_at bs 36 44 = Ok (imap_next_ino (st_inode_map s)) ∧
  digest_at bs 44 = Ok (digest_of (serialize_u64_digest_map (st_inode_data s))) ∧
  digest_at bs 72 = Ok (digest_of (serialize_u64_digest_map (st_dir_data s))) ∧
  digest_at bs 100 = Ok (digest_of (serialize_u64_digest_map (st_manifest_data s))) ∧
  digest_at bs 128 = Ok (digest_of (serialize_u64_digest_map (st_xattr_data s))) ∧
  digest_at bs 156 = Ok (digest_of (serialize_digest224_u64_map (st_refcounts s))).
Proof. intros Hn. apply root_record_fields; try apply digest_of_wf; done. Qed.

Lemma load_from_root_commit s a io :
  store_rep s a → tables_fit s → is_Some (a_inodes a !! 1) →
  st_io s ⊑ᵢ io → Forall (stored io) (commit_contents s) →
  load_from_root io (commit_digest s) =
  Ok (upd_snapshots ∅ ∅ (upd_wal None (upd_last_root (Some (commit_digest s)) (upd_io io s)))).
Proof.
  intros Hr [] [root Hroot] Hle Hst.
  destruct (rep_tables_wf s a Hr) as (Hw1 & Hw2 & Hw3 & Hw4).
  destruct (rep_wf _ _ Hr) as [Hwi _ _ _ Hwn _ Hwt].
  unfold commit_contents, commit_tables in Hst. cbn [app] in Hst.
  do 7 (let H := fresh "Hs" in apply Forall_cons in Hst as [H Hst]). clear Hst.
  unfold load_from_root, commit_digest. rewrite Hs5. cbn [ok_or mbind res_bind].
  rewrite length_commit_record, decide_False, decide_True by done. cbn [mbind res_bind].
  destruct (commit_record_fields s) as (-> & -> & -> & -> & -> & -> & -> & ->).
  { rewrite (rep_next _ _ Hr). unfold is_u64. lia. }
  cbn [mbind res_bind fmap res_fmap]. unfold load_inode_map. rewrite Hs. cbn [ok_or mbind res_bind].
  destruct (deserialize_serialize_inode_map (st_inode_map s)) as (n & -> & _ & _).
  { by rewrite (rep_imap _ _ Hr). }
  { intros k [d Hk]. rewrite (rep_imap _ _ Hr), (rep_inodes _ _ Hr), lookup_fmap in Hk.
    destruct (a_inodes a !! k) as [m|] eqn:Hm; [|done].
    destruct (Hwi _ _ Hm) as (_ & _ & ?). unfold u64_max. lia. }
  cbn [mbind res_bind]. rewrite !load_u64_digest_map_stored by done. cbn [mbind res_bind].
  rewrite load_digest224_u64_map_stored by done. cbn [mbind res_bind].
  rewrite decide_False by (rewrite (rep_inodes _ _ Hr), lookup_fmap, Hroot; done).
  rewrite (reload_total s a) by done. unfold wrap64. rewrite Z.mod_small.
  2:{ pose proof (rep_total_range s a Hr) as []. lia. }
  f_equal. unfold set_next_ino. cbn [imap_map].
  rewrite <-(rep_logical _ _ Hr).
  assert (Z.of_nat (size (st_inode_data s)) = st_inode_count s) as ->.
  { rewrite (rep_count _ _ Hr), (rep_inodes _ _ Hr). by rewrite map_size_fmap. }
  by destruct s as [? [? ?]].
Qed.

(** What was committed is what is loaded, at any later time. *)
Lemma commit_load s a io :
  store_rep s a → tables_fit s → is_Some (a_inodes a !! 1) →
  Forall admissible (commit_contents s) →
  ∃ s' root, commit s = (s', Ok root) ∧ store_rep s' a ∧
    (st_io s' ⊑ᵢ io → healthy io →
     ∃ s'', load_from_root io root = Ok s'' ∧ store_rep s'' a ∧
            st_refcounts s'' = st_refcounts s ∧ st_last_root s'' = Some root ∧
            st_inode_map s'' = st_inode_map s).
Proof.
  intros Hr Hfit Hroot Hadm.
  destruct (commit_rep s a Hr Hadm) as (s' & Hc & Hr' & Hio & _ & _ & _ & _ & Hst).
  exists s', (commit_digest s). split_and!; [done|done|]. intros Hle Hh.
  destruct (push_list_spec _ _ (rep_io _ _ Hr) Hadm) as (_ & Hle0 & _).
  rewrite <-Hio in Hle0.
  eexists. split_and!; [apply (load_from_root_commit s a io); try done| |done..].
  - by etransitivity.
  - eapply Forall_impl; [exact Hst|]. intros bs. by apply stored_mono.
  - assert (store_rep (upd_io io s) a) as [] by (apply rep_io_grows; [done..|by etransitivity]).
    by split.
Qed.
End commit.
