(* ===== verification/Filesystem.v ===== *)
(** * The file system adapter: files and their content

    [crates/slicefs-cli/src/filesystem.rs]: [SliceFsFilesystem], its open file
    handles with streaming and buffered writes, and the content operations
    behind the FUSE callbacks (create, write, release, fsync, read, setattr,
    open).  The names of the source are kept ([test_write] is what the [write]
    callback runs).

    [self.io] and [self.meta.io()] are the same mutex, so the content store is
    the one of the metadata store.  The clock is a parameter. *)

From S2P Require Import Prelude Types Text Blockset Inode InodeMap Xattr Directory Segment Wal.
From S2P Require Import Store.
From stdpp Require Import base tactics numbers option list gmap strings.
Open Scope Z_scope.

(** The [libc] error numbers the adapter returns. *)
Inductive Errno :=
  | EPERM | ENOENT | EIO | EBADF | EEXIST | ENOTDIR | EISDIR | EINVAL
  | ENOSYS | ENOTEMPTY | ENODATA.
#[export] Instance Errno_eq_dec : EqDecision Errno.
Proof. solve_decision. Defined.

Definition meta_error_to_errno (e : MetaError) : Errno :=
  match e with
  | NotFound _ => ENOENT
  | AlreadyExists _ => EEXIST
  | NotADirectory _ => ENOTDIR
  | IsADirectory _ => EISDIR
  | NotEmpty _ => ENOTEMPTY
  | InvalidName _ => EINVAL
  | Corrupted _ => EIO
  | MetaIo _ => EIO
  end.

(** [meta_error_to_fuse_errno]: the same table for replies of [fuser]. *)
Definition meta_error_to_fuse_errno (e : MetaError) : Errno :=
  match e with
  | NotFound _ => ENOENT
  | AlreadyExists _ => EEXIST
  | NotADirectory _ => ENOTDIR
  | IsADirectory _ => EISDIR
  | NotEmpty _ => ENOTEMPTY
  | InvalidName _ => EINVAL
  | Corrupted _ => EIO
  | MetaIo _ => EIO
  end.
Lemma errno_tables_agree e : meta_error_to_fuse_errno e = meta_error_to_errno e.
Proof. by destruct e. Qed.

(** The [open(2)] flags of Linux. *)
Definition O_ACCMODE : Z := 3.
Definition O_WRONLY : Z := 1.
Definition O_RDWR : Z := 2.
Definition O_TRUNC : Z := 512.

(** [enum WriteMode] and [struct OpenFileState]. *)
Inductive WriteMode {B : Blockset} :=
  | Streaming (state : BState) (next_expected_offset : Z)
  | Buffered (buf : bytes).
Arguments WriteMode : clear implicits.

Record OpenFileState {B : Blockset} := mkOpen {
  of_ino : Z;
  of_write_mode : WriteMode B;
  of_byte_count : Z;
  of_cas_committed : bool;
  of_last_committed_root : option Digest224
}.
Arguments OpenFileState : clear implicits.

(** [struct SliceFsFilesystem]; [store_path] only serves [statfs]. *)
Record SliceFsFilesystem {B : Blockset} := mkFs {
  fs_meta : DictMetadataStore B;
  fs_open_files : gmap Z (OpenFileState B);
  fs_next_fh : Z;
  fs_auto_snapshot : bool
}.
Arguments SliceFsFilesystem : clear implicits.

Section filesystem.
Context {B : Blockset}.
Abbreviation Fs := (SliceFsFilesystem B).

Definition fs_new (meta : DictMetadataStore B) : Fs := mkFs B meta ∅ 0 false.
Definition set_auto_snapshot (enabled : bool) (f : Fs) : Fs :=
  mkFs B (fs_meta f) (fs_open_files f) (fs_next_fh f) enabled.

Definition upd_meta (m : DictMetadataStore B) (f : Fs) : Fs :=
  mkFs B m (fs_open_files f) (fs_next_fh f) (fs_auto_snapshot f).
Definition upd_open_files (o : gmap Z (OpenFileState B)) (f : Fs) : Fs :=
  mkFs B (fs_meta f) o (fs_next_fh f) (fs_auto_snapshot f).
Definition upd_next_fh (n : Z) (f : Fs) : Fs :=
  mkFs B (fs_meta f) (fs_open_files f) n (fs_auto_snapshot f).

(** [self.meta.m(..).map_err(ef)]. *)
Definition on_meta {A} (ef : MetaError → Errno) (m : M (DictMetadataStore B) MetaError A)
    : M Fs Errno A := map_err ef (zoom fs_meta upd_meta m).
(** A method of [meta] that cannot fail. *)
Definition with_meta (g : DictMetadataStore B → DictMetadataStore B) : M Fs Errno unit :=
  modify (λ f, upd_meta (g (fs_meta f)) f).
(** [{ let mut io = self.io.lock().unwrap(); .. }]. *)
Definition with_fs_io {A} (g : Io → Io * A) : M Fs Errno A :=
  zoom fs_meta upd_meta (with_io g).
(** [file_storage_get(&mut *io, &digest)]. *)
Definition fs_get (digest : Digest224) : M Fs Errno (option bytes) :=
  gets (λ f, file_storage_get (st_io (fs_meta f)) digest).

Definition get_handle (fh : Z) : M Fs Errno (option (OpenFileState B)) :=
  gets (λ f, fs_open_files f !! fh).
Definition put_handle (fh : Z) (s : OpenFileState B) : M Fs Errno unit :=
  modify (λ f, upd_open_files (<[fh := s]> (fs_open_files f)) f).
Definition drop_handle (fh : Z) : M Fs Errno unit :=
  modify (λ f, upd_open_files (delete fh (fs_open_files f)) f).

Definition eio : MetaError → Errno := λ _, EIO.

(** [if let Some(old) = root { decrement_refcount(&old) }]. *)
Definition drop_root (root : option Digest224) : M Fs Errno unit :=
  match root with
  | Some old => with_meta (decrement_refcount old)
  | None => mret tt
  end.

(** A handle as [open] and [create] make it. *)
Definition fresh_handle (ino : Z) : OpenFileState B :=
  mkOpen B ino (Streaming state_default 0) 0 false None.

(* ---------------------------------------------------------------------- *)
(** ** Create *)

(** [mode & !umask & 0o7777]. *)
Definition perm_bits (mode umask : Z) : Z := Z.land (Z.land mode (Z.lnot umask)) 4095.

(** The common part of [test_create] and [test_mknod]: a failed link undoes
    the inode. *)
Definition create_linked (parent_ino : Z) (name : bytes) (meta : InodeMeta) : M Fs Errno Z :=
  ino ← on_meta meta_error_to_errno (create_inode meta);
  linked ← attempt (zoom fs_meta upd_meta (link parent_ino name ino));
  match (linked : res MetaError unit) with
  | Err e => _ ← attempt (E := Errno) (on_meta eio (delete_inode ino)); throw (meta_error_to_errno e)
  | _ => mret ino
  end.

Definition test_create (parent_ino : Z) (name : bytes) (mode umask uid gid : Z)
    : M Fs Errno (Z * Z) :=
  let file_mode := Z.lor S_IFREG (perm_bits mode umask) in
  ino ← create_linked parent_ino name (new_file 0 uid gid file_mode);
  n ← gets fs_next_fh;
  let fh := wrap64 (n + 1) in
  _ ← modify (upd_next_fh fh);
  _ ← put_handle fh (fresh_handle ino);
  mret (ino, fh).

Definition test_mknod (parent : Z) (name : bytes) (mode uid gid umask : Z) : M Fs Errno Z :=
  let file_type := Z.land mode S_IFMT in
  if decide (file_type ≠ S_IFREG ∧ file_type ≠ 0) then throw ENOSYS else
  let file_mode := Z.lor S_IFREG (perm_bits mode umask) in
  create_linked parent name (new_file 0 uid gid file_mode).

(* ---------------------------------------------------------------------- *)
(** ** Write *)

(** [if end > buf.len() { buf.resize(end, 0) } buf[offset..end].copy_from_slice(data)]
    with [end = offset + data.len()]; [None] is the slice-index panic. *)
Definition pwrite_buf (buf : bytes) (offset : Z) (data : bytes) : option bytes :=
  let end_ := wrap64 (offset + len data) in
  let buf := if decide (len buf < end_) then resize_zero buf end_ else buf in
  if decide (offset ≤ end_ ∧ end_ ≤ len buf)
  then Some (take (Z.to_nat offset) buf ++ data ++ drop (Z.to_nat end_) buf)
  else None.

(** The content a fallback to buffered mode starts from: what was streamed, or
    the committed content when nothing was. *)
Definition materialize (s : OpenFileState B) (state : BState) : M Fs Errno bytes :=
  if decide (0 < of_byte_count s) then
    digest ← with_fs_io (state_end state);
    content ← fs_get digest;
    mret (default [] content)
  else
    m ← attempt (on_meta eio (get_manifest (of_ino s)));
    match (m : res Errno (list Digest224)) with
    | Ok (d :: _) => content ← fs_get d; mret (default [] content)
    | _ => mret []
    end.

Definition test_write (fh offset : Z) (data : bytes) : M Fs Errno Z :=
  h ← get_handle fh;
  match h with
  | None => throw EBADF
  | Some s =>
      _ ← drop_handle fh;
      match of_write_mode s with
      | Streaming state next =>
          if decide (offset ≠ next) then
            buf ← materialize s state;
            buf ← lift (or_panic (pwrite_buf buf offset data));
            _ ← drop_root (of_last_committed_root s);
            _ ← put_handle fh (mkOpen B (of_ino s) (Buffered buf) (len buf) false None);
            mret (wrap32 (len data))
          else
            r ← with_fs_io (λ io, let '(io, st, err) := push_bytes state data io in (io, (st, err)));
            let '(state, err) := r in
            if (err : bool) then
              _ ← put_handle fh (mkOpen B (of_ino s) (Streaming state next) (of_byte_count s)
                                   (of_cas_committed s) (of_last_committed_root s));
              throw EIO
            else
              _ ← put_handle fh (mkOpen B (of_ino s)
                     (Streaming state (wrap64 (next + len data)))
                     (wrap64 (of_byte_count s + len data)) false (of_last_committed_root s));
              mret (wrap32 (len data))
      | Buffered buf =>
          buf ← lift (or_panic (pwrite_buf buf offset data));
          _ ← put_handle fh (mkOpen B (of_ino s) (Buffered buf) (len buf) false
                               (of_last_committed_root s));
          mret (wrap32 (len data))
      end
  end.

(* ---------------------------------------------------------------------- *)
(** ** Release, fsync and read *)

Section clock.
(** [SystemTime::now().duration_since(UNIX_EPOCH)], seconds and nanoseconds. *)
Context (now : Z * Z).

Definition stamp_ctime (m : InodeMeta) : InodeMeta := set_ctime (to_i64 now.1) now.2 m.
Definition stamp_mtime (m : InodeMeta) : InodeMeta :=
  stamp_ctime (set_mtime (to_i64 now.1) now.2 m).

(** Push a handle's content: finish the stream, or stream the buffer. *)
Definition finalize (mode : WriteMode B) : M Fs Errno Digest224 :=
  match mode with
  | Streaming state _ => with_fs_io (state_end state)
  | Buffered buf =>
      with_fs_io (λ io, let '(io, st, _) := push_bytes state_default buf io in state_end st io)
  end.

(** Manifest, reference counts and inode after new content was pushed. *)
Definition commit_content (ino : Z) (new_digest : Digest224) (old : option Digest224)
    : M Fs Errno unit :=
  _ ← match old with
      | Some o => if decide (o ≠ new_digest) then with_meta (decrement_refcount o) else mret tt
      | None => mret tt
      end;
  _ ← on_meta eio (set_manifest ino [new_digest]);
  if decide (old ≠ Some new_digest) then with_meta (increment_refcount new_digest) else mret tt.
Definition commit_size (ino byte_count : Z) : M Fs Errno unit :=
  inode ← on_meta eio (get_inode ino);
  on_meta eio (update_inode (stamp_mtime (set_isize byte_count inode))).

Definition test_release (ino fh : Z) : M Fs Errno unit :=
  h ← get_handle fh;
  match h with
  | None => mret tt
  | Some s =>
      _ ← drop_handle fh;
      if decide (of_byte_count s = 0) then
        if of_cas_committed s then mret tt else
        m ← attempt (on_meta eio (get_manifest ino));
        match (m : res Errno (list Digest224)) with
        | Ok (_ :: _) => mret tt
        | _ => on_meta eio (set_manifest ino [])
        end
      else
        new_digest ← finalize (of_write_mode s);
        if decide (of_last_committed_root s = Some new_digest ∧ of_cas_committed s = true)
        then mret tt
        else
          _ ← commit_content ino new_digest (of_last_committed_root s);
          commit_size ino (of_byte_count s)
  end.

Definition flush_buffer_for_fsync (ino fh : Z) : M Fs Errno unit :=
  h ← get_handle fh;
  match h with
  | None => mret tt
  | Some s =>
      if decide (of_byte_count s = 0) then mret tt else
      _ ← put_handle fh (mkOpen B (of_ino s) (of_write_mode s) (of_byte_count s) true
                           (of_last_committed_root s));
      new_digest ← finalize (of_write_mode s);
      _ ← commit_content ino new_digest (of_last_committed_root s);
      h ← get_handle fh;
      _ ← match h with
          | Some s => put_handle fh (mkOpen B (of_ino s) (of_write_mode s) (of_byte_count s)
                                       (of_cas_committed s) (Some new_digest))
          | None => mret tt
          end;
      commit_size ino (of_byte_count s)
  end.

(** [test_fsync]: then [flush_wal]. *)
Definition test_fsync (ino fh : Z) : M Fs Errno unit :=
  _ ← flush_buffer_for_fsync ino fh;
  map_err (λ _, EIO) (zoom fs_meta upd_meta flush_wal).

(** The first handle with uncommitted bytes for [ino]; the source iterates a
    [HashMap], so among several writers the choice is not fixed. *)
Definition find_writer (ino : Z) (f : Fs) : option (OpenFileState B) :=
  snd <$> (snd <$> list_find (λ p, of_ino p.2 = ino ∧ 0 < of_byte_count p.2)
                     (map_to_list (fs_open_files f))).

Definition test_read (ino offset size : Z) : M Fs Errno bytes :=
  w ← gets (find_writer ino);
  raw ← match w with
        | Some s =>
            match of_write_mode s with
            | Buffered buf => mret (Some buf)
            | Streaming state _ =>
                digest ← with_fs_io (state_end state);
                content ← fs_get digest;
                c ← lift (ok_or content EIO); mret (Some c)
            end
        | None =>
            manifest ← on_meta eio (get_manifest ino);
            match manifest with
            | [] => mret None
            | d :: _ => content ← fs_get d; c ← lift (ok_or content EIO); mret (Some c)
            end
        end;
  match raw with
  | None => mret []
  | Some raw_bytes =>
      let start := Z.min offset (len raw_bytes) in
      let end_ := Z.min (start + size) (len raw_bytes) in
      lift (or_panic (slice raw_bytes start end_))
  end.

(* -------------------------------------------------------------------- *)
(** ** Attributes *)

(** [inode.size = new_size], change time, [update_inode]. *)
Definition set_size_now (ino new_size : Z) : M Fs Errno unit :=
  inode ← on_meta eio (get_inode ino);
  on_meta eio (update_inode (stamp_ctime (set_isize new_size inode))).

(** Case A of [test_setattr_size]: the content of an open handle. *)
Definition truncate_handle (fh : Z) (s : OpenFileState B) (new_size : Z) : M Fs Errno unit :=
  match of_write_mode s with
  | Buffered buf =>
      if decide (new_size = 0) then
        _ ← put_handle fh (mkOpen B (of_ino s) (Buffered []) 0 false None);
        drop_root (of_last_committed_root s)
      else
        let buf := resize_zero buf new_size in
        put_handle fh (mkOpen B (of_ino s) (Buffered buf) (len buf) false
                         (of_last_committed_root s))
  | Streaming state _ =>
      if decide (new_size = 0) then
        _ ← put_handle fh (mkOpen B (of_ino s) (Streaming state_default 0) 0 false None);
        drop_root (of_last_committed_root s)
      else
        _ ← put_handle fh (mkOpen B (of_ino s) (of_write_mode s) (of_byte_count s)
                             (of_cas_committed s) None);
        content ← (if decide (of_byte_count s = 0) then mret []
                   else digest ← with_fs_io (state_end state);
                        c ← fs_get digest; mret (default [] c));
        let content := resize_zero content new_size in
        fresh ← with_fs_io (λ io, let '(io, st, _) := push_bytes state_default content io in
                                  (io, st));
        _ ← put_handle fh (mkOpen B (of_ino s) (Streaming fresh (len content)) (len content)
                             false None);
        drop_root (of_last_committed_root s)
  end.

(** Case B: the content of a file without a handle. *)
Definition truncate_content (ino new_size : Z) : M Fs Errno unit :=
  m ← attempt (zoom fs_meta upd_meta (get_manifest ino));
  old_manifest ← match (m : res MetaError (list Digest224)) with
                 | Ok m => mret m
                 | Err (NotFound _) => mret []
                 | _ => throw EIO
                 end;
  content ← match old_manifest with
            | [] => mret []
            | d :: _ => c ← fs_get d; lift (ok_or c EIO)
            end;
  _ ← drop_root (head old_manifest);
  let content := resize_zero content new_size in
  match content with
  | [] => on_meta eio (set_manifest ino [])
  | _ =>
      new_digest ← with_fs_io (push_all content);
      _ ← on_meta eio (set_manifest ino [new_digest]);
      with_meta (increment_refcount new_digest)
  end.

Definition test_setattr_size (ino : Z) (fh : option Z) (new_size : Z) : M Fs Errno unit :=
  f ← gets id;
  _ ← match (fh ≫= λ fh, (λ s, (fh, s)) <$> fs_open_files f !! fh) with
      | Some (fh, s) => truncate_handle fh s new_size
      | None => truncate_content ino new_size
      end;
  set_size_now ino new_size.

Definition update_with (ino : Z) (g : InodeMeta → InodeMeta) : M Fs Errno unit :=
  inode ← on_meta eio (get_inode ino);
  on_meta eio (update_inode (stamp_ctime (g inode))).

(** [(inode.mode & S_IFMT) | (mode & 0o7777)]. *)
Definition chmod (mode : Z) (m : InodeMeta) : InodeMeta :=
  set_mode (Z.lor (Z.land (im_mode m) S_IFMT) (Z.land mode 4095)) m.
Definition chown (uid gid : option Z) (m : InodeMeta) : InodeMeta :=
  let m := match uid with Some u => set_uid u m | None => m end in
  match gid with Some g => set_gid g m | None => m end.
Definition utimes (mtime : option (Z * Z)) (m : InodeMeta) : InodeMeta :=
  match mtime with Some (sec, nsec) => set_mtime sec nsec m | None => m end.

Definition test_setattr_mode (ino mode : Z) : M Fs Errno unit := update_with ino (chmod mode).
Definition test_setattr_uid_gid (ino : Z) (uid gid : option Z) : M Fs Errno unit :=
  update_with ino (chown uid gid).
Definition test_setattr_mtime (ino sec nsec : Z) : M Fs Errno unit :=
  update_with ino (set_mtime sec nsec).

(** [test_setattr]: a size change re-reads the inode. *)
Definition test_setattr (ino : Z) (mode uid gid size fh : option Z) (mtime : option (Z * Z))
    : M Fs Errno InodeMeta :=
  inode ← on_meta meta_error_to_errno (get_inode ino);
  let inode := match mode with Some m => chmod m inode | None => inode end in
  let inode := utimes mtime (chown uid gid inode) in
  inode ← match size with
          | Some new_size =>
              _ ← test_setattr_size ino fh new_size;
              on_meta meta_error_to_errno (get_inode ino)
          | None => mret inode
          end;
  let inode := stamp_ctime inode in
  _ ← on_meta meta_error_to_errno (update_inode inode);
  mret inode.

Definition test_open (ino flags : Z) : M Fs Errno (Z * bool) :=
  let acc_mode := Z.land flags O_ACCMODE in
  let is_write := bool_decide (acc_mode = O_WRONLY ∨ acc_mode = O_RDWR) in
  n ← gets fs_next_fh;
  let fh := wrap64 (n + 1) in
  _ ← modify (upd_next_fh fh);
  if negb is_write then mret (fh, false) else
  _ ← put_handle fh (fresh_handle ino);
  if decide (Z.land flags O_TRUNC = 0) then mret (fh, true) else
  r ← attempt (test_setattr_size ino (Some fh) 0);
  match (r : res Errno unit) with
  | Err e => _ ← drop_handle fh; throw e
  | _ => mret (fh, true)
  end.

Definition test_create_full (parent : Z) (name : bytes) (mode umask uid gid : Z)
    (flags : Z) : M Fs Errno (Z * Z * InodeMeta) :=
  p ← test_create parent name mode umask uid gid;
  let '(ino, fh) := p in
  _ ← (if decide (Z.land flags O_TRUNC ≠ 0) then
         r ← attempt (test_setattr_size ino (Some fh) 0);
         match (r : res Errno unit) with
         | Err e => _ ← drop_handle fh; throw e
         | _ => mret tt
         end
       else mret tt);
  meta ← on_meta meta_error_to_errno (get_inode ino);
  mret (ino, fh, meta).

Definition test_flush (ino fh : Z) : M Fs Errno unit := flush_buffer_for_fsync ino fh.

Definition test_release_full (ino fh : Z) : M Fs Errno unit :=
  h ← get_handle fh;
  match h with None => mret tt | Some _ => test_release ino fh end.

(** [test_destroy]: commit, an optional snapshot, and the end of the log. *)
Definition test_destroy : M Fs Errno bool :=
  r ← attempt (zoom fs_meta upd_meta commit);
  match (r : res MetaError Digest224) with
  | Ok _ =>
      auto ← gets fs_auto_snapshot;
      _ ← (if (auto : bool)
           then _ ← attempt (E := MetaError) (zoom fs_meta upd_meta
                  (create_snapshot now.1 (Some (str "auto-unmount")))); mret tt
           else mret tt);
      _ ← attempt (E := WalError) (zoom fs_meta upd_meta shutdown_wal);
      mret true
  | _ => mret false
  end.
End clock.
End filesystem.
