(* ===== verification/WritePath.v ===== *)
(** * Writes through a file handle

    A handle streams sequential writes into the accumulator and falls back to a
    buffer on the first write out of order.  Here both are related to one
    reference, [pwrite] on a byte string, and the content that is read back after
    [release] is shown to be what the reference computes. *)

From S2P Require Import Prelude Types Text Blockset Inode InodeMap Xattr Directory Segment Wal.
From S2P Require Import Store StoreSpec StoreRefine StoreCommit Filesystem.
From stdpp Require Import base tactics numbers option list gmap.
Open Scope Z_scope.

(** [pwrite(2)]: what was before [off], zeros up to it, the data, what was after. *)
Definition pwrite (c : bytes) (off : Z) (data : bytes) : bytes :=
  take (Z.to_nat off) c ++ replicate (Z.to_nat off - length c) Byte.x00 ++ data ++
  drop (Z.to_nat (off + len data)) c.

Lemma pwrite_append c data : pwrite c (len c) data = c ++ data.
Proof.
  unfold pwrite, len. rewrite Nat2Z.id, firstn_all, Nat.sub_diag. cbn.
  rewrite drop_ge by lia. by rewrite app_nil_r.
Qed.

Lemma pwrite_empty data : pwrite [] 0 data = data.
Proof. apply (pwrite_append []). Qed.

Lemma len_pwrite c off data :
  0 ≤ off → len (pwrite c off data) = Z.max (len c) (off + len data).
Proof.
  intros Hoff. unfold pwrite, len.
  rewrite !length_app, length_take, length_replicate, length_drop. lia.
Qed.

(** The buffer arithmetic of the source computes [pwrite]. *)
Lemma pwrite_buf_pwrite buf off data :
  0 ≤ off → off + len data < 2 ^ 64 → pwrite_buf buf off data = Some (pwrite buf off data).
Proof.
  intros Hoff Hend. pose proof (len_nonneg data) as Hd. unfold pwrite_buf, wrap64.
  rewrite Z.mod_small by lia. unfold pwrite.
  destruct (Z_of_nat_complete off Hoff) as [o ->]. unfold len in *.
  rewrite <-Nat2Z.inj_add, !Nat2Z.id.
  destruct (decide (Z.of_nat (length buf) < Z.of_nat (o + length data))) as [Hlt|Hlt].
  - unfold resize_zero. rewrite Nat2Z.id, resize_ge by lia.
    rewrite decide_True by (rewrite length_app, length_replicate; lia).
    f_equal. rewrite (drop_ge buf), drop_ge by (rewrite ?length_app, ?length_replicate; lia).
    rewrite !app_nil_r, take_app, take_replicate, Nat.min_l by lia. by rewrite <-app_assoc.
  - rewrite decide_True by lia. do 2 f_equal.
    replace (o - length buf)%nat with 0%nat by lia. done.
Qed.

Section write_path.
Context {B : Blockset} {L : BlocksetLaws B}.
Implicit Types (f : SliceFsFilesystem B) (s : OpenFileState B) (a : AbsFs).

(** A handle that holds the content [c]. *)
Definition handle_rep (io : Io) s (c : bytes) : Prop :=
  of_byte_count s = len c ∧
  match of_write_mode s with
  | Streaming st next => streams io st c ∧ next = len c
  | Buffered buf => buf = c
  end.

(** The content [get_manifest] leads to. *)
Definition committed (a : AbsFs) (io : Io) (ino : Z) : bytes :=
  match a_manifests a !! ino with
  | Some (d :: _) => default [] (file_storage_get io d)
  | _ => []
  end.

(** What a write at [off] is applied to: a handle that has streamed nothing
    falls back to the committed content. *)
Definition write_base (a : AbsFs) (io : Io) s (c : bytes) (off : Z) : bytes :=
  match of_write_mode s with
  | Streaming _ _ => if decide (c = [] ∧ off ≠ 0) then committed a io (of_ino s) else c
  | Buffered _ => c
  end.

(** Whether the handle is still written in order. *)
Definition is_streaming s : bool := match of_write_mode s with Streaming _ _ => true | Buffered _ => false end.

Lemma handle_rep_mono io io' s c : io ⊑ᵢ io' → handle_rep io s c → handle_rep io' s c.
Proof.
  intros Hle [Hb Hm]. split; [done|]. destruct (of_write_mode s); [|done].
  destruct Hm. split; [by eapply streams_mono|done].
Qed.

Lemma fresh_handle_rep io ino : handle_rep io (fresh_handle ino) [].
Proof. split; [done|]. cbn. split; [apply streams_default|done]. Qed.

Lemma rep_upd_refcounts (m : DictMetadataStore B) a rc :
  store_rep m a → store_rep (upd_refcounts rc m) a.
Proof. intros []. by split. Qed.

(* ---------------------------------------------------------------------- *)
(** ** Steps of the adapter *)

Lemma with_fs_io_run {A} (g : Io → Io * A) f io' x :
  g (st_io (fs_meta f)) = (io', x) →
  with_fs_io g f = (upd_meta (upd_io io' (fs_meta f)) f, Ok x).
Proof. intros H. unfold with_fs_io, with_io, zoom, io_do. by rewrite H. Qed.

Lemma with_fs_io_end st f bs :
  healthy (st_io (fs_meta f)) → streams (st_io (fs_meta f)) st bs → admissible bs →
  ∃ io', with_fs_io (state_end st) f = (upd_meta (upd_io io' (fs_meta f)) f, Ok (digest_of bs)) ∧
         healthy io' ∧ st_io (fs_meta f) ⊑ᵢ io' ∧ stored io' bs.
Proof.
  intros Hio Hst Hadm. destruct (state_end_spec _ _ _ Hio Hst Hadm) as (H1 & H2 & H3 & H4).
  exists (state_end st (st_io (fs_meta f))).1. split_and!; try done.
  apply with_fs_io_run. rewrite <-H3. by destruct (state_end st (st_io (fs_meta f))).
Qed.

Lemma on_meta_run {A} ef (m : M (DictMetadataStore B) MetaError A) f m' r :
  m (fs_meta f) = (m', r) → on_meta ef m f = (upd_meta m' f, res_map_err ef r).
Proof. intros H. unfold on_meta, map_err, zoom. by rewrite H. Qed.

Lemma upd_meta_same f : upd_meta (fs_meta f) f = f.
Proof. by destruct f. Qed.

Lemma drop_root_run root f :
  ∃ rc, drop_root root f = (upd_meta (upd_refcounts rc (fs_meta f)) f, Ok tt).
Proof.
  destruct root as [d|]; cbn.
  - unfold with_meta, modify, decrement_refcount.
    destruct (st_refcounts (fs_meta f) !! d) as [n|]; [|exists (st_refcounts (fs_meta f))].
    + case_decide; [|case_decide]; eexists; try done.
      f_equal. instantiate (1 := st_refcounts (fs_meta f)). f_equal. by destruct (fs_meta f).
    + f_equal. f_equal. by destruct (fs_meta f).
  - exists (st_refcounts (fs_meta f)). f_equal. destruct f as [m ? ? ?]. by destruct m.
Qed.

(** The fallback of a streaming handle starts from [write_base]. *)
Lemma materialize_run f a s st c off :
  store_rep (fs_meta f) a → of_write_mode s = Streaming st (len c) →
  handle_rep (st_io (fs_meta f)) s c → admissible c → off ≠ len c →
  ∃ io', materialize s st f =
         (upd_meta (upd_io io' (fs_meta f)) f, Ok (write_base a (st_io (fs_meta f)) s c off)) ∧
         healthy io' ∧ st_io (fs_meta f) ⊑ᵢ io'.
Proof.
  intros Hr Hm [Hb Hst] Hadm Hoff. rewrite Hm in Hst. destruct Hst as [Hst _].
  unfold materialize, write_base. rewrite Hm.
  destruct (decide (0 < of_byte_count s)) as [Hpos|Hpos].
  - rewrite decide_False by (intros [-> _]; rewrite len_nil in Hb; lia).
    destruct (with_fs_io_end st f c (rep_io _ _ Hr) Hst Hadm) as (io' & He & Hio & Hle & Hs).
    exists io'. split; [|done]. rewrite run_bind, He. rewrite run_bind. cbn [fs_get gets].
    cbn [fs_meta upd_meta]. store_simpl. by rewrite Hs.
  - assert (c = []) as -> by (apply len_0_nil; pose proof (len_nonneg c); lia).
    rewrite decide_True by done. exists (st_io (fs_meta f)).
    split; [|split; [apply (rep_io _ _ Hr)|done]].
    rewrite run_bind. unfold attempt.
    rewrite (on_meta_run _ _ f _ _ (get_manifest_run _ _ (of_ino s) Hr)).
    assert (upd_meta (upd_io (st_io (fs_meta f)) (fs_meta f)) f = f) as E
      by (destruct f as [m ? ? ?]; by destruct m).
    unfold committed. rewrite upd_meta_same, E.
    destruct (a_manifests a !! of_ino s) as [[|d l]|]; cbn; [done| |done].
    done.
Qed.

(** What a content operation leaves of the metadata: stored content and
    reference counts may change, nothing else. *)
Definition same_meta (m m' : DictMetadataStore B) : Prop :=
  ∃ io rc, m' = upd_refcounts rc (upd_io io m) ∧ healthy io ∧ st_io m ⊑ᵢ io.

Lemma same_meta_refl m : healthy (st_io m) → same_meta m m.
Proof. intros Hio. exists (st_io m), (st_refcounts m). split_and!; [by destruct m|done..]. Qed.
Lemma same_meta_refcounts m rc : healthy (st_io m) → same_meta m (upd_refcounts rc m).
Proof. intros Hio. exists (st_io m), rc. split_and!; [by destruct m|done..]. Qed.

Lemma same_meta_rep m m' a : same_meta m m' → store_rep m a → store_rep m' a.
Proof.
  intros (io & rc & -> & Hio & Hle) Hr. apply rep_upd_refcounts. by apply rep_io_grows.
Qed.

Lemma same_meta_le m m' : same_meta m m' → st_io m ⊑ᵢ st_io m'.
Proof. by intros (io & rc & -> & Hio & Hle). Qed.

(** Taking a handle out of the table and putting it back. *)
Ltac reinsert := repeat match goal with x := upd_open_files _ _ |- _ => subst x end; unfold upd_open_files, upd_meta;
  cbn [fs_open_files fs_meta fs_next_fh fs_auto_snapshot];
  rewrite insert_delete_eq; reflexivity.

(** A write through a handle that holds [c] makes it hold the result of
    [pwrite], whichever mode it is in, and reports the bytes written. *)
Lemma test_write_ok f a fh s c off data :
  store_rep (fs_meta f) a → fs_open_files f !! fh = Some s →
  handle_rep (st_io (fs_meta f)) s c → admissible c →
  (off = len c → admissible (pwrite c off data)) →
  0 ≤ off → off + len data < 2 ^ 64 →
  ∃ f' s',
    test_write fh off data f = (f', Ok (wrap32 (len data))) ∧
    f' = upd_open_files (<[fh := s']> (fs_open_files f)) (upd_meta (fs_meta f') f) ∧
    same_meta (fs_meta f) (fs_meta f') ∧
    handle_rep (st_io (fs_meta f')) s'
      (pwrite (write_base a (st_io (fs_meta f)) s c off) off data) ∧
    of_ino s' = of_ino s ∧ of_cas_committed s' = false ∧
    is_streaming s' = is_streaming s && bool_decide (off = len c) ∧
    of_last_committed_root s' =
      (if is_streaming s && negb (bool_decide (off = len c)) then None else of_last_committed_root s).
Proof.
  intros Hr Hh Hrep Hadm Hadm' Hoff Hend. pose proof (rep_io _ _ Hr) as Hio.
  unfold test_write. rewrite run_bind. cbn [get_handle gets]. rewrite Hh, run_bind.
  cbn [drop_handle modify]. set (f1 := upd_open_files _ f).
  pose proof Hrep as [Hb Hm]. destruct (of_write_mode s) as [st next|buf] eqn:Hmode.
  - destruct Hm as [Hst ->]. case_decide as Hne.
    + destruct (materialize_run f1 a s st c off Hr Hmode Hrep Hadm Hne) as (io' & Hmat & Hio' & Hle).
      set (base := write_base _ _ _ _ _) in *. change (fs_meta f1) with (fs_meta f) in *.
      rewrite run_bind, Hmat, run_bind. cbn [lift]. rewrite pwrite_buf_pwrite by done. cbn [or_panic].
      rewrite run_bind. match goal with |- context [drop_root ?r ?g] =>
        destruct (drop_root_run r g) as [rc Hrc] end. rewrite Hrc, run_bind.
      cbn [put_handle modify]. eexists _, _. split; [reflexivity|].
      split; [reinsert|]. cbn [fs_meta upd_meta upd_open_files].
      split; [by exists io', rc|]. split; [by split|].
      unfold is_streaming. rewrite Hmode, bool_decide_false by done. done.
    + subst off. specialize (Hadm' eq_refl). rewrite pwrite_append in Hadm'.
      destruct (push_bytes_spec st c data _ Hio Hst Hadm') as (io' & st' & Hp & Hio' & Hle & Hst').
      rewrite run_bind, (with_fs_io_run _ f1 io' (st', false))
        by (change (fs_meta f1) with (fs_meta f); by rewrite Hp).
      rewrite run_bind. cbn [put_handle modify].
      eexists _, _. split; [reflexivity|]. split; [reinsert|].
      cbn [fs_meta upd_meta upd_open_files]. split.
      { exists io', (st_refcounts (fs_meta f)). split; [reflexivity|done]. }
      split; [|by unfold is_streaming; rewrite Hmode, bool_decide_true].
      assert (write_base a (st_io (fs_meta f)) s c (len c) = c) as Hbase.
      { unfold write_base. rewrite Hmode. by rewrite decide_False by (intros [-> Hx]; by apply Hx). }
      rewrite Hbase, pwrite_append. pose proof (len_nonneg c). pose proof (len_nonneg data).
      split; cbn; rewrite len_app; unfold wrap64; [rewrite Hb, Z.mod_small by lia; done|].
      split; [done|]. by rewrite Z.mod_small by lia.
  - subst buf. rewrite run_bind. cbn [lift]. rewrite pwrite_buf_pwrite by done. cbn [or_panic].
    rewrite run_bind. cbn [put_handle modify]. eexists _, _. split; [reflexivity|].
    split; [reinsert|]. cbn [fs_meta upd_open_files f1].
    split.
    { exists (st_io (fs_meta f)), (st_refcounts (fs_meta f)). split; [by destruct (fs_meta f)|done]. }
    split; [|by unfold is_streaming; rewrite Hmode]. unfold write_base. rewrite Hmode. by split.
Qed.

(* ---------------------------------------------------------------------- *)
(** ** Release *)

Lemma on_meta_refines {A} ef (m : M (DictMetadataStore B) MetaError A) spec f a :
  refines m spec (fs_meta f) a →
  ∃ meta', on_meta ef m f = (upd_meta meta' f, res_map_err ef (spec a).2) ∧
           store_rep meta' (spec a).1 ∧ st_io (fs_meta f) ⊑ᵢ st_io meta'.
Proof.
  intros (Hres & Hrep & Hle). exists (m (fs_meta f)).1. split; [|done].
  apply on_meta_run. rewrite <-Hres. by destruct (m (fs_meta f)).
Qed.

(** Pushing the content of a handle yields its digest. *)
Lemma finalize_run f s c :
  healthy (st_io (fs_meta f)) → handle_rep (st_io (fs_meta f)) s c → admissible c →
  ∃ io', finalize (of_write_mode s) f =
           (upd_meta (upd_io io' (fs_meta f)) f, Ok (digest_of c)) ∧
         healthy io' ∧ st_io (fs_meta f) ⊑ᵢ io' ∧ stored io' c.
Proof.
  intros Hio [_ Hm] Hadm. destruct (of_write_mode s) as [st next|buf]; cbn [finalize].
  - destruct Hm as [Hst _]. by apply with_fs_io_end.
  - subst buf. destruct (push_bytes_spec state_default [] c _ Hio (streams_default _) Hadm)
      as (io1 & st1 & Hp & Hio1 & Hle1 & Hst1). change ([] ++ c) with c in Hst1.
    destruct (state_end_spec _ _ _ Hio1 Hst1 Hadm) as (H1 & H2 & H3 & H4).
    exists (state_end st1 io1).1. split_and!; [|done|by etransitivity|done].
    apply with_fs_io_run. rewrite Hp, <-H3. by destruct (state_end st1 io1).
Qed.

Lemma with_meta_refcounts (g : DictMetadataStore B → DictMetadataStore B) f :
  (∃ rc, g (fs_meta f) = upd_refcounts rc (fs_meta f)) →
  ∃ rc, with_meta g f = (upd_meta (upd_refcounts rc (fs_meta f)) f, Ok tt).
Proof. intros [rc Hrc]. exists rc. unfold with_meta, modify. by rewrite Hrc. Qed.

Lemma decrement_refcounts d (m : DictMetadataStore B) :
  ∃ rc, decrement_refcount d m = upd_refcounts rc m.
Proof.
  unfold decrement_refcount. destruct (st_refcounts m !! d);
    [case_decide; [|case_decide]|]; try by eexists.
  all: exists (st_refcounts m); by destruct m.
Qed.

Lemma increment_refcounts d (m : DictMetadataStore B) :
  ∃ rc, increment_refcount d m = upd_refcounts rc m.
Proof. unfold increment_refcount. case_decide; by eexists. Qed.

(** [commit_content] sets the manifest; the rest is reference counting. *)
Lemma commit_content_run f a ino d old :
  store_rep (fs_meta f) a → is_u64 ino → wf_digest d → admissible (serialize_manifest [d]) →
  ∃ m', commit_content ino d old f = (upd_meta m' f, Ok tt) ∧
        store_rep m' (abs_set_manifest ino [d] a).1 ∧ st_io (fs_meta f) ⊑ᵢ st_io m'.
Proof.
  intros Hr Hino Hd Hadm. unfold commit_content. rewrite run_bind.
  assert (∃ rc, (match old with
    | Some o => if decide (o ≠ d) then with_meta (decrement_refcount o) else mret tt
    | None => mret tt end) f = (upd_meta (upd_refcounts rc (fs_meta f)) f, Ok tt)) as [rc ->].
  { assert (f = upd_meta (upd_refcounts (st_refcounts (fs_meta f)) (fs_meta f)) f) as Hid
      by (destruct f as [m ? ? ?]; by destruct m).
    destruct old as [o|]; [case_decide|];
      [apply with_meta_refcounts, decrement_refcounts|eexists; by rewrite <-Hid..]. }
  set (f1 := upd_meta _ f). assert (store_rep (fs_meta f1) a) as Hr1 by by apply rep_upd_refcounts.
  destruct (on_meta_refines eio _ _ f1 a
    (set_manifest_refines _ _ ino [d] Hr1 Hino (proj2 (Forall_singleton _ _) Hd) Hadm))
    as (m2 & Hset & Hr2 & Hle2).
  rewrite run_bind, Hset. cbn [res_map_err abs_set_manifest snd].
  change (st_io (fs_meta f1)) with (st_io (fs_meta f)) in Hle2. case_decide.
  - destruct (with_meta_refcounts (increment_refcount d) (upd_meta m2 f1)) as [rc2 ->].
    { apply increment_refcounts. }
    eexists. split; [reflexivity|]. split; [by apply rep_upd_refcounts|done].
  - exists m2. done.
Qed.

Section clock.
Context (now : Z * Z) (Hnow : is_u64 now.1) (Hnsec : is_u32 now.2).

(** The inode of a file after new content of [n] bytes was committed. *)
Definition written_inode (n : Z) (m : InodeMeta) : InodeMeta := stamp_mtime now (set_isize n m).

Lemma written_inode_wf n m : wf_inode m → is_u64 n → wf_inode (written_inode n m).
Proof using Hnow Hnsec.
  intros (?&?&?&?&?&?&?&?&?&?) Hn. unfold wf_inode, written_inode, stamp_mtime, stamp_ctime,
    set_ctime, set_mtime, set_isize. inode_simpl. split_and!; auto with slicefs.
Qed.

(** What a content commit needs: the new blobs are admissible and the sizes
    still add up to a [u64]. *)
Record commit_room a (ino : Z) (m : InodeMeta) (c : bytes) : Prop := {
  cr_inode : a_inodes a !! ino = Some m;
  cr_content : admissible c;
  cr_manifest : admissible (serialize_manifest [digest_of c]);
  cr_blob : admissible (serialize_inode (written_inode (len c) m));
  cr_len : len c < 2 ^ 64;
  cr_total : total_size (a_inodes a) - im_size m + len c < 2 ^ 64
}.

(** The file system after [c] was committed as the content of [ino]. *)
Definition commit_abs a (ino : Z) (m : InodeMeta) (c : bytes) : AbsFs :=
  a_set_inodes (<[ino := written_inode (len c) m]> (a_inodes a))
    (a_set_manifests (<[ino := [digest_of c]]> (a_manifests a)) a).

Lemma inode_u64 (m : DictMetadataStore B) a ino i :
  store_rep m a → a_inodes a !! ino = Some i → is_u64 ino ∧ im_ino i = ino ∧ wf_inode i.
Proof.
  intros Hr Hi. destruct (wf_inodes _ (rep_wf _ _ Hr) _ _ Hi) as (<- & Hw & _).
  split_and!; [by destruct Hw|done|done].
Qed.

Lemma commit_room_facts (st : DictMetadataStore B) a ino m c :
  store_rep st a → commit_room a ino m c →
  is_u64 ino ∧ im_ino (written_inode (len c) m) = ino ∧ wf_inode (written_inode (len c) m).
Proof using Hnow Hnsec.
  intros Hr [Hi _ _ _ Hlen _]. destruct (inode_u64 _ _ _ _ Hr Hi) as (Hino & Himi & Hwf).
  split_and!; [done|done|]. apply written_inode_wf; [done|]. pose proof (len_nonneg c). by split.
Qed.

(** The last step: size and times of the inode. *)
Lemma commit_size_run f a ino m c :
  store_rep (fs_meta f) (abs_set_manifest ino [digest_of c] a).1 → commit_room a ino m c →
  ∃ m', commit_size now ino (len c) f = (upd_meta m' f, Ok tt) ∧
        store_rep m' (commit_abs a ino m c) ∧ st_io (fs_meta f) ⊑ᵢ st_io m'.
Proof using Hnow Hnsec.
  intros Hr Hroom. cbn [abs_set_manifest fst] in Hr. set (a1 := a_set_manifests _ a) in Hr.
  assert (commit_room a1 ino m c) as Hroom1 by (by destruct Hroom).
  destruct (commit_room_facts _ _ _ _ _ Hr Hroom1) as (Hino & Hwi & Hwf).
  destruct Hroom1 as [Hi Hc Hman Hblob Hlen Htot].
  unfold commit_size. rewrite run_bind.
  rewrite (on_meta_run eio _ f _ _ (get_inode_run (fs_meta f) _ ino Hr)).
  rewrite upd_meta_same, Hi. cbn [ok_or res_map_err]. fold (written_inode (len c) m).
  destruct (on_meta_refines eio _ _ f _
    (update_inode_refines _ _ (written_inode (len c) m) Hr Hwf Hblob
       ltac:(rewrite Hwi, Hi; intros ? [= <-]; exact Htot)))
    as (m2 & H2 & Hr2 & Hle2).
  exists m2. unfold abs_update_inode in H2, Hr2. rewrite Hwi, Hi in H2, Hr2. done.
Qed.

(** Closing a dirty handle commits its content. *)
Lemma test_release_ok f a fh s ino m c :
  store_rep (fs_meta f) a → fs_open_files f !! fh = Some s →
  handle_rep (st_io (fs_meta f)) s c → c ≠ [] → of_cas_committed s = false →
  commit_room a ino m c →
  ∃ f', test_release now ino fh f = (f', Ok tt) ∧
        fs_open_files f' = delete fh (fs_open_files f) ∧
        store_rep (fs_meta f') (commit_abs a ino m c) ∧ stored (st_io (fs_meta f')) c ∧
        st_io (fs_meta f) ⊑ᵢ st_io (fs_meta f').
Proof using Hnow Hnsec.
  intros Hr Hh Hrep Hne Hdirty Hroom. unfold test_release. rewrite run_bind.
  cbn [get_handle gets]. rewrite Hh, run_bind. cbn [drop_handle modify].
  set (f1 := upd_open_files _ f).
  pose proof Hrep as [Hb _].
  rewrite decide_False by (intros H0; rewrite H0 in Hb; by apply Hne, len_0_nil).
  destruct (finalize_run f1 s c (rep_io _ _ Hr) Hrep (cr_content _ _ _ _ Hroom))
    as (io' & Hfin & Hio' & Hle & Hst).
  rewrite run_bind, Hfin, Hdirty. rewrite decide_False by (by intros [_ ?]).
  set (f2 := upd_meta _ f1). change (fs_meta f1) with (fs_meta f) in *.
  assert (store_rep (fs_meta f2) a) as Hr2 by by apply rep_io_grows.
  destruct (commit_room_facts _ _ _ _ _ Hr Hroom) as (Hino & _ & _).
  destruct (commit_content_run f2 a ino (digest_of c) (of_last_committed_root s) Hr2 Hino
    (digest_of_wf c) (cr_manifest _ _ _ _ Hroom)) as (m3 & H3 & Hr3 & Hle3).
  rewrite run_bind, H3, Hb.
  destruct (commit_size_run (upd_meta m3 f2) a ino m c Hr3 Hroom) as (m4 & H4 & Hr4 & Hle4).
  rewrite H4. eexists. split; [reflexivity|].
  cbn [fs_meta fs_open_files upd_meta f2 f1 upd_open_files] in *.
  assert (io' ⊑ᵢ st_io m4) as Hle' by by etransitivity.
  split_and!; [done|done|by eapply stored_mono|by etransitivity].
Qed.

(** [fsync] commits the content too, and keeps the handle with it. *)
Lemma flush_buffer_ok f a fh s ino m c :
  store_rep (fs_meta f) a → fs_open_files f !! fh = Some s →
  handle_rep (st_io (fs_meta f)) s c → c ≠ [] → commit_room a ino m c →
  ∃ f' s', flush_buffer_for_fsync now ino fh f = (f', Ok tt) ∧
        fs_open_files f' = <[fh := s']> (fs_open_files f) ∧
        handle_rep (st_io (fs_meta f')) s' c ∧ of_write_mode s' = of_write_mode s ∧
        of_cas_committed s' = true ∧ of_last_committed_root s' = Some (digest_of c) ∧
        store_rep (fs_meta f') (commit_abs a ino m c) ∧ stored (st_io (fs_meta f')) c ∧
        st_io (fs_meta f) ⊑ᵢ st_io (fs_meta f').
Proof using Hnow Hnsec.
  intros Hr Hh Hrep Hne Hroom. unfold flush_buffer_for_fsync. rewrite run_bind.
  cbn [get_handle gets]. rewrite Hh. pose proof Hrep as [Hb _].
  rewrite decide_False by (intros H0; rewrite H0 in Hb; by apply Hne, len_0_nil).
  rewrite run_bind. cbn [put_handle modify]. set (f1 := upd_open_files _ f).
  destruct (finalize_run f1 s c (rep_io _ _ Hr) Hrep (cr_content _ _ _ _ Hroom))
    as (io' & Hfin & Hio' & Hle & Hst).
  rewrite run_bind, Hfin. set (f2 := upd_meta _ f1). change (fs_meta f1) with (fs_meta f) in *.
  assert (store_rep (fs_meta f2) a) as Hr2 by by apply rep_io_grows.
  destruct (commit_room_facts _ _ _ _ _ Hr Hroom) as (Hino & _ & _).
  destruct (commit_content_run f2 a ino (digest_of c) (of_last_committed_root s) Hr2 Hino
    (digest_of_wf c) (cr_manifest _ _ _ _ Hroom)) as (m3 & H3 & Hr3 & Hle3).
  rewrite run_bind, H3, run_bind. cbn [get_handle gets fs_open_files upd_meta f2 f1 upd_open_files].
  rewrite lookup_insert_eq, run_bind. cbn [put_handle modify]. set (f4 := upd_open_files _ _).
  destruct (commit_size_run f4 a ino m c Hr3 Hroom) as (m4 & H4 & Hr4 & Hle4).
  rewrite Hb, H4. eexists _, _. split; [reflexivity|].
  cbn [fs_meta fs_open_files upd_meta f4 f2 f1 upd_open_files] in *.
  assert (io' ⊑ᵢ st_io m4) as Hle' by by etransitivity.
  split; [by rewrite insert_insert_eq|].
  split_and!; [|done|done|done|done|by eapply stored_mono|by etransitivity].
  apply (handle_rep_mono (st_io (fs_meta f))); [by etransitivity|exact Hrep].
Qed.
End clock.

(* ---------------------------------------------------------------------- *)
(** ** Read *)

(** [pread(2)] of a byte string. *)
Definition pread (c : bytes) (off size : Z) : bytes :=
  take (Z.to_nat size) (drop (Z.to_nat off) c).

Lemma read_slice (c : bytes) off size :
  0 ≤ off → 0 ≤ size →
  slice c (Z.min off (len c)) (Z.min (Z.min off (len c) + size) (len c)) = Some (pread c off size).
Proof.
  intros Ho Hs. pose proof (len_nonneg c). unfold slice. rewrite decide_True by lia. f_equal.
  unfold pread. destruct (decide (off ≤ len c)) as [Hle|Hgt].
  - rewrite (Z.min_l off) by lia. destruct (decide (off + size ≤ len c)).
    + rewrite Z.min_l by lia. f_equal. lia.
    + rewrite Z.min_r by lia. rewrite !take_ge; [done|..]; rewrite length_drop; unfold len in *; lia.
  - rewrite !drop_ge by (unfold len in *; lia). by rewrite !take_nil.
Qed.

(** No handle holds uncommitted bytes for [ino]. *)
Definition no_writer f (ino : Z) : Prop :=
  ∀ fh s, fs_open_files f !! fh = Some s → of_ino s = ino → of_byte_count s ≤ 0.

Lemma find_writer_none f ino : no_writer f ino → find_writer ino f = None.
Proof.
  intros Hno. unfold find_writer.
  destruct (list_find _ _) as [[i [fh s]]|] eqn:E; [|done].
  apply list_find_Some in E as (Hl & [Hi Hb] & _).
  apply list_elem_of_lookup_2, elem_of_map_to_list in Hl. cbn in *.
  pose proof (Hno fh s Hl Hi). lia.
Qed.

(** [s] is the only handle with uncommitted bytes for [ino]. *)
Definition sole_writer f (ino fh : Z) s : Prop :=
  fs_open_files f !! fh = Some s ∧ of_ino s = ino ∧ 0 < of_byte_count s ∧
  ∀ fh' s', fs_open_files f !! fh' = Some s' → of_ino s' = ino → 0 < of_byte_count s' → fh' = fh.

Lemma find_writer_sole f ino fh s : sole_writer f ino fh s → find_writer ino f = Some s.
Proof.
  intros (Hh & Hi & Hb & Huniq). unfold find_writer.
  destruct (list_find _ _) as [[i [fh' s']]|] eqn:E.
  - apply list_find_Some in E as (Hl & [Hi' Hb'] & _). cbn in *.
    apply list_elem_of_lookup_2, elem_of_map_to_list in Hl.
    assert (fh' = fh) as -> by by eapply Huniq. by simplify_eq.
  - apply list_find_None in E. apply elem_of_map_to_list in Hh.
    by apply (proj1 (Forall_forall _ _) E) in Hh as [].
Qed.

(** Without a writer, reading returns the committed content. *)
Lemma test_read_committed f a ino c l off size :
  store_rep (fs_meta f) a → no_writer f ino →
  a_manifests a !! ino = Some (digest_of c :: l) → stored (st_io (fs_meta f)) c →
  0 ≤ off → 0 ≤ size →
  test_read ino off size f = (f, Ok (pread c off size)).
Proof.
  intros Hr Hno Hm Hst Ho Hs. unfold test_read. rewrite run_bind. cbn [gets].
  rewrite find_writer_none by done. rewrite run_bind, run_bind.
  rewrite (on_meta_run eio _ f _ _ (get_manifest_run _ _ ino Hr)), Hm.
  cbn [ok_or res_map_err]. rewrite upd_meta_same, run_bind. cbn [fs_get gets]. rewrite Hst.
  cbn [ok_or]. rewrite run_bind. cbn. by rewrite read_slice.
Qed.

(** A read sees what the only writer has written but not yet committed. *)
Lemma test_read_writer f a ino fh s c off size :
  store_rep (fs_meta f) a → sole_writer f ino fh s →
  handle_rep (st_io (fs_meta f)) s c → admissible c → 0 ≤ off → 0 ≤ size →
  ∃ io', test_read ino off size f =
           (upd_meta (upd_io io' (fs_meta f)) f, Ok (pread c off size)) ∧
         healthy io' ∧ st_io (fs_meta f) ⊑ᵢ io'.
Proof.
  intros Hr Hw [_ Hm] Hadm Ho Hs. unfold test_read. rewrite run_bind. cbn [gets].
  rewrite (find_writer_sole _ _ _ _ Hw). rewrite run_bind.
  destruct (of_write_mode s) as [st next|buf].
  - destruct Hm as [Hst _].
    destruct (with_fs_io_end st f c (rep_io _ _ Hr) Hst Hadm) as (io' & He & Hio & Hle & Hsto).
    exists io'. split; [|done]. rewrite run_bind, He, run_bind. cbn [fs_get gets fs_meta upd_meta].
    store_simpl. rewrite Hsto. cbn [ok_or]. rewrite run_bind. cbn. by rewrite read_slice.
  - subst buf. exists (st_io (fs_meta f)). split; [|split; [apply (rep_io _ _ Hr)|done]].
    cbn. rewrite read_slice by done. f_equal. destruct f as [m ? ? ?]. by destruct m.
Qed.

(* ---------------------------------------------------------------------- *)
(** ** Sequences of writes *)

Fixpoint write_seq (fh : Z) (ws : list (Z * bytes)) : M (SliceFsFilesystem B) Errno unit :=
  match ws with
  | [] => mret tt
  | (off, data) :: ws => _ ← test_write fh off data; write_seq fh ws
  end.

(** The reference: the same writes on a byte string. *)
Definition pwrites (c : bytes) (ws : list (Z * bytes)) : bytes :=
  foldl (λ c w, pwrite c w.1 w.2) c ws.

(** Every intermediate content is admissible and every write ends below 2^64. *)
Fixpoint writes_ok (c : bytes) (ws : list (Z * bytes)) : Prop :=
  admissible c ∧
  match ws with
  | [] => True
  | (off, data) :: ws => 0 ≤ off ∧ off + len data < 2 ^ 64 ∧ writes_ok (pwrite c off data) ws
  end.

Lemma writes_ok_admissible c ws : writes_ok c ws → admissible c.
Proof. destruct ws as [|[??]]; by intros [? _]. Qed.

(** Writing through a handle of a file without committed content. *)
Lemma write_seq_ok ws : ∀ f a fh s c,
  store_rep (fs_meta f) a → fs_open_files f !! fh = Some s →
  handle_rep (st_io (fs_meta f)) s c → of_cas_committed s = false → writes_ok c ws →
  default [] (a_manifests a !! of_ino s) = [] →
  ∃ f' s', write_seq fh ws f = (f', Ok tt) ∧
           fs_open_files f' = <[fh := s']> (fs_open_files f) ∧
           fs_next_fh f' = fs_next_fh f ∧
           store_rep (fs_meta f') a ∧ st_io (fs_meta f) ⊑ᵢ st_io (fs_meta f') ∧
           handle_rep (st_io (fs_meta f')) s' (pwrites c ws) ∧
           of_ino s' = of_ino s ∧ of_cas_committed s' = false.
Proof.
  induction ws as [|[off data] ws IH]; intros f a fh s c Hr Hh Hrep Hd Hok Hnone.
  { exists f, s. rewrite insert_id by done. by split_and!. }
  cbn [writes_ok] in Hok. destruct Hok as (Hadm & Hoff & Hend & Hok).
  destruct (test_write_ok f a fh s c off data) as (f1 & s1 & Hw & Hf1 & Hsame & Hrep1 & Hi1 & Hd1 & _);
    try done.
  { intros _. by eapply writes_ok_admissible. }
  assert (write_base a (st_io (fs_meta f)) s c off = c) as Hbase.
  { unfold write_base. destruct (of_write_mode s); [|done]. case_decide as Hc; [|done].
    destruct Hc as [-> _]. unfold committed.
    destruct (a_manifests a !! of_ino s) as [[|]|]; done. }
  rewrite Hbase in Hrep1.
  assert (fs_open_files f1 = <[fh := s1]> (fs_open_files f)) as Ho1 by by rewrite Hf1.
  destruct (IH f1 a fh s1 (pwrite c off data)) as (f2 & s2 & Hs2 & Ho2 & Hn2 & Hr2 & Hle2 & Hrep2 & Hi2 & Hd2).
  { by eapply same_meta_rep. }
  { rewrite Ho1. apply lookup_insert_eq. }
  { done. } { done. } { done. } { by rewrite Hi1. }
  exists f2, s2. cbn [write_seq]. rewrite run_bind, Hw.
  split_and!; [done| | |done| |done|by rewrite Hi2|done].
  - by rewrite Ho2, Ho1, insert_insert_eq.
  - rewrite Hn2, Hf1. done.
  - etransitivity; [|exact Hle2]. by apply same_meta_le.
Qed.

(** What [release] and a later read return after a sequence of writes. *)
Lemma write_release_read now f a fh s ino m ws :
  is_u64 now.1 → is_u32 now.2 →
  store_rep (fs_meta f) a → fs_open_files f !! fh = Some s → s = fresh_handle ino →
  default [] (a_manifests a !! ino) = [] → no_writer f ino →
  writes_ok [] ws → pwrites [] ws ≠ [] → commit_room now a ino m (pwrites [] ws) →
  ∃ f', (_ ← write_seq fh ws; test_release now ino fh) f = (f', Ok tt) ∧
        store_rep (fs_meta f') (commit_abs now a ino m (pwrites [] ws)) ∧
        ∀ off size, 0 ≤ off → 0 ≤ size →
          test_read ino off size f' = (f', Ok (pread (pwrites [] ws) off size)).
Proof.
  intros Hsec Hns Hr Hh -> Hnone Hno Hok Hne Hroom.
  destruct (write_seq_ok ws f a fh (fresh_handle ino) [] Hr Hh (fresh_handle_rep _ _) eq_refl Hok Hnone)
    as (f1 & s1 & Hw & Ho1 & _ & Hr1 & Hle1 & Hrep1 & Hi1 & Hd1).
  destruct (test_release_ok now Hsec Hns f1 a fh s1 ino m (pwrites [] ws))
    as (f2 & Hrel & Ho2 & Hr2 & Hst2 & _); try done.
  { rewrite Ho1. apply lookup_insert_eq. }
  exists f2. rewrite run_bind, Hw. split_and!; [done|done|]. intros off size Hof Hsz.
  eapply test_read_committed; try done.
  - intros fh' s' Hs' Hi'. rewrite Ho2, Ho1, delete_insert_eq in Hs'.
    apply lookup_delete_Some in Hs' as [_ Hs']. by eapply Hno.
  - cbn. apply lookup_insert_eq.
Qed.
End write_path.
