(* ===== verification/Namespace.v ===== *)
(** * The file system adapter: names and links

    The directory operations of [crates/slicefs-cli/src/filesystem.rs]: mkdir,
    rmdir, unlink, link, rename, symlink, readlink, lookup, readdir and the
    extended attribute calls, with the errors they return. *)

From S2P Require Import Prelude Types Text Blockset Inode InodeMap Xattr Directory Segment Wal.
From S2P Require Import Store Filesystem.
From stdpp Require Import base tactics numbers option list gmap strings.
Open Scope Z_scope.

Section namespace.
Context {B : Blockset}.
Abbreviation Fs := (SliceFsFilesystem B).
Abbreviation errno := meta_error_to_errno.

Definition simulate_mkdir (parent_ino : Z) (name : bytes) (mode umask uid gid : Z)
    : M Fs Errno Z :=
  let dir_mode := Z.lor S_IFDIR (perm_bits mode umask) in
  on_meta errno (create_directory parent_ino name (new_directory 0 uid gid dir_mode)).

(** Entries other than [.] and [..]. *)
Definition real_entries (entries : list DirEntry) : list DirEntry :=
  filter (λ e, de_name e ≠ dot ∧ de_name e ≠ dotdot) entries.

Definition simulate_rmdir (parent_ino : Z) (name : bytes) : M Fs Errno unit :=
  ino ← on_meta errno (store_lookup parent_ino name);
  inode ← on_meta errno (get_inode ino);
  if decide (Z.land (im_mode inode) S_IFDIR = 0) then throw ENOTDIR else
  entries ← on_meta errno (list_directory ino);
  if decide (0 < length (real_entries entries))%nat then throw ENOTEMPTY else
  _ ← on_meta errno (unlink parent_ino name);
  _ ← on_meta errno (delete_inode ino);
  parent_inode ← on_meta errno (get_inode parent_ino);
  if decide (0 < im_nlinks parent_inode)
  then on_meta errno (update_inode (set_nlinks (im_nlinks parent_inode - 1) parent_inode))
  else mret tt.

(** [if let Ok(manifest) = get_manifest(ino) { for d in &manifest { decrement_refcount(d) } }]
    then [let _ = delete_inode(ino)]. *)
Definition drop_file (ino : Z) : M Fs Errno unit :=
  m ← attempt (on_meta eio (get_manifest ino));
  _ ← with_meta (λ s, foldl (λ s d, decrement_refcount d s) s
                        (match (m : res Errno (list Digest224)) with Ok l => l | _ => [] end));
  _ ← attempt (E := Errno) (on_meta eio (delete_inode ino));
  mret tt.

Definition simulate_unlink (parent_ino : Z) (name : bytes) : M Fs Errno unit :=
  ino ← on_meta errno (store_lookup parent_ino name);
  inode ← on_meta errno (get_inode ino);
  if decide (Z.land (im_mode inode) S_IFDIR ≠ 0) then throw EISDIR else
  _ ← on_meta errno (unlink parent_ino name);
  let inode := if decide (0 < im_nlinks inode)
               then set_nlinks (im_nlinks inode - 1) inode else inode in
  if decide (im_nlinks inode = 0) then drop_file ino
  else on_meta errno (update_inode inode).

Definition simulate_link (now : Z * Z) (ino newparent_ino : Z) (newname : bytes) : M Fs Errno Z :=
  inode ← on_meta errno (get_inode ino);
  if decide (Z.land (im_mode inode) S_IFDIR ≠ 0) then throw EPERM else
  _ ← on_meta errno (link newparent_ino newname ino);
  let inode := set_nlinks (wrap32 (im_nlinks inode + 1)) inode in
  _ ← on_meta errno (update_inode (stamp_ctime now inode));
  mret ino.

Definition simulate_rename (now : Z * Z) (parent_ino : Z) (name : bytes) (newparent_ino : Z)
    (newname : bytes) (flags : Z) : M Fs Errno unit :=
  if decide (Z.land flags 2 ≠ 0) then throw ENOSYS else
  src_ino ← on_meta (λ _, ENOENT) (store_lookup parent_ino name);
  target ← attempt (on_meta eio (store_lookup newparent_ino newname));
  let target_ino := res_ok (target : res Errno Z) in
  if decide (Z.land flags 1 ≠ 0 ∧ is_Some target_ino) then throw EEXIST else
  _ ← match target_ino with
      | None => mret tt
      | Some dst_ino =>
          dst_inode ← on_meta errno (get_inode dst_ino);
          _ ← on_meta errno (unlink newparent_ino newname);
          let new_nlinks := sat_sub (im_nlinks dst_inode) 1 in
          if decide (new_nlinks = 0 ∧ Z.land (im_mode dst_inode) S_IFDIR = 0)
          then drop_file dst_ino
          else if decide (0 < new_nlinks)
          then _ ← attempt (E := Errno)
                     (on_meta eio (update_inode (set_nlinks new_nlinks dst_inode))); mret tt
          else mret tt
      end;
  _ ← on_meta errno (link newparent_ino newname src_ino);
  _ ← on_meta errno (unlink parent_ino name);
  src_inode ← on_meta errno (get_inode src_ino);
  on_meta errno (update_inode (stamp_ctime now src_inode)).

(** The inode of a symbolic link to a target of [n] bytes. *)
Definition symlink_meta (uid gid n : Z) : InodeMeta :=
  mkInode 0 (Z.lor S_IFLNK 511 (* 0o777 *)) uid gid 1 n 0 0 0 0.

Definition simulate_symlink (parent_ino : Z) (link_name target : bytes) (uid gid : Z)
    : M Fs Errno Z :=
  ino ← create_linked parent_ino link_name (symlink_meta uid gid (len target));
  content_digest ← with_fs_io (push_all target);
  _ ← on_meta eio (set_manifest ino [content_digest]);
  _ ← with_meta (increment_refcount content_digest);
  inode ← on_meta eio (get_inode ino);
  _ ← on_meta eio (update_inode (set_isize (len target) inode));
  mret ino.

Definition simulate_readlink (ino : Z) : M Fs Errno bytes :=
  manifest ← on_meta (λ _, EINVAL) (get_manifest ino);
  match manifest with
  | [] => mret []
  | d :: _ =>
      raw ← fs_get d;
      raw_bytes ← lift (ok_or raw EINVAL);
      lift (ok_or (from_utf8 raw_bytes) EINVAL)
  end.

(* ---------------------------------------------------------------------- *)
(** ** Wrappers of the callbacks *)

Definition test_getattr (ino : Z) : M Fs MetaError InodeMeta :=
  zoom fs_meta upd_meta (get_inode ino).

Definition test_lookup (parent : Z) (name : bytes) : M Fs Errno (Z * InodeMeta) :=
  child_ino ← on_meta errno (store_lookup parent name);
  meta ← on_meta errno (get_inode child_ino);
  mret (child_ino, meta).

Inductive FileType := Directory | Symlink | RegularFile.

(** [match mode & S_IFMT { S_IFDIR => .., S_IFLNK => .., _ => .. }]. *)
Definition file_type_of (mode : Z) : FileType :=
  if decide (Z.land mode S_IFMT = S_IFDIR) then Directory
  else if decide (Z.land mode S_IFMT = S_IFLNK) then Symlink
  else RegularFile.

Fixpoint readdir_kinds (entries : list DirEntry) : M Fs Errno (list (Z * FileType * bytes)) :=
  match entries with
  | [] => mret []
  | e :: entries =>
      m ← attempt (on_meta eio (get_inode (de_ino e)));
      let kind := match (m : res Errno InodeMeta) with
                  | Ok m => file_type_of (im_mode m)
                  | _ => RegularFile
                  end in
      rest ← readdir_kinds entries;
      mret ((de_ino e, kind, de_name e) :: rest)
  end.

Definition test_readdir (ino offset : Z) : M Fs Errno (list (Z * FileType * bytes)) :=
  entries ← on_meta errno (list_directory ino);
  readdir_kinds (drop (Z.to_nat offset) entries).

Definition test_getxattr (ino : Z) (name : bytes) : M Fs Errno bytes :=
  on_meta (λ _, ENODATA) (get_xattr ino name).
(** The names, each followed by a zero byte. *)
Definition test_listxattr (ino : Z) : M Fs Errno bytes :=
  names ← on_meta errno (list_xattrs ino);
  mret (flat_map (λ n, n ++ [Byte.x00]) names).
Definition test_setxattr (ino : Z) (name value : bytes) : M Fs Errno unit :=
  on_meta errno (set_xattr ino name value).
Definition test_removexattr (ino : Z) (name : bytes) : M Fs Errno unit :=
  on_meta errno (remove_xattr ino name).

Definition with_attrs (m : M Fs Errno Z) : M Fs Errno (Z * InodeMeta) :=
  ino ← m;
  meta ← on_meta errno (get_inode ino);
  mret (ino, meta).
Definition test_mkdir_full (parent : Z) (name : bytes) (mode umask uid gid : Z) :=
  with_attrs (simulate_mkdir parent name mode umask uid gid).
Definition test_mknod_full (parent : Z) (name : bytes) (mode uid gid umask : Z) :=
  with_attrs (test_mknod parent name mode uid gid umask).
Definition test_symlink_full (parent : Z) (link_name target : bytes) (uid gid : Z) :=
  with_attrs (simulate_symlink parent link_name target uid gid).
Definition test_link_full (now : Z * Z) (ino newparent : Z) (newname : bytes) :=
  with_attrs (simulate_link now ino newparent newname).

(** [struct FileAttr], with times as seconds and nanoseconds relative to the
    epoch. *)
Record FileAttr := mkAttr {
  fa_ino : Z; fa_size : Z; fa_blocks : Z;
  fa_atime : Z * Z; fa_mtime : Z * Z; fa_ctime : Z * Z; fa_crtime : Z * Z;
  fa_kind : FileType; fa_perm : Z; fa_nlink : Z; fa_uid : Z; fa_gid : Z;
  fa_rdev : Z; fa_blksize : Z; fa_flags : Z
}.
(** Times before the epoch lose their nanoseconds, and a billion of them is a second, as in
    [Duration::new].  (A time beyond the range of [SystemTime] would panic; with fewer than
    a billion nanoseconds there is none.) *)
Definition attr_time (sec nsec : Z) : Z * Z :=
  if decide (0 ≤ sec) then
    if decide (sec + nsec / 1000000000 < 2 ^ 63) then (sec + nsec / 1000000000, nsec mod 1000000000)
    else (sec, nsec)
  else (sec, 0).
Definition inode_to_file_attr (m : InodeMeta) : FileAttr :=
  mkAttr (im_ino m) (im_size m) (wrap64 (im_size m + 511) / 512)
    (0, 0) (attr_time (im_mtime_sec m) (im_mtime_nsec m))
    (attr_time (im_ctime_sec m) (im_ctime_nsec m)) (0, 0)
    (file_type_of (im_mode m)) (Z.land (im_mode m) 4095) (im_nlinks m) (im_uid m) (im_gid m)
    0 4096 0.

(** [compute_statfs]; [statvfs] and [statfs] are what the two system calls on
    the store path return ([blocks], [bfree], [bavail], block size), if
    anything. *)
Definition statfs_block_size (b : Z) : Z := if decide (0 < b) then wrap32 b else 4096.
Definition compute_statfs (statvfs statfs : option (Z * Z * Z * Z)) (f : Fs)
    : Z * Z * Z * Z * Z * Z :=
  let files := st_inode_count (fs_meta f) in
  let ffree := sat_sub u64_max files in
  let use (r : option (Z * Z * Z * Z)) (k : Z * Z * Z * Z * Z * Z) :=
    match r with
    | Some (blocks, bfree, bavail, bsize) =>
        if decide (0 < blocks)
        then (blocks, bfree, bavail, files, ffree, statfs_block_size bsize) else k
    | None => k
    end in
  use statvfs (use statfs (0, 0, 0, files, ffree, 4096)).
End namespace.
