(* ===== verification/NamespaceRefine.v ===== *)
(** * Names and links: what the operations do to the file system

    The directory operations of [Namespace] on the abstract file system of
    [StoreSpec]: which entries and inodes they leave, and the error of every
    refused call. *)

From S2P Require Import Prelude Types Text Blockset Inode InodeMap Xattr Directory Segment Wal.
From S2P Require Import Store StoreSpec StoreRefine StoreCommit Filesystem WritePath Namespace.
From stdpp Require Import base tactics numbers option list gmap.
Open Scope Z_scope.

Section namespace.
Context {B : Blockset} {L : BlocksetLaws B}.
Implicit Types (f : SliceFsFilesystem B) (a : AbsFs).

(** [f'] represents [a'] and has the open files of [f]. *)
Record fs_step f f' a' : Prop := {
  step_rep : store_rep (fs_meta f') a';
  step_open : fs_open_files f' = fs_open_files f;
  step_fh : fs_next_fh f' = fs_next_fh f;
  step_io : st_io (fs_meta f) ⊑ᵢ st_io (fs_meta f')
}.

Lemma fs_step_refl f a : store_rep (fs_meta f) a → fs_step f f a.
Proof. by split. Qed.

Lemma fs_step_trans f1 f2 f3 a2 a3 : fs_step f1 f2 a2 → fs_step f2 f3 a3 → fs_step f1 f3 a3.
Proof. intros [] []. split; [done|congruence..|by etransitivity]. Qed.

(** One call on the metadata store. *)
Lemma meta_step {A} ef (m : M (DictMetadataStore B) MetaError A) spec f a :
  refines m spec (fs_meta f) a →
  ∃ f', on_meta ef m f = (f', res_map_err ef (spec a).2) ∧ fs_step f f' (spec a).1.
Proof.
  intros H. destruct (on_meta_refines ef m spec f a H) as (m' & Hm & Hr & Hle).
  exists (upd_meta m' f). split; [done|]. by split.
Qed.

(** The same with the abstract outcome known. *)
Lemma meta_step_as {A} ef (m : M (DictMetadataStore B) MetaError A) spec f a a' r :
  refines m spec (fs_meta f) a → spec a = (a', r) →
  ∃ f', on_meta ef m f = (f', res_map_err ef r) ∧ fs_step f f' a'.
Proof. intros H E. destruct (meta_step ef m spec f a H) as (f' & H1 & H2). rewrite E in *. eauto. Qed.

Lemma get_inode_step ef f a ino m :
  store_rep (fs_meta f) a → a_inodes a !! ino = Some m → on_meta ef (get_inode ino) f = (f, Ok m).
Proof.
  intros Hr Hm. rewrite (on_meta_run ef _ f _ _ (get_inode_run _ _ ino Hr)), Hm.
  by rewrite upd_meta_same.
Qed.

Lemma lookup_step ef f a parent name D i :
  store_rep (fs_meta f) a → admissible name → a_dirs a !! parent = Some D → D !! name = Some i →
  ∃ f', on_meta ef (store_lookup parent name) f = (f', Ok i) ∧ fs_step f f' a.
Proof.
  intros Hr Hn HD Hi. apply (meta_step_as ef _ (abs_lookup parent name) f a a (Ok i)).
  - by apply lookup_refines.
  - unfold abs_lookup. by rewrite HD, Hi.
Qed.

Lemma lookup_step_err ef f a parent name e :
  store_rep (fs_meta f) a → admissible name →
  (abs_lookup parent name a).2 = Err e →
  ∃ f', on_meta ef (store_lookup parent name) f = (f', Err (ef e)) ∧ fs_step f f' a.
Proof.
  intros Hr Hn He. apply (meta_step_as ef _ (abs_lookup parent name) f a a (Err e)).
  - by apply lookup_refines.
  - unfold abs_lookup in *. by rewrite <-He.
Qed.

Lemma unlink_step ef f a parent name D i :
  store_rep (fs_meta f) a → admissible name → a_dirs a !! parent = Some D → D !! name = Some i →
  name ≠ dot → name ≠ dotdot → admissible (dir_content (delete name D)) →
  ∃ f', on_meta ef (unlink parent name) f = (f', Ok tt) ∧
        fs_step f f' (a_set_dirs (<[parent := delete name D]> (a_dirs a)) a).
Proof.
  intros Hr Hn HD Hi Hd Hdd Hadm. apply (meta_step_as ef _ (abs_unlink parent name) f a _ (Ok tt)).
  - apply unlink_refines; [done|done|]. intros D' HD' _. by simplify_eq.
  - unfold abs_unlink. rewrite HD, decide_False, Hi by (by intros [?|?]). done.
Qed.

Lemma link_step ef f a parent name D i :
  store_rep (fs_meta f) a → name_ok name → is_u64 i → a_dirs a !! parent = Some D →
  D !! name = None → name ≠ dot → name ≠ dotdot → dir_room a parent name i →
  ∃ f', on_meta ef (link parent name i) f = (f', Ok tt) ∧
        fs_step f f' (a_set_dirs (<[parent := <[name := i]> D]> (a_dirs a)) a).
Proof.
  intros Hr Hn Hi HD Hnone Hd Hdd Hroom. apply (meta_step_as ef _ (abs_link parent name i) f a _ (Ok tt)).
  - by apply link_refines.
  - unfold abs_link. rewrite HD, decide_False, Hnone by (by intros [?|?]). done.
Qed.

(** An update that keeps the size of the inode. *)
Lemma update_step ef f a ino old m :
  store_rep (fs_meta f) a → a_inodes a !! ino = Some old → im_ino m = ino →
  im_size m = im_size old → wf_inode m → admissible (serialize_inode m) →
  ∃ f', on_meta ef (update_inode m) f = (f', Ok tt) ∧
        fs_step f f' (a_set_inodes (<[ino := m]> (a_inodes a)) a).
Proof.
  intros Hr Hold Hi Hsz Hwf Hadm. subst ino. apply (meta_step_as ef _ (abs_update_inode m) f a _ (Ok tt)).
  - apply update_inode_refines; [done..|]. intros o Ho. simplify_eq.
    pose proof (wf_total _ (rep_wf _ _ Hr)). lia.
  - unfold abs_update_inode. by rewrite Hold.
Qed.

Lemma with_meta_step (g : DictMetadataStore B → DictMetadataStore B) f a :
  store_rep (fs_meta f) a → (∃ rc, g (fs_meta f) = upd_refcounts rc (fs_meta f)) →
  ∃ f', with_meta g f = (f', Ok tt) ∧ fs_step f f' a.
Proof.
  intros Hr Hg. destruct (with_meta_refcounts g f Hg) as [rc Hrc].
  eexists. split; [exact Hrc|]. split; [by apply rep_upd_refcounts|done..].
Qed.

Lemma foldl_decrement ds (m : DictMetadataStore B) :
  ∃ rc, foldl (λ s d, decrement_refcount d s) m ds = upd_refcounts rc m.
Proof.
  revert m. induction ds as [|d ds IH]; intros m; cbn.
  - exists (st_refcounts m). by destruct m.
  - destruct (decrement_refcounts d m) as [rc ->]. destruct (IH (upd_refcounts rc m)) as [rc' ->].
    by exists rc'.
Qed.

Lemma drop_file_step f a ino m :
  store_rep (fs_meta f) a → a_inodes a !! ino = Some m →
  ∃ f', drop_file ino f = (f', Ok tt) ∧ fs_step f f' (a_set_inodes (delete ino (a_inodes a)) a).
Proof.
  intros Hr Hm. unfold drop_file. rewrite run_bind. unfold attempt at 1.
  rewrite (on_meta_run eio _ f _ _ (get_manifest_run _ _ ino Hr)), upd_meta_same.
  set (r := res_map_err eio (ok_or (a_manifests a !! ino) (NotFound ino))).
  assert (match (f, r) with (s', Panic) => (s', Panic) | (s', r0) => (s', @Ok Errno _ r0) end
          = (f, Ok r)) as -> by (subst r; by destruct (a_manifests a !! ino)).
  rewrite run_bind.
  set (ds := match r with Ok l => l | _ => [] end).
  destruct (with_meta_step (λ s, foldl (λ s d, decrement_refcount d s) s ds) f a Hr) as (f1 & -> & S1).
  { apply foldl_decrement. }
  rewrite run_bind. unfold attempt.
  destruct (meta_step_as eio (delete_inode ino) (abs_delete_inode ino) f1 a
    (a_set_inodes (delete ino (a_inodes a)) a) (Ok tt)) as (f2 & -> & S2).
  { apply delete_inode_refines. apply S1. }
  { unfold abs_delete_inode. by rewrite Hm. }
  eexists. split; [reflexivity|]. by eapply fs_step_trans.
Qed.

(* ---------------------------------------------------------------------- *)
(** ** Unlink *)

(** The file system after one name of a file was removed. *)
Definition unlinked (a : AbsFs) (parent : Z) (name : bytes) (D : gmap bytes Z) (ino : Z)
    (m : InodeMeta) : AbsFs :=
  let a1 := a_set_dirs (<[parent := delete name D]> (a_dirs a)) a in
  if decide (im_nlinks m ≤ 1) then a_set_inodes (delete ino (a_inodes a)) a1
  else a_set_inodes (<[ino := set_nlinks (im_nlinks m - 1) m]> (a_inodes a)) a1.

Lemma set_nlinks_wf m n : wf_inode m → is_u32 n → wf_inode (set_nlinks n m).
Proof. intros (?&?&?&?&?&?&?&?&?&?) Hn. by split_and!. Qed.

Lemma simulate_unlink_ok f a parent name D ino m :
  store_rep (fs_meta f) a → admissible name → name ≠ dot → name ≠ dotdot →
  a_dirs a !! parent = Some D → D !! name = Some ino → a_inodes a !! ino = Some m →
  Z.land (im_mode m) S_IFDIR = 0 → admissible (dir_content (delete name D)) →
  admissible (serialize_inode (set_nlinks (im_nlinks m - 1) m)) →
  ∃ f', simulate_unlink parent name f = (f', Ok tt) ∧
        fs_step f f' (unlinked a parent name D ino m).
Proof.
  intros Hr Hn Hd Hdd HD Hi Hm Hmode Hadm Hadm'. unfold simulate_unlink.
  destruct (inode_u64 _ _ _ _ Hr Hm) as (Hu & Himi & Hwf).
  assert (is_u32 (im_nlinks m)) as Hnl by apply Hwf. unfold is_u32 in Hnl.
  destruct (lookup_step meta_error_to_errno f a parent name D ino Hr Hn HD Hi) as (f1 & H1 & S1).
  rewrite run_bind, H1, run_bind.
  rewrite (get_inode_step meta_error_to_errno f1 a ino m (step_rep _ _ _ S1) Hm).
  rewrite decide_False by (intros H; by apply H).
  destruct (unlink_step meta_error_to_errno f1 a parent name D ino (step_rep _ _ _ S1) Hn HD Hi Hd Hdd Hadm)
    as (f2 & H2 & S2).
  rewrite run_bind, H2. unfold unlinked.
  set (m' := if decide (0 < im_nlinks m) then _ else m).
  destruct (decide (im_nlinks m ≤ 1)) as [Hle|Hgt].
  - rewrite decide_True by (subst m'; case_decide; cbn; lia).
    destruct (drop_file_step f2 _ ino m (step_rep _ _ _ S2) Hm) as (f3 & H3 & S3).
    rewrite H3. eexists. split; [reflexivity|]. by do 2 (eapply fs_step_trans; [eassumption|]).
  - assert (m' = set_nlinks (im_nlinks m - 1) m) as -> by (subst m'; rewrite decide_True by lia; done).
    rewrite decide_False by (cbn; lia).
    destruct (update_step meta_error_to_errno f2 _ ino m (set_nlinks (im_nlinks m - 1) m)
      (step_rep _ _ _ S2)) as (f3 & H3 & S3); try done.
    { apply set_nlinks_wf; [done|]. split; lia. }
    rewrite H3. eexists. split; [reflexivity|]. by do 2 (eapply fs_step_trans; [eassumption|]).
Qed.

Lemma simulate_unlink_missing f a parent name D :
  store_rep (fs_meta f) a → admissible name → a_dirs a !! parent = Some D → D !! name = None →
  ∃ f', simulate_unlink parent name f = (f', Err ENOENT) ∧ fs_step f f' a.
Proof.
  intros Hr Hn HD Hi. unfold simulate_unlink.
  destruct (lookup_step_err meta_error_to_errno f a parent name (NotFound 0) Hr Hn) as (f1 & H1 & S1).
  { unfold abs_lookup. cbn. by rewrite HD, Hi. }
  rewrite run_bind, H1. by exists f1.
Qed.

Lemma simulate_unlink_isdir f a parent name D ino m :
  store_rep (fs_meta f) a → admissible name → a_dirs a !! parent = Some D →
  D !! name = Some ino → a_inodes a !! ino = Some m → Z.land (im_mode m) S_IFDIR ≠ 0 →
  ∃ f', simulate_unlink parent name f = (f', Err EISDIR) ∧ fs_step f f' a.
Proof.
  intros Hr Hn HD Hi Hm Hmode. unfold simulate_unlink.
  destruct (lookup_step meta_error_to_errno f a parent name D ino Hr Hn HD Hi) as (f1 & H1 & S1).
  rewrite run_bind, H1, run_bind.
  rewrite (get_inode_step meta_error_to_errno f1 a ino m (step_rep _ _ _ S1) Hm).
  rewrite decide_True by done. by exists f1.
Qed.

(* ---------------------------------------------------------------------- *)
(** ** Rmdir *)

(** A directory that holds nothing but [.] and [..]. *)
Definition dir_empty (D : gmap bytes Z) : Prop :=
  ∀ n i, D !! n = Some i → n = dot ∨ n = dotdot.

Lemma list_step ef f a ino D :
  store_rep (fs_meta f) a → a_dirs a !! ino = Some D →
  ∃ l, on_meta ef (list_directory ino) f = (f, Ok l) ∧
       l ≡ₚ (λ p, mkDirEntry p.1 p.2) <$> map_to_list D.
Proof.
  intros Hr HD. pose proof (list_directory_run _ _ ino Hr) as Hl. rewrite HD in Hl.
  destruct Hl as (l & Hrun & Hp). exists l. split; [|done].
  rewrite (on_meta_run ef _ f _ _ Hrun). by rewrite upd_meta_same.
Qed.

(** The count of real entries decides emptiness. *)
Lemma real_entries_empty l D :
  l ≡ₚ (λ p, mkDirEntry p.1 p.2) <$> map_to_list D →
  length (real_entries l) = 0%nat ↔ dir_empty D.
Proof.
  intros Hp. rewrite length_zero_iff_nil. split.
  - intros Hnil n i Hi. apply dec_stable. intros Hne.
    assert (mkDirEntry n i ∈ real_entries l) as Hin.
    { unfold real_entries. apply list_elem_of_filter. split; [cbn; tauto|]. rewrite Hp.
      apply list_elem_of_fmap. exists (n, i). split; [done|]. by apply elem_of_map_to_list. }
    rewrite Hnil in Hin. by apply elem_of_nil in Hin.
  - intros He. destruct (real_entries l) as [|e es] eqn:E; [done|].
    assert (e ∈ real_entries l) as Hin by (rewrite E; by left).
    apply list_elem_of_filter in Hin as [[H1 H2] Hin]. rewrite Hp in Hin.
    apply list_elem_of_fmap in Hin as ([n i] & -> & Hin). apply elem_of_map_to_list in Hin.
    destruct (He _ _ Hin); done.
Qed.

Lemma fresh_dir_empty ino parent : dir_empty (fresh_dir ino parent).
Proof.
  intros n i. unfold fresh_dir. rewrite lookup_insert_Some, lookup_singleton_Some.
  intros [[<- _]|[_ [<- _]]]; auto.
Qed.

(** The file system after a directory was removed. *)
Definition rmdir_abs (a : AbsFs) (parent : Z) (name : bytes) (D : gmap bytes Z) (ino : Z)
    (pm : InodeMeta) : AbsFs :=
  let a1 := a_set_dirs (<[parent := delete name D]> (a_dirs a)) a in
  if decide (0 < im_nlinks pm)
  then a_set_inodes (<[parent := set_nlinks (im_nlinks pm - 1) pm]> (delete ino (a_inodes a))) a1
  else a_set_inodes (delete ino (a_inodes a)) a1.

(** The common prefix: resolve, check the type, list. *)
Lemma simulate_rmdir_prefix f a parent name D ino m Dc :
  store_rep (fs_meta f) a → admissible name → a_dirs a !! parent = Some D →
  D !! name = Some ino → a_inodes a !! ino = Some m → Z.land (im_mode m) S_IFDIR ≠ 0 →
  a_dirs a !! ino = Some Dc →
  ∃ f1 l, fs_step f f1 a ∧ l ≡ₚ (λ p, mkDirEntry p.1 p.2) <$> map_to_list Dc ∧
    simulate_rmdir parent name f =
    (if decide (0 < length (real_entries l))%nat then throw ENOTEMPTY else
     _ ← on_meta meta_error_to_errno (unlink parent name);
     _ ← on_meta meta_error_to_errno (delete_inode ino);
     pm ← on_meta meta_error_to_errno (get_inode parent);
     if decide (0 < im_nlinks pm)
     then on_meta meta_error_to_errno (update_inode (set_nlinks (im_nlinks pm - 1) pm))
     else mret tt) f1.
Proof.
  intros Hr Hn HD Hi Hm Hmode HDc. unfold simulate_rmdir.
  destruct (lookup_step meta_error_to_errno f a parent name D ino Hr Hn HD Hi) as (f1 & H1 & S1).
  destruct (list_step meta_error_to_errno f1 a ino Dc (step_rep _ _ _ S1) HDc) as (l & Hl & Hp).
  exists f1, l. split_and!; [done|done|]. rewrite run_bind, H1, run_bind.
  rewrite (get_inode_step meta_error_to_errno f1 a ino m (step_rep _ _ _ S1) Hm).
  rewrite decide_False by done. by rewrite run_bind, Hl.
Qed.

Lemma simulate_rmdir_ok f a parent name D ino m Dc pm :
  store_rep (fs_meta f) a → admissible name → name ≠ dot → name ≠ dotdot →
  a_dirs a !! parent = Some D → D !! name = Some ino → a_inodes a !! ino = Some m →
  Z.land (im_mode m) S_IFDIR ≠ 0 → a_dirs a !! ino = Some Dc → dir_empty Dc →
  a_inodes a !! parent = Some pm → parent ≠ ino →
  admissible (dir_content (delete name D)) →
  admissible (serialize_inode (set_nlinks (im_nlinks pm - 1) pm)) →
  ∃ f', simulate_rmdir parent name f = (f', Ok tt) ∧ fs_step f f' (rmdir_abs a parent name D ino pm).
Proof.
  intros Hr Hn Hd Hdd HD Hi Hm Hmode HDc Hemp Hpm Hne Hadm Hadm'.
  destruct (simulate_rmdir_prefix f a parent name D ino m Dc) as (f1 & l & S1 & Hp & ->); try done.
  rewrite decide_False by (pose proof (proj2 (real_entries_empty _ _ Hp) Hemp); lia).
  destruct (inode_u64 _ _ _ _ Hr Hpm) as (Hu & Himi & Hwf).
  assert (is_u32 (im_nlinks pm)) as Hnl by apply Hwf. unfold is_u32 in Hnl.
  destruct (unlink_step meta_error_to_errno f1 a parent name D ino (step_rep _ _ _ S1) Hn HD Hi Hd Hdd Hadm)
    as (f2 & H2 & S2).
  rewrite run_bind, H2, run_bind. set (a2 := a_set_dirs _ a) in S2.
  destruct (meta_step_as meta_error_to_errno (delete_inode ino) (abs_delete_inode ino) f2 a2
    (a_set_inodes (delete ino (a_inodes a)) a2) (Ok tt)) as (f3 & H3 & S3).
  { apply delete_inode_refines. apply S2. }
  { unfold abs_delete_inode, a2. abs_simpl. by rewrite Hm. }
  rewrite H3, run_bind. cbn [res_map_err].
  assert (delete ino (a_inodes a) !! parent = Some pm) as Hpm' by by rewrite lookup_delete_ne.
  rewrite (get_inode_step meta_error_to_errno f3 _ parent pm (step_rep _ _ _ S3) Hpm').
  assert (fs_step f f3 (a_set_inodes (delete ino (a_inodes a)) a2)) as S03
    by (by do 2 (eapply fs_step_trans; [eassumption|])).
  unfold rmdir_abs. fold a2. case_decide.
  - destruct (update_step meta_error_to_errno f3 _ parent pm (set_nlinks (im_nlinks pm - 1) pm)
      (step_rep _ _ _ S3)) as (f4 & H4 & S4); try done.
    { apply set_nlinks_wf; [done|]. split; lia. }
    rewrite H4. eexists. split; [reflexivity|]. by eapply fs_step_trans.
  - by exists f3.
Qed.

Lemma simulate_rmdir_notempty f a parent name D ino m Dc :
  store_rep (fs_meta f) a → admissible name → a_dirs a !! parent = Some D →
  D !! name = Some ino → a_inodes a !! ino = Some m → Z.land (im_mode m) S_IFDIR ≠ 0 →
  a_dirs a !! ino = Some Dc → ¬ dir_empty Dc →
  ∃ f', simulate_rmdir parent name f = (f', Err ENOTEMPTY) ∧ fs_step f f' a.
Proof.
  intros Hr Hn HD Hi Hm Hmode HDc Hne.
  destruct (simulate_rmdir_prefix f a parent name D ino m Dc) as (f1 & l & S1 & Hp & ->); try done.
  rewrite decide_True; [by exists f1|].
  destruct (length (real_entries l)) eqn:E; [|lia]. by apply (real_entries_empty _ _ Hp) in E.
Qed.

(* ---------------------------------------------------------------------- *)
(** ** Rename *)

Lemma stamp_ctime_wf now m :
  is_u64 now.1 → is_u32 now.2 → wf_inode m → wf_inode (stamp_ctime now m).
Proof.
  intros Hs Hn (?&?&?&?&?&?&?&?&?&?). unfold stamp_ctime, set_ctime, wf_inode. inode_simpl.
  split_and!; auto with slicefs.
Qed.

(** Moving a file onto a free name of the same directory. *)
Lemma simulate_rename_ok now f a parent name newname D ino m :
  is_u64 now.1 → is_u32 now.2 → store_rep (fs_meta f) a →
  admissible name → name ≠ dot → name ≠ dotdot →
  name_ok newname → newname ≠ dot → newname ≠ dotdot →
  a_dirs a !! parent = Some D → D !! name = Some ino → D !! newname = None →
  a_inodes a !! ino = Some m → dir_room a parent newname ino →
  admissible (dir_content (delete name (<[newname := ino]> D))) →
  admissible (serialize_inode (stamp_ctime now m)) →
  ∃ f', simulate_rename now parent name parent newname 0 f = (f', Ok tt) ∧
    fs_step f f' (a_set_inodes (<[ino := stamp_ctime now m]> (a_inodes a))
      (a_set_dirs (<[parent := delete name (<[newname := ino]> D)]> (a_dirs a)) a)).
Proof.
  intros Hs Hns Hr Hn Hd Hdd Hn' Hd' Hdd' HD Hi Hnone Hm Hroom Hadm Hadm'.
  destruct (inode_u64 _ _ _ _ Hr Hm) as (Hu & Himi & Hwf).
  unfold simulate_rename. rewrite decide_False by (intros H; by apply H). rewrite run_bind.
  destruct (lookup_step (λ _, ENOENT) f a parent name D ino Hr Hn HD Hi) as (f1 & H1 & S1).
  rewrite H1, run_bind. unfold attempt at 1.
  destruct (lookup_step_err eio f1 a parent newname (NotFound 0) (step_rep _ _ _ S1)) as (f2 & H2 & S2).
  { apply Hn'. } { unfold abs_lookup. cbn. by rewrite HD, Hnone. }
  rewrite H2. cbn [res_ok]. rewrite decide_False by (intros [H _]; by apply H).
  rewrite run_bind. cbn [mret M_ret].
  destruct (link_step meta_error_to_errno f2 a parent newname D ino (step_rep _ _ _ S2)) as (f3 & H3 & S3);
    try done.
  rewrite run_bind, H3. set (a3 := a_set_dirs _ a) in S3.
  assert (name ≠ newname) as Hne by (intros ->; by rewrite Hnone in Hi).
  destruct (unlink_step meta_error_to_errno f3 a3 parent name (<[newname := ino]> D) ino
    (step_rep _ _ _ S3)) as (f4 & H4 & S4); try done.
  { abs_simpl. apply lookup_insert_eq. } { by rewrite lookup_insert_ne. }
  rewrite run_bind, H4, run_bind. set (a4 := a_set_dirs _ a3) in S4.
  rewrite (get_inode_step meta_error_to_errno f4 a4 ino m (step_rep _ _ _ S4) Hm).
  destruct (update_step meta_error_to_errno f4 a4 ino m (stamp_ctime now m) (step_rep _ _ _ S4))
    as (f5 & H5 & S5); try done.
  { by apply stamp_ctime_wf. }
  exists f5. split; [exact H5|].
  replace (a_set_inodes _ (a_set_dirs _ a)) with (a_set_inodes (<[ino := stamp_ctime now m]> (a_inodes a4)) a4).
  { by do 4 (eapply fs_step_trans; [eassumption|]). }
  unfold a4, a3. abs_simpl. by rewrite insert_insert_eq.
Qed.

(** Renaming a file with one link onto itself removes the name and the inode
    and reports that it does not exist. *)
Lemma simulate_rename_same now f a parent name D ino m :
  store_rep (fs_meta f) a → name_ok name → name ≠ dot → name ≠ dotdot →
  a_dirs a !! parent = Some D → D !! name = Some ino → a_inodes a !! ino = Some m →
  Z.land (im_mode m) S_IFDIR = 0 → im_nlinks m = 1 →
  admissible (dir_content (delete name D)) → admissible (dir_content (<[name := ino]> (delete name D))) →
  ∃ f' a', simulate_rename now parent name parent name 0 f = (f', Err ENOENT) ∧
    fs_step f f' a' ∧ a_inodes a' !! ino = None ∧ a_dirs a' !! parent = Some (delete name D).
Proof.
  intros Hr Hn Hd Hdd HD Hi Hm Hmode Hnl Hadm Hadm'.
  destruct (inode_u64 _ _ _ _ Hr Hm) as (Hu & _ & _). pose proof Hn as (_ & _ & Hna).
  unfold simulate_rename. rewrite decide_False by (intros H; by apply H). rewrite run_bind.
  destruct (lookup_step (λ _, ENOENT) f a parent name D ino Hr Hna HD Hi) as (f1 & H1 & S1).
  rewrite H1, run_bind. unfold attempt at 1.
  destruct (lookup_step eio f1 a parent name D ino (step_rep _ _ _ S1) Hna HD Hi) as (f2 & H2 & S2).
  rewrite H2. cbn [res_ok]. rewrite decide_False by (intros [H _]; by apply H).
  rewrite run_bind, run_bind.
  rewrite (get_inode_step meta_error_to_errno f2 a ino m (step_rep _ _ _ S2) Hm).
  destruct (unlink_step meta_error_to_errno f2 a parent name D ino (step_rep _ _ _ S2) Hna HD Hi Hd Hdd Hadm)
    as (f3 & H3 & S3).
  rewrite run_bind, H3. rewrite decide_True by (rewrite Hnl; done).
  set (a3 := a_set_dirs _ a) in S3.
  destruct (drop_file_step f3 a3 ino m (step_rep _ _ _ S3) Hm) as (f4 & H4 & S4).
  rewrite H4. set (a4 := a_set_inodes _ a3) in S4.
  assert (a_dirs a4 !! parent = Some (delete name D)) as HD4 by apply lookup_insert_eq.
  destruct (link_step meta_error_to_errno f4 a4 parent name (delete name D) ino (step_rep _ _ _ S4))
    as (f5 & H5 & S5); try done.
  { apply lookup_delete_eq. }
  { intros D' HD' _. rewrite HD4 in HD'. simplify_eq. split; [|done].
    rewrite map_size_delete_Some by eauto. destruct (rep_dir_facts _ _ _ _ Hr HD) as [[_ ?] _].
    assert (size D ≠ 0%nat) by (intros H0; apply map_size_empty_inv in H0; by rewrite H0 in Hi). lia. }
  rewrite run_bind, H5. set (a5 := a_set_dirs _ a4) in S5.
  assert (a_dirs a5 !! parent = Some (<[name := ino]> (delete name D))) as HD5 by apply lookup_insert_eq.
  destruct (unlink_step meta_error_to_errno f5 a5 parent name _ ino (step_rep _ _ _ S5) Hna HD5)
    as (f6 & H6 & S6); try done.
  { apply lookup_insert_eq. } { by rewrite delete_insert_eq, delete_delete_eq. }
  rewrite run_bind, H6, run_bind. set (a6 := a_set_dirs _ a5) in S6.
  assert (a_inodes a6 !! ino = None) as Hgone by apply lookup_delete_eq.
  rewrite (on_meta_run meta_error_to_errno _ f6 _ _ (get_inode_run _ _ ino (step_rep _ _ _ S6))), Hgone.
  rewrite upd_meta_same. exists f6, a6. split_and!; [done| |done|].
  - by do 5 (eapply fs_step_trans; [eassumption|]).
  - unfold a6. abs_simpl. by rewrite lookup_insert_eq, delete_insert_eq, delete_delete_eq.
Qed.

(* ---------------------------------------------------------------------- *)
(** ** Hard links *)

Lemma simulate_link_ok now f a ino m parent name D :
  is_u64 now.1 → is_u32 now.2 → store_rep (fs_meta f) a → a_inodes a !! ino = Some m →
  Z.land (im_mode m) S_IFDIR = 0 → name_ok name → name ≠ dot → name ≠ dotdot →
  a_dirs a !! parent = Some D → D !! name = None → dir_room a parent name ino →
  admissible (serialize_inode (stamp_ctime now (add_link m))) →
  ∃ f', simulate_link now ino parent name f = (f', Ok ino) ∧
    fs_step f f' (a_set_inodes (<[ino := stamp_ctime now (add_link m)]> (a_inodes a))
      (a_set_dirs (<[parent := <[name := ino]> D]> (a_dirs a)) a)).
Proof.
  intros Hs Hns Hr Hm Hmode Hn Hd Hdd HD Hnone Hroom Hadm.
  destruct (inode_u64 _ _ _ _ Hr Hm) as (Hu & Himi & Hwf). unfold simulate_link.
  rewrite run_bind, (get_inode_step meta_error_to_errno f a ino m Hr Hm).
  rewrite decide_False by (intros H; by apply H).
  destruct (link_step meta_error_to_errno f a parent name D ino Hr) as (f1 & H1 & S1); try done.
  rewrite run_bind, H1. fold (add_link m).
  destruct (update_step meta_error_to_errno f1 _ ino m (stamp_ctime now (add_link m))
    (step_rep _ _ _ S1)) as (f2 & H2 & S2); try done.
  { apply stamp_ctime_wf; [done..|]. by apply add_link_wf. }
  rewrite run_bind, H2. exists f2. split; [done|]. by eapply fs_step_trans.
Qed.

Lemma simulate_link_isdir now f a ino m parent name :
  store_rep (fs_meta f) a → a_inodes a !! ino = Some m → Z.land (im_mode m) S_IFDIR ≠ 0 →
  simulate_link now ino parent name f = (f, Err EPERM).
Proof.
  intros Hr Hm Hmode. unfold simulate_link.
  rewrite run_bind, (get_inode_step meta_error_to_errno f a ino m Hr Hm). by rewrite decide_True.
Qed.

(* ---------------------------------------------------------------------- *)
(** ** Creation *)

(** What creating an inode for [meta] under a name needs. *)
Record create_room (a : AbsFs) (parent : Z) (name : bytes) (meta : InodeMeta) : Prop := {
  kr_next : a_next a + 1 < 2 ^ 64;
  kr_name : name_ok name;
  kr_inode : wf_inode (set_ino (a_next a) meta);
  kr_blob : admissible (serialize_inode (set_ino (a_next a) meta));
  kr_total : total_size (a_inodes a) + im_size meta < 2 ^ 64;
  kr_dir : dir_room a parent name (a_next a)
}.

(** The file system with the new inode, with and without its name. *)
Definition created_inode (a : AbsFs) (meta : InodeMeta) : AbsFs :=
  (abs_create_inode meta a).1.
Definition created (a : AbsFs) (parent : Z) (name : bytes) (D : gmap bytes Z) (meta : InodeMeta)
    : AbsFs :=
  a_set_dirs (<[parent := <[name := a_next a]> D]> (a_dirs a)) (created_inode a meta).

Lemma create_linked_ok f a parent name meta D :
  store_rep (fs_meta f) a → create_room a parent name meta →
  a_dirs a !! parent = Some D → D !! name = None → name ≠ dot → name ≠ dotdot →
  ∃ f', create_linked parent name meta f = (f', Ok (a_next a)) ∧
        fs_step f f' (created a parent name D meta).
Proof.
  intros Hr [Hnext Hn Hwf Hadm Htot Hroom] HD Hnone Hd Hdd. unfold create_linked.
  destruct (meta_step_as meta_error_to_errno (create_inode meta) (abs_create_inode meta) f a
    (created_inode a meta) (Ok (a_next a))) as (f1 & H1 & S1); [by apply create_inode_refines|done|].
  rewrite run_bind, H1. cbn [res_map_err]. rewrite run_bind. unfold attempt.
  assert (is_u64 (a_next a)) as Hu by (pose proof (wf_next _ (rep_wf _ _ Hr)); unfold is_u64; lia).
  destruct (link_refines (fs_meta f1) (created_inode a meta) parent name (a_next a))
    as (Hres & Hrep & Hle); [apply S1|done..|].
  assert (abs_link parent name (a_next a) (created_inode a meta)
          = (created a parent name D meta, Ok tt)) as Ha.
  { unfold abs_link, created_inode, abs_create_inode. cbn [fst]. abs_simpl.
    by rewrite HD, decide_False, Hnone by (by intros [?|?]). }
  rewrite Ha in Hres, Hrep. unfold zoom.
  destruct (link parent name (a_next a) (fs_meta f1)) as [m2 r2]. cbn [fst snd] in *. subst r2.
  eexists. split; [reflexivity|]. eapply fs_step_trans; [exact S1|]. by split.
Qed.

(** A name that is taken: the new inode is removed again. *)
Lemma create_linked_exists f a parent name meta D j :
  store_rep (fs_meta f) a → create_room a parent name meta →
  a_dirs a !! parent = Some D → D !! name = Some j → name ≠ dot → name ≠ dotdot →
  ∃ f', create_linked parent name meta f = (f', Err EEXIST) ∧
        fs_step f f' (a_set_next (a_next a + 1) a).
Proof.
  intros Hr [Hnext Hn Hwf Hadm Htot Hroom] HD Hj Hd Hdd. unfold create_linked.
  destruct (meta_step_as meta_error_to_errno (create_inode meta) (abs_create_inode meta) f a
    (created_inode a meta) (Ok (a_next a))) as (f1 & H1 & S1); [by apply create_inode_refines|done|].
  rewrite run_bind, H1. cbn [res_map_err]. rewrite run_bind. unfold attempt at 1.
  assert (is_u64 (a_next a)) as Hu by (pose proof (wf_next _ (rep_wf _ _ Hr)); unfold is_u64; lia).
  destruct (link_refines (fs_meta f1) (created_inode a meta) parent name (a_next a))
    as (Hres & Hrep & Hle); [apply S1|done..|].
  assert (abs_link parent name (a_next a) (created_inode a meta)
          = (created_inode a meta, Err (AlreadyExists (a_next a)))) as Ha.
  { unfold abs_link, created_inode, abs_create_inode. cbn [fst]. abs_simpl.
    by rewrite HD, decide_False, Hj by (by intros [?|?]). }
  rewrite Ha in Hres, Hrep. unfold zoom at 1.
  destruct (link parent name (a_next a) (fs_meta f1)) as [m2 r2]. cbn [fst snd] in *. subst r2.
  rewrite run_bind. unfold attempt. set (f2 := upd_meta m2 f1).
  destruct (meta_step_as eio (delete_inode (a_next a)) (abs_delete_inode (a_next a)) f2
    (created_inode a meta) (a_set_next (a_next a + 1) a) (Ok tt)) as (f3 & H3 & S3).
  { by apply delete_inode_refines. }
  { unfold abs_delete_inode, created_inode, abs_create_inode. cbn [fst]. abs_simpl. rewrite lookup_insert_eq.
    f_equal. unfold a_set_inodes, a_set_next. abs_simpl. f_equal.
    apply delete_insert_id. by eapply rep_fresh. }
  rewrite H3. eexists. split; [reflexivity|].
  eapply fs_step_trans; [exact S1|]. eapply (fs_step_trans _ f2); [|exact S3]. by split.
Qed.

Lemma test_create_ok f a parent name mode umask uid gid D :
  store_rep (fs_meta f) a → fs_next_fh f + 1 < 2 ^ 64 → 0 ≤ fs_next_fh f →
  let meta := new_file 0 uid gid (Z.lor S_IFREG (perm_bits mode umask)) in
  create_room a parent name meta →
  a_dirs a !! parent = Some D → D !! name = None → name ≠ dot → name ≠ dotdot →
  ∃ f', test_create parent name mode umask uid gid f = (f', Ok (a_next a, fs_next_fh f + 1)) ∧
        store_rep (fs_meta f') (created a parent name D meta) ∧
        fs_open_files f' = <[fs_next_fh f + 1 := fresh_handle (a_next a)]> (fs_open_files f) ∧
        fs_next_fh f' = fs_next_fh f + 1.
Proof.
  intros Hr Hfh Hfh0 meta Hroom HD Hnone Hd Hdd. unfold test_create.
  destruct (create_linked_ok f a parent name meta D) as (f1 & H1 & [Hr1 Ho1 Hn1 _]); try done.
  fold meta. rewrite run_bind, H1, run_bind. cbn [gets]. rewrite run_bind. cbn [modify].
  rewrite run_bind. cbn [put_handle modify]. rewrite Hn1. unfold wrap64. rewrite Z.mod_small by lia.
  eexists. split; [reflexivity|]. cbn. by rewrite Ho1.
Qed.

(** A new file: created, written in any order, closed, and read back. *)
Lemma create_write_read now f a parent name mode umask uid gid D ws :
  is_u64 now.1 → is_u32 now.2 →
  store_rep (fs_meta f) a → 0 ≤ fs_next_fh f → fs_next_fh f + 1 < 2 ^ 64 →
  let meta := new_file 0 uid gid (Z.lor S_IFREG (perm_bits mode umask)) in
  let ino := a_next a in
  let a1 := created a parent name D meta in
  create_room a parent name meta →
  a_dirs a !! parent = Some D → D !! name = None → name ≠ dot → name ≠ dotdot →
  default [] (a_manifests a !! ino) = [] → no_writer f ino →
  writes_ok [] ws → pwrites [] ws ≠ [] → commit_room now a1 ino (set_ino ino meta) (pwrites [] ws) →
  ∃ f', (p ← test_create parent name mode umask uid gid;
         _ ← write_seq p.2 ws; _ ← test_release now p.1 p.2; mret p.1) f = (f', Ok ino) ∧
        store_rep (fs_meta f') (commit_abs now a1 ino (set_ino ino meta) (pwrites [] ws)) ∧
        ∀ off size, 0 ≤ off → 0 ≤ size →
          test_read ino off size f' = (f', Ok (pread (pwrites [] ws) off size)).
Proof.
  intros Hs Hns Hr Hfh0 Hfh meta ino a1 Hroom HD Hnone Hd Hdd Hman Hno Hok Hne Hcr.
  destruct (test_create_ok f a parent name mode umask uid gid D) as (f1 & H1 & Hr1 & Ho1 & Hn1); try done.
  destruct (write_release_read now f1 a1 (fs_next_fh f + 1) (fresh_handle ino) ino (set_ino ino meta) ws)
    as (f2 & H2 & Hr2 & Hread); try done.
  { rewrite Ho1. apply lookup_insert_eq. }
  { intros fh s Hh Hi. rewrite Ho1 in Hh. destruct (decide (fh = fs_next_fh f + 1)) as [->|Hne'].
    - rewrite lookup_insert_eq in Hh. by simplify_eq.
    - rewrite lookup_insert_ne in Hh by done. by eapply Hno. }
  exists f2. split; [|done]. rewrite run_bind, H1. cbn [fst snd].
  rewrite run_bind in H2. rewrite run_bind. destruct (write_seq _ ws f1) as [f' [[]| |]]; [|done..].
  fold ino. by rewrite run_bind, H2.
Qed.

(* ---------------------------------------------------------------------- *)
(** ** Symbolic links *)

(** The target of a new link is read back by [readlink]. *)
Lemma symlink_readlink f a parent name target uid gid D :
  store_rep (fs_meta f) a →
  let meta := symlink_meta uid gid (len target) in
  let ino := a_next a in
  create_room a parent name meta →
  a_dirs a !! parent = Some D → D !! name = None → name ≠ dot → name ≠ dotdot →
  admissible target → utf8_valid target = true →
  admissible (serialize_manifest [digest_of target]) →
  ∃ f', simulate_symlink parent name target uid gid f = (f', Ok ino) ∧
    store_rep (fs_meta f')
      (abs_set_manifest ino [digest_of target] (created a parent name D meta)).1 ∧
    simulate_readlink ino f' = (f', Ok target).
Proof.
  intros Hr meta ino Hroom HD Hnone Hd Hdd Hadm Hutf Hman. unfold simulate_symlink.
  destruct (create_linked_ok f a parent name meta D) as (f1 & H1 & S1); try done.
  fold meta. rewrite run_bind, H1. fold ino. destruct S1 as [Hr1 Ho1 Hn1 _].
  destruct (push_all_spec target _ (rep_io _ _ Hr1) Hadm) as (Hio2 & Hle2 & Hst2).
  rewrite run_bind, (with_fs_io_run _ f1 _ _ (push_all_eta target _)).
  set (f2 := upd_meta _ f1). set (a1 := created a parent name D meta) in *.
  assert (store_rep (fs_meta f2) a1) as Hr2 by by apply rep_io_grows.
  assert (is_u64 ino) as Hu by (pose proof (wf_next _ (rep_wf _ _ Hr)); unfold is_u64, ino; lia).
  assert (a_inodes a1 !! ino = Some (set_ino ino meta)) as Hi1 by apply lookup_insert_eq.
  destruct (meta_step eio (set_manifest ino [digest_of target]) (abs_set_manifest ino [digest_of target]) f2 a1)
    as (f3 & H3 & S3).
  { apply set_manifest_refines; [done..| |done]. apply Forall_singleton, digest_of_wf. }
  rewrite run_bind, H3. cbn [res_map_err abs_set_manifest snd].
  destruct (with_meta_step (increment_refcount (digest_of target)) f3 _ (step_rep _ _ _ S3))
    as (f4 & H4 & S4); [apply increment_refcounts|].
  rewrite run_bind, H4, run_bind.
  rewrite (get_inode_step eio f4 _ ino _ (step_rep _ _ _ S4) Hi1).
  change (set_isize (len target) (set_ino ino meta)) with (set_ino ino meta).
  destruct (update_step eio f4 _ ino _ (set_ino ino meta) (step_rep _ _ _ S4) Hi1)
    as (f5 & H5 & S5); try done; [apply Hroom..|].
  cbn [abs_set_manifest fst] in S5. abs_simpl_in S5. rewrite insert_id in S5 by done.
  rewrite run_bind, H5. exists f5. split; [done|]. destruct S5 as [Hr5 _ _ Hle5].
  split; [exact Hr5|]. unfold simulate_readlink.
  rewrite run_bind, (on_meta_run _ _ f5 _ _ (get_manifest_run _ _ ino Hr5)).
  abs_simpl. rewrite lookup_insert_eq. cbn [ok_or res_map_err].
  rewrite upd_meta_same, run_bind. cbn [fs_get gets].
  assert (stored (st_io (fs_meta f5)) target) as ->.
  { eapply stored_mono; [|exact Hst2]. etransitivity; [apply (step_io _ _ _ S3)|].
    etransitivity; [apply (step_io _ _ _ S4)|exact Hle5]. }
  cbn [ok_or]. rewrite run_bind. cbn. by rewrite from_utf8_valid.
Qed.
End namespace.
