(* ===== verification/Snapshots.v ===== *)
(** * Reference counts and snapshots

    The counting discipline of [increment_refcount] and [decrement_refcount]
    (saturation included), and the snapshot index of
    [crates/metadata/src/store.rs]: versions, lookups, and its reconstruction
    from the log. *)

From S2P Require Import Prelude Types Text Blockset Inode InodeMap Xattr Directory Segment Wal.
From S2P Require Import Store StoreSpec StoreRefine StoreCommit.
From stdpp Require Import base tactics numbers option list gmap sorting.
Open Scope Z_scope.

Section refcounts.
Context {B : Blockset}.
Implicit Types (s : DictMetadataStore B) (d : Digest224).

(** Counts are positive [u64]s; an absent digest has count 0. *)
Definition counts_wf s : Prop := map_Forall (λ _ c, 1 ≤ c ≤ u64_max) (st_refcounts s).

Lemma get_refcount_range s d : counts_wf s → 0 ≤ get_refcount d s ≤ u64_max.
Proof.
  intros Hs. unfold get_refcount. destruct (st_refcounts s !! d) as [c|] eqn:E; cbn.
  - pose proof (Hs _ _ E). cbn in *. lia.
  - done.
Qed.

Lemma increment_refcount_wf s d : counts_wf s → counts_wf (increment_refcount d s).
Proof.
  intros Hs. pose proof (get_refcount_range s d Hs) as Hr. unfold get_refcount in Hr.
  unfold counts_wf, increment_refcount. case_decide; store_simpl; apply map_Forall_insert_2; try done.
  - unfold u64_max in *. lia.
  - lia.
Qed.

Lemma decrement_refcount_wf s d : counts_wf s → counts_wf (decrement_refcount d s).
Proof.
  intros Hs. unfold counts_wf, decrement_refcount. destruct (st_refcounts s !! d) as [c|] eqn:E; [|done].
  pose proof (Hs _ _ E) as Hc. cbn in Hc.
  case_decide; [done|]. case_decide; store_simpl; [by apply map_Forall_delete|].
  apply map_Forall_insert_2; [lia|done].
Qed.

(** One more reference, unless the count is saturated. *)
Lemma get_increment s d d' :
  get_refcount d' (increment_refcount d s) =
  if decide (d' = d) then (if decide (get_refcount d s = u64_max) then u64_max
                           else get_refcount d s + 1)
  else get_refcount d' s.
Proof.
  unfold increment_refcount, get_refcount.
  destruct (decide (default 0 (st_refcounts s !! d) = u64_max)) as [Hs|Hs]; store_simpl.
  all: destruct (decide (d' = d)) as [->|Hne]; [by rewrite lookup_insert_eq|by rewrite lookup_insert_ne].
Qed.

(** One reference less, unless there is none or the count is saturated. *)
Lemma get_decrement s d d' :
  counts_wf s →
  get_refcount d' (decrement_refcount d s) =
  if decide (d' = d) then (if decide (get_refcount d s = u64_max) then u64_max
                           else Z.max 0 (get_refcount d s - 1))
  else get_refcount d' s.
Proof.
  intros Hs. unfold decrement_refcount, get_refcount.
  destruct (st_refcounts s !! d) as [c|] eqn:E.
  - pose proof (Hs _ _ E) as Hc. cbn in Hc. change (default 0 (Some c)) with c.
    destruct (decide (c = u64_max)) as [->|Hn].
    { case_decide; subst; [by rewrite E|done]. }
    destruct (decide (c ≤ 1)); store_simpl; destruct (decide (d' = d)) as [->|Hne].
    + rewrite lookup_delete_eq. cbn [default from_option]. lia.
    + by rewrite lookup_delete_ne.
    + rewrite lookup_insert_eq. cbn. lia.
    + by rewrite lookup_insert_ne.
  - case_decide; subst; [rewrite E; cbn; done|done].
Qed.

(** A history of references taken and dropped. *)
Inductive RcOp := Take (d : Digest224) | Drop (d : Digest224).
Definition rc_step s (o : RcOp) : DictMetadataStore B :=
  match o with Take d => increment_refcount d s | Drop d => decrement_refcount d s end.
Definition rc_delta d (o : RcOp) : Z :=
  match o with
  | Take d' => if decide (d' = d) then 1 else 0
  | Drop d' => if decide (d' = d) then -1 else 0
  end.
(** The number of references to [d] after a history that starts with [n]. *)
Definition rc_balance d (n : Z) (ops : list RcOp) : Z := foldl (λ n o, n + rc_delta d o) n ops.
(** Every drop matches an earlier reference and no count reaches the maximum. *)
Fixpoint rc_legal d (n : Z) (ops : list RcOp) : Prop :=
  0 ≤ n < u64_max ∧
  match ops with [] => True | o :: ops => rc_legal d (n + rc_delta d o) ops end.

Lemma rc_run_wf ops s : counts_wf s → counts_wf (foldl rc_step s ops).
Proof.
  revert s. induction ops as [|o ops IH]; intros s Hs; [done|]. apply IH.
  destruct o; cbn; [by apply increment_refcount_wf|by apply decrement_refcount_wf].
Qed.

(** On a legal history the count is the number of references. *)
Lemma rc_run_balance d ops s :
  counts_wf s → rc_legal d (get_refcount d s) ops →
  get_refcount d (foldl rc_step s ops) = rc_balance d (get_refcount d s) ops.
Proof.
  revert s. induction ops as [|o ops IH]; intros s Hs Hl; [done|]. cbn [foldl rc_balance].
  destruct Hl as [Hn Hl].
  assert (0 ≤ get_refcount d s + rc_delta d o < u64_max) as Hn' by (destruct ops; apply Hl).
  assert (get_refcount d (rc_step s o) = get_refcount d s + rc_delta d o) as E.
  { destruct o as [d'|d']; cbn [rc_step rc_delta] in *.
    - rewrite get_increment. repeat case_decide; subst; try done; lia.
    - rewrite get_decrement by done. repeat case_decide; subst; try done; lia. }
  unfold rc_balance in IH |- *. cbn [foldl]. rewrite <-E. apply IH.
  - by apply (rc_run_wf [o]).
  - by rewrite E.
Qed.

(** A saturated count never changes again: the block is immortal. *)
Lemma rc_saturated d ops s :
  counts_wf s → get_refcount d s = u64_max → get_refcount d (foldl rc_step s ops) = u64_max.
Proof.
  revert s. induction ops as [|o ops IH]; intros s Hs Hd; [done|]. cbn [foldl].
  apply IH; [by apply (rc_run_wf [o])|].
  destruct o as [d'|d']; cbn [rc_step]; [rewrite get_increment|rewrite get_decrement by done].
  all: repeat case_decide; congruence.
Qed.
End refcounts.

Section snapshots.
Context {B : Blockset} {L : BlocksetLaws B}.
Implicit Types (s : DictMetadataStore B).

Lemma max_version_ge (m : gmap Z SnapshotEntry) v e : m !! v = Some e → v ≤ max_version m.
Proof.
  intros Hv. apply elem_of_map_to_list in Hv. unfold max_version.
  induction (map_to_list m) as [|[k x] l IH]; [by apply elem_of_nil in Hv|]. cbn.
  apply elem_of_cons in Hv as [[= -> ->]|Hv]; [lia|]. specialize (IH Hv). lia.
Qed.

Lemma max_version_nonneg (m : gmap Z SnapshotEntry) : 0 ≤ max_version m.
Proof. unfold max_version. induction (map_to_list m) as [|[k x] l IH]; cbn; lia. Qed.

Lemma max_version_range (m : gmap Z SnapshotEntry) b :
  0 ≤ b → map_Forall (λ v _, v ≤ b) m → 0 ≤ max_version m ≤ b.
Proof.
  intros Hb Hm. apply map_Forall_to_list in Hm. unfold max_version.
  induction Hm as [|[k x] l Hk _ IH]; cbn in *; lia.
Qed.

(** The two indexes a list of logged snapshots leads to. *)
Definition index_versions (l : list SnapshotEntry) : gmap Z SnapshotEntry :=
  insert_all ((λ e, (sn_version e, e)) <$> l).
Definition index_names (l : list SnapshotEntry) : gmap bytes Z :=
  insert_all (omap (λ e, (λ n, (n, sn_version e)) <$> sn_name e) l).

(** The indexes of [s] are those of the logged snapshots [l]. *)
Definition snapshots_of s (l : list SnapshotEntry) : Prop :=
  st_by_version s = index_versions l ∧ st_by_name s = index_names l.

Lemma set_snapshots_of l s : snapshots_of (set_snapshots l s) l.
Proof. done. Qed.

Lemma index_versions_snoc l e : index_versions (l ++ [e]) = <[sn_version e := e]> (index_versions l).
Proof. unfold index_versions. rewrite fmap_app. apply insert_all_snoc. Qed.

Lemma index_names_snoc l e :
  index_names (l ++ [e]) = match sn_name e with
                           | Some n => <[n := sn_version e]> (index_names l)
                           | None => index_names l
                           end.
Proof.
  unfold index_names. rewrite omap_app. cbn. destruct (sn_name e) as [n|]; cbn.
  - apply insert_all_snoc.
  - by rewrite app_nil_r.
Qed.

(** Taking a snapshot commits. *)
Lemma create_snapshot_state now name s :
  let e := mkSnapshot (wrap64 (max_version (st_by_version s) + 1)) name (commit_digest s) now in
  ∃ s', create_snapshot now name s = (s', Ok e) ∧
        st_by_version s' = <[sn_version e := e]> (st_by_version s) ∧
        st_by_name s' = (match name with
                         | Some n => <[n := sn_version e]> (st_by_name s)
                         | None => st_by_name s
                         end) ∧
        st_last_root s' = Some (commit_digest s) ∧
        st_io s' = push_list (commit_contents s) (st_io s) ∧
        (∀ a, store_rep (upd_io (st_io s') s) a → store_rep s' a).
Proof.
  intros e. unfold create_snapshot. rewrite run_bind.
  rewrite commit_run, run_bind. cbn [gets]. store_simpl.
  rewrite run_bind, log_wal_entry_run.
  rewrite run_bind. cbn [modify]. eexists. split; [reflexivity|]. store_simpl.
  split_and!; [done..|]. intros a []. by split.
Qed.

(** The entry gets the next version and the committed root, and both indexes follow
    the log. *)
Lemma create_snapshot_run now name s l :
  snapshots_of s l →
  let e := mkSnapshot (wrap64 (max_version (st_by_version s) + 1)) name (commit_digest s) now in
  ∃ s', create_snapshot now name s = (s', Ok e) ∧ snapshots_of s' (l ++ [e]) ∧
        st_last_root s' = Some (commit_digest s) ∧
        st_io s' = push_list (commit_contents s) (st_io s) ∧
        (∀ a, store_rep (upd_io (st_io s') s) a → store_rep s' a).
Proof.
  intros [Hv Hn] e. destruct (create_snapshot_state now name s) as (s' & Hs' & Hv' & Hn' & H).
  exists s'. split; [exact Hs'|]. split; [|exact H]. split.
  - by rewrite index_versions_snoc, <-Hv.
  - rewrite index_names_snoc, <-Hn, Hn'. by destruct name.
Qed.

(** What it logs. *)
Lemma create_snapshot_wal now name s :
  st_wal (create_snapshot now name s).1 =
  wal_logged (WalSnapshot (wrap64 (max_version (st_by_version s) + 1)) (commit_digest s) now name)
    (wal_logged (WalRootUpdate (commit_digest s)) (st_wal s)).
Proof.
  unfold create_snapshot. rewrite run_bind, commit_run, run_bind. cbn [gets].
  by rewrite run_bind, log_wal_entry_run, run_bind.
Qed.

(** Versions below the maximum are [u64]s. *)
Definition versions_wf s : Prop :=
  map_Forall (λ v e, 0 ≤ v < u64_max ∧ sn_version e = v) (st_by_version s).

Lemma next_version s :
  versions_wf s →
  wrap64 (max_version (st_by_version s) + 1) = max_version (st_by_version s) + 1 ∧
  1 ≤ max_version (st_by_version s) + 1 ∧ is_u64 (max_version (st_by_version s) + 1) ∧
  st_by_version s !! (max_version (st_by_version s) + 1) = None ∧
  ∀ v e, st_by_version s !! v = Some e → v < max_version (st_by_version s) + 1.
Proof.
  intros Hwf. pose proof (max_version_range (st_by_version s) (u64_max - 1)) as Hr.
  destruct Hr as [H0 H1]; [done|intros v e Hv; destruct (Hwf _ _ Hv); lia|].
  assert (∀ v e, st_by_version s !! v = Some e → v < max_version (st_by_version s) + 1) as Hlt.
  { intros v e Hv. pose proof (max_version_ge _ _ _ Hv). lia. }
  unfold u64_max, is_u64 in *. unfold wrap64. rewrite Z.mod_small by lia.
  split_and!; [done|lia|lia|lia| |done].
  destruct (_ !! _) as [e|] eqn:E; [|done]. specialize (Hlt _ _ E). lia.
Qed.

(** The new snapshot is found by version and by name, and every earlier one
    still by its version. *)
Lemma create_snapshot_find now name s l s' e :
  snapshots_of s l → versions_wf s → create_snapshot now name s = (s', Ok e) →
  sn_version e = max_version (st_by_version s) + 1 ∧
  find_snapshot (fmt_dec (sn_version e)) s' = Some e ∧
  (∀ n, name = Some n → parse_u64 n = None → find_snapshot n s' = Some e) ∧
  (∀ v e', st_by_version s !! v = Some e' → find_snapshot (fmt_dec v) s' = Some e').
Proof.
  intros Hl Hwf Hc. destruct (create_snapshot_run now name s l Hl) as (s1 & H1 & [Hv Hn] & _).
  rewrite H1 in Hc. simplify_eq. cbn [sn_version].
  destruct (next_version s Hwf) as (Hw & Hpos & Hu & Hfresh & Hlt). rewrite Hw in *.
  rewrite index_versions_snoc in Hv. rewrite index_names_snoc in Hn. cbn [sn_version sn_name] in *.
  destruct Hl as [Hlv Hln]. rewrite <-Hlv in Hv. rewrite <-Hln in Hn.
  split_and!; [done|..].
  - unfold find_snapshot. unfold fmt_dec. rewrite parse_fmt_pad by done.
    by rewrite Hv, lookup_insert_eq.
  - intros n -> Hp. unfold find_snapshot. rewrite Hp, Hn, lookup_insert_eq. cbn.
    by rewrite Hv, lookup_insert_eq.
  - intros v e' Hv'. destruct (Hwf _ _ Hv') as [Hv0 _]. unfold find_snapshot, fmt_dec.
    rewrite parse_fmt_pad by (unfold is_u64, u64_max in *; lia).
    rewrite Hv, lookup_insert_ne by (specialize (Hlt _ _ Hv'); lia). done.
Qed.

(** Loading the root of a snapshot gives back the file system as it was. *)
Lemma snapshot_load now name s a l io :
  store_rep s a → snapshots_of s l → tables_fit s → is_Some (a_inodes a !! 1) →
  Forall admissible (commit_contents s) →
  ∃ s' e, create_snapshot now name s = (s', Ok e) ∧ store_rep s' a ∧
    (st_io s' ⊑ᵢ io → healthy io →
     ∃ s'', load_from_root io (sn_root e) = Ok s'' ∧ store_rep s'' a).
Proof.
  intros Hr Hl Hfit Hroot Hadm.
  destruct (create_snapshot_run now name s l Hl) as (s' & H1 & _ & _ & Hio & Hrep).
  destruct (push_list_spec _ _ (rep_io _ _ Hr) Hadm) as (Hh & Hle & Hst).
  eexists s', _. split; [exact H1|]. split.
  { apply Hrep. rewrite Hio. by apply rep_io_grows. }
  intros Hle' Hh'. cbn [sn_root].
  assert (st_io s ⊑ᵢ io) as Hle0 by (etransitivity; [exact Hle|]; by rewrite <-Hio).
  eexists. split; [apply (load_from_root_commit s a io); try done|].
  - eapply Forall_impl; [exact Hst|]. intros bs Hbs. eapply stored_mono; [|exact Hbs].
    by rewrite <-Hio.
  - assert (store_rep (upd_io io s) a) as [] by by apply rep_io_grows. by split.
Qed.
End snapshots.
