(* ===== verification/Handlers.v ===== *)
(** * The handlers behind the FUSE callbacks

    [crates/slicefs-cli/src/handlers.rs]: one function per callback, which calls
    the adapter and sorts its [Result] into a result type of its own.  The names
    of the adapter's errors are those of [Filesystem]. *)

From S2P Require Import Prelude Types Text Blockset Inode InodeMap Xattr Directory Segment Wal.
From S2P Require Import Store Filesystem Namespace.
From stdpp Require Import base tactics numbers option list gmap strings.
Open Scope Z_scope.

(** The result types of the handlers. *)
Inductive AttrResult := AttrOk (attr : FileAttr) | AttrError (e : Errno).
Inductive EntryResult := EntryOk (ino : Z) (attr : FileAttr) | EntryError (e : Errno).
Inductive ReaddirResult :=
  | ReaddirOk (entries : list (Z * FileType * bytes))
  | ReaddirError (e : Errno).
Inductive DataResult := DataOk (data : bytes) | DataError (e : Errno).
Inductive OpenResult := OpenOk (fh : Z) (is_write : bool) | OpenError (e : Errno).
Inductive EmptyResult := EmptyOk | EmptyError (e : Errno).
Inductive WriteResult := WriteOk (n : Z) | WriteError (e : Errno).
Inductive CreateResult := CreateOk (ino fh : Z) (attr : FileAttr) | CreateError (e : Errno).
Inductive StatfsResult := StatfsOk (blocks bfree bavail files ffree bsize : Z).
Inductive XattrResult :=
  | XattrSize (n : Z)
  | XattrData (data : bytes)
  | XattrError (e : Errno).
Inductive LockResult := LockOk (start end_ typ pid : Z).

(** [F_UNLCK] of Linux. *)
Definition F_UNLCK : Z := 2.

Section handlers.
Context {B : Blockset}.
Abbreviation Fs := (SliceFsFilesystem B).

(** [match m { Ok(x) => ok(x), Err(e) => err(e) }]: a handler always returns; only
    a panic of the adapter unwinds through it. *)
Definition handled {S E A R} (m : M S E A) (ok : A → R) (err : E → R) : M S Empty_set R := λ f,
  match m f with
  | (f, Ok x) => (f, Ok (ok x))
  | (f, Err e) => (f, Ok (err e))
  | (f, Panic) => (f, Panic)
  end.

Definition empty_ok : unit → EmptyResult := λ _, EmptyOk.
Definition entry_ok (p : Z * InodeMeta) : EntryResult := EntryOk p.1 (inode_to_file_attr p.2).

Definition handle_getattr (ino : Z) : M Fs Empty_set AttrResult :=
  handled (test_getattr ino) (λ meta, AttrOk (inode_to_file_attr meta))
    (λ e, AttrError (meta_error_to_errno e)).
Definition handle_lookup (parent : Z) (name : bytes) : M Fs Empty_set EntryResult :=
  handled (test_lookup parent name) entry_ok EntryError.
Definition handle_readdir (ino offset : Z) : M Fs Empty_set ReaddirResult :=
  handled (test_readdir ino offset) ReaddirOk ReaddirError.
Definition handle_read (ino offset size : Z) : M Fs Empty_set DataResult :=
  handled (test_read ino offset size) DataOk DataError.

Section clock.
Context (now : Z * Z).

Definition handle_open (ino flags : Z) : M Fs Empty_set OpenResult :=
  handled (test_open now ino flags) (λ p, OpenOk p.1 p.2) OpenError.
Definition handle_release (ino fh : Z) : M Fs Empty_set EmptyResult :=
  handled (test_release_full now ino fh) empty_ok (λ _, EmptyError EIO).
Definition handle_flush (ino fh : Z) : M Fs Empty_set EmptyResult :=
  handled (test_flush now ino fh) empty_ok (λ _, EmptyError EIO).
Definition handle_fsync (ino fh : Z) : M Fs Empty_set EmptyResult :=
  handled (test_fsync now ino fh) empty_ok (λ _, EmptyError EIO).
End clock.

Definition handle_statfs (statvfs statfs : option (Z * Z * Z * Z)) (f : Fs) : StatfsResult :=
  let '(blocks, bfree, bavail, files, ffree, bsize) := compute_statfs statvfs statfs f in
  StatfsOk blocks bfree bavail files ffree bsize.

(** A size of 0 asks for the length only. *)
Definition xattr_reply (size : Z) (data : bytes) : XattrResult :=
  if decide (size = 0) then XattrSize (wrap32 (len data)) else XattrData data.
Definition handle_getxattr (ino : Z) (name : bytes) (size : Z) : M Fs Empty_set XattrResult :=
  handled (test_getxattr ino name) (xattr_reply size) (λ _, XattrError ENODATA).
Definition handle_listxattr (ino size : Z) : M Fs Empty_set XattrResult :=
  handled (test_listxattr ino) (xattr_reply size) XattrError.
Definition handle_setxattr (ino : Z) (name value : bytes) : M Fs Empty_set EmptyResult :=
  handled (test_setxattr ino name value) empty_ok EmptyError.
Definition handle_removexattr (ino : Z) (name : bytes) : M Fs Empty_set EmptyResult :=
  handled (test_removexattr ino name) empty_ok
    (λ e, EmptyError (if decide (e = ENOENT) then ENODATA else e)).

Definition handle_write (fh offset : Z) (data : bytes) : M Fs Empty_set WriteResult :=
  handled (test_write fh offset data) WriteOk (λ _, WriteError EBADF).

Section clock2.
Context (now : Z * Z).

Definition handle_create (parent : Z) (name : bytes) (mode umask uid gid flags : Z)
    : M Fs Empty_set CreateResult :=
  handled (test_create_full now parent name mode umask uid gid flags)
    (λ p, CreateOk p.1.1 p.1.2 (inode_to_file_attr p.2)) CreateError.
Definition handle_mkdir (parent : Z) (name : bytes) (mode umask uid gid : Z)
    : M Fs Empty_set EntryResult :=
  handled (test_mkdir_full parent name mode umask uid gid) entry_ok EntryError.
Definition handle_mknod (parent : Z) (name : bytes) (mode umask uid gid : Z)
    : M Fs Empty_set EntryResult :=
  handled (test_mknod_full parent name mode uid gid umask) entry_ok EntryError.
Definition handle_symlink (parent : Z) (link_name target : bytes) (uid gid : Z)
    : M Fs Empty_set EntryResult :=
  handled (test_symlink_full parent link_name target uid gid) entry_ok EntryError.
Definition handle_readlink (ino : Z) : M Fs Empty_set DataResult :=
  handled (simulate_readlink ino) DataOk DataError.
Definition handle_link (ino newparent : Z) (newname : bytes) : M Fs Empty_set EntryResult :=
  handled (test_link_full now ino newparent newname) entry_ok EntryError.
Definition handle_unlink (parent : Z) (name : bytes) : M Fs Empty_set EmptyResult :=
  handled (simulate_unlink parent name) empty_ok EmptyError.
Definition handle_rmdir (parent : Z) (name : bytes) : M Fs Empty_set EmptyResult :=
  handled (simulate_rmdir parent name) empty_ok EmptyError.
Definition handle_rename (parent : Z) (name : bytes) (newparent : Z) (newname : bytes) (flags : Z)
    : M Fs Empty_set EmptyResult :=
  handled (simulate_rename now parent name newparent newname flags) empty_ok EmptyError.
Definition handle_setattr (ino : Z) (mode uid gid size fh : option Z) (mtime : option (Z * Z))
    : M Fs Empty_set AttrResult :=
  handled (test_setattr now ino mode uid gid size fh mtime)
    (λ inode, AttrOk (inode_to_file_attr inode)) AttrError.
End clock2.

Definition handle_getlk (start end_ pid : Z) : LockResult := LockOk start end_ F_UNLCK pid.
End handlers.
