(* ===== verification/Callbacks.v ===== *)
(** * The FUSE callbacks

    [crates/slicefs-cli/src/fuse_callbacks.rs]: [impl Filesystem for
    SliceFsFilesystem].  A request of the kernel becomes a call of a handler and
    its result a reply.  [serve] is the dispatch that [fuser] does: one request,
    one reply.  Names arrive as raw bytes; a name that is not UTF-8 is refused, or
    taken for the empty name where the code says [unwrap_or("")]. *)

From S2P Require Import Prelude Types Text Blockset Inode InodeMap Xattr Directory Segment Wal.
From S2P Require Import Store Filesystem Namespace Handlers.
From stdpp Require Import base tactics numbers option list gmap strings.
Open Scope Z_scope.

(** [enum TimeOrNow]: a time is seconds and nanoseconds since the epoch. *)
Inductive TimeOrNow := SpecificTime (sec nsec : Z) | Now.

(** What the kernel asks; the parameters that no callback looks at are left out. *)
Inductive Request :=
  | ReqGetattr (ino : Z)
  | ReqLookup (parent : Z) (name : bytes)
  | ReqReaddir (ino offset : Z)
  | ReqRead (ino offset size : Z)
  | ReqOpen (ino flags : Z)
  | ReqOpendir (ino : Z)
  | ReqRelease (ino fh : Z)
  | ReqReleasedir (ino : Z)
  | ReqFlush (ino fh : Z)
  | ReqFsync (ino fh : Z)
  | ReqStatfs
  | ReqAccess (ino mask : Z)
  | ReqGetxattr (ino : Z) (name : bytes) (size : Z)
  | ReqListxattr (ino size : Z)
  | ReqSetxattr (ino : Z) (name value : bytes) (flags : Z)
  | ReqRemovexattr (ino : Z) (name : bytes)
  | ReqWrite (fh offset : Z) (data : bytes)
  | ReqCreate (parent : Z) (name : bytes) (mode umask flags uid gid : Z)
  | ReqMkdir (parent : Z) (name : bytes) (mode umask uid gid : Z)
  | ReqMknod (parent : Z) (name : bytes) (mode umask uid gid : Z)
  | ReqSymlink (parent : Z) (link_name target : bytes) (uid gid : Z)
  | ReqReadlink (ino : Z)
  | ReqLink (ino newparent : Z) (newname : bytes)
  | ReqUnlink (parent : Z) (name : bytes)
  | ReqRmdir (parent : Z) (name : bytes)
  | ReqRename (parent : Z) (name : bytes) (newparent : Z) (newname : bytes) (flags : Z)
  | ReqSetattr (ino : Z) (mode uid gid size : option Z) (mtime : option TimeOrNow) (fh : option Z)
  | ReqGetlk (ino start end_ typ pid : Z)
  | ReqSetlk (ino start end_ typ pid : Z)
  | ReqFallocate (ino offset length : Z).

(** An entry of a directory reply: inode, offset of the next entry, kind, name. *)
Abbreviation ReplyItem := (Z * Z * FileType * bytes)%type (only parsing).

(** The answers of the callbacks. *)
Inductive Reply :=
  | ReplyError (e : Errno)
  | ReplyOk
  | ReplyAttr (attr : FileAttr)
  | ReplyEntry (attr : FileAttr)
  | ReplyDirectory (items : list ReplyItem)
  | ReplyData (data : bytes)
  | ReplyOpened (fh : Z)
  | ReplyCreated (attr : FileAttr) (fh : Z)
  | ReplyStatfs (blocks bfree bavail files ffree bsize namelen frsize : Z)
  | ReplyXattrSize (n : Z)
  | ReplyWritten (n : Z)
  | ReplyLocked (start end_ typ pid : Z).

(** [Errno::NO_XATTR] of Linux. *)
Definition NO_XATTR : Errno := ENODATA.

(** [name.to_str()] and [name.to_str().unwrap_or("")]. *)
Definition to_str (name : bytes) : option bytes := from_utf8 name.
Definition to_str_or_empty (name : bytes) : bytes := default [] (to_str name).

(** The time that [setattr] stores: a time before the epoch counts as the epoch. *)
Definition mtime_pair (now : Z * Z) (mt : TimeOrNow) : Z * Z :=
  let '(sec, nsec) := match mt with SpecificTime sec nsec => (sec, nsec) | Now => now end in
  if decide (0 ≤ sec) then (to_i64 sec, nsec) else (0, 0).

Section replies.
Definition attr_reply (r : AttrResult) : Reply :=
  match r with AttrOk attr => ReplyAttr attr | AttrError e => ReplyError e end.
Definition entry_reply (r : EntryResult) : Reply :=
  match r with EntryOk _ attr => ReplyEntry attr | EntryError e => ReplyError e end.
Definition data_reply (r : DataResult) : Reply :=
  match r with DataOk data => ReplyData data | DataError e => ReplyError e end.
Definition open_reply (r : OpenResult) : Reply :=
  match r with OpenOk fh _ => ReplyOpened fh | OpenError e => ReplyError e end.
Definition create_reply (r : CreateResult) : Reply :=
  match r with CreateOk _ fh attr => ReplyCreated attr fh | CreateError e => ReplyError e end.
(** [reply.ok()] or the error of the handler, here [unlink] and others. *)
Definition empty_reply (r : EmptyResult) : Reply :=
  match r with EmptyOk => ReplyOk | EmptyError e => ReplyError e end.
(** [release], [flush] and [fsync] report every failure as [EIO]. *)
Definition eio_reply (r : EmptyResult) : Reply :=
  match r with EmptyOk => ReplyOk | EmptyError _ => ReplyError EIO end.
(** [write] reports every failure as [EBADF]. *)
Definition write_reply (r : WriteResult) : Reply :=
  match r with WriteOk n => ReplyWritten n | WriteError _ => ReplyError EBADF end.
Definition getxattr_reply (r : XattrResult) : Reply :=
  match r with
  | XattrSize n => ReplyXattrSize n
  | XattrData data => ReplyData data
  | XattrError _ => ReplyError NO_XATTR
  end.
Definition listxattr_reply (r : XattrResult) : Reply :=
  match r with
  | XattrSize n => ReplyXattrSize n
  | XattrData data => ReplyData data
  | XattrError e => ReplyError e
  end.
Definition removexattr_reply (r : EmptyResult) : Reply :=
  match r with
  | EmptyOk => ReplyOk
  | EmptyError e => if decide (e = ENODATA) then ReplyError NO_XATTR else ReplyError e
  end.
Definition statfs_reply (r : StatfsResult) : Reply :=
  let 'StatfsOk blocks bfree bavail files ffree bsize := r in
  ReplyStatfs blocks bfree bavail files ffree bsize 255 bsize.
Definition lock_reply (r : LockResult) : Reply :=
  let 'LockOk start end_ typ pid := r in ReplyLocked start end_ typ pid.
End replies.

Section callbacks.
Context {B : Blockset}.
Abbreviation Fs := (SliceFsFilesystem B).
(** [ReplyDirectory::add] of [fuser] on a reply that holds some entries already:
    whether one more does not fit. *)
Context (buffer_full : list ReplyItem → ReplyItem → bool).
(** The clock, and what [statvfs] and [statfs] of the store path return. *)
Context (now : Z * Z) (statvfs statfs : option (Z * Z * Z * Z)).

(** The loop of [readdir] over the entries from index [index] on. *)
Fixpoint fill_reply (offset index : Z) (acc : list ReplyItem)
    (entries : list (Z * FileType * bytes)) : list ReplyItem :=
  match entries with
  | [] => acc
  | (entry_ino, kind, name) :: entries =>
      let item := (entry_ino, wrap64 (offset + index + 1), kind, name) in
      if buffer_full acc item then acc
      else fill_reply offset (index + 1) (acc ++ [item]) entries
  end.
Definition readdir_reply (offset : Z) (r : ReaddirResult) : Reply :=
  match r with
  | ReaddirOk entries => ReplyDirectory (fill_reply offset 0 [] entries)
  | ReaddirError e => ReplyError e
  end.

(** [let name_str = match name.to_str() { Some(s) => s, None => return EINVAL }; k]. *)
Definition with_str (name : bytes) (k : bytes → M Fs Empty_set Reply) : M Fs Empty_set Reply :=
  match to_str name with
  | Some s => k s
  | None => mret (ReplyError EINVAL)
  end.

(** The methods of [impl Filesystem]; what a method only logs is left out, and so are
    the arguments that it does not look at. *)
Definition fuse_getattr (ino : Z) : M Fs Empty_set Reply := r ← handle_getattr ino; mret (attr_reply r).
Definition fuse_lookup (parent : Z) (name : bytes) : M Fs Empty_set Reply :=
  r ← handle_lookup parent (to_str_or_empty name); mret (entry_reply r).
Definition fuse_readdir (ino offset : Z) : M Fs Empty_set Reply :=
  r ← handle_readdir ino offset; mret (readdir_reply offset r).
Definition fuse_read (ino offset size : Z) : M Fs Empty_set Reply :=
  r ← handle_read ino offset size; mret (data_reply r).
Definition fuse_open (ino flags : Z) : M Fs Empty_set Reply :=
  r ← handle_open now ino flags; mret (open_reply r).
Definition fuse_opendir : M Fs Empty_set Reply := mret (ReplyOpened 0).
Definition fuse_release (ino fh : Z) : M Fs Empty_set Reply :=
  r ← handle_release now ino fh; mret (eio_reply r).
Definition fuse_releasedir : M Fs Empty_set Reply := mret ReplyOk.
Definition fuse_flush (ino fh : Z) : M Fs Empty_set Reply :=
  r ← handle_flush now ino fh; mret (eio_reply r).
Definition fuse_fsync (ino fh : Z) : M Fs Empty_set Reply :=
  r ← handle_fsync now ino fh; mret (eio_reply r).
Definition fuse_statfs : M Fs Empty_set Reply :=
  r ← gets (handle_statfs statvfs statfs); mret (statfs_reply r).
Definition fuse_access : M Fs Empty_set Reply := mret ReplyOk.
Definition fuse_getxattr (ino : Z) (name : bytes) (size : Z) : M Fs Empty_set Reply :=
  r ← handle_getxattr ino (to_str_or_empty name) size; mret (getxattr_reply r).
Definition fuse_listxattr (ino size : Z) : M Fs Empty_set Reply :=
  r ← handle_listxattr ino size; mret (listxattr_reply r).
Definition fuse_setxattr (ino : Z) (name value : bytes) : M Fs Empty_set Reply :=
  r ← handle_setxattr ino (to_str_or_empty name) value; mret (empty_reply r).
Definition fuse_removexattr (ino : Z) (name : bytes) : M Fs Empty_set Reply :=
  r ← handle_removexattr ino (to_str_or_empty name); mret (removexattr_reply r).
Definition fuse_write (fh offset : Z) (data : bytes) : M Fs Empty_set Reply :=
  r ← handle_write fh offset data; mret (write_reply r).
Definition fuse_create (parent : Z) (name : bytes) (mode umask flags uid gid : Z) : M Fs Empty_set Reply :=
  with_str name (λ name,
    r ← handle_create now parent name mode umask uid gid flags; mret (create_reply r)).
Definition fuse_mkdir (parent : Z) (name : bytes) (mode umask uid gid : Z) : M Fs Empty_set Reply :=
  with_str name (λ name, r ← handle_mkdir parent name mode umask uid gid; mret (entry_reply r)).
Definition fuse_mknod (parent : Z) (name : bytes) (mode umask uid gid : Z) : M Fs Empty_set Reply :=
  with_str name (λ name, r ← handle_mknod parent name mode umask uid gid; mret (entry_reply r)).
Definition fuse_symlink (parent : Z) (link_name target : bytes) (uid gid : Z) : M Fs Empty_set Reply :=
  with_str link_name (λ link_name, with_str target (λ target,
    r ← handle_symlink parent link_name target uid gid; mret (entry_reply r))).
Definition fuse_readlink (ino : Z) : M Fs Empty_set Reply :=
  r ← handle_readlink ino; mret (data_reply r).
Definition fuse_link (ino newparent : Z) (newname : bytes) : M Fs Empty_set Reply :=
  with_str newname (λ newname, r ← handle_link now ino newparent newname; mret (entry_reply r)).
Definition fuse_unlink (parent : Z) (name : bytes) : M Fs Empty_set Reply :=
  with_str name (λ name, r ← handle_unlink parent name; mret (empty_reply r)).
Definition fuse_rmdir (parent : Z) (name : bytes) : M Fs Empty_set Reply :=
  with_str name (λ name, r ← handle_rmdir parent name; mret (empty_reply r)).
Definition fuse_rename (parent : Z) (name : bytes) (newparent : Z) (newname : bytes) (flags : Z)
    : M Fs Empty_set Reply :=
  with_str name (λ name, with_str newname (λ newname,
    r ← handle_rename now parent name newparent newname flags; mret (empty_reply r))).
Definition fuse_setattr (ino : Z) (mode uid gid size : option Z) (mtime : option TimeOrNow)
    (fh : option Z) : M Fs Empty_set Reply :=
  r ← handle_setattr now ino mode uid gid size fh (mtime_pair now <$> mtime);
  mret (attr_reply r).
Definition fuse_getlk (start end_ pid : Z) : M Fs Empty_set Reply :=
  mret (lock_reply (handle_getlk start end_ pid)).
Definition fuse_setlk : M Fs Empty_set Reply := mret ReplyOk.
Definition fuse_fallocate : M Fs Empty_set Reply := mret (ReplyError ENOSYS).

(** One request and its reply. *)
Definition serve (req : Request) : M Fs Empty_set Reply :=
  match req with
  | ReqGetattr ino => fuse_getattr ino
  | ReqLookup parent name => fuse_lookup parent name
  | ReqReaddir ino offset => fuse_readdir ino offset
  | ReqRead ino offset size => fuse_read ino offset size
  | ReqOpen ino flags => fuse_open ino flags
  | ReqOpendir _ => fuse_opendir
  | ReqRelease ino fh => fuse_release ino fh
  | ReqReleasedir _ => fuse_releasedir
  | ReqFlush ino fh => fuse_flush ino fh
  | ReqFsync ino fh => fuse_fsync ino fh
  | ReqStatfs => fuse_statfs
  | ReqAccess _ _ => fuse_access
  | ReqGetxattr ino name size => fuse_getxattr ino name size
  | ReqListxattr ino size => fuse_listxattr ino size
  | ReqSetxattr ino name value _ => fuse_setxattr ino name value
  | ReqRemovexattr ino name => fuse_removexattr ino name
  | ReqWrite fh offset data => fuse_write fh offset data
  | ReqCreate parent name mode umask flags uid gid => fuse_create parent name mode umask flags uid gid
  | ReqMkdir parent name mode umask uid gid => fuse_mkdir parent name mode umask uid gid
  | ReqMknod parent name mode umask uid gid => fuse_mknod parent name mode umask uid gid
  | ReqSymlink parent link_name target uid gid => fuse_symlink parent link_name target uid gid
  | ReqReadlink ino => fuse_readlink ino
  | ReqLink ino newparent newname => fuse_link ino newparent newname
  | ReqUnlink parent name => fuse_unlink parent name
  | ReqRmdir parent name => fuse_rmdir parent name
  | ReqRename parent name newparent newname flags => fuse_rename parent name newparent newname flags
  | ReqSetattr ino mode uid gid size mtime fh => fuse_setattr ino mode uid gid size mtime fh
  | ReqGetlk _ start end_ _ pid => fuse_getlk start end_ pid
  | ReqSetlk _ _ _ _ _ => fuse_setlk
  | ReqFallocate _ _ _ => fuse_fallocate
  end.

(** [destroy]: what [test_destroy] returns is only reported. *)
Definition serve_destroy : M Fs Errno unit := _ ← test_destroy now; mret tt.
End callbacks.

(** Unfold a request to the handler that it calls. *)
Ltac serve_unfold := cbn [serve];
  unfold fuse_getattr, fuse_lookup, fuse_readdir, fuse_read, fuse_open, fuse_opendir,
    fuse_release, fuse_releasedir, fuse_flush, fuse_fsync, fuse_statfs, fuse_access,
    fuse_getxattr, fuse_listxattr, fuse_setxattr, fuse_removexattr, fuse_write, fuse_create,
    fuse_mkdir, fuse_mknod, fuse_symlink, fuse_readlink, fuse_link, fuse_unlink,
    fuse_rmdir, fuse_rename, fuse_setattr, fuse_getlk, fuse_setlk, fuse_fallocate.
