(* ===== verification/ReplyTypes.v ===== *)
(** * The types of the replies

    [fuser] gives every callback a reply object that accepts one kind of answer
    and fields of fixed width.  [reply_fits] states this for the single type
    [Reply]: every reply that a callback sends has the kind of its request, all
    numbers fit their fields, names and link targets are UTF-8, and a read returns
    no more than was asked for.  Nothing is assumed about the state: what is
    decoded from the content store has the range of its field. *)

From S2P Require Import Prelude Types Text Blockset Inode InodeMap Xattr Directory Segment Wal.
From S2P Require Import Store Filesystem Namespace Handlers Callbacks.
From stdpp Require Import base tactics numbers option list gmap strings.
Open Scope Z_scope.

(** The values that the fields of [FileAttr] can hold. *)
Definition wf_time (t : Z * Z) : Prop := is_i64 t.1 ∧ is_u32 t.2.
Definition wf_attr (a : FileAttr) : Prop :=
  is_u64 (fa_ino a) ∧ is_u64 (fa_size a) ∧ is_u64 (fa_blocks a) ∧
  wf_time (fa_atime a) ∧ wf_time (fa_mtime a) ∧ wf_time (fa_ctime a) ∧ wf_time (fa_crtime a) ∧
  0 ≤ fa_perm a < 2 ^ 12 ∧ is_u32 (fa_nlink a) ∧ is_u32 (fa_uid a) ∧ is_u32 (fa_gid a) ∧
  is_u32 (fa_rdev a) ∧ is_u32 (fa_blksize a) ∧ is_u32 (fa_flags a).

Definition wf_item (it : ReplyItem) : Prop :=
  is_u64 it.1.1.1 ∧ is_u64 it.1.1.2 ∧ utf8_valid it.2 = true.

(** The requests that the kernel can send, as far as replies depend on them. *)
Definition opt_u32 (o : option Z) : Prop := ∀ v, o = Some v → is_u32 v.
Definition wf_request (req : Request) : Prop :=
  match req with
  | ReqRead _ offset size => is_u64 offset ∧ is_u32 size
  | ReqSetattr _ mode uid gid _ mtime _ =>
      opt_u32 mode ∧ opt_u32 uid ∧ opt_u32 gid ∧
      ∀ sec nsec, mtime = Some (SpecificTime sec nsec) → is_i64 sec ∧ is_u32 nsec
  | ReqGetlk _ start end_ _ pid => is_u64 start ∧ is_u64 end_ ∧ is_u32 pid
  | _ => True
  end.

(** The reply has the type of the request. *)
Definition reply_fits (req : Request) (rep : Reply) : Prop :=
  match req, rep with
  | (ReqOpendir _ | ReqReleasedir _ | ReqStatfs | ReqAccess _ _ | ReqGetlk _ _ _ _ _
    | ReqSetlk _ _ _ _ _), ReplyError _ => False
  | _, ReplyError _ => True
  | (ReqGetattr _ | ReqSetattr _ _ _ _ _ _ _), ReplyAttr attr => wf_attr attr
  | (ReqLookup _ _ | ReqMkdir _ _ _ _ _ _ | ReqMknod _ _ _ _ _ _ | ReqSymlink _ _ _ _ _
    | ReqLink _ _ _), ReplyEntry attr => wf_attr attr
  | ReqReaddir _ _, ReplyDirectory items => Forall wf_item items
  | ReqRead _ _ size, ReplyData data => len data ≤ size
  | ReqReadlink _, ReplyData data => utf8_valid data = true
  | (ReqOpen _ _ | ReqOpendir _), ReplyOpened fh => is_u64 fh
  | ReqCreate _ _ _ _ _ _ _, ReplyCreated attr fh => wf_attr attr ∧ is_u64 fh
  | ReqStatfs, ReplyStatfs _ _ _ _ _ _ namelen _ => namelen = 255
  | (ReqGetxattr _ _ size | ReqListxattr _ size), ReplyXattrSize n => size = 0 ∧ is_u32 n
  | (ReqGetxattr _ _ size | ReqListxattr _ size), ReplyData _ => size ≠ 0
  | ReqWrite _ _ data, ReplyWritten n => n = wrap32 (len data)
  | ReqGetlk _ start end_ _ pid, ReplyLocked start' end' typ pid' =>
      start' = start ∧ end' = end_ ∧ typ = F_UNLCK ∧ pid' = pid
  | (ReqRelease _ _ | ReqReleasedir _ | ReqFlush _ _ | ReqFsync _ _ | ReqAccess _ _
    | ReqSetxattr _ _ _ _ | ReqRemovexattr _ _ | ReqUnlink _ _ | ReqRmdir _ _
    | ReqRename _ _ _ _ _ | ReqSetlk _ _ _ _ _), ReplyOk => True
  | _, _ => False
  end.

(* ------------------------------------------------------------------------ *)
(** ** What a method returns *)

(** Every value that [m] returns has the property [P]. *)
Definition returns {S E A} (P : A → Prop) (m : M S E A) : Prop :=
  ∀ s s' x, m s = (s', Ok x) → P x.

Create HintDb returns.

Section returns.
Context {S E : Type}.

Lemma returns_ret {A} (P : A → Prop) x : P x → returns (S := S) (E := E) P (mret x).
Proof. by intros HP s s' y [= <- <-]. Qed.
Lemma returns_bind {A A'} (Q : A → Prop) (P : A' → Prop) (m : M S E A) (k : A → M S E A') :
  returns Q m → (∀ x, Q x → returns P (k x)) → returns P (m ≫= k).
Proof.
  intros Hm Hk s s' y. rewrite run_bind. destruct (m s) as [s1 [x|e|]] eqn:Em; [|done..].
  by apply Hk, (Hm _ _ _ Em).
Qed.
Lemma returns_bind' {A A'} (P : A' → Prop) (m : M S E A) (k : A → M S E A') :
  (∀ x, returns P (k x)) → returns P (m ≫= k).
Proof. intros Hk. by apply (returns_bind (λ _, True)). Qed.
Lemma returns_map_err {E' A} (P : A → Prop) (g : E → E') (m : M S E A) :
  returns P m → returns P (map_err g m).
Proof.
  intros Hm s s' x. unfold map_err. destruct (m s) as [s1 [y|e|]] eqn:Em; cbn; [|done..].
  intros [= <- <-]. by apply (Hm _ _ _ Em).
Qed.
Lemma returns_zoom {T A} (P : A → Prop) (get : T → S) (set : S → T → T) (m : M S E A) :
  returns P m → returns P (zoom get set m).
Proof.
  intros Hm t t' x. unfold zoom. destruct (m (get t)) as [s1 r] eqn:Em. intros [= <- ->].
  by apply (Hm _ _ _ Em).
Qed.
Lemma returns_weaken {A} (P Q : A → Prop) (m : M S E A) :
  (∀ x, P x → Q x) → returns P m → returns Q m.
Proof. intros HPQ Hm s s' x Hx. by apply HPQ, (Hm _ _ _ Hx). Qed.
Lemma returns_any {A} (m : M S E A) : returns (λ _, True) m.
Proof. done. Qed.
Lemma returns_throw {A} (P : A → Prop) (e : E) : returns (S := S) P (throw e).
Proof. by intros s s' x [=]. Qed.
Lemma returns_lift {A} (P : A → Prop) (r : res E A) :
  (∀ x, r = Ok x → P x) → returns (S := S) P (lift r).
Proof. intros HP s s' x [= _ ->]. by apply HP. Qed.
End returns.
#[export] Hint Resolve returns_throw returns_any : returns.

Section store_returns.
Context {B : Blockset}.

Lemma load_inode_wf (io : Io) d m : load_inode io d = Ok m → wf_inode m.
Proof.
  unfold load_inode. destruct (file_storage_get io d) as [bs|]; [|done]. cbn.
  intros H. by apply (deserialize_inode_inv bs).
Qed.

Lemma get_inode_returns ino : returns wf_inode (get_inode (B := B) ino).
Proof.
  unfold get_inode. repeat (apply returns_bind'; intros ?). apply returns_lift. intros m. apply load_inode_wf.
Qed.

(** What is decoded as a directory. *)
Definition wf_record (r : EntryRecord) : Prop := is_u64 (er_ino r) ∧ utf8_valid (er_name r) = true.

Lemma deserialize_entries_wf count bs map map' :
  deserialize_entries count bs map = Ok map' → map_Forall (λ _ r, wf_record r) map →
  map_Forall (λ _ r, wf_record r) map'.
Proof.
  revert bs map. induction count as [|n IH]; intros bs map; cbn [deserialize_entries].
  { by intros [= <-]. }
  do 4 (case_decide; [done|]). unfold from_utf8. destruct (utf8_valid _) eqn:Eu; [|done].
  cbn [ok_or mbind res_bind]. intros Hd Hm. eapply IH; [exact Hd|].
  apply map_Forall_insert_2; [|done]. split; [|exact Eu]. cbn.
  assert (is_u64 (le_decode (take 8 (drop 28 bs)))) as Hu; [|done].
  apply le_decode_u64. rewrite length_take. unfold len in *. lia.
Qed.

Lemma list_directory_returns ino :
  returns (Forall (λ e, is_u64 (de_ino e) ∧ utf8_valid (de_name e) = true)) (list_directory (B := B) ino).
Proof.
  unfold list_directory. repeat (apply returns_bind'; intros ?). apply returns_lift. intros l.
  unfold list_dir_entries, load_entry_list. destruct (file_storage_get _ _) as [bs|]; [|done].
  cbn [ok_or mbind res_bind]. destruct (deserialize_entry_list bs) as [m|e|] eqn:Em; [|done..].
  cbn [mbind res_bind]. intros [= <-]. apply Forall_fmap, Forall_fmap, Forall_forall.
  intros [k r] Hin%elem_of_btree_iter. cbn. unfold deserialize_entry_list in Em.
  case_decide; [injection Em as <-; by rewrite lookup_empty in Hin|]. case_decide; [done|].
  apply deserialize_entries_wf in Em; [by apply (Em k)|apply map_Forall_empty].
Qed.
End store_returns.

(* ------------------------------------------------------------------------ *)
(** ** The adapter and the callbacks *)

Section adapter_returns.
Context {B : Blockset}.
Implicit Types (f : SliceFsFilesystem B).

Lemma on_meta_returns {A} (P : A → Prop) ef (m : M (DictMetadataStore B) MetaError A) :
  returns P m → returns P (on_meta ef m).
Proof. intros Hm. by apply returns_map_err, returns_zoom. Qed.

Lemma meta_inode_returns ef ino : returns wf_inode (on_meta (B := B) ef (get_inode ino)).
Proof. apply on_meta_returns, get_inode_returns. Qed.

Lemma with_attrs_returns (m : M (SliceFsFilesystem B) Errno Z) :
  returns (λ p, wf_inode p.2) (with_attrs m).
Proof.
  unfold with_attrs. apply returns_bind'. intros ino. eapply returns_bind; [apply meta_inode_returns|].
  intros meta Hm. by apply returns_ret.
Qed.

Lemma test_lookup_returns parent name :
  returns (λ p, wf_inode p.2) (test_lookup (B := B) parent name).
Proof.
  unfold test_lookup. apply returns_bind'. intros ino. eapply returns_bind; [apply meta_inode_returns|].
  intros meta Hm. by apply returns_ret.
Qed.

Lemma inode_to_file_attr_wf m : wf_inode m → wf_attr (inode_to_file_attr m).
Proof.
  intros (Hi & Hmode & Hu & Hg & Hn & Hs & Hms & Hmn & Hcs & Hcn).
  assert (∀ sec nsec, is_i64 sec → is_u32 nsec → wf_time (attr_time sec nsec)) as Ht.
  { intros sec nsec H1 H2. unfold attr_time, wf_time, is_i64, is_u32 in *.
    repeat case_decide; cbn [fst snd]; [|lia..]. div_lia. }
  assert (0 ≤ wrap64 (im_size m + 511) / 512 < 2 ^ 64) as Hb.
  { pose proof (Z.mod_pos_bound (im_size m + 511) (2 ^ 64)) as Hm. unfold wrap64.
    split; [apply Z.div_pos; lia|]. apply Z.div_lt_upper_bound; lia. }
  unfold wf_attr, inode_to_file_attr. cbn [fa_ino fa_size fa_blocks fa_atime fa_mtime fa_ctime fa_crtime
    fa_perm fa_nlink fa_uid fa_gid fa_rdev fa_blksize fa_flags].
  split_and!; try done; try (by apply Ht); try apply (land_bound _ 12); done || (unfold is_u32; lia).
Qed.

Lemma test_create_full_returns now parent name mode umask uid gid flags :
  returns (λ p, wf_inode p.2 ∧ is_u64 p.1.2)
    (test_create_full (B := B) now parent name mode umask uid gid flags).
Proof.
  unfold test_create_full. apply (returns_bind (λ p, is_u64 p.2)).
  - unfold test_create. apply returns_bind'. intros ino. apply returns_bind'. intros n.
    repeat (apply returns_bind'; intros ?). apply returns_ret. apply Z.mod_pos_bound. lia.
  - intros [ino fh] Hfh. apply returns_bind'. intros _. eapply returns_bind; [apply meta_inode_returns|].
    intros meta Hm. by apply returns_ret.
Qed.

Lemma test_open_returns now ino flags : returns (λ p, is_u64 p.1) (test_open (B := B) now ino flags).
Proof.
  unfold test_open. apply returns_bind'. intros n. apply returns_bind'. intros _.
  assert (is_u64 (wrap64 (n + 1))) as Hu by (apply Z.mod_pos_bound; lia).
  destruct (negb _); [by apply returns_ret|]. apply returns_bind'. intros _.
  destruct (decide _); [by apply returns_ret|]. apply returns_bind'. intros r.
  destruct r as [[]|e|]; [by apply returns_ret| |by apply returns_ret].
  apply returns_bind'. intros _. apply returns_throw.
Qed.

Lemma test_readdir_returns ino offset :
  returns (Forall (λ e, is_u64 e.1.1 ∧ utf8_valid e.2 = true)) (test_readdir (B := B) ino offset).
Proof.
  unfold test_readdir. eapply returns_bind; [apply on_meta_returns, list_directory_returns|].
  intros entries He. apply (Forall_drop _ (Z.to_nat offset)) in He.
  induction He as [|e es He _ IH]; cbn [readdir_kinds]; [by apply returns_ret|].
  apply returns_bind'. intros r. eapply returns_bind; [exact IH|]. intros rest Hrest.
  apply returns_ret. by constructor.
Qed.

Lemma test_read_returns ino offset size :
  0 ≤ offset → 0 ≤ size → returns (λ data, len data ≤ size) (test_read (B := B) ino offset size).
Proof.
  intros Ho Hs. unfold test_read. apply returns_bind'. intros w. apply returns_bind'. intros [raw|].
  - apply returns_lift. intros x. unfold slice. case_decide as Hd; [|done]. intros [= <-].
    unfold len in *. rewrite length_take, length_drop. lia.
  - apply returns_ret. cbn. done.
Qed.

Lemma simulate_readlink_returns ino :
  returns (λ data, utf8_valid data = true) (simulate_readlink (B := B) ino).
Proof.
  unfold simulate_readlink. apply returns_bind'. intros [|d l]; [by apply returns_ret|].
  apply returns_bind'. intros raw. apply returns_bind'. intros bs. apply returns_lift. intros x.
  unfold from_utf8. destruct (utf8_valid bs) eqn:E; [|done]. by intros [= <-].
Qed.

Lemma test_write_returns fh offset data :
  returns (λ n, n = wrap32 (len data)) (test_write (B := B) fh offset data).
Proof.
  unfold test_write. apply returns_bind'. intros [s|]; [|apply returns_throw].
  apply returns_bind'. intros _. destruct (of_write_mode s) as [st next|buf].
  - case_decide.
    + repeat (apply returns_bind'; intros ?). by apply returns_ret.
    + apply returns_bind'. intros [st' []].
      * apply returns_bind'. intros _. apply returns_throw.
      * apply returns_bind'. intros _. by apply returns_ret.
  - repeat (apply returns_bind'; intros ?). by apply returns_ret.
Qed.

Lemma chmod_wf v m : is_u32 v → wf_inode m → wf_inode (chmod v m).
Proof.
  intros Hv (Hi & Hmode & Hr). split; [done|]. split; [|exact Hr].
  unfold is_u32 in *. apply (lor_width 32); [done| |]; by apply (land_width 32).
Qed.
Lemma chown_wf uid gid m : opt_u32 uid → opt_u32 gid → wf_inode m → wf_inode (chown uid gid m).
Proof.
  intros Hu Hg (?&?&?&?&?&?&?&?&?&?). unfold chown.
  destruct uid as [u|], gid as [g|]; split_and!; first [done|by apply Hu|by apply Hg].
Qed.
Lemma utimes_wf mtime m :
  (∀ t, mtime = Some t → is_i64 t.1 ∧ is_u32 t.2) → wf_inode m → wf_inode (utimes mtime m).
Proof.
  intros Ht Hm. unfold utimes. destruct mtime as [[sec nsec]|]; [|done].
  destruct (Ht _ eq_refl). destruct Hm as (?&?&?&?&?&?&?&?&?&?). by split_and!.
Qed.
Lemma stamp_ctime_typed now m : is_u64 now.1 → is_u32 now.2 → wf_inode m → wf_inode (stamp_ctime now m).
Proof.
  intros H1 H2 (?&?&?&?&?&?&?&?&_). split_and!; try done. by apply to_i64_range.
Qed.

Lemma test_setattr_returns now ino mode uid gid size fh mtime :
  is_u64 now.1 → is_u32 now.2 → opt_u32 mode → opt_u32 uid → opt_u32 gid →
  (∀ t, mtime = Some t → is_i64 t.1 ∧ is_u32 t.2) →
  returns wf_inode (test_setattr (B := B) now ino mode uid gid size fh mtime).
Proof.
  intros Hn1 Hn2 Hmode Huid Hgid Htime. unfold test_setattr.
  eapply returns_bind; [apply meta_inode_returns|]. intros m Hm.
  apply (returns_bind wf_inode).
  - destruct size as [n|].
    + apply returns_bind'. intros _. apply meta_inode_returns.
    + apply returns_ret, utimes_wf, chown_wf; [done..|]. destruct mode as [v|]; [|done].
      by apply chmod_wf; [apply Hmode|].
  - intros m' Hm'. apply returns_bind'. intros _. apply returns_ret. by apply stamp_ctime_typed.
Qed.
End adapter_returns.

Section serve_returns.
Context {B : Blockset}.
Context (full : list ReplyItem → ReplyItem → bool) (now : Z * Z) (sv sf : option (Z * Z * Z * Z)).

Lemma handled_returns {E A R} (P : A → Prop) (Q : R → Prop) (m : M (SliceFsFilesystem B) E A) ok err :
  returns P m → (∀ x, P x → Q (ok x)) → (∀ e, Q (err e)) → returns Q (handled m ok err).
Proof.
  intros Hm Hok Herr f f' r. unfold handled. destruct (m f) as [f1 [x|e|]] eqn:Em; intros [= <- <-]; [|done].
  by apply Hok, (Hm _ _ _ Em).
Qed.

(** A callback that replies with [g] of what its handler returns. *)
Lemma callback_returns {E A R} (P : A → Prop) (Q : Reply → Prop) (m : M (SliceFsFilesystem B) E A)
    ok err (g : R → Reply) :
  returns P m → (∀ x, P x → Q (g (ok x))) → (∀ e, Q (g (err e))) →
  returns Q (r ← handled m ok err; mret (g r)).
Proof.
  intros Hm Hok Herr. apply (returns_bind (λ r, Q (g r))); [by eapply handled_returns|].
  intros r Hr. by apply returns_ret.
Qed.

Lemma with_str_returns (Q : Reply → Prop) name (k : bytes → M (SliceFsFilesystem B) Empty_set Reply) :
  Q (ReplyError EINVAL) → (∀ s, returns Q (k s)) → returns Q (with_str name k).
Proof. intros He Hk. unfold with_str. case_match; [done|by apply returns_ret]. Qed.

Lemma fill_reply_wf offset index acc entries :
  Forall wf_item acc → Forall (λ e : Z * FileType * bytes, is_u64 e.1.1 ∧ utf8_valid e.2 = true) entries →
  Forall wf_item (fill_reply full offset index acc entries).
Proof.
  intros Hacc He. revert index acc Hacc. induction He as [|[[i kind] n] es [Hi Hn] _ IH]; intros index acc Hacc;
    cbn [fill_reply]; [done|]. destruct (full _ _); [done|]. apply IH, Forall_app. split; [done|].
  constructor; [|done]. split_and!; [done|apply Z.mod_pos_bound; lia|done].
Qed.

Lemma mtime_pair_typed mt :
  is_u64 now.1 → is_u32 now.2 →
  (∀ sec nsec, mt = SpecificTime sec nsec → is_i64 sec ∧ is_u32 nsec) →
  is_i64 (mtime_pair now mt).1 ∧ is_u32 (mtime_pair now mt).2.
Proof.
  intros H1 H2 Ht. unfold mtime_pair. destruct mt as [sec nsec|].
  - destruct (Ht _ _ eq_refl) as [Hs Hn]. case_decide; [|done]. split; [|done].
    apply to_i64_range. unfold is_i64, is_u64 in *. lia.
  - destruct now as [sec nsec]. case_decide; [|done]. split; [|done]. by apply to_i64_range.
Qed.

(** Every reply has the type of its request. *)
Lemma serve_typed_returns req :
  is_u64 now.1 → is_u32 now.2 → wf_request req →
  returns (reply_fits req) (serve (B := B) full now sv sf req).
Proof.
  intros Hn1 Hn2 Hreq.
  assert (∀ m : InodeMeta, wf_inode m → wf_attr (inode_to_file_attr m)) as Hattr
    by exact inode_to_file_attr_wf.
  destruct req; cbn [wf_request] in *; serve_unfold; repeat (apply with_str_returns; [done|intros ?]);
    try (by apply returns_ret).
  - eapply callback_returns; [apply returns_zoom, get_inode_returns|exact Hattr|done].
  - eapply callback_returns; [apply test_lookup_returns|by intros [i m] Hm; apply Hattr|done].
  - eapply callback_returns; [apply test_readdir_returns| |done].
    intros es Hes. by apply fill_reply_wf.
  - eapply callback_returns; [apply test_read_returns; [apply Hreq..]|by intros|done].
  - eapply callback_returns; [apply test_open_returns|by intros [fh w]|done].
  - by eapply callback_returns; [apply returns_any| |].
  - by eapply callback_returns; [apply returns_any| |].
  - by eapply callback_returns; [apply returns_any| |].
  - apply returns_bind'. intros [blocks bfree bavail files ffree bsize]. by apply returns_ret.
  - eapply callback_returns; [apply returns_any|intros x _|done].
    unfold xattr_reply. case_decide; [|done]. split; [done|]. apply Z.mod_pos_bound. lia.
  - eapply callback_returns; [apply returns_any|intros x _|done].
    unfold xattr_reply. case_decide; [|done]. split; [done|]. apply Z.mod_pos_bound. lia.
  - by eapply callback_returns; [apply returns_any| |].
  - eapply callback_returns; [apply returns_any|done|]. intros e. cbn. by case_decide.
  - eapply callback_returns; [apply test_write_returns|by intros|done].
  - eapply callback_returns; [apply test_create_full_returns|by intros [[i fh] m] [Hm ?]; split; [apply Hattr|]|done].
  - eapply callback_returns; [apply with_attrs_returns|by intros [i m] Hm; apply Hattr|done].
  - eapply callback_returns; [apply with_attrs_returns|by intros [i m] Hm; apply Hattr|done].
  - eapply callback_returns; [apply with_attrs_returns|by intros [i m] Hm; apply Hattr|done].
  - eapply callback_returns; [apply simulate_readlink_returns|by intros|done].
  - eapply callback_returns; [apply with_attrs_returns|by intros [i m] Hm; apply Hattr|done].
  - by eapply callback_returns; [apply returns_any| |].
  - by eapply callback_returns; [apply returns_any| |].
  - by eapply callback_returns; [apply returns_any| |].
  - destruct Hreq as (Hmode & Huid & Hgid & Htime).
    eapply callback_returns; [apply test_setattr_returns; try done|exact Hattr|done].
    intros t Ht. destruct mtime as [mt|]; [|done]. injection Ht as <-.
    apply mtime_pair_typed; [done..|]. intros sec nsec ->. by apply Htime.
Qed.
End serve_returns.
