(* ===== verification/Frames.v ===== *)
(** * Operations that do not touch the log

    [keeps p m]: the method [m] leaves the part [p] of the state as it is.  Every
    operation of the metadata store but [commit], [commit_root] and
    [create_snapshot], and every operation of the adapter but [test_destroy] and
    the flush of [test_fsync], keeps the write-ahead log and the snapshots. *)

From S2P Require Import Prelude Types Text Blockset Inode InodeMap Xattr Directory Segment Wal.
From S2P Require Import Store Filesystem Namespace.
From stdpp Require Import base tactics numbers option list gmap strings.
Open Scope Z_scope.

Definition keeps {S T E A} (p : S → T) (m : M S E A) : Prop := ∀ s, p (m s).1 = p s.

Create HintDb keeps.

Section keeps.
Context {S T E : Type} (p : S → T).

Lemma keeps_ret {A} (x : A) : keeps (E := E) p (mret x).
Proof. by intros s. Qed.
Lemma keeps_throw {A} (e : E) : keeps (A := A) p (throw e).
Proof. by intros s. Qed.
Lemma keeps_lift {A} (r : res E A) : keeps p (lift r).
Proof. by intros s. Qed.
Lemma keeps_gets {A} (f : S → A) : keeps (E := E) p (gets f).
Proof. by intros s. Qed.
Lemma keeps_modify (g : S → S) : (∀ s, p (g s) = p s) → keeps (E := E) p (modify g).
Proof. intros Hg s. apply Hg. Qed.
Lemma keeps_bind {A A'} (m : M S E A) (k : A → M S E A') :
  keeps p m → (∀ x, keeps p (k x)) → keeps p (m ≫= k).
Proof.
  intros Hm Hk s. rewrite run_bind. specialize (Hm s). destruct (m s) as [s' [x|e|]]; cbn in *; [|done..].
  by rewrite (Hk x s').
Qed.
Lemma keeps_attempt {E' A} (m : M S E A) : keeps p m → keeps (E := E') p (attempt m).
Proof.
  intros Hm s. specialize (Hm s). unfold attempt. by destruct (m s) as [s' [x|e|]].
Qed.
Lemma keeps_map_err {E' A} (f : E → E') (m : M S E A) : keeps p m → keeps p (map_err f m).
Proof. intros Hm s. specialize (Hm s). unfold map_err. by destruct (m s). Qed.
(** A method of a field, in terms of what it keeps of the field. *)
Lemma keeps_zoom {F V A} (q : F → V) (get : S → F) (set : F → S → S) (m : M F E A) :
  (∀ s t, q t = q (get s) → p (set t s) = p s) → keeps q m → keeps p (zoom get set m).
Proof.
  intros Hset Hm s. specialize (Hm (get s)). unfold zoom. destruct (m (get s)) as [t r]. by apply Hset.
Qed.
End keeps.
#[export] Hint Resolve keeps_ret keeps_throw keeps_lift keeps_gets keeps_attempt keeps_map_err : keeps.

(** Take a method apart down to the calls that have a lemma. *)
Ltac keeps_step :=
  first
    [ solve [auto with keeps nocore]
    | apply keeps_modify; intros; first [reflexivity | solve [auto with keeps nocore]]
    | apply keeps_bind; [|intros ?]
    | apply keeps_attempt | apply keeps_map_err
    | case_decide | case_match ].
Ltac keeps_tac := repeat keeps_step.

(** The log and the snapshots of a store. *)
Definition st_frame {B : Blockset} (s : DictMetadataStore B) :=
  (st_wal s, st_by_version s, st_by_name s).

Section store.
Context {B : Blockset}.
Abbreviation kw := (keeps (S := DictMetadataStore B) st_frame).

Lemma keeps_with_io {E A} (g : Io → Io * A) : kw (with_io (E := E) g).
Proof. intros s. unfold with_io, zoom, io_do. by destruct (g _). Qed.
Lemma keeps_io {E A} (m : M Io E A) : kw (zoom st_io upd_io m).
Proof. intros s. unfold zoom. by destruct (m _). Qed.
Lemma get_inode_keeps ino : kw (get_inode ino).
Proof. unfold get_inode. keeps_tac. Qed.
End store.
#[export] Hint Resolve keeps_with_io keeps_io get_inode_keeps : keeps.

Section store_ops.
Context {B : Blockset}.
Abbreviation kw := (keeps (S := DictMetadataStore B) st_frame).

Lemma create_inode_keeps meta : kw (create_inode meta).
Proof. unfold create_inode. keeps_tac. Qed.
Lemma update_inode_keeps meta : kw (update_inode meta).
Proof. unfold update_inode. keeps_tac. Qed.
Lemma delete_inode_keeps ino : kw (delete_inode ino).
Proof. unfold delete_inode. keeps_tac. Qed.
Lemma get_dir_digest_keeps ino : kw (get_dir_digest ino).
Proof. unfold get_dir_digest. keeps_tac. Qed.
Lemma set_manifest_keeps ino l : kw (set_manifest ino l).
Proof. unfold set_manifest. keeps_tac. Qed.
Lemma get_manifest_keeps ino : kw (get_manifest ino).
Proof. unfold get_manifest. keeps_tac. Qed.
End store_ops.
#[export] Hint Resolve create_inode_keeps update_inode_keeps delete_inode_keeps
  get_dir_digest_keeps set_manifest_keeps get_manifest_keeps : keeps.

Section directory_ops.
Context {B : Blockset}.
Abbreviation kw := (keeps (S := DictMetadataStore B) st_frame).

Lemma link_keeps parent name ino : kw (link parent name ino).
Proof. unfold link. keeps_tac. Qed.
Lemma unlink_keeps parent name : kw (unlink parent name).
Proof. unfold unlink. keeps_tac. Qed.
Lemma store_lookup_keeps parent name : kw (store_lookup parent name).
Proof. unfold store_lookup. keeps_tac. Qed.
Lemma list_directory_keeps ino : kw (list_directory ino).
Proof. unfold list_directory. keeps_tac. Qed.
Lemma create_directory_keeps parent name meta : kw (create_directory parent name meta).
Proof. unfold create_directory. keeps_tac. Qed.
Lemma set_xattr_keeps ino name value : kw (set_xattr ino name value).
Proof. unfold set_xattr. keeps_tac. Qed.
Lemma get_xattr_keeps ino name : kw (get_xattr ino name).
Proof. unfold get_xattr. keeps_tac. Qed.
Lemma list_xattrs_keeps ino : kw (list_xattrs ino).
Proof. unfold list_xattrs. keeps_tac. Qed.
Lemma remove_xattr_keeps ino name : kw (remove_xattr ino name).
Proof. unfold remove_xattr. keeps_tac. Qed.
Lemma decrement_keeps d (s : DictMetadataStore B) : st_frame (decrement_refcount d s) = st_frame s.
Proof. unfold decrement_refcount. by repeat case_match. Qed.
Lemma increment_keeps d (s : DictMetadataStore B) : st_frame (increment_refcount d s) = st_frame s.
Proof. unfold increment_refcount. by case_decide. Qed.
Lemma decrements_keep l (s : DictMetadataStore B) :
  st_frame (foldl (λ s d, decrement_refcount d s) s l) = st_frame s.
Proof. revert s. induction l as [|d l IH]; intros s; cbn; [done|]. by rewrite IH, decrement_keeps. Qed.
End directory_ops.
#[export] Hint Resolve link_keeps unlink_keeps store_lookup_keeps list_directory_keeps
  create_directory_keeps set_xattr_keeps get_xattr_keeps list_xattrs_keeps remove_xattr_keeps
  decrement_keeps increment_keeps decrements_keep : keeps.

(** The log of the store behind the adapter, and what requests keep of the adapter. *)
Definition fs_wal {B : Blockset} (f : SliceFsFilesystem B) : option WalBox := st_wal (fs_meta f).
Definition fs_frame {B : Blockset} (f : SliceFsFilesystem B) :=
  (st_frame (fs_meta f), fs_auto_snapshot f).

Lemma fs_frame_wal {B : Blockset} (f f' : SliceFsFilesystem B) : fs_frame f' = fs_frame f → fs_wal f' = fs_wal f.
Proof. unfold fs_frame, st_frame, fs_wal. by intros [= -> _ _ _]. Qed.

Section adapter.
Context {B : Blockset}.
Abbreviation kf := (keeps (S := SliceFsFilesystem B) fs_frame).

Lemma keeps_meta {E A} (m : M (DictMetadataStore B) E A) :
  keeps st_frame m → kf (zoom fs_meta upd_meta m).
Proof. apply keeps_zoom. intros s t Ht. by apply (f_equal (λ x, (x, fs_auto_snapshot s))). Qed.
Lemma on_meta_keeps {A} ef (m : M (DictMetadataStore B) MetaError A) :
  keeps st_frame m → kf (on_meta ef m).
Proof. intros Hm. by apply keeps_map_err, keeps_meta. Qed.
Lemma with_meta_keeps (g : DictMetadataStore B → DictMetadataStore B) :
  (∀ s, st_frame (g s) = st_frame s) → kf (with_meta g).
Proof. intros Hg f. exact (f_equal (λ x, (x, fs_auto_snapshot f)) (Hg (fs_meta f))). Qed.
Lemma with_fs_io_keeps {A} (g : Io → Io * A) : kf (with_fs_io g).
Proof. apply keeps_meta, keeps_with_io. Qed.
Lemma fs_get_keeps d : kf (fs_get d).
Proof. by intros f. Qed.
Lemma get_handle_keeps fh : kf (get_handle fh).
Proof. by intros f. Qed.
Lemma put_handle_keeps fh s : kf (put_handle fh s).
Proof. by intros f. Qed.
Lemma drop_handle_keeps fh : kf (drop_handle fh).
Proof. by intros f. Qed.
Lemma drop_root_keeps root : kf (drop_root root).
Proof. destruct root; [|by intros f]. apply with_meta_keeps. intros s. apply decrement_keeps. Qed.
End adapter.
#[export] Hint Resolve on_meta_keeps with_meta_keeps with_fs_io_keeps fs_get_keeps get_handle_keeps
  put_handle_keeps drop_handle_keeps drop_root_keeps : keeps.
#[export] Hint Extern 3 (keeps fs_frame (zoom fs_meta upd_meta _)) => apply keeps_meta : keeps.

Section content_ops.
Context {B : Blockset}.
Abbreviation kf := (keeps (S := SliceFsFilesystem B) fs_frame).

Lemma create_linked_keeps parent name meta : kf (create_linked parent name meta).
Proof. unfold create_linked. keeps_tac. Qed.
Lemma materialize_keeps s st : kf (materialize s st).
Proof. unfold materialize. keeps_tac. Qed.
Lemma finalize_keeps mode : kf (finalize mode).
Proof. unfold finalize. keeps_tac. Qed.
Lemma commit_content_keeps ino d old : kf (commit_content ino d old).
Proof. unfold commit_content. keeps_tac. Qed.
Lemma commit_size_keeps now ino n : kf (commit_size now ino n).
Proof. unfold commit_size. keeps_tac. Qed.
Lemma drop_file_keeps ino : kf (drop_file ino).
Proof. unfold drop_file. keeps_tac. Qed.
End content_ops.
#[export] Hint Resolve create_linked_keeps materialize_keeps finalize_keeps commit_content_keeps
  commit_size_keeps drop_file_keeps : keeps.

Section attribute_ops.
Context {B : Blockset}.
Abbreviation kf := (keeps (S := SliceFsFilesystem B) fs_frame).

Lemma set_size_now_keeps now ino n : kf (set_size_now now ino n).
Proof. unfold set_size_now. keeps_tac. Qed.
Lemma truncate_handle_keeps fh s n : kf (truncate_handle fh s n).
Proof. unfold truncate_handle. keeps_tac. Qed.
Lemma truncate_content_keeps ino n : kf (truncate_content ino n).
Proof. unfold truncate_content. keeps_tac. Qed.
Lemma update_with_keeps now ino g : kf (update_with now ino g).
Proof. unfold update_with. keeps_tac. Qed.
End attribute_ops.
#[export] Hint Resolve set_size_now_keeps truncate_handle_keeps truncate_content_keeps update_with_keeps : keeps.

Section setattr_ops.
Context {B : Blockset}.
Abbreviation kf := (keeps (S := SliceFsFilesystem B) fs_frame).

Lemma test_setattr_size_keeps now ino fh n : kf (test_setattr_size now ino fh n).
Proof. unfold test_setattr_size. keeps_tac. Qed.
End setattr_ops.
#[export] Hint Resolve test_setattr_size_keeps : keeps.

Section operations.
Context {B : Blockset}.
Abbreviation kf := (keeps (S := SliceFsFilesystem B) fs_frame).

Lemma test_create_keeps parent name mode umask uid gid : kf (test_create parent name mode umask uid gid).
Proof. unfold test_create. keeps_tac. Qed.
Lemma test_write_keeps fh off data : kf (test_write fh off data).
Proof. unfold test_write. keeps_tac. Qed.
Lemma test_release_keeps now ino fh : kf (test_release now ino fh).
Proof. unfold test_release. keeps_tac. Qed.
Lemma flush_buffer_keeps now ino fh : kf (flush_buffer_for_fsync now ino fh).
Proof. unfold flush_buffer_for_fsync. keeps_tac. Qed.
Lemma test_read_keeps ino off size : kf (test_read ino off size).
Proof. unfold test_read. keeps_tac. Qed.
Lemma test_setattr_keeps now ino mode uid gid size fh mtime :
  kf (test_setattr now ino mode uid gid size fh mtime).
Proof. unfold test_setattr. keeps_tac. Qed.
Lemma test_open_keeps now ino flags : kf (test_open now ino flags).
Proof. unfold test_open. keeps_tac. Qed.
Lemma simulate_mkdir_keeps parent name mode umask uid gid :
  kf (simulate_mkdir parent name mode umask uid gid).
Proof. unfold simulate_mkdir. keeps_tac. Qed.
Lemma simulate_rmdir_keeps parent name : kf (simulate_rmdir parent name).
Proof. unfold simulate_rmdir. keeps_tac. Qed.
Lemma simulate_unlink_keeps parent name : kf (simulate_unlink parent name).
Proof. unfold simulate_unlink. keeps_tac. Qed.
Lemma simulate_link_keeps now ino parent name : kf (simulate_link now ino parent name).
Proof. unfold simulate_link. keeps_tac. Qed.
Lemma simulate_rename_keeps now parent name newparent newname flags :
  kf (simulate_rename now parent name newparent newname flags).
Proof. unfold simulate_rename. keeps_tac. Qed.
Lemma simulate_symlink_keeps parent name target uid gid :
  kf (simulate_symlink parent name target uid gid).
Proof. unfold simulate_symlink. keeps_tac. Qed.
End operations.
#[export] Hint Resolve test_create_keeps test_write_keeps test_release_keeps flush_buffer_keeps
  test_read_keeps test_setattr_keeps test_open_keeps simulate_mkdir_keeps simulate_rmdir_keeps simulate_unlink_keeps
  simulate_link_keeps simulate_rename_keeps simulate_symlink_keeps : keeps.

Section wrappers.
Context {B : Blockset}.
Abbreviation kf := (keeps (S := SliceFsFilesystem B) fs_frame).

Lemma test_mknod_keeps parent name mode uid gid umask : kf (test_mknod parent name mode uid gid umask).
Proof. unfold test_mknod. keeps_tac. Qed.
Lemma test_create_full_keeps now parent name mode umask uid gid flags :
  kf (test_create_full now parent name mode umask uid gid flags).
Proof. unfold test_create_full. keeps_tac. Qed.
Lemma test_release_full_keeps now ino fh : kf (test_release_full now ino fh).
Proof. unfold test_release_full. keeps_tac. Qed.
Lemma test_flush_keeps now ino fh : kf (test_flush now ino fh).
Proof. unfold test_flush. keeps_tac. Qed.
Lemma test_getattr_keeps ino : kf (test_getattr ino).
Proof. unfold test_getattr. keeps_tac. Qed.
Lemma test_lookup_keeps parent name : kf (test_lookup parent name).
Proof. unfold test_lookup. keeps_tac. Qed.
Lemma readdir_kinds_keeps entries : kf (readdir_kinds entries).
Proof. induction entries as [|e es IH]; cbn [readdir_kinds]; keeps_tac. Qed.
Lemma test_readdir_keeps ino offset : kf (test_readdir ino offset).
Proof. pose proof readdir_kinds_keeps. unfold test_readdir. keeps_tac. Qed.
Lemma test_getxattr_keeps ino name : kf (test_getxattr ino name).
Proof. unfold test_getxattr. keeps_tac. Qed.
Lemma test_listxattr_keeps ino : kf (test_listxattr ino).
Proof. unfold test_listxattr. keeps_tac. Qed.
Lemma test_setxattr_keeps ino name value : kf (test_setxattr ino name value).
Proof. unfold test_setxattr. keeps_tac. Qed.
Lemma test_removexattr_keeps ino name : kf (test_removexattr ino name).
Proof. unfold test_removexattr. keeps_tac. Qed.
Lemma with_attrs_keeps (m : M (SliceFsFilesystem B) Errno Z) : kf m → kf (with_attrs m).
Proof. intros Hm. unfold with_attrs. keeps_tac. Qed.
Lemma simulate_readlink_keeps ino : kf (simulate_readlink ino).
Proof. unfold simulate_readlink. keeps_tac. Qed.
End wrappers.
#[export] Hint Resolve test_mknod_keeps test_create_full_keeps test_release_full_keeps test_flush_keeps
  test_getattr_keeps test_lookup_keeps test_readdir_keeps test_getxattr_keeps test_listxattr_keeps
  test_setxattr_keeps test_removexattr_keeps with_attrs_keeps simulate_readlink_keeps : keeps.
