(* ===== verification/Mount.v ===== *)
(** * Mounting a store

    [crates/metadata/src/mount_lock.rs] and the store loading of
    [crates/slicefs-cli/src/mount.rs]: the lock file, the numbering of segments,
    [load_store], and the offline collector of [crates/slicefs-cli/src/gc.rs].
    The FUSE session that [run_mount] then starts is the adapter of [Filesystem]. *)

From S2P Require Import Prelude Types Text Blockset Inode InodeMap Xattr Directory Segment Wal.
From S2P Require Import SegmentDir Gc Store.
From stdpp Require Import base tactics numbers option list gmap strings.
Open Scope Z_scope.

(** The store directory: whether [dictionary.bin] and [mount.lock] exist, the
    files of [segments/] if there is such a directory, and the content store. *)
Record StoreDir {B : Blockset} := mkStoreDir {
  sd_dictionary_bin : bool;
  sd_mount_lock : bool;
  sd_segments : option (gmap bytes bytes);
  sd_io : Io
}.
Arguments StoreDir : clear implicits.

(** [enum MountLockError]. *)
Inductive MountLockError := DirtyMount | LockIo (e : IoError).

(** The errors of [load_store], without the wording of the messages. *)
Inductive LoadError :=
  | LegacyFormat
  | StoreNotFound
  | LockFailed (e : MountLockError)
  | SegmentsFailed (e : IoError)
  | NoCommittedState
  | ReconstructFailed (e : MetaError).

(** [parse_wal_config]. *)
Definition parse_wal_config (strategy : option bytes) : WalConfig :=
  let s := default (str "per-op") strategy in
  if decide (s = str "flush-on-fsync") then CfgFlushOnFsync
  else if decide (s = str "periodic") then CfgPeriodic 5
  else if decide (s = str "no-wal") then CfgNoWal
  else CfgPerOp.

(** The number in the name of a segment file: [name[8..name.len() - 4].parse()]. *)
Definition segment_number (name : bytes) : option Z :=
  if is_segment_name name
  then parse_u64 (take (length name - 12) (drop 8 name)) else None.

(** [next_segment_id(segs_dir)]; a directory that cannot be read counts as empty. *)
Definition next_segment_id (dir : option (gmap bytes bytes)) : Z :=
  wrap64 (foldr Z.max 0 (omap (λ e, segment_number e.1) (map_to_list (default ∅ dir))) + 1).

(** What [create_wal] leaves in the directory: the new, still empty file. *)
Definition open_segment (config : WalConfig) (id : Z) (dir : gmap bytes bytes) : gmap bytes bytes :=
  match config with
  | CfgNoWal => dir
  | _ => <[seg_name id := []]> dir
  end.

Section mount.
Context {B : Blockset}.
Implicit Types (d : StoreDir B).

Definition set_lock (v : bool) (d : StoreDir B) : StoreDir B :=
  mkStoreDir B (sd_dictionary_bin d) v (sd_segments d) (sd_io d).
Definition set_segments (v : gmap bytes bytes) (d : StoreDir B) : StoreDir B :=
  mkStoreDir B (sd_dictionary_bin d) (sd_mount_lock d) (Some v) (sd_io d).

Definition acquire_mount_lock : M (StoreDir B) MountLockError unit :=
  locked ← gets sd_mount_lock;
  if (locked : bool) then throw DirtyMount else modify (set_lock true).

(** [m] under the lock guard, which is dropped when [m] fails or panics. *)
Definition guarded {A} (m : M (StoreDir B) LoadError A) : M (StoreDir B) LoadError A := λ d,
  match m d with
  | (d, Ok x) => (d, Ok x)
  | (d, r) => (set_lock false d, r)
  end.

(** Step 2 of [load_store]: a lock that a crashed mount left behind is replaced. *)
Definition take_mount_lock : M (StoreDir B) LoadError unit :=
  lock_result ← attempt acquire_mount_lock;
  match (lock_result : res MountLockError unit) with
  | Err DirtyMount => _ ← modify (set_lock false); map_err LockFailed acquire_mount_lock
  | Err e => throw (LockFailed e)
  | _ => mret tt
  end.

(** [load_store(store_path, wal_config)]; [faults] are the coming outcomes of the
    syncs of the new log. *)
Definition load_store (config : WalConfig) (faults : list bool)
    : M (StoreDir B) LoadError (DictMetadataStore B) :=
  d ← gets id;
  if sd_dictionary_bin d then throw LegacyFormat else
  if decide (sd_segments d = None) then throw StoreNotFound else
  _ ← take_mount_lock;
  guarded (
    let segs := default ∅ (sd_segments d) in
    '(last_root, snapshots) ← lift (res_map_err SegmentsFailed (load_store_from_segments segs));
    root ← lift (ok_or last_root NoCommittedState);
    meta ← lift (res_map_err ReconstructFailed (load_from_root (sd_io d) root));
    let meta := set_snapshots snapshots meta in
    let next_id := next_segment_id (Some segs) in
    _ ← modify (set_segments (open_segment config next_id segs));
    mret (set_wal (create_wal config next_id faults) meta)).

(** [slicefs gc]: refused while the lock file exists. *)
Inductive GcCmdError := StoreMounted | GcSegments (e : IoError) | GcFailed (e : IoError).

Definition run_gc_command (listing : list bytes) (faults : list bool)
    : M (StoreDir B) GcCmdError GcStats :=
  d ← gets id;
  if sd_mount_lock d then throw StoreMounted else
  if decide (sd_segments d = None) then throw (GcSegments (OtherIo "not found")) else
  let segs := default ∅ (sd_segments d) in
  '(root_opt, snapshots) ← lift (res_map_err GcSegments (load_store_from_segments segs));
  let roots := option_list root_opt ++ (sn_root <$> snapshots) in
  map_err GcFailed
    (zoom (λ d, default ∅ (sd_segments d)) (λ v d, set_segments v d) (run_gc roots listing faults)).
End mount.
