(* ===== verification/Unmount.v ===== *)
(** * Unmounting, and the threads around a mount

    [crates/slicefs-cli/src/unmount.rs]: the commands that [slicefs unmount] runs, the
    processes it signals and the lock it removes; and the watchdog of
    [crates/slicefs-cli/src/mount.rs].

    The host is a history of actions with oracles that may depend on it: the exit status
    of a command, the output of [lsof], whether the file server is alive. *)

From S2P Require Import Prelude Types Text Blockset Segment Wal SegmentDir Store Backend Mount.
From stdpp Require Import base tactics numbers option list gmap strings.
Open Scope Z_scope.

(* ------------------------------------------------------------------------ *)
(** ** The host *)

Inductive HostAction :=
  | Exec (prog : bytes) (args : list bytes)
  | Sigterm (pid : Z)
  | Sleep (millis : Z).

Record HostOracle := mkOracle {
  (** [None]: the command could not be started. *)
  ho_status : list HostAction → bytes → list bytes → option bool;
  ho_output : list HostAction → bytes → list bytes → option bytes;
  (** [cfg(target_os = "macos")]. *)
  ho_macos : bool
}.

(** The whitespace-separated fields of a line. *)
Fixpoint fields_from (fuel : nat) (field s : bytes) : list bytes :=
  match fuel with
  | O => [field]
  | S fuel =>
      match list_find (λ w, starts_with w s = true) white_space with
      | Some (_, w) => field :: fields_from fuel [] (drop (length w) s)
      | None => match s with [] => [field] | b :: s => fields_from fuel (field ++ [b]) s end
      end
  end.
Definition split_whitespace (s : bytes) : list bytes :=
  filter (λ f, f ≠ []) (fields_from (S (length s)) [] s).

(** [s.parse::<i32>().ok()]. *)
Definition parse_i32 (s : bytes) : option Z :=
  match s with
  | b :: s' =>
      if decide (b = Byte.x2d) then
        match s' with
        | c :: _ => if decide (c = Byte.x2b) then None
                    else v ← parse_u64 s'; if decide (v ≤ 2 ^ 31) then Some (- v) else None
        | [] => None
        end
      else v ← parse_u64 s; if decide (v < 2 ^ 31) then Some v else None
  | [] => None
  end.

(** The second column of the lines after the first. *)
Definition lsof_pids (stdout : bytes) : list Z :=
  omap (λ line, match split_whitespace line with
                | _ :: pid :: _ => parse_i32 pid
                | _ => None
                end) (drop 1 (lines (to_string_lossy stdout))).

Section unmount.
Context {B : Blockset} (o : HostOracle).
Implicit Types (h : list HostAction).

(** The history and the store directory. *)
Abbreviation World := (list HostAction * StoreDir B)%type.

Definition act (a : HostAction) (w : World) : World := (w.1 ++ [a], w.2).
(** [Command::new(prog).args(args).status()], whether it ran and succeeded. *)
Definition run_status {E} (prog : bytes) (args : list bytes) : M World E bool := λ w,
  (act (Exec prog args) w, Ok (default false (ho_status o w.1 prog args))).
Definition run_output {E} (prog : bytes) (args : list bytes) : M World E (option bytes) := λ w,
  (act (Exec prog args) w, Ok (ho_output o w.1 prog args)).

(** Commands until one succeeds. *)
Fixpoint try_programs {E} (mp : bytes) (programs : list (bytes * list bytes)) : M World E bool :=
  match programs with
  | [] => mret false
  | (prog, extra_args) :: programs =>
      success ← run_status prog (extra_args ++ [mp]);
      if (success : bool) then mret true else try_programs mp programs
  end.

Definition soft_programs : list (bytes * list bytes) :=
  [(str "fusermount3", [str "-u"]); (str "fusermount", [str "-u"]); (str "umount", [])].
Definition try_soft_unmount {E} (mp : bytes) : M World E bool := try_programs mp soft_programs.

Fixpoint sigterm_all {E} (pids : list Z) : M World E unit :=
  match pids with
  | [] => mret tt
  | pid :: pids => _ ← modify (act (Sigterm pid)); sigterm_all pids
  end.
Definition kill_processes_at_mountpoint {E} (mp : bytes) : M World E unit :=
  output ← run_output (str "lsof") [str "+D"; mp];
  _ ← match (output : option bytes) with
      | Some stdout => sigterm_all (lsof_pids stdout)
      | None => mret tt
      end;
  _ ← run_status (str "pkill") [str "-f"; str "go-nfsv4"];
  mret tt.

Definition force_programs : list (bytes * list bytes) :=
  if ho_macos o
  then [(str "diskutil", [str "unmount"; str "force"]); (str "umount", [str "-f"])]
  else [(str "fusermount3", [str "-uz"]); (str "fusermount", [str "-uz"]); (str "umount", [str "-l"])].
Definition try_force_unmount {E} (mp : bytes) : M World E bool := try_programs mp force_programs.

Definition clean_mount_lock {E} (store_given : bool) : M World E unit :=
  if store_given then modify (λ w, (w.1, set_lock false w.2)) else mret tt.

(** [run_unmount(mountpoint, store_path)]; the error names the mountpoint. *)
Definition run_unmount (mountpoint : bytes) (store_given : bool) : M World bytes unit :=
  soft ← try_soft_unmount mountpoint;
  if (soft : bool) then clean_mount_lock store_given else
  _ ← kill_processes_at_mountpoint mountpoint;
  _ ← modify (act (Sleep 1000));
  forced ← try_force_unmount mountpoint;
  if (forced : bool) then clean_mount_lock store_given else
  throw mountpoint.

(* ---------------------------------------------------------------------- *)
(** ** What an unmount does *)

(** The commands that [try_programs] runs from the history [h], and whether the last one
    succeeded. *)
Fixpoint tried (mp : bytes) (programs : list (bytes * list bytes)) h : list HostAction * bool :=
  match programs with
  | [] => ([], false)
  | (prog, extra_args) :: programs =>
      let a := Exec prog (extra_args ++ [mp]) in
      if default false (ho_status o h prog (extra_args ++ [mp])) then ([a], true)
      else let '(l, r) := tried mp programs (h ++ [a]) in (a :: l, r)
  end.

Lemma try_programs_run {E} mp programs : ∀ w,
  try_programs (E := E) mp programs w =
    ((w.1 ++ (tried mp programs w.1).1, w.2), Ok (tried mp programs w.1).2).
Proof.
  induction programs as [|[prog extra] programs IH]; intros [h d]; cbn [try_programs tried fst snd].
  { by rewrite app_nil_r. }
  rewrite run_bind. cbn [run_status act fst snd]. destruct (default false _); [done|].
  rewrite IH. cbn [fst snd act]. destruct (tried mp programs _) as [l r]. by rewrite <-app_assoc.
Qed.

Lemma sigterm_all_run {E} pids : ∀ w,
  sigterm_all (E := E) pids w = ((w.1 ++ (Sigterm <$> pids), w.2), Ok tt).
Proof.
  induction pids as [|pid pids IH]; intros [h d]; cbn [sigterm_all]; [by rewrite app_nil_r|].
  rewrite run_bind. cbn [modify]. rewrite IH. cbn [act fst snd]. by rewrite <-app_assoc.
Qed.

(** The last command decides. *)
Lemma tried_last mp programs : ∀ h, programs ≠ [] →
  ∃ l prog args, (tried mp programs h).1 = l ++ [Exec prog args] ∧
    ((tried mp programs h).2 = true ↔ ho_status o (h ++ l) prog args = Some true).
Proof.
  induction programs as [|[prog extra] programs IH]; intros h Hne; [done|]. cbn [tried].
  destruct (ho_status o h prog (extra ++ [mp])) as [[]|] eqn:E; cbn [default from_option id].
  { exists [], prog, (extra ++ [mp]). rewrite app_nil_r. done. }
  all: destruct (decide (programs = [])) as [->|Hne'];
    [exists [], prog, (extra ++ [mp]); cbn [tried fst snd]; rewrite app_nil_r, E; done|].
  all: destruct (IH (h ++ [Exec prog (extra ++ [mp])]) Hne') as (l & prog' & args' & H1 & H2).
  all: destruct (tried mp programs _) as [l' r']; cbn [fst snd] in *; subst l'.
  all: exists (Exec prog (extra ++ [mp]) :: l), prog', args'; split; [done|].
  all: by rewrite H2, <-app_assoc.
Qed.
(** When it fails, all were run, and each failed in its turn. *)
Lemma tried_all mp programs : ∀ h, (tried mp programs h).2 = false →
  (tried mp programs h).1 = (λ p, Exec p.1 (p.2 ++ [mp])) <$> programs ∧
  ∀ i p, programs !! i = Some p →
    ho_status o (h ++ take i (tried mp programs h).1) p.1 (p.2 ++ [mp]) ≠ Some true.
Proof.
  induction programs as [|[prog extra] programs IH]; intros h; cbn [tried]; [done|].
  destruct (ho_status o h prog (extra ++ [mp])) as [[]|] eqn:E; cbn [default from_option id]; [done|..].
  all: specialize (IH (h ++ [Exec prog (extra ++ [mp])])); destruct (tried mp programs _) as [l r]; cbn in *.
  all: intros Hr; destruct (IH Hr) as [-> Hf]; split; [done|].
  all: intros [|i] p; cbn; [intros [= <-]; cbn; rewrite app_nil_r, E; done|].
  all: intros Hp; specialize (Hf i p Hp); by rewrite <-app_assoc in Hf.
Qed.
(** Nothing is run after a command that succeeded. *)
Lemma tried_stops mp programs i prog args : ∀ h,
  (tried mp programs h).1 !! i = Some (Exec prog args) →
  ho_status o (h ++ take i (tried mp programs h).1) prog args = Some true →
  S i = length (tried mp programs h).1 ∧ (tried mp programs h).2 = true.
Proof.
  revert i. induction programs as [|[p extra] programs IH]; intros i h; cbn [tried]; [done|].
  destruct (ho_status o h p (extra ++ [mp])) as [[]|] eqn:E; cbn [default from_option id].
  { cbn [fst snd]. by intros [-> _]%list_lookup_singleton_Some. }
  all: specialize (λ i, IH i (h ++ [Exec p (extra ++ [mp])])); destruct (tried mp programs _) as [l r].
  all: cbn [fst snd] in *; destruct i as [|i]; cbn [take lookup list_lookup length].
  1,3: rewrite app_nil_r; intros [= <- <-]; congruence.
  all: intros Hi Hs; destruct (IH i Hi) as [H1 H2]; [by rewrite <-app_assoc|]; by rewrite <-H1, H2.
Qed.
Lemma tried_execs mp programs i a : ∀ h, (tried mp programs h).1 !! i = Some a → ∃ prog args, a = Exec prog args.
Proof.
  revert i. induction programs as [|[prog extra] programs IH]; intros i h; cbn [tried]; [done|].
  destruct (default false _); cbn [fst].
  - intros [_ <-]%list_lookup_singleton_Some. by eexists _, _.
  - specialize (λ i, IH i (h ++ [Exec prog (extra ++ [mp])])). destruct (tried mp programs _) as [l r].
    destruct i as [|i]; cbn; [intros [= <-]; by eexists _, _|]. apply IH.
Qed.

(** What the second step does from the history [h]. *)
Definition killed (mp : bytes) h : list HostAction :=
  Exec (str "lsof") [str "+D"; mp]
  :: (Sigterm <$> from_option lsof_pids [] (ho_output o h (str "lsof") [str "+D"; mp]))
  ++ [Exec (str "pkill") [str "-f"; str "go-nfsv4"]].

Lemma kill_processes_run {E} mp w :
  kill_processes_at_mountpoint (E := E) mp w = ((w.1 ++ killed mp w.1, w.2), Ok tt).
Proof.
  unfold kill_processes_at_mountpoint, killed. rewrite run_bind. cbn [run_output act fst snd].
  rewrite run_bind. destruct (ho_output o w.1 _ _) as [out|]; cbn [from_option].
  - rewrite sigterm_all_run. rewrite run_bind. unfold run_status, act. cbn [fst snd mret M_ret].
    by rewrite <-!app_assoc.
  - cbn [mret M_ret]. rewrite run_bind. unfold run_status, act. cbn [fst snd mret M_ret fmap list_fmap].
    by rewrite <-!app_assoc.
Qed.

Lemma killed_sigterm mp h i pid :
  killed mp h !! i = Some (Sigterm pid) →
  (0 < i)%nat ∧ ∃ out, ho_output o h (str "lsof") [str "+D"; mp] = Some out ∧ pid ∈ lsof_pids out.
Proof.
  unfold killed. destruct i as [|i]; cbn; [done|]. intros Hi. split; [lia|].
  apply lookup_app_Some in Hi as [Hi|[_ Hi]]; [|by apply list_lookup_singleton_Some in Hi as [_ [=]]].
  rewrite list_lookup_fmap, fmap_Some in Hi. destruct Hi as (pid' & Hi & [= ->]). apply list_elem_of_lookup_2 in Hi.
  destruct (ho_output o h _ _) as [out|]; [by exists out|by apply not_elem_of_nil in Hi].
Qed.
(** It runs no command that unmounts. *)
Lemma killed_exec mp h i prog args :
  killed mp h !! i = Some (Exec prog args) → prog = str "lsof" ∨ prog = str "pkill".
Proof.
  unfold killed. destruct i as [|i]; cbn; [intros [= <- _]; by left|].
  rewrite lookup_app_Some, list_lookup_fmap, fmap_Some. intros [(pid & _ & [=])|[_ Hi]].
  apply list_lookup_singleton_Some in Hi as [_ [= <- _]]. by right.
Qed.
Lemma unmount_program prog args :
  (prog, args) ∈ soft_programs ++ force_programs → prog ≠ str "lsof" ∧ prog ≠ str "pkill".
Proof.
  intros Hin. assert (Forall (λ p : bytes * list bytes, p.1 ≠ str "lsof" ∧ p.1 ≠ str "pkill")
                        (soft_programs ++ force_programs)) as Hf.
  { unfold force_programs. destruct (ho_macos o); by apply (bool_decide_unpack _); vm_compute. }
  rewrite Forall_forall in Hf. exact (Hf _ Hin).
Qed.

(** A process is signalled after the soft commands have failed and [lsof] has listed it. *)
Lemma signals_after_soft mp h forced i pid :
  let soft := tried mp soft_programs h in
  let acts := (soft.1 ++ killed mp (h ++ soft.1) ++ [Sleep 1000]) ++ forced in
  soft.2 = false → (∀ i a, forced !! i = Some a → ∃ prog args, a = Exec prog args) →
  acts !! i = Some (Sigterm pid) →
  (∀ prog args, (prog, args) ∈ soft_programs → ∃ j, (j < i)%nat ∧
     acts !! j = Some (Exec prog (args ++ [mp])) ∧
     ho_status o (h ++ take j acts) prog (args ++ [mp]) ≠ Some true) ∧
  ∃ j out, (j < i)%nat ∧ acts !! j = Some (Exec (str "lsof") [str "+D"; mp]) ∧
     ho_output o (h ++ take j acts) (str "lsof") [str "+D"; mp] = Some out ∧ pid ∈ lsof_pids out.
Proof.
  pose proof (λ i a, tried_execs mp soft_programs i a h) as N1. pose proof (tried_all mp soft_programs h) as Hall.
  destruct (tried mp soft_programs h) as [soft rs]. cbn [fst snd] in *. cbn zeta. intros -> N2 Hi.
  destruct (Hall eq_refl) as [Hsoft Hfail].
  apply lookup_app_Some in Hi as [Hi|[_ Hi]]; [|by destruct (N2 _ _ Hi) as (? & ? & [=])].
  apply lookup_app_Some in Hi as [Hi|[Hlen Hi]]; [by destruct (N1 _ _ Hi) as (? & ? & [=])|].
  apply lookup_app_Some in Hi as [Hi|[_ Hi]]; [|by apply list_lookup_singleton_Some in Hi as [_ [=]]].
  destruct (killed_sigterm _ _ _ _ Hi) as (Hpos & out & Hout & Hpid). split.
  - intros prog args Hin. apply list_elem_of_lookup in Hin as [j Hj].
    assert (soft !! j = Some (Exec prog (args ++ [mp]))) as Hsj by (by rewrite Hsoft, list_lookup_fmap, Hj).
    pose proof (lookup_lt_Some _ _ _ Hsj). exists j. split; [lia|]. rewrite <-!app_assoc.
    split; [by rewrite lookup_app_l|]. rewrite take_app_le by lia. exact (Hfail j _ Hj).
  - exists (length soft), out. split; [lia|]. rewrite <-!app_assoc, take_app_length.
    split; [|by split]. by rewrite lookup_app_r, Nat.sub_diag.
Qed.

Definition hard_start (mp : bytes) h : list HostAction :=
  let h1 := h ++ (tried mp soft_programs h).1 in h1 ++ killed mp h1 ++ [Sleep 1000].

Lemma run_unmount_run mp given h d :
  run_unmount mp given (h, d) =
    let d' := if given then set_lock false d else d in
    let soft := tried mp soft_programs h in
    let h2 := hard_start mp h in
    let forced := tried mp force_programs h2 in
    if soft.2 then ((h ++ soft.1, d'), Ok tt)
    else if forced.2 then ((h2 ++ forced.1, d'), Ok tt)
    else ((h2 ++ forced.1, d), Err mp).
Proof.
  unfold run_unmount, try_soft_unmount, try_force_unmount, clean_mount_lock. cbv zeta.
  rewrite run_bind, try_programs_run. cbn [fst snd]. destruct (tried mp soft_programs h) as [l1 r1] eqn:E1.
  cbn [fst snd]. destruct r1; [by destruct given|].
  rewrite run_bind, kill_processes_run. cbn [fst snd]. rewrite run_bind. cbn [modify]. unfold act. cbn [fst snd].
  assert (((h ++ l1) ++ killed mp (h ++ l1)) ++ [Sleep 1000] = hard_start mp h) as ->
    by (unfold hard_start; rewrite E1; cbn [fst]; by rewrite <-!app_assoc).
  rewrite run_bind, try_programs_run. cbn [fst snd].
  by destruct (tried mp force_programs _) as [l2 []], given.
Qed.
End unmount.

(* ------------------------------------------------------------------------ *)
(** ** The watchdog

    [spawn_watchdog]: a thread that polls the file server of the mount.  Nothing in the
    program starts it. *)

(** What the thread sees at a step: the flag of its owner, the flag that the handler of
    SIGTERM and SIGINT sets, whether the interval is over, and what [pgrep] finds. *)
Record WatchView := mkWatch {
  wv_shutdown : bool;
  wv_signal : bool;
  wv_elapsed : bool;
  wv_alive : bool
}.
Inductive WatchState := Watching | Stopped (reported_dead : bool).

(** One pass through the inner loop: sleep, or check the server when the interval is
    over. *)
Definition watch_step (v : WatchView) (s : WatchState) : WatchState :=
  match s with
  | Stopped r => Stopped r
  | Watching =>
      if wv_shutdown v || wv_signal v then Stopped false
      else if negb (wv_elapsed v) then Watching
      else if wv_alive v then Watching
      else Stopped true
  end.
Definition watch (vs : list WatchView) (s : WatchState) : WatchState := foldl (λ s v, watch_step v s) s vs.
