(* ===== verification/Calendar.v ===== *)
(** * Dates and times in reports

    [days_to_ymd] and [format_unix_timestamp] of [crates/slicefs-cli/src/snapshot.rs] and
    [ts] of [util.rs]: civil dates from a day count in closed form, checked against
    the calendar, in which every day follows the one before. *)

From S2P Require Import Prelude Text.
From stdpp Require Import base tactics numbers option list strings.
Open Scope Z_scope.

(** [x as i64] of a [u64]. *)
Definition as_i64 (x : Z) : Z := to_i64 (wrap64 x).

(** [days_to_ymd(days)]; the division of [era] truncates. *)
Definition days_to_ymd (days : Z) : Z * Z * Z :=
  let z := as_i64 days + 719468 in
  let era := Z.quot (if decide (0 ≤ z) then z else z - 146096) 146097 in
  let doe := wrap64 (z - era * 146097) in
  let yoe := (doe - doe / 1460 + doe / 36524 - doe / 146096) / 365 in
  let y := yoe + era * 400 in
  let doy := doe - (365 * yoe + yoe / 4 - yoe / 100) in
  let mp := (5 * doy + 2) / 153 in
  let d := doy - (153 * mp + 2) / 5 + 1 in
  let m := if decide (mp < 10) then mp + 3 else mp - 9 in
  let y := if decide (m ≤ 2) then y + 1 else y in
  (wrap32 y, wrap32 m, wrap32 d).

(** [format_unix_timestamp(secs)]. *)
Definition format_unix_timestamp (secs : Z) : bytes :=
  if decide (secs = 0) then str "unknown" else
  let sec := secs mod 60 in
  let min := (secs / 60) mod 60 in
  let hour := (secs / 3600) mod 24 in
  let '(year, month, day) := days_to_ymd (secs / 86400) in
  fmt_pad 4 year ++ str "-" ++ fmt_pad 2 month ++ str "-" ++ fmt_pad 2 day ++ str "T" ++
  fmt_pad 2 hour ++ str ":" ++ fmt_pad 2 min ++ str ":" ++ fmt_pad 2 sec ++ str "Z".

(** [ts()] at [secs] seconds and [millis] milliseconds since the epoch. *)
Definition ts (secs millis : Z) : bytes :=
  fmt_pad 2 ((secs / 3600) mod 24) ++ str ":" ++ fmt_pad 2 ((secs / 60) mod 60) ++ str ":" ++
  fmt_pad 2 (secs mod 60) ++ str "." ++ fmt_pad 3 millis.

(* ------------------------------------------------------------------------ *)
(** ** The calendar *)

Definition is_leap (y : Z) : bool :=
  ((y mod 4 =? 0) && negb (y mod 100 =? 0)) || (y mod 400 =? 0).
Definition days_in_month (y m : Z) : Z :=
  if decide (m = 2) then (if is_leap y then 29 else 28)
  else if decide (m = 4 ∨ m = 6 ∨ m = 9 ∨ m = 11) then 30 else 31.
Definition valid_date (t : Z * Z * Z) : Prop :=
  let '(y, m, d) := t in 1 ≤ m ≤ 12 ∧ 1 ≤ d ≤ days_in_month y m.
#[export] Instance valid_date_dec t : Decision (valid_date t).
Proof. destruct t as [[y m] d]. unfold valid_date. apply _. Defined.
(** The next day. *)
Definition next_day (t : Z * Z * Z) : Z * Z * Z :=
  let '(y, m, d) := t in
  if decide (d < days_in_month y m) then (y, m, d + 1)
  else if decide (m < 12) then (y, m + 1, 1) else (y + 1, 1, 1).
(** The same date [n] years later. *)
Definition years_later (n : Z) (t : Z * Z * Z) : Z * Z * Z :=
  let '(y, m, d) := t in (y + n, m, d).

Lemma next_day_later k t : next_day (years_later (400 * k) t) = years_later (400 * k) (next_day t).
Proof.
  destruct t as [[y m] d]. unfold next_day, years_later.
  assert (days_in_month (y + 400 * k) m = days_in_month y m) as ->.
  { unfold days_in_month, is_leap.
    replace ((y + 400 * k) mod 4) with (y mod 4) by div_lia.
    replace ((y + 400 * k) mod 100) with (y mod 100) by div_lia.
    by replace ((y + 400 * k) mod 400) with (y mod 400) by div_lia. }
  repeat case_decide; [done|done|]. f_equal. f_equal. lia.
Qed.

Lemma valid_date_later k t : valid_date (years_later (400 * k) t) ↔ valid_date t.
Proof.
  destruct t as [[y m] d]. unfold valid_date, years_later.
  assert (days_in_month (y + 400 * k) m = days_in_month y m) as ->; [|done].
  unfold days_in_month, is_leap.
  replace ((y + 400 * k) mod 4) with (y mod 4) by div_lia.
  replace ((y + 400 * k) mod 100) with (y mod 100) by div_lia.
  by replace ((y + 400 * k) mod 400) with (y mod 400) by div_lia.
Qed.

(** The numerator of [yoe]. *)
Definition year_num (k : Z) : Z := k - k / 1460 + k / 36524 - k / 146096.
(** Day [doe] of an era of 400 years that starts on the first of March of year 0. *)
Definition era_date (doe : Z) : Z * Z * Z :=
  let yoe := year_num doe / 365 in
  let doy := doe - (365 * yoe + yoe / 4 - yoe / 100) in
  let mp := (5 * doy + 2) / 153 in
  let d := doy - (153 * mp + 2) / 5 + 1 in
  let m := if decide (mp < 10) then mp + 3 else mp - 9 in
  (if decide (m ≤ 2) then yoe + 1 else yoe, m, d).

(** [p] holds for the [n] numbers from [k] on. *)
Fixpoint all_from (p : Z → bool) (n : nat) (k : Z) : bool :=
  match n with O => true | S n => p k && all_from p n (k + 1) end.

Lemma all_from_spec p n k i :
  all_from p n k = true → k ≤ i < k + Z.of_nat n → p i = true.
Proof.
  revert k. induction n as [|n IH]; intros k; [lia|]. cbn [all_from]. rewrite andb_true_iff.
  intros [Hk Hn] Hi. destruct (decide (i = k)) as [->|]; [done|]. apply (IH (k + 1)); [done|lia].
Qed.

(** The years of the era, each from its first of March on. *)
Definition year_start (y : Z) : Z := 365 * y + y / 4 - y / 100 + y / 400.
Definition year_length (y : Z) : Z := if is_leap (y + 1) then 366 else 365.
(** The month and day of day [doy] of such a year. *)
Definition month_day (doy : Z) : Z * Z :=
  let mp := (5 * doy + 2) / 153 in
  (if decide (mp < 10) then mp + 3 else mp - 9, doy - (153 * mp + 2) / 5 + 1).

Lemma year_num_step k : year_num k ≤ year_num (k + 1).
Proof.
  unfold year_num. change 146096 with (36524 * 4). rewrite <-!Z.div_div by lia.
  assert ((k + 1) / 1460 ≤ k / 1460 + 1) by div_lia.
  assert (k / 36524 ≤ (k + 1) / 36524 ≤ k / 36524 + 1) as Hc by div_lia.
  set (c := k / 36524) in *. set (c' := (k + 1) / 36524) in *. clearbody c c'.
  assert (c - c / 4 ≤ c' - c' / 4) by div_lia. lia.
Qed.

Lemma year_num_mono a b : a ≤ b → year_num a ≤ year_num b.
Proof.
  intros Hab. replace b with (a + Z.of_nat (Z.to_nat (b - a))) by lia.
  induction (Z.to_nat (b - a)) as [|n IH]; [rewrite Z.add_0_r; lia|].
  rewrite Nat2Z.inj_succ, Z.add_succ_r, <-Z.add_1_r. pose proof (year_num_step (a + Z.of_nat n)). lia.
Qed.

Lemma years_checked :
  all_from (λ y, (year_num (year_start y) / 365 =? y) && (year_num (year_start (y + 1) - 1) / 365 =? y) &&
                 (year_start (y + 1) =? year_start y + year_length y)) 400 0 = true.
Proof. vm_compute. reflexivity. Qed.

Lemma year_facts y : 0 ≤ y < 400 →
  year_start (y + 1) = year_start y + year_length y ∧
  ∀ k, year_start y ≤ k < year_start (y + 1) → year_num k / 365 = y.
Proof.
  intros Hy. pose proof (all_from_spec _ _ _ y years_checked) as H.
  rewrite !andb_true_iff, !Z.eqb_eq in H. destruct H as [[H1 H2] H3]; [lia|]. split; [done|].
  intros k Hk. pose proof (year_num_mono (year_start y) k ltac:(lia)) as Ha.
  pose proof (year_num_mono k (year_start (y + 1) - 1) ltac:(lia)) as Hb.
  apply (Z.div_le_mono _ _ 365) in Ha, Hb; [|lia..]. lia.
Qed.

(** Every day of the era is in one of its years. *)
Lemma year_of_day k : 0 ≤ k < 146097 →
  ∃ y doy, 0 ≤ y < 400 ∧ 0 ≤ doy < year_length y ∧ k = year_start y + doy.
Proof.
  intros Hk. assert (∀ n : nat, (n ≤ 400)%nat → k < year_start (Z.of_nat n) →
    ∃ y, 0 ≤ y < Z.of_nat n ∧ year_start y ≤ k < year_start (y + 1)) as Hex.
  { induction n as [|n IH]; intros Hn Hlt; [change (k < 0) in Hlt; lia|].
    destruct (decide (k < year_start (Z.of_nat n))) as [Hl|Hg].
    - destruct (IH ltac:(lia) Hl) as (y & Hy & Hb). exists y. lia.
    - exists (Z.of_nat n). replace (Z.of_nat n + 1) with (Z.of_nat (S n)) by lia. lia. }
  destruct (Hex 400%nat) as (y & Hy & Hb); [lia|change (k < 146097); lia|].
  destruct (year_facts y Hy) as [Hl _]. exists y, (k - year_start y). lia.
Qed.

Lemma era_date_year y doy : 0 ≤ y < 400 → 0 ≤ doy < year_length y →
  era_date (year_start y + doy) =
  (if decide ((month_day doy).1 ≤ 2) then y + 1 else y, (month_day doy).1, (month_day doy).2).
Proof.
  intros Hy Hd. destruct (year_facts y Hy) as [Hl Hk]. specialize (Hk (year_start y + doy)).
  unfold era_date. cbv zeta.
  rewrite Hk by lia.
  replace (year_start y + doy - (365 * y + y / 4 - y / 100)) with doy; [done|].
  unfold year_start. assert (y / 400 = 0) by (apply Z.div_small; lia). lia.
Qed.

(** Day by day through one year, for both lengths of February. *)
Definition month_days (leap : bool) (m : Z) : Z :=
  if decide (m = 2) then (if leap then 29 else 28)
  else if decide (m = 4 ∨ m = 6 ∨ m = 9 ∨ m = 11) then 30 else 31.
Definition day_check (leap : bool) (doy : Z) : bool :=
  let '(m, d) := month_day doy in let '(m', d') := month_day (doy + 1) in
  (1 <=? m) && (m <=? 12) && (1 <=? d) && (d <=? month_days leap m) &&
  (if doy + 1 <? (if leap then 366 else 365) then
     (if d <? month_days leap m then (m' =? m) && (d' =? d + 1)
      else if m <? 12 then (m' =? m + 1) && (d' =? 1) && negb (m =? 2) else (m' =? 1) && (d' =? 1))
   else (m =? 2) && (d =? month_days leap 2)).

Lemma days_checked :
  all_from (day_check true) 366 0 = true ∧ all_from (day_check false) 365 0 = true.
Proof. vm_compute. done. Qed.

Lemma day_checked (leap : bool) doy : 0 ≤ doy < (if leap then 366 else 365) → day_check leap doy = true.
Proof.
  destruct days_checked as [H1 H2]. destruct leap; intros Hd.
  - by apply (all_from_spec _ _ _ doy H1).
  - by apply (all_from_spec _ _ _ doy H2).
Qed.

Lemma days_in_month_year y m :
  days_in_month (if decide (m ≤ 2) then y + 1 else y) m = month_days (is_leap (y + 1)) m.
Proof. unfold days_in_month, month_days. repeat case_decide; done || lia. Qed.

Lemma era_day k : 0 ≤ k < 146097 →
  valid_date (era_date k) ∧ 0 ≤ (era_date k).1.1 ≤ 400 ∧
  (if k =? 146096 then years_later 400 (era_date 0) else era_date (k + 1)) = next_day (era_date k).
Proof.
  intros Hk. destruct (year_of_day k Hk) as (y & doy & Hy & Hd & ->).
  destruct (year_facts y Hy) as [Hl _].
  rewrite (era_date_year y doy) by done. pose proof (day_checked (is_leap (y + 1)) doy Hd) as Hc.
  unfold day_check in Hc. change (if is_leap (y + 1) then 366 else 365) with (year_length y) in Hc.
  destruct (month_day doy) as [m d] eqn:Emd. destruct (month_day (doy + 1)) as [m' d'] eqn:Emd'.
  cbn [fst snd] in *. rewrite !andb_true_iff, !Z.leb_le in Hc. destruct Hc as [[[[Hm1 Hm2] Hd1] Hd2] Hn].
  unfold valid_date, next_day. rewrite days_in_month_year.
  split_and!; [done|done|lia|done|case_decide; lia|case_decide; lia|].
  destruct (Z.ltb_spec (doy + 1) (year_length y)) as [Hlt|Hge].
  - destruct (Z.eqb_spec (year_start y + doy) 146096) as [He|_].
    { exfalso. assert (year_start (y + 1) ≤ 146097); [|lia].
      change 146097 with (year_start 400). unfold year_start. div_lia. }
    rewrite <-Z.add_assoc, era_date_year by lia. rewrite Emd'. cbn [fst snd].
    destruct (Z.ltb_spec d (month_days (is_leap (y + 1)) m)).
    + rewrite andb_true_iff, !Z.eqb_eq in Hn. destruct Hn as [-> ->]. by rewrite (decide_True (P := d < _)) by lia.
    + rewrite (decide_False (P := d < _)) by lia. destruct (Z.ltb_spec m 12).
      * rewrite !andb_true_iff, negb_true_iff, !Z.eqb_eq, Z.eqb_neq in Hn. destruct Hn as [[-> ->] Hne].
        rewrite (decide_True (P := m < 12)) by lia. f_equal. f_equal. repeat case_decide; lia.
      * rewrite andb_true_iff, !Z.eqb_eq in Hn. destruct Hn as [-> ->].
        rewrite (decide_False (P := m < 12)) by lia. f_equal. f_equal. repeat case_decide; lia.
  - rewrite andb_true_iff, !Z.eqb_eq in Hn. destruct Hn as [-> ->].
    rewrite decide_False by lia. rewrite !decide_True by lia.
    assert (year_start y + doy + 1 = year_start (y + 1)) as Hnext by lia.
    destruct (Z.eqb_spec (year_start y + doy) 146096) as [He|He].
    + assert (y = 399) as ->; [|done].
      destruct (decide (y = 399)) as [|Hne]; [done|]. exfalso.
      assert (year_start (y + 1) < 146097); [|lia]. unfold year_start. div_lia.
    + rewrite Hnext.
      replace (year_start (y + 1)) with (year_start (y + 1) + 0) by lia.
      assert (y ≠ 399).
      { intros ->. assert (year_start (399 + 1) = 146097) by reflexivity. lia. }
      rewrite era_date_year; [done|lia|]. clear. unfold year_length. destruct (is_leap (y + 1 + 1)); lia.
Qed.

(** Day [z] since the start of year 0 in the proleptic calendar. *)
Definition civil (z : Z) : Z * Z * Z := years_later (400 * (z / 146097)) (era_date (z mod 146097)).

Lemma civil_valid z : valid_date (civil z).
Proof. apply valid_date_later, era_day, Z.mod_pos_bound. lia. Qed.

Lemma civil_next z : civil (z + 1) = next_day (civil z).
Proof.
  unfold civil. rewrite next_day_later. pose proof (Z.mod_pos_bound z 146097 ltac:(lia)) as Hm.
  destruct (era_day (z mod 146097) Hm) as (_ & _ & <-).
  destruct (Z.eqb_spec (z mod 146097) 146096) as [He|He].
  - replace ((z + 1) / 146097) with (z / 146097 + 1) by div_lia.
    replace ((z + 1) mod 146097) with 0 by div_lia.
    destruct (era_date 0) as [[y m] d]. unfold years_later. f_equal. f_equal. lia.
  - replace ((z + 1) / 146097) with (z / 146097) by div_lia.
    by replace ((z + 1) mod 146097) with (z mod 146097 + 1) by div_lia.
Qed.

(** The closed form is the calendar as long as the year fits 32 bits. *)
Lemma days_to_ymd_civil days :
  0 ≤ days < 365 * 2 ^ 31 → days_to_ymd days = civil (days + 719468).
Proof.
  intros Hd. unfold days_to_ymd. cbv zeta.
  assert (as_i64 days = days) as ->.
  { unfold as_i64, wrap64, to_i64. rewrite Z.mod_small by lia. rewrite decide_True by lia. done. }
  rewrite (decide_True (P := 0 ≤ _)) by lia. rewrite Z.quot_div_nonneg by lia.
  set (z := days + 719468). assert (z - z / 146097 * 146097 = z mod 146097) as -> by div_lia.
  pose proof (Z.mod_pos_bound z 146097 ltac:(lia)) as Hm.
  unfold wrap64. rewrite (Z.mod_small (z mod 146097)) by lia.
  destruct (era_day _ Hm) as ([Hmo Hda] & Hy & _). unfold civil, years_later.
  assert (0 ≤ z / 146097 ∧ z / 146097 * 400 < 2 ^ 32 - 1000) as Hera by (unfold z; div_lia).
  set (e := z / 146097) in *. set (k := z mod 146097) in *.
  unfold era_date, year_num in *. cbv zeta in *. cbn [fst snd] in *.
  set (yoe := (k - k / 1460 + k / 36524 - k / 146096) / 365) in *.
  set (doy := k - (365 * yoe + yoe / 4 - yoe / 100)) in *.
  set (mp := (5 * doy + 2) / 153) in *.
  assert (∀ a b, days_in_month a b ≤ 31) as Hdim.
  { intros a b. unfold days_in_month. destruct (is_leap a); repeat case_decide; lia. }
  match type of Hda with _ ≤ _ ≤ days_in_month ?a ?b => specialize (Hdim a b) end.
  set (d := doy - (153 * mp + 2) / 5 + 1) in *. clearbody d.
  set (m := if decide (mp < 10) then mp + 3 else mp - 9) in *. clearbody m.
  unfold wrap32. rewrite (Z.mod_small m), (Z.mod_small d) by lia.
  f_equal. f_equal. clear -Hera Hy. rewrite Z.mod_small; case_decide; lia.
Qed.

Lemma days_to_ymd_epoch : days_to_ymd 0 = (1970, 1, 1).
Proof. reflexivity. Qed.

Lemma days_to_ymd_next days :
  0 ≤ days → days + 1 < 365 * 2 ^ 31 →
  days_to_ymd (days + 1) = next_day (days_to_ymd days) ∧ valid_date (days_to_ymd days).
Proof.
  intros H0 H1. rewrite !days_to_ymd_civil by lia.
  replace (days + 1 + 719468) with (days + 719468 + 1) by lia.
  split; [apply civil_next|apply civil_valid].
Qed.
