(* ===== verification/Float.v ===== *)
(** * Floating point numbers and their decimal text

    The [f64] values of [crates/slicefs-cli/src/stats.rs]: conversion from [u64], division
    and the format [{:.2}].  The arithmetic is that of the Standard Library's specification
    of IEEE 754. *)

From S2P Require Import Prelude Text.
From Stdlib Require Import SpecFloat.
From stdpp Require Import base tactics numbers option list gmap strings.
Open Scope Z_scope.

Definition f64 : Type := spec_float.
(** [n as f64]: the nearest value, ties to even. *)
Definition f64_of_u64 (n : Z) : f64 := binary_normalize 53 1024 n 0 false.
Definition f64_div (x y : f64) : f64 := SFdiv 53 1024 x y.
(** [0.0]. *)
Definition f64_zero : f64 := S754_zero false.

(** [a / b], rounded half to even. *)
Definition div_half_even (a b : Z) : Z :=
  let q := a / b in
  match 2 * (a mod b) ?= b with
  | Lt => q
  | Gt => q + 1
  | Eq => if Z.even q then q else q + 1
  end.

(** The magnitude [m * 2 ^ e] in hundredths. *)
Definition hundredths (m : positive) (e : Z) : Z :=
  if decide (0 ≤ e) then Zpos m * 2 ^ e * 100 else div_half_even (Zpos m * 100) (2 ^ (- e)).

(** [format!("{:.2}", x)]. *)
Definition fixed2 (c : Z) : bytes := fmt_dec (c / 100) ++ str "." ++ fmt_pad 2 (c mod 100).
Definition fmt_sign (s : bool) : bytes := if s then str "-" else [].
Definition fmt_f64_2 (x : f64) : bytes :=
  match x with
  | S754_nan => str "NaN"
  | S754_infinity s => fmt_sign s ++ str "inf"
  | S754_zero s => fmt_sign s ++ fixed2 0
  | S754_finite s m e => fmt_sign s ++ fixed2 (hundredths m e)
  end.

(* ------------------------------------------------------------------------ *)
(** ** Rounding half to even *)

Lemma div_half_even_near a b : 0 < b → 2 * Z.abs (div_half_even a b * b - a) ≤ b.
Proof.
  intros Hb. unfold div_half_even. pose proof (Z.div_mod a b ltac:(lia)) as Hd.
  pose proof (Z.mod_pos_bound a b Hb) as Hr.
  destruct (2 * (a mod b) ?= b) eqn:E; [apply Z.compare_eq in E|rewrite Z.compare_lt_iff in E|rewrite Z.compare_gt_iff in E].
  - destruct (Z.even (a / b)); nia.
  - nia.
  - nia.
Qed.

Lemma div_half_even_scale a b c : 0 < b → 0 < c → div_half_even (a * c) (b * c) = div_half_even a b.
Proof.
  intros Hb Hc. unfold div_half_even. rewrite Z.div_mul_cancel_r, Zmult_mod_distr_r by lia.
  rewrite Z.mul_assoc, <-(Zmult_compare_compat_r _ b c) by lia. done.
Qed.

(* ------------------------------------------------------------------------ *)
(** ** Conversions without rounding *)

Lemma digits2_bounds p : 2 ^ (Zpos (digits2_pos p) - 1) ≤ Zpos p < 2 ^ Zpos (digits2_pos p).
Proof.
  induction p as [p IH|p IH|]; cbn [digits2_pos]; [..|done].
  all: rewrite Pos2Z.inj_succ; replace (Z.succ (Zpos (digits2_pos p)) - 1) with (Zpos (digits2_pos p)) by lia;
    rewrite Z.pow_succ_r by lia; assert (2 ^ Zpos (digits2_pos p) = 2 * 2 ^ (Zpos (digits2_pos p) - 1)) as E
      by (rewrite <-Z.pow_succ_r by lia; f_equal; lia); lia.
Qed.

Lemma digits2_unique p k : 2 ^ (k - 1) ≤ Zpos p < 2 ^ k → Zpos (digits2_pos p) = k.
Proof.
  intros [Hl Hu]. destruct (digits2_bounds p) as [Hl' Hu'].
  assert (0 < k) by (destruct (Z.le_gt_cases k 0) as [Hk|]; [|done]; assert (2 ^ k ≤ 2 ^ 0) by (by apply Z.pow_le_mono_r; lia); lia).
  assert (k - 1 < Zpos (digits2_pos p)) by (apply (Z.pow_lt_mono_r_iff 2); lia).
  assert (Zpos (digits2_pos p) - 1 < k) by (apply (Z.pow_lt_mono_r_iff 2); lia). lia.
Qed.

Lemma iter_xO p d : Zpos (Pos.iter xO p d) = Zpos p * 2 ^ Zpos d.
Proof.
  induction d as [|d IH] using Pos.peano_ind; [cbn; lia|].
  rewrite Pos.iter_succ, Pos2Z.inj_xO, IH, Pos2Z.inj_succ, Z.pow_succ_r by lia. lia.
Qed.

(** A mantissa of 53 bits is not rounded, and one of 54 bits that is even loses its last. *)
Lemma round_53 s m e :
  Zpos (digits2_pos m) = 53 → -1074 ≤ e ≤ 971 →
  binary_round_aux 53 1024 s (Zpos m) e loc_Exact = S754_finite s m e.
Proof.
  intros Hd He. unfold binary_round_aux, shr_fexp, Zdigits2. rewrite Hd.
  assert (fexp 53 1024 (53 + e) - e = 0) as Hf by (unfold fexp, emin; lia). rewrite Hf. cbn -[fexp].
  rewrite Hd, Hf. cbn. destruct (Z.leb_spec e (1024 - 53)); [done|lia].
Qed.

Lemma round_54 s m e :
  Zpos (digits2_pos m) = 53 → -1074 ≤ e ≤ 970 →
  binary_round_aux 53 1024 s (Zpos (xO m)) e loc_Exact = S754_finite s m (e + 1).
Proof.
  intros Hd He. unfold binary_round_aux, shr_fexp, Zdigits2. cbn [digits2_pos]. rewrite Pos2Z.inj_succ, Hd.
  assert (fexp 53 1024 (Z.succ 53 + e) - e = 1) as Hf by (unfold fexp, emin; lia). rewrite Hf. cbn -[fexp Z.add].
  rewrite Hd. assert (fexp 53 1024 (53 + (e + 1)) - (e + 1) = 0) as Hf' by (unfold fexp, emin; lia).
  rewrite Hf'. cbn -[Z.add]. destruct (Z.leb_spec (e + 1) (1024 - 53)); [done|lia].
Qed.

(** A number below 2^53 is exact, with a mantissa of 53 bits. *)
Lemma f64_exact n :
  0 < n < 2 ^ 53 →
  ∃ m d, f64_of_u64 n = S754_finite false m (d - 53) ∧ Zpos (digits2_pos m) = 53 ∧
         0 < d ≤ 53 ∧ Zpos m = n * 2 ^ (53 - d).
Proof.
  intros [H0 H53]. destruct n as [|p|]; [lia| |lia]. set (d := Zpos (digits2_pos p)).
  pose proof (digits2_bounds p) as Hb. fold d in Hb.
  assert (0 < d ≤ 53) as Hd.
  { split; [unfold d; lia|]. assert (d - 1 < 53) by (apply (Z.pow_lt_mono_r_iff 2); lia). lia. }
  assert (fexp 53 1024 (d + 0) = d - 53) as Hf by (unfold fexp, emin; lia).
  assert (∃ m, shl_align p 0 (d - 53) = (m, d - 53) ∧ Zpos m = Zpos p * 2 ^ (53 - d)) as (m & Hm & Hv).
  { unfold shl_align. rewrite Z.sub_0_r. destruct (d - 53) as [|q|q] eqn:E; [|lia|].
    - exists p. split; [done|]. replace (53 - d) with 0 by lia. lia.
    - exists (Pos.iter xO p q). split; [done|]. rewrite iter_xO. f_equal. f_equal. lia. }
  assert (Zpos (digits2_pos m) = 53) as Hdm.
  { apply digits2_unique. rewrite Hv. replace (53 - 1) with ((d - 1) + (53 - d)) by lia.
    rewrite Z.pow_add_r by lia. replace (2 ^ 53) with (2 ^ d * 2 ^ (53 - d)) by (rewrite <-Z.pow_add_r by lia; f_equal; lia).
    assert (0 < 2 ^ (53 - d)) by (apply Z.pow_pos_nonneg; lia). nia. }
  exists m, d. split_and!; try done; try lia. unfold f64_of_u64, binary_normalize, binary_round. fold d. rewrite Hf, Hm.
  apply round_53; [done|lia].
Qed.

(** Dividing by a power of two moves the exponent. *)
Lemma f64_div_pow2 m e e2 :
  Zpos (digits2_pos m) = 53 → -1074 ≤ e - e2 - 53 ≤ 970 →
  f64_div (S754_finite false m e) (S754_finite false (2 ^ 52) e2) = S754_finite false m (e - e2 - 52).
Proof.
  intros Hd He. unfold f64_div, SFdiv, SFdiv_core_binary, Zdigits2. rewrite Hd.
  change (Zpos (digits2_pos (2 ^ 52))) with 53. cbn [xorb].
  assert (Z.min (fexp 53 1024 (53 + e - (53 + e2))) (e - e2) = e - e2 - 53) as -> by (unfold fexp, emin; lia).
  replace (e - e2 - (e - e2 - 53)) with 53 by lia. cbv iota. change (Zpos (2 ^ 52)) with (2 ^ 52).
  rewrite Z.shiftl_mul_pow2 by lia.
  assert (Z.div_eucl (Zpos m * 2 ^ 53) (2 ^ 52) = (Zpos (xO m), 0)) as ->.
  { rewrite (surjective_pairing (Z.div_eucl _ _)). f_equal.
    - change (Zpos m * 2 ^ 53 / 2 ^ 52 = Zpos (xO m)). replace (Zpos m * 2 ^ 53) with (Zpos (xO m) * 2 ^ 52) by lia.
      by rewrite Z.div_mul.
    - change ((Zpos m * 2 ^ 53) mod 2 ^ 52 = 0). replace (Zpos m * 2 ^ 53) with (Zpos (xO m) * 2 ^ 52) by lia.
      by rewrite Z.mod_mul. }
  change (new_location (2 ^ 52) 0) with loc_Exact. rewrite round_54 by done. f_equal. lia.
Qed.

(** The text of [n / 2 ^ k] is that of the exact quotient. *)
Lemma fmt_quotient n k :
  0 < n < 2 ^ 53 → 0 < k ≤ 52 →
  fmt_f64_2 (f64_div (f64_of_u64 n) (f64_of_u64 (2 ^ k))) = fixed2 (div_half_even (n * 100) (2 ^ k)).
Proof.
  intros Hn Hk. destruct (f64_exact n Hn) as (m & d & -> & Hm & Hd & Hv).
  assert (0 < 2 ^ k < 2 ^ 53) as Hp by (split; [lia|apply Z.pow_lt_mono_r; lia]).
  destruct (f64_exact (2 ^ k) Hp) as (m2 & d2 & -> & Hm2 & Hd2 & Hv2).
  assert (d2 = k + 1) as ->.
  { destruct (digits2_bounds m2) as [Hl Hu]. rewrite Hm2, Hv2, <-Z.pow_add_r in Hl, Hu by lia.
    assert (53 - 1 ≤ k + (53 - d2)) by (apply (Z.pow_le_mono_r_iff 2); lia).
    assert (k + (53 - d2) < 53) by (apply (Z.pow_lt_mono_r_iff 2); lia). lia. }
  assert (m2 = (2 ^ 52)%positive) as ->.
  { apply Pos2Z.inj. rewrite Hv2, <-Z.pow_add_r by lia. by replace (k + (53 - (k + 1))) with 52 by lia. }
  rewrite f64_div_pow2 by (done || lia). cbn [fmt_f64_2 fmt_sign app]. f_equal. unfold hundredths.
  rewrite decide_False by lia. rewrite Hv.
  replace (- (d - 53 - (k + 1 - 53) - 52)) with (k + (53 - d)) by lia. rewrite Z.pow_add_r by lia.
  replace (n * 2 ^ (53 - d) * 100) with (n * 100 * 2 ^ (53 - d)) by lia. apply div_half_even_scale; lia.
Qed.
