(* ===== verification/Commands.v ===== *)
(** * Commands on an unmounted store

    [crates/slicefs-cli/src/snapshot.rs], [scrub.rs] and [stats.rs]: taking, listing and
    switching snapshots, checking that all roots can be loaded, and the numbers of
    the statistics report.  What a command prints is in [Reports]. *)

From S2P Require Import Prelude Types Text Blockset Inode InodeMap Xattr Directory Segment Wal.
From S2P Require Import SegmentDir Store Mount Calendar Float.
From stdpp Require Import base tactics numbers option list gmap strings.
Open Scope Z_scope.

(** The errors of the snapshot commands, without the wording of the messages. *)
Inductive CmdError :=
  | CmdMounted
  | CmdLegacyFormat
  | CmdStoreNotFound
  | CmdSegments (e : IoError)
  | CmdNoCommittedState
  | CmdReconstruct (e : MetaError)
  | CmdSnapshotNotFound (reference : bytes)
  | CmdSnapshotFailed (e : MetaError)
  | CmdRootUpdate (e : MetaError)
  | CmdWalShutdown (e : WalError).

(** What the log file of a store holds when its process ends without a crash. *)
Definition wal_file (w : option WalBox) : bytes :=
  match w with
  | Some b => sw_synced (box_writer b) ++ sw_pending (box_writer b)
  | None => []
  end.

(** The hex digits of a digest, as the reports print them. *)
Definition root_hex (root : Digest224) : bytes := hex_string (digest_bytes root).

Section snapshot_commands.
Context {B : Blockset}.

(** [load_store_from_segments(&segs_dir)], which fails without the directory. *)
Definition load_segments (d : StoreDir B) : res CmdError (option Digest224 * list SnapshotEntry) :=
  match sd_segments d with
  | None => Err (CmdSegments (OtherIo "not found"))
  | Some segs => res_map_err CmdSegments (load_store_from_segments segs)
  end.

(** The first part of [run_snapshot_create] and [run_snapshot_switch]: the store of an
    unmounted directory with a log in a new segment; its number comes along. *)
Definition open_unmounted (faults : list bool)
    : M (StoreDir B) CmdError (Z * DictMetadataStore B) :=
  d ← gets id;
  if sd_mount_lock d then throw CmdMounted else
  '(root_opt, snapshots) ← lift (load_segments d);
  root ← lift (ok_or root_opt CmdNoCommittedState);
  meta ← lift (res_map_err CmdReconstruct (load_from_root (sd_io d) root));
  let meta := set_snapshots snapshots meta in
  let segs := default ∅ (sd_segments d) in
  let next_id := next_segment_id (Some segs) in
  _ ← modify (set_segments (open_segment CfgPerOp next_id segs));
  mret (next_id, set_wal (create_wal CfgPerOp next_id faults) meta).

(** What the directory is when the process of the command ends with the store
    [meta]. *)
Definition close_store (id : Z) (meta : DictMetadataStore B) (d : StoreDir B) : StoreDir B :=
  mkStoreDir B (sd_dictionary_bin d) (sd_mount_lock d)
    (Some (<[seg_name id := wal_file (st_wal meta)]> (default ∅ (sd_segments d)))) (st_io meta).

(** Run [body] on the opened store. *)
Definition with_unmounted {A} (faults : list bool) (body : M (DictMetadataStore B) CmdError A)
    : M (StoreDir B) CmdError A :=
  '(id, meta) ← open_unmounted faults;
  λ d, let '(meta, r) := body meta in (close_store id meta d, r).

(** [run_snapshot_create(store, name)] at time [now]. *)
Definition run_snapshot_create (now : Z) (name : option bytes) (faults : list bool)
    : M (StoreDir B) CmdError SnapshotEntry :=
  with_unmounted faults (
    entry ← map_err CmdSnapshotFailed (create_snapshot now name);
    _ ← map_err CmdWalShutdown shutdown_wal;
    mret entry).

(** [write_root_update(meta, new_root)]. *)
Definition write_root_update (new_root : Digest224) : M (DictMetadataStore B) CmdError unit :=
  map_err CmdRootUpdate (commit_root new_root).

(** [run_snapshot_switch(store, reference)]: the target and the snapshot that saves
    the state before. *)
Definition run_snapshot_switch (now : Z) (reference : bytes) (faults : list bool)
    : M (StoreDir B) CmdError (SnapshotEntry * SnapshotEntry) :=
  with_unmounted faults (
    found ← gets (find_snapshot reference);
    target ← lift (ok_or found (CmdSnapshotNotFound reference));
    auto_snap ← map_err CmdSnapshotFailed (create_snapshot now (Some (str "auto-before-switch")));
    _ ← write_root_update (sn_root target);
    _ ← map_err CmdWalShutdown shutdown_wal;
    mret (target, auto_snap)).

(** One line of [run_snapshot_list]: version, name, time and the start of the root. *)
Definition snapshot_row (snap : SnapshotEntry) : Z * bytes * bytes * bytes :=
  (sn_version snap, default (str "-") (sn_name snap), format_unix_timestamp (sn_created_at snap),
   take 16 (root_hex (sn_root snap))).
Definition run_snapshot_list (d : StoreDir B) : res CmdError (list (Z * bytes * bytes * bytes)) :=
  p ← load_segments d;
  Ok (snapshot_row <$> (p.2 : list SnapshotEntry)).

(* ------------------------------------------------------------------------ *)
(** ** Scrub *)

(** The messages of the report. *)
Inductive ScrubError :=
  | MissingRoot (hex : bytes)
  | TreeCorrupt (e : MetaError).

(** [struct ScrubReport]; the status says whether there are errors. *)
Record ScrubReport := mkScrub {
  sc_roots_verified : Z;
  sc_corrupted_roots : Z;
  sc_mounted : bool;
  sc_errors : list ScrubError;
  sc_saturated_blocks : Z
}.

(** The check for the store format that [scrub] and [stats] share. *)
Definition check_format (d : StoreDir B) : res CmdError unit :=
  if sd_dictionary_bin d then Err CmdLegacyFormat
  else if decide (sd_segments d = None) then Err CmdStoreNotFound
  else Ok tt.

(** Step 1: every root must resolve. *)
Definition scrub_root (io : Io) (root : Digest224) (st : Z * list ScrubError) : Z * list ScrubError :=
  match file_storage_get io root with
  | Some _ => (st.1 + 1, st.2)
  | None => (st.1, st.2 ++ [MissingRoot (take 16 (root_hex root))])
  end.

(** The report of [run_scrub]; the command fails if it has errors. *)
Definition run_scrub (d : StoreDir B) : res CmdError ScrubReport :=
  _ ← check_format d;
  '(root_opt, snapshots) ← load_segments d;
  let all_roots := option_list root_opt ++ (sn_root <$> snapshots) in
  let '(roots_verified, errors) :=
    foldl (λ st root, scrub_root (sd_io d) root st) (0, []) all_roots in
  '(saturated, errors) ←
    match root_opt with
    | Some root =>
        match load_from_root (sd_io d) root with
        | Ok meta => Ok (saturated_refcount_count meta, errors)
        | Err e => Ok (0, errors ++ [TreeCorrupt e])
        | Panic => Panic
        end
    | None => Ok (0, errors)
    end;
  Ok (mkScrub roots_verified (Z.of_nat (length errors)) (sd_mount_lock d) errors saturated).
Definition scrub_clean (r : ScrubReport) : bool := bool_decide (sc_corrupted_roots r = 0).

(* ------------------------------------------------------------------------ *)
(** ** Statistics *)

(** What [read_dir] and [metadata] show below a directory of the host. *)
Inductive HostEntry :=
  | HostFile (size : Z)
  | HostDir (entries : list HostEntry)
  | HostOther.

(** [dir_size] of one entry; an unreadable entry counts as [HostOther]. *)
Fixpoint entry_size (e : HostEntry) : Z :=
  match e with
  | HostFile n => n
  | HostDir es => foldr (λ e acc, wrap64 (entry_size e + acc)) 0 es
  | HostOther => 0
  end.
Definition dir_size (es : list HostEntry) : Z := entry_size (HostDir es).

(** [struct RefcountDist], [struct SnapshotStats] and [struct StoreStats]. *)
Record RefcountDist := mkRefcountDist { rd_unique : Z; rd_shared_2x : Z; rd_shared_3plus : Z }.
Record SnapshotStats := mkSnapStats {
  ss_version : Z;
  ss_name : option bytes;
  ss_created_at : Z;
  ss_reachable_roots : Z
}.
Record StoreStats := mkStats {
  ts_logical_bytes : Z;
  ts_physical_bytes : Z;
  ts_host_disk_bytes : Z;
  ts_dedup_ratio : f64;
  ts_snapshot_count : Z;
  ts_compressor : bytes;
  ts_refcount_distribution : RefcountDist;
  ts_snapshots : list SnapshotStats;
  ts_mounted : bool
}.
Definition build_snapshot_stats (snapshots : list SnapshotEntry) : list SnapshotStats :=
  (λ snap, mkSnapStats (sn_version snap) (sn_name snap) (sn_created_at snap) 1) <$> snapshots.

(** [run_stats] with the content of [vt0/] and of the whole directory. *)
Definition run_stats (vt0 host : list HostEntry) (d : StoreDir B) : res CmdError StoreStats :=
  _ ← check_format d;
  '(root_opt, snapshots) ← load_segments d;
  let physical_bytes := dir_size vt0 in
  let host_disk_bytes := dir_size host in
  logical ← match root_opt with
            | Some root => st_logical_bytes <$> res_map_err CmdReconstruct (load_from_root (sd_io d) root)
            | None => Ok 0
            end;
  let dedup_ratio := if decide (physical_bytes = 0) then f64_zero
                     else f64_div (f64_of_u64 logical) (f64_of_u64 physical_bytes) in
  Ok (mkStats logical physical_bytes host_disk_bytes dedup_ratio (Z.of_nat (length snapshots))
        (str "none (v3 raw)") (mkRefcountDist 0 0 0) (build_snapshot_stats snapshots) (sd_mount_lock d)).
End snapshot_commands.
