(* ===== verification/Reports.v ===== *)
(** * What the commands print

    The tables and reports of [crates/slicefs-cli/src/stats.rs] and [snapshot.rs], line by
    line. *)

From S2P Require Import Prelude Types Text Blockset Segment Wal SegmentDir Gc Store Mount Calendar Float Commands.
From stdpp Require Import base tactics numbers option list gmap strings.
Open Scope Z_scope.

(* ------------------------------------------------------------------------ *)
(** ** Statistics *)

Definition KIB : Z := 1024.
Definition MIB : Z := 1024 * KIB.
Definition GIB : Z := 1024 * MIB.

(** [format!("{:.2} <unit> ({} bytes)", bytes as f64 / unit as f64, bytes)]. *)
Definition format_amount (bytes unit : Z) (unit_name : list Byte.byte) : list Byte.byte :=
  fmt_f64_2 (f64_div (f64_of_u64 bytes) (f64_of_u64 unit)) ++ str " " ++ unit_name ++
  str " (" ++ fmt_dec bytes ++ str " bytes)".

Definition format_bytes (bytes : Z) : list Byte.byte :=
  if decide (bytes = 0) then str "0 B"
  else if decide (GIB ≤ bytes) then format_amount bytes GIB (str "GiB")
  else if decide (MIB ≤ bytes) then format_amount bytes MIB (str "MiB")
  else if decide (KIB ≤ bytes) then format_amount bytes KIB (str "KiB")
  else fmt_dec bytes ++ str " B".

(** [print_human_stats(&stats)]. *)
Definition print_human_stats (stats : StoreStats) : list bytes :=
  [str "SliceFS Store Statistics"; str "========================";
   str "Logical bytes    : " ++ format_bytes (ts_logical_bytes stats);
   str "CAS bytes        : " ++ format_bytes (ts_physical_bytes stats) ++ str " (vt0/ CAS batch files)";
   str "Host disk used   : " ++ format_bytes (ts_host_disk_bytes stats);
   str "Dedup ratio      : " ++ fmt_f64_2 (ts_dedup_ratio stats) ++ str "x";
   str "Snapshot count   : " ++ fmt_dec (ts_snapshot_count stats);
   str "Compressor       : " ++ ts_compressor stats;
   str "Mounted          : " ++ (if ts_mounted stats then str "yes" else str "no")] ++
  (if decide (ts_snapshots stats = []) then []
   else [[]; str "Snapshots"; str "---------"] ++
        ((λ snap, str "  v" ++ fmt_dec (ss_version snap) ++ str ": " ++
                  default (str "<unnamed>") (ss_name snap) ++ str " (created " ++ fmt_dec (ss_created_at snap) ++ str ")")
           <$> ts_snapshots stats)).

(* ------------------------------------------------------------------------ *)
(** ** Snapshots *)

(** The characters of a string: bytes that do not continue one. *)
Definition char_count (s : bytes) : nat := length (filter (λ b, is_cont b = false) s).
(** [{:<w}]: at least [w] characters. *)
Definition pad_right (w : nat) (s : bytes) : bytes := s ++ replicate (w - char_count s) Byte.x20.

(** A line of the table. *)
Definition snapshot_line (row : Z * bytes * bytes * bytes) : bytes :=
  let '(version, name, created, root) := row in
  pad_right 8 (fmt_dec version) ++ str " " ++ pad_right 20 name ++ str " " ++ pad_right 22 created ++ str " " ++
  root ++ str "...".

(** What [run_snapshot_list] prints of its rows. *)
Definition print_snapshots (rows : list (Z * bytes * bytes * bytes)) : list bytes :=
  if decide (rows = []) then [str "No snapshots found."]
  else [pad_right 8 (str "Version") ++ str " " ++ pad_right 20 (str "Name") ++ str " " ++
        pad_right 22 (str "Created") ++ str " " ++ str "Root"; replicate 80 Byte.x2d] ++
       (snapshot_line <$> rows) ++ [[]; fmt_dec (Z.of_nat (length rows)) ++ str " snapshot(s) total."].

(** What [run_snapshot_create], [run_snapshot_switch] and [run_gc_command] print. *)
Definition print_created (entry : SnapshotEntry) : bytes :=
  str "Snapshot " ++ fmt_dec (sn_version entry) ++ str " created (root: " ++ root_hex (sn_root entry) ++ str ")".
Definition print_switched (target auto_snap : SnapshotEntry) : bytes :=
  str "Switched to snapshot " ++ fmt_dec (sn_version target) ++ str " (auto-snapshot " ++
  fmt_dec (sn_version auto_snap) ++ str " saved)".
Definition print_collected (stats : GcStats) : bytes :=
  str "GC complete: scanned " ++ fmt_dec (gs_entries_scanned stats) ++ str " entries, removed " ++
  fmt_dec (gs_entries_removed stats) ++ str ", compacted " ++ fmt_dec (gs_segments_compacted stats) ++ str " segments".

(* ------------------------------------------------------------------------ *)
(** ** Reading a byte count back *)

Lemma digits_plain n z (b : byte) : ¬ (48 ≤ Z_of_byte b ≤ 57) → b ∉ digits n z.
Proof.
  intros Hb. revert z. induction n as [|n IH]; intros z; [apply not_elem_of_nil|]. cbn [digits].
  rewrite elem_of_app, list_elem_of_singleton. intros [H| ->]; [by eapply IH|]. apply Hb.
  pose proof (Z.mod_pos_bound z 10 ltac:(lia)). rewrite Z_of_digit by done. lia.
Qed.

Lemma fmt_dec_inj a b : is_u64 a → is_u64 b → fmt_dec a = fmt_dec b → a = b.
Proof.
  intros Ha Hb Heq. apply (f_equal parse_u64) in Heq. unfold fmt_dec in Heq.
  rewrite !parse_fmt_pad in Heq by done. by injection Heq.
Qed.

(** The last parenthesis holds the count. *)
Lemma format_amount_inj a b ua ub na nb :
  is_u64 a → is_u64 b → format_amount a ua na = format_amount b ub nb → a = b.
Proof.
  intros Ha Hb. unfold format_amount. change (str " (") with ([Byte.x20] ++ [Byte.x28]). rewrite !app_assoc.
  intros Heq%app_inv_tail. rewrite <-!app_assoc in Heq.
  assert (∀ (p q : bytes) x y, Byte.x28 ∉ x → Byte.x28 ∉ y → p ++ [Byte.x28] ++ x = q ++ [Byte.x28] ++ y → x = y) as Hsplit.
  { intros p q x y Hx Hy H. by apply not_elem_of_app_cons_inv_r in H as (_ & _ & ->). }
  apply fmt_dec_inj; [done..|]. rewrite !app_assoc in Heq. rewrite <-!(app_assoc _ [Byte.x28]) in Heq.
  eapply Hsplit; [..|exact Heq]; apply (digits_plain _ _ Byte.x28); change (Z_of_byte Byte.x28) with 40; lia.
Qed.

(** The amount in hundredths of its unit, and the unit. *)
Definition unit_of (n : Z) : Z * bytes :=
  if decide (GIB ≤ n) then (GIB, str "GiB") else if decide (MIB ≤ n) then (MIB, str "MiB") else (KIB, str "KiB").

Lemma format_bytes_small n : 0 ≤ n < KIB → format_bytes n = fmt_dec n ++ str " B".
Proof.
  intros Hn. unfold format_bytes, GIB, MIB. case_decide as H0; [by subst|].
  rewrite !decide_False by (unfold KIB in *; lia). done.
Qed.

Lemma format_bytes_large n :
  KIB ≤ n → format_bytes n = format_amount n (unit_of n).1 (unit_of n).2 ∧ (unit_of n).1 ≤ n.
Proof.
  intros Hn. unfold format_bytes, unit_of. rewrite decide_False by (unfold KIB in *; lia).
  repeat case_decide; try done; lia.
Qed.

Lemma format_bytes_inj a b : is_u64 a → is_u64 b → format_bytes a = format_bytes b → a = b.
Proof.
  intros Ha Hb Heq.
  destruct (decide (a < KIB)) as [Hka|Hka], (decide (b < KIB)) as [Hkb|Hkb].
  - rewrite !format_bytes_small in Heq by (unfold is_u64 in *; lia).
    apply app_inv_tail in Heq. by apply fmt_dec_inj.
  - rewrite format_bytes_small in Heq by (unfold is_u64 in *; lia).
    rewrite (proj1 (format_bytes_large b ltac:(lia))) in Heq. apply (f_equal last) in Heq. unfold format_amount in Heq.
    by rewrite !app_assoc, !last_app in Heq.
  - rewrite (format_bytes_small b) in Heq by (unfold is_u64 in *; lia).
    rewrite (proj1 (format_bytes_large a ltac:(lia))) in Heq. apply (f_equal last) in Heq. unfold format_amount in Heq.
    by rewrite !app_assoc, !last_app in Heq.
  - rewrite (proj1 (format_bytes_large a ltac:(lia))), (proj1 (format_bytes_large b ltac:(lia))) in Heq.
    by eapply format_amount_inj.
Qed.

(** Below 2^53 the amount is the quotient, rounded once. *)
Lemma format_bytes_amount n :
  KIB ≤ n < 2 ^ 53 →
  format_bytes n = fixed2 (div_half_even (n * 100) (unit_of n).1) ++ str " " ++ (unit_of n).2 ++
                   str " (" ++ fmt_dec n ++ str " bytes)".
Proof.
  intros Hn. rewrite (proj1 (format_bytes_large n ltac:(lia))). unfold format_amount. f_equal.
  assert (∃ k, (unit_of n).1 = 2 ^ k ∧ 0 < k ≤ 52) as (k & -> & Hk).
  { unfold unit_of, GIB, MIB, KIB. repeat case_decide; [exists 30|exists 20|exists 10]; done. }
  apply fmt_quotient; [unfold KIB in *; lia|done].
Qed.
