(* ===== verification/MountRefine.v ===== *)
(** * What a mount restores

    [dir_holds d a] says that the store directory [d] holds the file system [a]: its
    last logged root loads to it, now and after more content was stored.
    [load_store] then succeeds with a store that represents [a]; and after a
    session of operations, commits and flushes that ends in a crash, the directory
    holds one of the committed file systems, none older than the last one that a
    successful flush covered. *)

From S2P Require Import Prelude Types Text Blockset Inode InodeMap Xattr Directory Segment Wal.
From S2P Require Import SegmentDir Gc Store StoreSpec StoreRefine StoreCommit Snapshots Mount.
From S2P Require Import Filesystem Frames.
From stdpp Require Import base tactics numbers option list gmap strings sorting.
Open Scope Z_scope.

(* ------------------------------------------------------------------------ *)
(** ** The boxed log *)

Definition box_rep (id : Z) (b : WalBox) (d l : list WalEntry) : Prop :=
  match b with
  | BoxPerOp w => wal_rep id w d l
  | BoxFlushOnFsync w => wal_rep id w d l
  | BoxPeriodic w => wal_rep id w d l
  | BoxNoWal _ => False
  end.
(** A call on the box is a call on the strategy inside. *)
Ltac unbox :=
  intros; match goal with b : WalBox |- _ => destruct b as [w|w|w|w] end; try done;
  match goal with H : _ = (?b, ?r) |- _ =>
    cbn -[per_op_strategy flush_on_fsync_strategy periodic_strategy] in H; unfold box_call in H;
    let w' := fresh "w'" in let r' := fresh "r'" in let E := fresh "E" in
    match type of H with (let '(_, _) := ?c in _) = _ =>
      destruct c as [w' r'] eqn:E; injection H as <- <- end
  end.

#[export] Program Instance box_laws : WalLaws WalBox := {|
  wal_rep := box_rep;
  wal_writer := box_writer
|}.
Next Obligation. unbox; by eapply wal_log_spec. Qed.
Next Obligation. unbox; by eapply wal_flush_spec. Qed.
Next Obligation. unbox; by eapply wal_shutdown_spec. Qed.
Next Obligation. intros id [w|w|w|w] d l file; try done; exact (wal_crash_spec id w d l file). Qed.

(** The log that a mount starts with, unless it was asked for none. *)
Lemma create_wal_rep config id faults :
  config ≠ CfgNoWal → box_rep id (create_wal config id faults) [] [].
Proof.
  destruct config; intros Hc; [apply per_op_new_rep|apply buffered_new_rep..|done].
Qed.

(** The whole file of a log that is durable. *)
Lemma box_rep_file id b l :
  is_u64 id → box_rep id b l l →
  recovered (sw_synced (box_writer b) ++ sw_pending (box_writer b)) = Ok (wal_entry_to_segment <$> l).
Proof.
  intros Hid Hrep.
  destruct (wal_crash_spec (WalLaws := box_laws) id b l l
              (sw_synced (box_writer b) ++ sw_pending (box_writer b))) as (es & -> & H1 & H2);
    [done|done| |by rewrite (anti_symm prefix _ _ H1 H2)].
  exists (length (sw_synced (box_writer b) ++ sw_pending (box_writer b))).
  split; [rewrite length_app; apply Nat.le_add_r|by rewrite firstn_all].
Qed.

(** Without failing syncs, nothing fails. *)
Definition box_calm (b : WalBox) : Prop := calm (sw_faults (box_writer b)).

Lemma create_wal_calm config id faults : calm faults → box_calm (create_wal config id faults).
Proof. by destruct config; [..|constructor]. Qed.

Lemma box_log_calm e b : box_calm b → box_calm (log_mutation e b).1.
Proof.
  unfold box_calm. destruct b as [w|w|w|w]; [|done..]. intros Hc.
  cbn -[per_op_log]. unfold box_call. cbn -[per_op_log].
  unfold per_op_log, per_op_sync, zoom. rewrite run_bind. cbn [modify].
  destruct (sync_writer _) as [w' r] eqn:E. by apply sync_calm in E as [_ ?].
Qed.

Lemma box_flush_calm b : box_calm b → box_calm (flush_and_sync b).1 ∧ (flush_and_sync b).2 = Ok tt.
Proof.
  unfold box_calm. destruct b as [w|w|w|w]; [..|done]; intros Hc.
  all: cbn -[per_op_sync flush_on_fsync_flush periodic_flush]; unfold box_call;
    cbn -[per_op_sync flush_on_fsync_flush periodic_flush].
  - unfold per_op_sync, zoom. destruct (sync_writer _) as [w' r] eqn:E.
    by apply sync_calm in E as [-> ?].
  - unfold flush_on_fsync_flush, zoom. rewrite run_bind. cbn [modify fl_writer].
    destruct (sync_writer _) as [w' r] eqn:E.
    apply sync_calm in E as [-> ?]; [done|by rewrite drain_buffer_faults].
  - unfold periodic_flush, zoom. rewrite run_bind. cbn [modify pe_writer].
    destruct (sync_writer _) as [w' r] eqn:E.
    apply sync_calm in E as [-> ?]; [done|by rewrite drain_buffer_faults].
Qed.

(** Every strategy shuts down by a flush. *)
Lemma box_shutdown_flush b : shutdown b = flush_and_sync b.
Proof. by destruct b. Qed.

(* ------------------------------------------------------------------------ *)
(** ** Segment numbers *)

Lemma segment_number_name w id : is_u64 id → segment_number (seg_file_name w id) = Some id.
Proof.
  intros Hid. unfold segment_number. rewrite is_segment_name_file. unfold seg_file_name.
  rewrite (drop_app_length' (str "segment-")) by done.
  rewrite take_app_length' by (rewrite !length_app; cbn; lia). by apply parse_fmt_pad.
Qed.

(** The next number is above all others. *)
Lemma next_segment_id_above dir m :
  dir_rep dir m → map_Forall (λ k _, k < next_segment_id (Some dir)) m ∧
                  0 < next_segment_id (Some dir).
Proof.
  intros Hrep. unfold next_segment_id. cbn [default from_option].
  set (l := omap _ _).
  assert (∀ k, k ∈ l ↔ is_Some (m !! k)) as Hl.
  { intros k. unfold l. rewrite list_elem_of_omap. split.
    - intros ([n f] & Hn%elem_of_map_to_list & Hk). cbn in Hk. unfold segment_number in Hk.
      destruct (is_segment_name n) eqn:Hseg; [|done].
      destruct (dir_named _ _ Hrep _ _ Hn Hseg) as (j & -> & Hj).
      assert (seg_number j) as Hnum by by eapply dir_rep_number.
      pose proof (segment_number_name 6 j) as Hsn. unfold segment_number in Hsn.
      change (seg_file_name 6 j) with (seg_name j) in Hsn. rewrite Hseg in Hsn.
      rewrite Hsn in Hk by (unfold seg_number, is_u64 in *; lia). injection Hk as <-. by eexists.
    - intros [f Hf]. destruct (dir_numbered _ _ Hrep _ _ Hf) as [Hnum Hd].
      exists (seg_name k, f). split; [by apply elem_of_map_to_list|].
      apply segment_number_name. unfold seg_number, is_u64 in *. lia. }
  assert (0 ≤ foldr Z.max 0 l < 10 ^ 6 ∧ ∀ k, k ∈ l → k ≤ foldr Z.max 0 l) as [Hr Hmax].
  { assert (Forall seg_number l) as Hnum.
    { apply Forall_forall. intros k [f Hf]%Hl. by eapply dir_rep_number. }
    clear -Hnum. induction Hnum as [|k l Hk _ [IH IH']]; cbn.
    - split; [lia|]. by intros k ?%elem_of_nil.
    - unfold seg_number in Hk. split; [lia|]. intros j [->|Hj%IH']%elem_of_cons; lia. }
  unfold wrap64. rewrite Z.mod_small by lia. split; [|lia].
  intros k f Hk. specialize (Hmax k). rewrite Hl in Hmax. specialize (Hmax (ex_intro _ _ Hk)). cbn. lia.
Qed.

(* ------------------------------------------------------------------------ *)
(** ** The directory that holds a file system *)

Section holds.
Context {B : Blockset} {L : BlocksetLaws B}.
Implicit Types (s : DictMetadataStore B) (d : StoreDir B) (a : AbsFs).

(** The root [r] loads to [a], whatever else is stored later. *)
Definition root_holds (io : Io) (r : Digest224) (a : AbsFs) : Prop :=
  ∀ io', io ⊑ᵢ io' → healthy io' → ∃ s, load_from_root io' r = Ok s ∧ store_rep s a.

(** The directory has numbered segments that denote the log [es]. *)
Record dir_log d (m : gmap Z bytes) (es : list SegmentEntry) : Prop := {
  dl_format : sd_dictionary_bin d = false;
  dl_segments : ∃ segs, sd_segments d = Some segs ∧ dir_rep segs m;
  dl_log : numbered_log m = Ok es
}.

Definition dir_holds d a : Prop :=
  ∃ m es r, dir_log d m es ∧ log_root es = Some r ∧ healthy (sd_io d) ∧ root_holds (sd_io d) r a.

Lemma root_holds_mono (io io' : Io) r a : io ⊑ᵢ io' → root_holds io r a → root_holds io' r a.
Proof. intros Hle Hr io'' Hle' Hh. apply Hr; [by etransitivity|done]. Qed.

Lemma load_from_root_io (io : Io) r s : load_from_root io r = Ok s → st_io s = io.
Proof.
  unfold load_from_root. intros H.
  repeat match type of H with
  | ?x ≫= _ = _ => destruct x; cbn [mbind res_bind] in H; [|done..]
  end.
  case_decide; [done|]. by injection H as <-.
Qed.

Lemma take_mount_lock_run d : take_mount_lock d = (set_lock true d, Ok tt).
Proof. by destruct d as [dict [] segs io]. Qed.

Lemma rep_set_snapshots s a l : store_rep s a → store_rep (set_snapshots l s) a.
Proof. intros []. by split. Qed.

(** Mounting: the store represents what the directory holds, the lock is taken
    even if a crashed mount had left it, and a new segment is opened. *)
Lemma load_store_run config faults d m es r a :
  dir_log d m es → log_root es = Some r → healthy (sd_io d) → root_holds (sd_io d) r a →
  ∃ segs s, sd_segments d = Some segs ∧ dir_rep segs m ∧
    let id := next_segment_id (Some segs) in
    load_store config faults d =
      (mkStoreDir B false true (Some (open_segment config id segs)) (sd_io d), Ok s) ∧
    store_rep s a ∧ st_io s = sd_io d ∧ st_wal s = Some (create_wal config id faults) ∧
    snapshots_of s (log_snapshots es).
Proof.
  intros [Hfmt (segs & Hsegs & Hrep) Hlog] Hr Hh Hroot.
  destruct (Hroot (sd_io d)) as (s0 & Hload & Hs0); [done|done|].
  exists segs, (set_wal (create_wal config (next_segment_id (Some segs)) faults)
                  (set_snapshots (log_snapshots es) s0)).
  split; [done|]. split; [done|]. cbn zeta. split_and!.
  - unfold load_store. rewrite run_bind. cbn [gets]. change (id d) with d. rewrite Hfmt, Hsegs.
    rewrite decide_False by done. rewrite run_bind, take_mount_lock_run. unfold guarded.
    cbn [default from_option]. change (id segs) with segs.
    rewrite run_bind, (load_store_numbered _ _ Hrep), Hlog. cbn [lift fmap res_fmap res_map_err].
    rewrite run_bind, Hr. cbn [lift ok_or]. rewrite run_bind, Hload. cbn [lift res_map_err].
    rewrite run_bind. cbn [modify set_segments set_lock sd_dictionary_bin sd_mount_lock sd_io].
    unfold set_segments, set_lock. cbn [mret M_ret sd_dictionary_bin sd_mount_lock sd_io]. by rewrite Hfmt.
  - by apply rep_upd_wal, rep_set_snapshots.
  - by apply load_from_root_io in Hload.
  - done.
  - apply set_snapshots_of.
Qed.

Lemma root_holds_commit s a :
  store_rep s a → tables_fit s → is_Some (a_inodes a !! 1) →
  Forall admissible (commit_contents s) →
  store_rep (commit s).1 a ∧ st_io s ⊑ᵢ st_io (commit s).1 ∧
  root_holds (st_io (commit s).1) (commit_digest s) a.
Proof.
  intros Hr Hfit Hroot Hadm.
  destruct (commit_rep s a Hr Hadm) as (s' & Hc & Hr' & Hio & _).
  destruct (push_list_spec _ _ (rep_io _ _ Hr) Hadm) as (_ & Hle & _). rewrite <-Hio in Hle.
  rewrite Hc. cbn [fst]. split_and!; [done|done|]. intros io' Hle' Hh.
  destruct (commit_load s a io' Hr Hfit Hroot Hadm) as (s1 & r1 & Hc1 & _ & Hl).
  rewrite Hc1 in Hc. injection Hc as -> ->. destruct (Hl Hle' Hh) as (s2 & H2 & Hr2 & _). by exists s2.
Qed.

(* ------------------------------------------------------------------------ *)
(** ** Sessions *)

(** [session s0 a0 s a h n]: since the mount in state [s0] operations led to [s], which
    represents [a]; [h] are the file systems that were committed on the way, and
    the first [n] of them are covered by a flush of the log that succeeded. *)
Inductive session s0 a0 : DictMetadataStore B → AbsFs → list AbsFs → nat → Prop :=
  | session_start : session s0 a0 s0 a0 [] 0
  | session_op s a h n s' a' :
      session s0 a0 s a h n → store_rep s' a' → st_wal s' = st_wal s → st_io s ⊑ᵢ st_io s' →
      session s0 a0 s' a' h n
  | session_commit s a h n :
      session s0 a0 s a h n → tables_fit s → is_Some (a_inodes a !! 1) →
      Forall admissible (commit_contents s) →
      session s0 a0 (commit s).1 a (h ++ [a]) n
  | session_snapshot s a h n now name :
      session s0 a0 s a h n → tables_fit s → is_Some (a_inodes a !! 1) →
      Forall admissible (commit_contents s) → is_u64 now → wf_name name →
      session s0 a0 (create_snapshot now name s).1 a (h ++ [a]) n
  | session_flush s a h n s' r :
      session s0 a0 s a h n → flush_wal s = (s', r) →
      session s0 a0 s' a h (match r with Ok _ => length h | _ => n end).

(** The roots of a sequence of log entries. *)
Definition wal_roots (l : list WalEntry) : list Digest224 :=
  omap entry_root (wal_entry_to_segment <$> l).

Lemma wal_roots_app l l' : wal_roots (l ++ l') = wal_roots l ++ wal_roots l'.
Proof. unfold wal_roots. by rewrite fmap_app, omap_app. Qed.

Lemma wal_roots_prefix l l' : l `prefix_of` l' → wal_roots l `prefix_of` wal_roots l'.
Proof. intros [k ->]. rewrite wal_roots_app. by eexists. Qed.

(** What holds all through a session that logs to segment [id]. *)
Record session_inv (id : Z) (io0 : Io) s a (h : list AbsFs) (n : nat) : Prop := {
  si_rep : store_rep s a;
  si_io : io0 ⊑ᵢ st_io s;
  si_log : ∃ (b : WalBox) (durable logged : list WalEntry),
    st_wal s = Some b ∧ box_rep id b durable logged ∧
    Forall2 (root_holds (st_io s)) (wal_roots logged) h ∧ (n ≤ length (wal_roots durable))%nat
}.

Lemma session_inv_log id io0 s a h n e s' :
  session_inv id io0 s a h n → wf_walentry e → store_rep s' a → st_io s ⊑ᵢ st_io s' →
  st_wal s' = wal_logged e (st_wal s) →
  ∀ h', Forall2 (root_holds (st_io s')) (wal_roots [e]) h' → session_inv id io0 s' a (h ++ h') n.
Proof.
  intros [Hr Hio (b & d & l & Hb & Hrep & Hh & Hn)] He Hr' Hle Hw h' Hh'.
  split; [done|by etransitivity|].
  destruct (log_mutation e b) as [b' r] eqn:E.
  destruct (wal_log_spec (WalLaws := box_laws) _ _ _ _ _ _ _ Hrep He E) as (_ & d' & Hrep' & Hp).
  exists b', d', (l ++ [e]). rewrite Hw, Hb. unfold wal_logged. cbn [fmap option_fmap option_map].
  rewrite E. split_and!; [done|done| |].
  - rewrite wal_roots_app. apply Forall2_app; [|done].
    eapply Forall2_impl; [exact Hh|]. intros ??. by apply root_holds_mono.
  - apply wal_roots_prefix, prefix_length in Hp. lia.
Qed.

Lemma session_inv_commit id io0 s a h n :
  session_inv id io0 s a h n → tables_fit s → is_Some (a_inodes a !! 1) →
  Forall admissible (commit_contents s) → session_inv id io0 (commit s).1 a (h ++ [a]) n.
Proof.
  intros Hi Hfit Hroot Hadm.
  destruct (root_holds_commit s a (si_rep _ _ _ _ _ _ Hi) Hfit Hroot Hadm) as (Hr & Hle & Hh).
  apply (session_inv_log id io0 s a h n (WalRootUpdate (commit_digest s))); try done.
  - apply digest_of_wf.
  - by rewrite commit_run.
  - by constructor.
Qed.

Lemma session_inv_snapshot id io0 s a h n now name :
  session_inv id io0 s a h n → tables_fit s → is_Some (a_inodes a !! 1) →
  Forall admissible (commit_contents s) → is_u64 now → wf_name name →
  session_inv id io0 (create_snapshot now name s).1 a (h ++ [a]) n.
Proof.
  intros IH Hfit Hroot Hadm Hnow Hname.
  pose proof (session_inv_commit _ _ _ _ _ _ IH Hfit Hroot Hadm) as Hc.
  destruct (create_snapshot_state now name s) as (s' & Hs' & _ & _ & _ & Hio & Hrep).
  pose proof (create_snapshot_wal now name s) as Hw. rewrite Hs' in Hw |- *. cbn [fst] in *.
  assert (st_io s' = st_io (commit s).1) as Hio' by by rewrite commit_run.
  destruct (root_holds_commit s a (si_rep _ _ _ _ _ _ IH) Hfit Hroot Hadm) as (Hr & Hle & Hh).
  rewrite <-(app_nil_r (h ++ [a])).
  eapply (session_inv_log id io0 (commit s).1 a (h ++ [a]) n
            (WalSnapshot _ (commit_digest s) now name)); [exact Hc| | | | |constructor].
  - split_and!; [apply Z.mod_pos_bound; lia|apply digest_of_wf|done|done].
  - apply Hrep. rewrite Hio'. apply rep_io_grows; [apply IH|apply (rep_io _ _ Hr)|done].
  - by rewrite Hio'.
  - by rewrite Hw, commit_run.
Qed.

Lemma session_inv_holds id io0 s0 a0 s a h n :
  session_inv id io0 s0 a0 [] 0 → session s0 a0 s a h n → session_inv id io0 s a h n.
Proof.
  intros H0. induction 1 as [|s a h n s' a' _ IH Hr Hw Hle|s a h n _ IH|s a h n now name _ IH Hfit Hroot Hadm Hnow Hname
    |s a h n s' r _ IH Hf]; [done|..].
  - destruct IH as [_ Hio (b & d & l & Hb & Hrep & Hh & Hn)]. split; [done|by etransitivity|].
    exists b, d, l. rewrite Hw. split_and!; [done|done| |done].
    eapply Forall2_impl; [exact Hh|]. intros ??. by apply root_holds_mono.
  - by apply session_inv_commit.
  - by apply session_inv_snapshot.
  - destruct IH as [Hr Hio (b & d & l & Hb & Hrep & Hh & Hn)].
    unfold flush_wal, on_wal in Hf. rewrite Hb in Hf.
    destruct (flush_and_sync b) as [b' r'] eqn:E. injection Hf as <- <-.
    destruct (wal_flush_spec (WalLaws := box_laws) _ _ _ _ _ _ Hrep E) as (_ & d' & Hrep' & Hp & Hok).
    split; [by apply rep_upd_wal|done|]. exists b', d', l. split_and!; [done|done|done|].
    apply wal_roots_prefix, prefix_length in Hp. destruct r' as [[]| |]; [|lia..].
    rewrite Hok by done. by rewrite (Forall2_length _ _ _ Hh).
Qed.

(* ------------------------------------------------------------------------ *)
(** ** Crashes *)

(** The directory after a crash: the log of the session is the file [file], the
    lock is still there. *)
Definition crash (id : Z) (file : bytes) (io : Io) d : StoreDir B :=
  mkStoreDir B (sd_dictionary_bin d) (sd_mount_lock d)
    (Some (<[seg_name id := file]> (default ∅ (sd_segments d)))) io.

(** The state at the start of a session. *)
Lemma session_inv_start config faults id s0 a0 :
  config ≠ CfgNoWal → store_rep s0 a0 → st_wal s0 = Some (create_wal config id faults) →
  session_inv id (st_io s0) s0 a0 [] 0.
Proof.
  intros Hc Hr Hw. split; [done|done|]. eexists _, [], []. split_and!; [exact Hw| |constructor|done].
  by apply create_wal_rep.
Qed.

(** Whatever the crash left of the log file, the directory holds the file system
    of the mount or one that was committed since. *)
Lemma crash_holds id m es r a0 d h n b dur lg file (io : Io) :
  dir_log d m es → log_root es = Some r → root_holds (sd_io d) r a0 →
  map_Forall (λ k _, k < id) m → seg_number id →
  box_rep id b dur lg → Forall2 (root_holds io) (wal_roots lg) h → (n ≤ length (wal_roots dur))%nat →
  crash_image (box_writer b) file → sd_io d ⊑ᵢ io → healthy io →
  ∃ k ak, (a0 :: h) !! k = Some ak ∧ (n ≤ k)%nat ∧ dir_holds (crash id file io d) ak.
Proof.
  intros [Hfmt (segs & Hsegs & Hrep) Hlog] Hr Hroot Hid Hnum Hbox Hh Hn Hcrash Hle Hio'.
  destruct (wal_crash_spec (WalLaws := box_laws) id b dur lg file) as (ws & Hws & Hp1 & Hp2);
    [unfold seg_number, is_u64 in *; lia|done|done|].
  apply wal_roots_prefix in Hp1, Hp2. apply prefix_length in Hp1.
  assert (∀ r' ak, log_root (es ++ (wal_entry_to_segment <$> ws)) = Some r' →
            root_holds io r' ak → dir_holds (crash id file io d) ak) as Hdir.
  { intros r' ak Hr' Hak. exists (<[id := file]> m), (es ++ (wal_entry_to_segment <$> ws)), r'.
    split_and!; [|done|done|done]. split; [done| |].
    - eexists. split; [reflexivity|]. rewrite Hsegs. by apply dir_rep_insert.
    - rewrite numbered_log_last, Hlog, Hws by done. done. }
  rewrite log_root_app in Hdir.
  change (log_root (wal_entry_to_segment <$> ws)) with (last (wal_roots ws)) in Hdir.
  destruct (wal_roots ws) as [|r' rs _] eqn:Hrs using rev_ind.
  - exists 0%nat, a0. split_and!; [done|cbn in *; lia|]. apply (Hdir r); [done|].
    by eapply root_holds_mono.
  - destruct Hp2 as [k Hk]. rewrite last_snoc in Hdir.
    assert (wal_roots lg !! length rs = Some r') as Hlk.
    { rewrite Hk, <-app_assoc. rewrite lookup_app_r, Nat.sub_diag by lia. done. }
    destruct (Forall2_lookup_l _ _ _ _ _ Hh Hlk) as (ak & Hak & Hrk).
    exists (S (length rs)), ak. split_and!; [done|rewrite length_app in Hp1; cbn in Hp1; lia|].
    by apply (Hdir r').
Qed.

Lemma crash_mounted config id file (io : Io) d segs a :
  config ≠ CfgNoWal → sd_segments d = Some segs → sd_dictionary_bin d = false →
  dir_holds (crash id file io d) a →
  dir_holds (crash id file io (mkStoreDir B false true (Some (open_segment config id segs)) (sd_io d))) a.
Proof.
  intros Hc Hsegs Hfmt (m & es & r & [_ (segs' & Hsegs' & Hrep) Hlog] & H). exists m, es, r.
  split; [|exact H]. split; [done| |done]. exists segs'. split; [|done].
  unfold crash in *. cbn [sd_segments] in *. rewrite Hsegs in Hsegs'. cbn in *.
  by destruct config; cbn; rewrite ?insert_insert_eq.
Qed.

Lemma session_crash config faults d d' s0 a0 s a h n b file (io : Io) :
  dir_holds d a0 → config ≠ CfgNoWal → seg_number (next_segment_id (sd_segments d)) →
  load_store config faults d = (d', Ok s0) → session s0 a0 s a h n →
  st_wal s = Some b → crash_image (box_writer b) file → st_io s ⊑ᵢ io → healthy io →
  ∃ k ak, (a0 :: h) !! k = Some ak ∧ (n ≤ k)%nat ∧
          dir_holds (crash (next_segment_id (sd_segments d)) file io d') ak.
Proof.
  intros (m & es & r & Hlog & Hr & Hhealthy & Hroot) Hc Hid Hload Hs Hb Hcrash Hle Hio.
  destruct (load_store_run config faults d m es r a0) as (segs & s1 & Hsegs & Hrep & Hl & Hs1 & Hio1 & Hw & _);
    [done..|].
  rewrite Hsegs in *. rewrite Hl in Hload. injection Hload as <- ->.
  pose proof (session_inv_holds _ _ _ _ _ _ _ _ (session_inv_start config faults _ _ _ Hc Hs1 Hw) Hs)
    as [_ Hio0 (b' & dur & lg & Hb' & Hbox & Hh & Hn)].
  rewrite Hb' in Hb. injection Hb as ->. rewrite Hio1 in Hio0.
  destruct (crash_holds (next_segment_id (Some segs)) m es r a0 d h n b dur lg file io)
    as (k & ak & Hk & Hnk & Hd); try done.
  - by apply next_segment_id_above.
  - eapply Forall2_impl; [exact Hh|]. intros ??. by apply root_holds_mono.
  - by etransitivity.
  - exists k, ak. split_and!; [done|done|]. by apply crash_mounted; [|done|apply Hlog|].
Qed.
End holds.

Section fsync.
Context {B : Blockset} {L : BlocksetLaws B}.

(** [fsync] writes nothing to the log that was not there before. *)
Lemma fsync_logs_nothing now ino fh (f f' : SliceFsFilesystem B) r id b d l :
  fs_wal f = Some b → box_rep id b d l → test_fsync now ino fh f = (f', r) →
  ∃ b' d', fs_wal f' = Some b' ∧ box_rep id b' d' l ∧ (box_calm b → box_calm b').
Proof.
  intros Hb Hrep. unfold test_fsync. rewrite run_bind.
  pose proof (fs_frame_wal _ _ (flush_buffer_keeps now ino fh f)) as Hk.
  destruct (flush_buffer_for_fsync now ino fh f) as [f1 [[]|e|]]; cbn [fst] in Hk;
    [|intros [= <- <-]; exists b, d; by rewrite Hk..].
  unfold map_err, zoom, flush_wal, on_wal. unfold fs_wal in *. rewrite Hk, Hb.
  destruct (flush_and_sync b) as [b' r'] eqn:E. intros [= <- _].
  destruct (wal_flush_spec (WalLaws := box_laws) _ _ _ _ _ _ Hrep E) as (_ & d' & Hrep' & _).
  exists b', d'. split_and!; [done|done|]. intros Hc. pose proof (box_flush_calm b Hc) as [Hc' _].
  by rewrite E in Hc'.
Qed.
End fsync.

(* ------------------------------------------------------------------------ *)
(** ** The collector *)

Section twice.
Context {K V : Type} `{Countable K}.
Implicit Types (m : gmap K V) (l : list (K * V)).

(** Inserting a list of pairs over any map gives the list precedence. *)
Lemma foldl_insert_all l m :
  foldl (λ m kv, <[kv.1 := kv.2]> m) m l = insert_all l ∪ m.
Proof.
  induction l as [|[k v] l IH] using rev_ind.
  { change (m = ∅ ∪ m). by rewrite map_empty_union. }
  rewrite foldl_app, IH, insert_all_snoc. cbn. by rewrite insert_union_l.
Qed.

Lemma insert_all_twice l : insert_all (l ++ l) = insert_all l.
Proof.
  unfold insert_all at 1. rewrite foldl_app. fold (insert_all l).
  rewrite foldl_insert_all. apply map_union_idemp.
Qed.
End twice.

Section collect.
Context {B : Blockset} {L : BlocksetLaws B}.
Implicit Types (d : StoreDir B) (a : AbsFs).

(** A log that was copied has the same snapshots. *)
Lemma set_snapshots_twice es (s : DictMetadataStore B) :
  set_snapshots (log_snapshots (es ++ es)) s = set_snapshots (log_snapshots es) s.
Proof.
  unfold log_snapshots. rewrite omap_app. unfold set_snapshots.
  by rewrite fmap_app, omap_app, !insert_all_twice.
Qed.

Lemma log_root_twice es : log_root (es ++ es) = log_root es.
Proof. rewrite log_root_app. by destruct (log_root es). Qed.

(** The collector command is a pass over the segments. *)
Lemma run_gc_command_run d segs root snaps listing faults :
  sd_mount_lock d = false → sd_segments d = Some segs →
  load_store_from_segments segs = Ok (root, snaps) →
  run_gc_command listing faults d =
  (set_segments (run_gc_inner listing faults segs).1 d,
   res_map_err GcFailed (run_gc_inner listing faults segs).2).
Proof.
  intros Hlock Hsegs Hload. unfold run_gc_command. rewrite run_bind. cbn [gets].
  change (id d) with d. rewrite Hlock, Hsegs, decide_False by done.
  cbn [default from_option]. change (id segs) with segs. rewrite run_bind, Hload.
  cbn [lift res_map_err]. unfold map_err, zoom. rewrite Hsegs.
  cbn [default from_option]. change (id segs) with segs. unfold run_gc.
  by destruct (run_gc_inner listing faults segs) as [dir' [x|e|]].
Qed.

Lemma gc_command_holds d m es r a segs listing :
  dir_log d m es → log_root es = Some r → healthy (sd_io d) → root_holds (sd_io d) r a →
  sd_mount_lock d = false → sd_segments d = Some segs → dir_rep segs m → collectable m →
  listing ≡ₚ (map_to_list segs).*1 →
  (∀ n, is_Some (segs !! n) → has_seg_extension n = true → is_segment_name n = true) →
  ∃ d' stats es', run_gc_command listing [] d = (d', Ok stats) ∧
    gs_segments_compacted stats = Z.of_nat (size m) ∧ dir_holds d' a ∧
    load_store_from_segments (default ∅ (sd_segments d')) = Ok (Some r, log_snapshots es') ∧
    ∀ s : DictMetadataStore B,
      set_snapshots (log_snapshots es') s = set_snapshots (log_snapshots es) s.
Proof.
  intros [Hfmt _ Hlog] Hr Hh Hroot Hlock Hsegs Hrep Hc Hlist Hext.
  destruct (run_gc_log segs m listing Hrep Hlist Hext Hc)
    as (dir' & m' & stats & es' & Hrun & Hlog0 & Hrep' & Hlog' & Hsize).
  rewrite Hlog in Hlog0. injection Hlog0 as <-.
  exists (set_segments dir' d), stats, (es ++ es). split_and!; [|done| | |apply set_snapshots_twice].
  - rewrite (run_gc_command_run d segs (log_root es) (log_snapshots es)), Hrun; [done|done|done|].
    by rewrite (load_store_numbered _ _ Hrep), Hlog.
  - exists m', (es ++ es), r. rewrite log_root_twice. split_and!; [|done|done|done].
    split; [done|by exists dir'|done].
  - cbn. by rewrite (load_store_numbered _ _ Hrep'), Hlog', <-Hr, <-(log_root_twice es).
Qed.
End collect.
