(* ===== verification/CommandsRefine.v ===== *)
(** * What the commands on an unmounted store do to it

    Creating a snapshot keeps the file system of the directory; switching replaces
    it by that of the snapshot and keeps the one before reachable; both whatever
    syncs of the log fail.  A scrub of a directory is clean exactly when all
    roots can be read and the current one loads; the statistics report the sizes
    of the files. *)

From S2P Require Import Prelude Types Text Blockset Inode InodeMap Xattr Directory Segment Wal.
From S2P Require Import SegmentDir Store StoreSpec StoreRefine StoreCommit Snapshots Mount.
From S2P Require Import Calendar Commands MountRefine.
From stdpp Require Import base tactics numbers option list gmap strings.
Open Scope Z_scope.

Section logging.
Context {B : Blockset} {L : BlocksetLaws B}.
Implicit Types (s : DictMetadataStore B) (d : StoreDir B) (a : AbsFs).

(** [s] logs to segment [id] on every operation and has logged [l]. *)
Definition logging (id : Z) (faults : list bool) s (l : list WalEntry) : Prop :=
  ∃ w dur, st_wal s = Some (BoxPerOp w) ∧ per_op_rep id w dur l ∧
           (calm faults → calm (sw_faults (po_writer w))).

Lemma logging_new id faults s :
  st_wal s = Some (create_wal CfgPerOp id faults) → logging id faults s [].
Proof. intros Hw. exists (per_op_new id faults), []. split_and!; [done|apply per_op_new_rep|done]. Qed.

Lemma logging_log id faults s s' l e :
  logging id faults s l → wf_walentry e → st_wal s' = wal_logged e (st_wal s) →
  logging id faults s' (l ++ [e]).
Proof.
  intros (w & dur & Hw & Hrep & Hc) He Hw'. rewrite Hw in Hw'.
  destruct (per_op_log e w) as [w1 r1] eqn:E.
  assert (log_mutation e (BoxPerOp w) = (BoxPerOp w1, r1)) as Hb
    by (cbn -[per_op_log]; unfold box_call; cbn -[per_op_log]; by rewrite E).
  unfold wal_logged in Hw'. cbn [fmap option_fmap option_map] in Hw'. rewrite Hb in Hw'.
  destruct (per_op_log_spec _ _ _ _ _ _ _ Hrep He E) as (_ & d' & Hrep' & _).
  exists w1, d'. split_and!; [done|done|]. intros Hf. unfold per_op_log, per_op_sync, zoom in E.
  rewrite run_bind in E. cbn [modify] in E. destruct (sync_writer _) as [sw r] eqn:Es.
  injection E as <- _. eapply sync_calm; [exact Es|]. by apply Hc.
Qed.

Lemma logging_shutdown id faults s l :
  logging id faults s l →
  ∃ w r, shutdown_wal s = (upd_wal w s, r) ∧ logging id faults (upd_wal w s) l ∧ r ≠ Panic ∧
         (calm faults → r = Ok tt).
Proof.
  intros (w & dur & Hw & Hrep & Hc). unfold shutdown_wal, on_wal. rewrite Hw. cbn.
  unfold box_call. cbn [shutdown per_op_strategy].
  destruct (per_op_sync w) as [w1 r1] eqn:E.
  destruct (per_op_sync_spec _ _ _ _ _ _ Hrep E) as (Hp & d' & Hrep' & _).
  unfold per_op_sync, zoom in E. destruct (sync_writer _) as [sw r] eqn:Es. injection E as <- <-.
  eexists _, _. split; [reflexivity|]. split_and!; [|done|].
  - exists (mkPerOp sw), d'. split_and!; [done|done|]. intros Hf. eapply sync_calm; [exact Es|]. by apply Hc.
  - intros Hf. eapply sync_calm; [exact Es|]. by apply Hc.
Qed.

(** The directory after the command: its log continues with what was logged. *)
Lemma close_store_log id faults s l d0 d segs m es :
  dir_log d0 m es → sd_segments d0 = Some segs → dir_rep segs m →
  d = set_segments (<[seg_name id := []]> segs) d0 →
  map_Forall (λ k _, k < id) m → seg_number id → logging id faults s l →
  dir_log (close_store id s d) (<[id := wal_file (st_wal s)]> m) (es ++ (wal_entry_to_segment <$> l)).
Proof.
  intros [Hfmt _ Hlog] Hsegs Hrep -> Hlt Hnum (w & dur & Hw & (p & -> & Hwr) & _).
  assert (recovered (wal_file (st_wal s)) = Ok (wal_entry_to_segment <$> (dur ++ p))) as Hrec.
  { rewrite Hw. apply (writer_rep_file id); [|done]. unfold seg_number, is_u64 in *. lia. }
  destruct (dir_rep_last segs m es id _ _ Hrep Hlog Hlt Hnum Hrec) as [Hrep' Hlog'].
  split; [exact Hfmt| |exact Hlog']. eexists. split; [reflexivity|].
  cbn. by rewrite insert_insert_eq.
Qed.
End logging.

(* ------------------------------------------------------------------------ *)
(** ** The snapshot commands *)

Section snapshot_commands.
Context {B : Blockset} {L : BlocksetLaws B}.
Implicit Types (s : DictMetadataStore B) (d : StoreDir B) (a : AbsFs).

(** An unmounted directory that holds [a] under the root [r], which loads to [s0]; one
    more segment and one more commit fit. *)
Record unmounted d m es r a s0 : Prop := {
  um_log : dir_log d m es;
  um_root : log_root es = Some r;
  um_healthy : healthy (sd_io d);
  um_holds : root_holds (sd_io d) r a;
  um_unlocked : sd_mount_lock d = false;
  um_next : seg_number (next_segment_id (sd_segments d));
  um_load : load_from_root (sd_io d) r = Ok s0;
  um_fit : tables_fit s0;
  um_root_ino : is_Some (a_inodes a !! 1);
  um_admissible : Forall admissible (commit_contents s0)
}.

(** The store that the command works on. *)
Definition opened d es s0 (faults : list bool) : DictMetadataStore B :=
  set_wal (create_wal CfgPerOp (next_segment_id (sd_segments d)) faults)
    (set_snapshots (log_snapshots es) s0).

Lemma unmounted_rep d m es r a s0 faults :
  unmounted d m es r a s0 → store_rep (opened d es s0 faults) a ∧ st_io (opened d es s0 faults) = sd_io d.
Proof.
  intros []. destruct (um_holds0 (sd_io d)) as (s1 & Hl & Hr); [done|done|].
  rewrite um_load0 in Hl. injection Hl as <-. split.
  - by apply rep_upd_wal, rep_set_snapshots.
  - by apply load_from_root_io in um_load0.
Qed.

Lemma open_unmounted_run d m es r a s0 faults :
  unmounted d m es r a s0 →
  open_unmounted faults d =
  (set_segments (<[seg_name (next_segment_id (sd_segments d)) := []]> (default ∅ (sd_segments d))) d,
   Ok (next_segment_id (sd_segments d), opened d es s0 faults)).
Proof.
  intros [[Hfmt (segs & Hsegs & Hrep) Hlog] Hr _ _ Hlock _ Hload _ _ _].
  unfold open_unmounted, opened. rewrite run_bind. cbn [gets]. change (id d) with d.
  rewrite Hlock. unfold load_segments. rewrite Hsegs, run_bind.
  rewrite (load_store_numbered _ _ Hrep), Hlog. cbn [lift fmap res_fmap res_map_err].
  rewrite run_bind, Hr. cbn [lift ok_or]. rewrite run_bind, Hload. cbn [lift res_map_err].
  rewrite run_bind. done.
Qed.

Lemma with_unmounted_run {A} d m es r a s0 faults (body : M (DictMetadataStore B) CmdError A) s' x :
  unmounted d m es r a s0 → body (opened d es s0 faults) = (s', x) →
  with_unmounted faults body d =
  (close_store (next_segment_id (sd_segments d)) s'
     (set_segments (<[seg_name (next_segment_id (sd_segments d)) := []]> (default ∅ (sd_segments d))) d), x).
Proof.
  intros Hu Hb. unfold with_unmounted, mbind, M_bind. rewrite (open_unmounted_run _ _ _ _ _ _ _ Hu).
  by rewrite Hb.
Qed.

(** What a command leaves behind that ends with the store [s] and the log [l]. *)
Lemma unmounted_close d m es r a s0 faults s l d' :
  unmounted d m es r a s0 → logging (next_segment_id (sd_segments d)) faults s l →
  d' = close_store (next_segment_id (sd_segments d)) s
         (set_segments (<[seg_name (next_segment_id (sd_segments d)) := []]> (default ∅ (sd_segments d))) d) →
  ∃ m', dir_log d' m' (es ++ (wal_entry_to_segment <$> l)) ∧ sd_io d' = st_io s ∧
        sd_mount_lock d' = false ∧
        load_store_from_segments (default ∅ (sd_segments d')) =
          Ok (log_root (es ++ (wal_entry_to_segment <$> l)),
              log_snapshots (es ++ (wal_entry_to_segment <$> l))).
Proof.
  intros Hu Hl ->. pose proof (um_log _ _ _ _ _ _ Hu) as Hd. destruct Hd as [Hfmt (segs & Hsegs & Hrep) Hlog].
  pose proof (um_next _ _ _ _ _ _ Hu) as Hnum. rewrite Hsegs in *.
  destruct (next_segment_id_above segs m Hrep) as [Hlt _].
  assert (dir_log d m es) as Hd by exact (um_log _ _ _ _ _ _ Hu).
  eexists. pose proof (close_store_log _ _ s l d _ segs m es Hd Hsegs Hrep eq_refl Hlt Hnum Hl) as Hc.
  split_and!; [exact Hc|done|exact (um_unlocked _ _ _ _ _ _ Hu)|].
  destruct Hc as [_ (segs' & Hsegs' & Hrep') Hlog'].
  injection Hsegs' as <-. etransitivity; [exact (load_store_numbered _ _ Hrep')|]. by rewrite Hlog'.
Qed.

(** Taking a snapshot on the opened store. *)
Lemma opened_snapshot d m es r a s0 faults now name :
  unmounted d m es r a s0 → is_u64 now → wf_name name →
  let s := opened d es s0 faults in
  let e := mkSnapshot (wrap64 (max_version (st_by_version s) + 1)) name (commit_digest s) now in
  ∃ s', create_snapshot now name s = (s', Ok e) ∧ store_rep s' a ∧ sd_io d ⊑ᵢ st_io s' ∧
    root_holds (st_io s') (sn_root e) a ∧ wf_digest (sn_root e) ∧
    logging (next_segment_id (sd_segments d)) faults s'
      [WalRootUpdate (sn_root e); WalSnapshot (sn_version e) (sn_root e) now name].
Proof.
  intros Hu Hnow Hname s e. destruct (unmounted_rep _ _ _ _ _ _ faults Hu) as [Hr Hio]. fold s in Hr, Hio.
  assert (tables_fit s) as Hfit by (destruct (um_fit _ _ _ _ _ _ Hu); by split).
  pose proof (um_root_ino _ _ _ _ _ _ Hu) as Hroot.
  assert (Forall admissible (commit_contents s)) as Hadm by exact (um_admissible _ _ _ _ _ _ Hu).
  destruct (create_snapshot_run now name s (log_snapshots es)) as (s' & Hs' & _ & _ & Hio' & Hrep);
    [apply set_snapshots_of|].
  destruct (root_holds_commit s a Hr Hfit Hroot Hadm) as (Hrc & Hle & Hh).
  assert (st_io s' = st_io (commit s).1) as Hioc by by rewrite commit_run.
  pose proof (create_snapshot_wal now name s) as Hw. rewrite Hs' in Hw. cbn [fst] in Hw.
  exists s'. split; [exact Hs'|]. rewrite Hioc. split_and!.
  - apply Hrep. rewrite Hioc. apply rep_io_grows; [done|apply (rep_io _ _ Hrc)|done].
  - by rewrite <-Hio.
  - exact Hh.
  - apply digest_of_wf.
  - apply (logging_log _ _ (commit s).1 s' [_]);
      [|split_and!; [apply Z.mod_pos_bound; lia|apply digest_of_wf|done|done]|by rewrite Hw, commit_run].
    apply (logging_log _ _ s _ []); [by apply logging_new|apply digest_of_wf|by rewrite commit_run].
Qed.

(** A command that did its work fails only in the last sync, and not if no sync
    fails. *)
Definition outcome {A} (faults : list bool) (v : A) (res : res CmdError A) : Prop :=
  (res = Ok v ∨ ∃ err, res = Err (CmdWalShutdown err)) ∧ (calm faults → res = Ok v).

Lemma shutdown_run {A} id faults s l (v : A) :
  logging id faults s l →
  ∃ w res, (_ ← map_err CmdWalShutdown shutdown_wal; mret v) s = (upd_wal w s, res) ∧
           logging id faults (upd_wal w s) l ∧ outcome faults v res.
Proof.
  intros Hl. destruct (logging_shutdown _ _ _ _ Hl) as (w & x & Hsd & Hlog' & Hx & Hcalm).
  exists w. rewrite run_bind. unfold map_err. rewrite Hsd.
  destruct x as [[]|err|]; [| |done]; (eexists; split; [reflexivity|split; [done|]]).
  - split; [by left|done].
  - split; [by right; eexists|]. intros Hc. by specialize (Hcalm Hc).
Qed.

(** The log after a snapshot. *)
Lemma log_after_snapshot es (e : SnapshotEntry) :
  log_root (es ++ [RootUpdate (sn_root e);
                   SnapshotRecord (sn_version e) (sn_root e) (sn_created_at e) (sn_name e)]) = Some (sn_root e) ∧
  log_snapshots (es ++ [RootUpdate (sn_root e);
                   SnapshotRecord (sn_version e) (sn_root e) (sn_created_at e) (sn_name e)]) =
    log_snapshots es ++ [e].
Proof. rewrite log_root_app. unfold log_snapshots. rewrite omap_app. by destruct e. Qed.

(** The entry of a new snapshot. *)
Definition next_entry es (now : Z) (name : option bytes) (e : SnapshotEntry) : Prop :=
  sn_version e = wrap64 (max_version (index_versions (log_snapshots es)) + 1) ∧
  sn_name e = name ∧ sn_created_at e = now ∧ wf_digest (sn_root e).

(** Taking a snapshot adds a root and a record to the log. *)
Lemma snapshot_create_run d m es r a s0 now name faults :
  unmounted d m es r a s0 → is_u64 now → wf_name name →
  ∃ d' res e m', run_snapshot_create now name faults d = (d', res) ∧ outcome faults e res ∧ next_entry es now name e ∧
    dir_log d' m' (es ++ [RootUpdate (sn_root e); SnapshotRecord (sn_version e) (sn_root e) (sn_created_at e) (sn_name e)]) ∧
    healthy (sd_io d') ∧ root_holds (sd_io d') (sn_root e) a ∧ sd_io d ⊑ᵢ sd_io d' ∧ sd_mount_lock d' = false.
Proof.
  intros Hu Hnow Hname.
  destruct (opened_snapshot _ _ _ _ _ _ faults now name Hu Hnow Hname)
    as (s' & Hs' & Hr & Hle & Hh & Hwf & Hlog).
  set (e := mkSnapshot _ _ _ _) in *.
  destruct (shutdown_run _ _ _ _ e Hlog) as (w & res & Hsd & Hlog' & Hout).
  destruct (unmounted_close _ _ _ _ _ _ _ _ _ _ Hu Hlog' eq_refl) as (m' & Hd' & Hio & Hlock & _).
  eexists _, res, e, m'. split.
  { eapply with_unmounted_run; [exact Hu|]. rewrite run_bind. unfold map_err at 1.
    rewrite Hs'. exact Hsd. }
  rewrite Hio. split_and!; try done. apply (rep_io _ _ Hr).
Qed.

(** The segments of a directory with a known log. *)
Lemma dir_log_load d m es :
  dir_log d m es → load_store_from_segments (default ∅ (sd_segments d)) = Ok (log_root es, log_snapshots es).
Proof. intros [_ (segs & -> & Hrep) Hlog]. cbn. by rewrite (load_store_numbered _ _ Hrep), Hlog. Qed.

Lemma snapshot_create_holds d m es r a s0 now name faults :
  unmounted d m es r a s0 → is_u64 now → wf_name name →
  ∃ d' res e, run_snapshot_create now name faults d = (d', res) ∧ outcome faults e res ∧
    sn_name e = name ∧ sn_created_at e = now ∧
    dir_holds d' a ∧ root_holds (sd_io d') (sn_root e) a ∧ sd_io d ⊑ᵢ sd_io d' ∧
    sd_mount_lock d' = false ∧
    load_store_from_segments (default ∅ (sd_segments d')) =
      Ok (Some (sn_root e), log_snapshots es ++ [e]).
Proof.
  intros Hu Hnow Hname.
  destruct (snapshot_create_run _ _ _ _ _ _ now name faults Hu Hnow Hname)
    as (d' & res & e & m' & Hrun & Hout & (_ & Hn & Ht & _) & Hd & Hh & Hr & Hle & Hlock).
  destruct (log_after_snapshot es e) as [Hr1 Hr2].
  exists d', res, e. rewrite (dir_log_load _ _ _ Hd), Hr1, Hr2. split_and!; try done.
  by exists m', (es ++ [RootUpdate (sn_root e);
    SnapshotRecord (sn_version e) (sn_root e) (sn_created_at e) (sn_name e)]), (sn_root e).
Qed.

Lemma log_after_switch es (e : SnapshotEntry) target :
  let l := es ++ [RootUpdate (sn_root e);
                  SnapshotRecord (sn_version e) (sn_root e) (sn_created_at e) (sn_name e);
                  RootUpdate target] in
  log_root l = Some target ∧ log_snapshots l = log_snapshots es ++ [e].
Proof. cbn zeta. rewrite log_root_app. unfold log_snapshots. rewrite omap_app. by destruct e. Qed.

(** The switch saves what was there and makes the snapshot current, whatever syncs
    fail on the way. *)
Lemma snapshot_switch_run d m es r a s0 now reference target faults :
  unmounted d m es r a s0 → is_u64 now →
  find_snapshot reference (opened d es s0 faults) = Some target → wf_digest (sn_root target) →
  ∃ d' res e m', run_snapshot_switch now reference faults d = (d', res) ∧
    outcome faults (target, e) res ∧ next_entry es now (Some (str "auto-before-switch")) e ∧
    dir_log d' m' (es ++ [RootUpdate (sn_root e);
                          SnapshotRecord (sn_version e) (sn_root e) (sn_created_at e) (sn_name e);
                          RootUpdate (sn_root target)]) ∧
    healthy (sd_io d') ∧ root_holds (sd_io d') (sn_root e) a ∧ sd_io d ⊑ᵢ sd_io d' ∧ sd_mount_lock d' = false.
Proof.
  intros Hu Hnow Hfind Hwft.
  destruct (opened_snapshot _ _ _ _ _ _ faults now (Some (str "auto-before-switch")) Hu Hnow)
    as (s' & Hs' & Hr & Hle & Hh & Hwf & Hlog); [done|].
  set (e := mkSnapshot _ _ _ _) in *.
  set (s2 := upd_wal (wal_logged (WalRootUpdate (sn_root target)) (st_wal s'))
               (upd_last_root (Some (sn_root target)) s')).
  pose proof (logging_log _ _ s' s2 _ (WalRootUpdate (sn_root target)) Hlog Hwft eq_refl) as Hlog2.
  destruct (shutdown_run _ _ _ _ (target, e) Hlog2) as (w & res & Hsd & Hlog' & Hout).
  destruct (unmounted_close _ _ _ _ _ _ _ _ _ _ Hu Hlog' eq_refl) as (m' & Hd' & Hio & Hlock & _).
  eexists _, res, e, m'. split.
  { eapply with_unmounted_run; [exact Hu|]. rewrite run_bind. cbn [gets]. rewrite Hfind.
    rewrite run_bind. cbn [lift ok_or]. rewrite run_bind. unfold map_err at 1. rewrite Hs'.
    cbn [res_map_err]. rewrite run_bind. unfold write_root_update, map_err at 1, commit_root.
    rewrite run_bind. cbn [modify]. rewrite log_wal_entry_run. exact Hsd. }
  rewrite Hio. split_and!; try done. apply (rep_io _ _ Hr).
Qed.

Lemma snapshot_switch_holds d m es r a s0 now reference target at_ faults :
  unmounted d m es r a s0 → is_u64 now →
  find_snapshot reference (opened d es s0 faults) = Some target →
  wf_digest (sn_root target) → root_holds (sd_io d) (sn_root target) at_ →
  ∃ d' res auto, run_snapshot_switch now reference faults d = (d', res) ∧
    outcome faults (target, auto) res ∧
    sn_name auto = Some (str "auto-before-switch") ∧
    dir_holds d' at_ ∧ root_holds (sd_io d') (sn_root auto) a ∧ sd_io d ⊑ᵢ sd_io d' ∧
    sd_mount_lock d' = false ∧
    load_store_from_segments (default ∅ (sd_segments d')) =
      Ok (Some (sn_root target), log_snapshots es ++ [auto]).
Proof.
  intros Hu Hnow Hfind Hwft Ht.
  destruct (snapshot_switch_run _ _ _ _ _ _ now reference target faults Hu Hnow Hfind Hwft)
    as (d' & res & e & m' & Hrun & Hout & (_ & Hn & _) & Hd & Hh & Hr & Hle & Hlock).
  destruct (log_after_switch es e (sn_root target)) as [Hr1 Hr2].
  exists d', res, e. rewrite (dir_log_load _ _ _ Hd), Hr1, Hr2. split_and!; try done.
  eexists m', _, (sn_root target). split_and!; [exact Hd|exact Hr1|exact Hh|]. by eapply root_holds_mono.
Qed.
End snapshot_commands.

(* ------------------------------------------------------------------------ *)
(** ** Refusals *)

Section refusals.
Context {B : Blockset} {L : BlocksetLaws B}.
Implicit Types (d : StoreDir B).

(** A mounted store is left alone. *)
Lemma with_unmounted_mounted {A} faults (body : M (DictMetadataStore B) CmdError A) d :
  sd_mount_lock d = true → with_unmounted faults body d = (d, Err CmdMounted).
Proof.
  intros Hl. unfold with_unmounted, mbind, M_bind.
  unfold open_unmounted. rewrite run_bind. cbn [gets]. change (id d) with d. by rewrite Hl.
Qed.

(** An unknown snapshot is reported; the directory has one more segment, without
    entries. *)
Lemma snapshot_switch_refused d m es r a s0 now reference faults :
  unmounted d m es r a s0 → find_snapshot reference (opened d es s0 faults) = None →
  ∃ d' m', run_snapshot_switch now reference faults d = (d', Err (CmdSnapshotNotFound reference)) ∧
    dir_log d' m' es ∧ sd_io d' = sd_io d ∧ sd_mount_lock d' = false.
Proof.
  intros Hu Hf. set (s := opened d es s0 faults) in *.
  assert (logging (next_segment_id (sd_segments d)) faults s []) as Hlog by by apply logging_new.
  destruct (unmounted_close _ _ _ _ _ _ _ _ _ _ Hu Hlog eq_refl) as (m' & Hd' & Hio & Hlock & _).
  eexists _, m'. split.
  { eapply with_unmounted_run; [exact Hu|]. fold s. rewrite run_bind. cbn [gets]. by rewrite Hf. }
  cbn [fmap list_fmap] in Hd'. rewrite app_nil_r in Hd'.
  destruct (unmounted_rep _ _ _ _ _ _ faults Hu) as [_ Hio0]. by rewrite Hio.
Qed.

Lemma snapshot_switch_unknown d m es r a s0 now reference faults :
  unmounted d m es r a s0 → find_snapshot reference (opened d es s0 faults) = None →
  ∃ d', run_snapshot_switch now reference faults d = (d', Err (CmdSnapshotNotFound reference)) ∧
    dir_holds d' a ∧ sd_io d' = sd_io d ∧
    load_store_from_segments (default ∅ (sd_segments d')) = Ok (Some r, log_snapshots es).
Proof.
  intros Hu Hf. destruct (snapshot_switch_refused _ _ _ _ _ _ now reference faults Hu Hf)
    as (d' & m' & Hrun & Hd & Hio & _).
  destruct Hu. exists d'. rewrite (dir_log_load _ _ _ Hd), um_root0, Hio.
  split_and!; [done| |done|done]. exists m', es, r. by rewrite Hio.
Qed.
End refusals.

(* ------------------------------------------------------------------------ *)
(** ** Scrub and statistics *)

Section scrub.
Context {B : Blockset} {L : BlocksetLaws B}.
Implicit Types (s : DictMetadataStore B) (d : StoreDir B).

(** The roots that a scrub looks at. *)
Definition scrub_roots (es : list SegmentEntry) : list Digest224 :=
  option_list (log_root es) ++ (sn_root <$> log_snapshots es).

Definition resolves (io : Io) (root : Digest224) : bool := bool_decide (is_Some (file_storage_get io root)).

Lemma resolves_all (io : Io) roots :
  forallb (resolves io) roots = true → Forall (λ root, is_Some (file_storage_get io root)) roots.
Proof.
  rewrite forallb_forall. intros H. apply Forall_forall. intros root Hr.
  apply (bool_decide_eq_true (is_Some (file_storage_get io root))), H. by apply list_elem_of_In.
Qed.

Definition missing_roots (io : Io) (roots : list Digest224) : list Digest224 :=
  filter (λ root, resolves io root = false) roots.

Lemma scrub_roots_fold (io : Io) roots n errs :
  foldl (λ st root, scrub_root io root st) (n, errs) roots =
  (n + Z.of_nat (length (filter (λ root, resolves io root = true) roots)),
   errs ++ ((λ root, MissingRoot (take 16 (root_hex root))) <$> missing_roots io roots)).
Proof.
  revert n errs. induction roots as [|r roots IH]; intros n errs; cbn [foldl].
  { cbn. by rewrite app_nil_r, Z.add_0_r. }
  unfold scrub_root at 2. unfold missing_roots, resolves in *. rewrite !filter_cons.
  destruct (file_storage_get io r) as [bs|] eqn:E; rewrite IH; cbn [fst snd].
  - rewrite (decide_True (P := _ = true)), (decide_False (P := _ = false))
      by (rewrite bool_decide_eq_true_2 by (by eexists); done).
    cbn [length]. f_equal. lia.
  - assert (bool_decide (is_Some (@None bytes)) = false) as Hn by by apply bool_decide_eq_false_2; intros [].
    rewrite Hn, decide_False, decide_True by done. cbn [fmap list_fmap]. by rewrite <-app_assoc.
Qed.

(** The directory that [load_segments] reads. *)
Lemma load_segments_log d m es :
  dir_log d m es → check_format d = Ok tt ∧ load_segments d = Ok (log_root es, log_snapshots es).
Proof.
  intros [Hfmt (segs & Hsegs & Hrep) Hlog]. unfold check_format, load_segments. rewrite Hfmt, Hsegs.
  rewrite decide_False by done. by rewrite (load_store_numbered _ _ Hrep), Hlog.
Qed.

(** The errors of a scrub: the roots that do not resolve, then the current one if it
    does not load. *)
Definition load_errors (io : Io) (root : option Digest224) : list ScrubError :=
  match root with
  | Some r => match load_from_root io r with Err e => [TreeCorrupt e] | _ => [] end
  | None => []
  end.

Lemma run_scrub_run d m es :
  dir_log d m es → (∀ r, log_root es = Some r → load_from_root (sd_io d) r ≠ Panic) →
  ∃ sat, run_scrub d =
    Ok (mkScrub (Z.of_nat (length (filter (λ root, resolves (sd_io d) root = true) (scrub_roots es))))
          (Z.of_nat (length (missing_roots (sd_io d) (scrub_roots es)) +
                     length (load_errors (sd_io d) (log_root es))))
          (sd_mount_lock d)
          (((λ root, MissingRoot (take 16 (root_hex root))) <$> missing_roots (sd_io d) (scrub_roots es)) ++
           load_errors (sd_io d) (log_root es)) sat) ∧
    (∀ r s, log_root es = Some r → load_from_root (sd_io d) r = Ok s → sat = saturated_refcount_count s).
Proof.
  intros Hlog Hnp. destruct (load_segments_log _ _ _ Hlog) as [Hf Hl]. unfold run_scrub. rewrite Hf, Hl.
  cbn [mbind res_bind]. fold (scrub_roots es). rewrite scrub_roots_fold. cbn [app]. rewrite Z.add_0_l.
  unfold load_errors. destruct (log_root es) as [r|] eqn:Hr.
  - destruct (load_from_root (sd_io d) r) as [s|e|] eqn:E; cbn [mbind res_bind].
    + eexists. split; [|intros ?? [= <-] H; rewrite E in H; by injection H as <-]. by rewrite app_nil_r, length_fmap, Nat.add_0_r.
    + eexists. split; [|intros ?? [= <-] H; by rewrite E in H]. by rewrite length_app, length_fmap.
    + by destruct (Hnp r).
  - eexists. split; [|done]. cbn [mbind res_bind]. by rewrite app_nil_r, length_fmap, Nat.add_0_r.
Qed.

(** A scrub is clean when every root resolves and the current one loads, and only
    then. *)
Lemma run_scrub_clean d m es :
  dir_log d m es → (∀ r, log_root es = Some r → load_from_root (sd_io d) r ≠ Panic) →
  ∃ rep, run_scrub d = Ok rep ∧
    (scrub_clean rep = true ↔
     Forall (λ root, is_Some (file_storage_get (sd_io d) root)) (scrub_roots es) ∧
     ∀ r, log_root es = Some r → ∃ s, load_from_root (sd_io d) r = Ok s).
Proof.
  intros Hlog Hnp. destruct (run_scrub_run d m es Hlog Hnp) as (sat & Hrun & _).
  eexists. split; [exact Hrun|]. clear Hrun. unfold scrub_clean. rewrite bool_decide_eq_true. cbn [sc_corrupted_roots].
  assert (missing_roots (sd_io d) (scrub_roots es) = [] ↔
          Forall (λ root, is_Some (file_storage_get (sd_io d) root)) (scrub_roots es)) as Hm.
  { unfold missing_roots, resolves. induction (scrub_roots es) as [|r l IH]; [by split; [constructor|]|].
    rewrite filter_cons, Forall_cons. destruct (file_storage_get (sd_io d) r) as [bs|] eqn:E.
    - rewrite decide_False by (rewrite bool_decide_eq_true_2 by (by eexists); done). rewrite IH.
      split; [intros H; split; [by eexists|done]|by intros []].
    - rewrite decide_True by (apply bool_decide_eq_false_2; by intros []).
      split; [done|by intros [[]]]. }
  assert (load_errors (sd_io d) (log_root es) = [] ↔
          ∀ r, log_root es = Some r → ∃ s, load_from_root (sd_io d) r = Ok s) as He.
  { unfold load_errors. destruct (log_root es) as [r|]; [|by split].
    specialize (Hnp r eq_refl). destruct (load_from_root (sd_io d) r) as [s|e|] eqn:E; [..|done].
    - split; [|done]. intros _ ? [= <-]. by exists s.
    - split; [done|]. intros H. destruct (H r eq_refl) as [s Hs]. congruence. }
  rewrite <-Hm, <-He, <-!length_zero_iff_nil. lia.
Qed.

(** The only way for a scrub to panic is to load the current root. *)
Lemma run_scrub_panic d m es r :
  dir_log d m es → log_root es = Some r → load_from_root (sd_io d) r = Panic → run_scrub d = Panic.
Proof.
  intros Hlog Hr Hp. destruct (load_segments_log _ _ _ Hlog) as [Hf Hl]. unfold run_scrub. rewrite Hf, Hl.
  cbn [mbind res_bind]. fold (scrub_roots es). rewrite scrub_roots_fold. by rewrite Hr, Hp.
Qed.

(** A record of the right size whose table of inodes cannot be read makes the load panic. *)
Lemma load_from_root_panics (io : Io) root bs im :
  file_storage_get io root = Some bs → len bs = 184 →
  load_inode_map io (parse_digest224 (take 28 bs)) = Ok im →
  load_u64_digest_map io (parse_digest224 (take 28 (drop 44 bs))) = Panic → load_from_root io root = Panic.
Proof.
  intros Hg Hl Him Hp.
  assert (∀ i, 0 ≤ i ≤ 156 → digest_at bs i = Ok (parse_digest224 (take 28 (drop (Z.to_nat i) bs)))) as Hd.
  { intros i Hi. unfold digest_at, slice. rewrite decide_True by lia. by replace (i + 28 - i) with 28 by lia. }
  assert (∀ i, 0 ≤ i ≤ 100 → ∃ v : Z, field_at bs i (i + 8) = Ok v) as Hf.
  { intros i Hi. unfold field_at, slice. rewrite decide_True by lia. by eexists. }
  destruct (Hf 28) as [v1 H1]; [lia|]. destruct (Hf 36) as [v2 H2]; [lia|].
  change (28 + 8) with 36 in H1. change (36 + 8) with 44 in H2.
  unfold load_from_root. rewrite Hg. cbn [ok_or mbind res_bind]. rewrite Hl, decide_False, decide_True by lia.
  cbn [mbind res_bind]. rewrite !Hd by lia. rewrite H1, H2. cbn [mbind res_bind fmap res_fmap].
  change (Z.to_nat 0) with 0%nat. rewrite drop_0, Him. cbn [mbind res_bind]. change (Z.to_nat 44) with 44%nat.
  by rewrite Hp.
Qed.

Lemma dir_log_io d m es (io : Io) :
  dir_log d m es → dir_log (mkStoreDir B (sd_dictionary_bin d) (sd_mount_lock d) (sd_segments d) io) m es.
Proof. by intros []. Qed.

(** Where a root record names its tables. *)
Definition table_offsets : list Z := [0; 44; 72; 100; 128; 156].

(** Two content stores that agree on a root record and on its tables. *)
Definition agree_on (io io' : Io) (root : Digest224) : Prop :=
  file_storage_get io root = file_storage_get io' root ∧
  ∀ bs i t, file_storage_get io root = Some bs → i ∈ table_offsets → digest_at bs i = Ok t →
            file_storage_get io t = file_storage_get io' t.

(** The same as a finite check. *)
Definition agree_check (io io' : Io) (root : Digest224) : bool :=
  bool_decide (file_storage_get io root = file_storage_get io' root) &&
  match file_storage_get io root with
  | Some bs => forallb (λ i, match digest_at bs i with
                             | Ok t => bool_decide (file_storage_get io t = file_storage_get io' t)
                             | _ => true
                             end) table_offsets
  | None => true
  end.

Lemma agree_check_on (io io' : Io) root : agree_check io io' root = true → agree_on io io' root.
Proof.
  unfold agree_check. rewrite andb_true_iff, bool_decide_eq_true. intros [Hr Ht]. split; [done|].
  intros bs i t Hbs Hi Hd. rewrite Hbs, forallb_forall in Ht. specialize (Ht i).
  rewrite Hd, bool_decide_eq_true in Ht. apply Ht. by apply list_elem_of_In.
Qed.

Lemma agree_check_all (io io' : Io) roots :
  forallb (agree_check io io') roots = true → ∀ root, root ∈ roots → agree_on io io' root.
Proof.
  rewrite forallb_forall. intros H root Hr. apply agree_check_on, H. by apply list_elem_of_In.
Qed.

(** The same outcome, up to the sizes of files. *)
Definition same_tables (x y : res MetaError (DictMetadataStore B)) : Prop :=
  match x, y with
  | Ok s, Ok s' => st_refcounts s = st_refcounts s' ∧ st_inode_data s = st_inode_data s' ∧
                   st_dir_data s = st_dir_data s' ∧ st_manifest_data s = st_manifest_data s'
  | Err e, Err e' => e = e'
  | Panic, Panic => True
  | _, _ => False
  end.

(** Loading a root reads nothing but its record and tables. *)
Lemma load_from_root_scope (io io' : Io) root :
  agree_on io io' root → same_tables (load_from_root io root) (load_from_root io' root).
Proof.
  intros [Hroot Htab]. unfold load_from_root. rewrite <-Hroot.
  destruct (file_storage_get io root) as [bs|] eqn:E; [|done]. cbn [ok_or mbind res_bind].
  specialize (Htab bs).
  destruct (if decide (len bs = 156) then _ else _) as [hr|e|]; [|done..]. cbn [mbind res_bind].
  destruct (digest_at bs 0) as [d0|e|] eqn:E0; [|done..]. cbn [mbind res_bind].
  destruct (field_at bs 28 36) as [rd|e|]; [|done..]. cbn [mbind res_bind].
  destruct (field_at bs 36 44) as [ni|e|]; [|done..]. cbn [mbind res_bind].
  destruct (digest_at bs 44) as [d1|e|] eqn:E1; [|done..]. cbn [mbind res_bind].
  destruct (digest_at bs 72) as [d2|e|] eqn:E2; [|done..]. cbn [mbind res_bind].
  destruct (digest_at bs 100) as [d3|e|] eqn:E3; [|done..]. cbn [mbind res_bind].
  destruct (digest_at bs 128) as [d4|e|] eqn:E4; [|done..]. cbn [mbind res_bind].
  destruct (if (hr : bool) then _ else _) as [rc|e|] eqn:E5; [|done..]. cbn [mbind res_bind].
  assert (∀ i t, i ∈ table_offsets → digest_at bs i = Ok t →
            load_u64_digest_map io' t = load_u64_digest_map io t) as Hmap.
  { intros i t Hi Ht. unfold load_u64_digest_map. by rewrite (Htab i t). }
  assert (load_inode_map io' d0 = load_inode_map io d0) as ->.
  { unfold load_inode_map. rewrite (Htab 0 d0); [done|done|by left|done]. }
  rewrite (Hmap 44 d1), (Hmap 72 d2), (Hmap 100 d3), (Hmap 128 d4) by (done || by repeat constructor).
  destruct (load_inode_map io d0) as [im|e|]; [|done..]. cbn [mbind res_bind].
  destruct (load_u64_digest_map io d1) as [?|?|]; [|done..]. cbn [mbind res_bind].
  destruct (load_u64_digest_map io d2) as [?|?|]; [|done..]. cbn [mbind res_bind].
  destruct (load_u64_digest_map io d3) as [?|?|]; [|done..]. cbn [mbind res_bind].
  destruct (load_u64_digest_map io d4) as [?|?|]; [|done..]. cbn [mbind res_bind].
  assert (match rc with Some x => load_digest224_u64_map io x | None => Ok ∅ end =
          match rc with Some x => load_digest224_u64_map io' x | None => Ok ∅ end) as <-.
  { destruct rc as [x|]; [|done]. destruct hr; [|done].
    destruct (digest_at bs 156) as [d5|e|] eqn:E6; [|done..]. injection E5 as ->.
    unfold load_digest224_u64_map. rewrite (Htab 156 x); [done|done|by repeat constructor|done]. }
  destruct (match rc with Some _ => _ | None => _ end) as [rcs|e|]; [|done..]. cbn [mbind res_bind].
  by case_decide.
Qed.

(** So a scrub does not notice whether inodes, directories, manifests and file
    blocks can be read. *)
Lemma run_scrub_scope d m es (io' : Io) :
  dir_log d m es → (∀ root, root ∈ scrub_roots es → agree_on (sd_io d) io' root) →
  run_scrub (mkStoreDir B (sd_dictionary_bin d) (sd_mount_lock d) (sd_segments d) io') = run_scrub d.
Proof.
  intros Hlog Hag. destruct (load_segments_log _ _ _ Hlog) as [Hf Hl].
  unfold run_scrub. rewrite Hf, Hl. unfold check_format, load_segments in *. cbn [sd_segments sd_dictionary_bin sd_io sd_mount_lock].
  rewrite Hf, Hl. cbn [mbind res_bind]. fold (scrub_roots es). rewrite !scrub_roots_fold.
  assert (∀ root, root ∈ scrub_roots es → resolves io' root = resolves (sd_io d) root) as Hres.
  { intros root Hin. unfold resolves. by destruct (Hag root Hin) as [-> _]. }
  assert (missing_roots io' (scrub_roots es) = missing_roots (sd_io d) (scrub_roots es) ∧
          filter (λ root, resolves io' root = true) (scrub_roots es) =
          filter (λ root, resolves (sd_io d) root = true) (scrub_roots es)) as [-> ->].
  { unfold missing_roots. clear Hag Hl Hlog. induction (scrub_roots es) as [|r l IH]; [done|].
    rewrite !filter_cons, Hres by by left.
    destruct IH as [-> ->]; [by intros root Hin; apply Hres; right|done]. }
  destruct (log_root es) as [r|] eqn:Hr; [|done].
  pose proof (load_from_root_scope (sd_io d) io' r) as Hsc.
  assert (r ∈ scrub_roots es) as Hin by (unfold scrub_roots; rewrite Hr; by left).
  specialize (Hsc (Hag r Hin)). unfold same_tables in Hsc.
  destruct (load_from_root (sd_io d) r) as [s|e|], (load_from_root io' r) as [s'|e'|]; try done.
  - destruct Hsc as [Hrc _]. unfold saturated_refcount_count. by rewrite Hrc.
  - by subst.
Qed.

(** The reported logical bytes are the sizes of all files. *)
Lemma run_stats_run d m es r a vt0 host :
  dir_log d m es → log_root es = Some r → healthy (sd_io d) → root_holds (sd_io d) r a →
  ∃ st, run_stats vt0 host d = Ok st ∧ ts_logical_bytes st = total_size (a_inodes a) ∧
        ts_snapshot_count st = Z.of_nat (length (log_snapshots es)) ∧
        ts_mounted st = sd_mount_lock d.
Proof.
  intros Hlog Hr Hh Hroot. destruct (load_segments_log _ _ _ Hlog) as [Hf Hl].
  destruct (Hroot (sd_io d)) as (s & Hs & Hrep); [done|done|].
  unfold run_stats. rewrite Hf, Hl, Hr. cbn [mbind res_bind]. rewrite Hs. cbn [res_map_err fmap res_fmap].
  eexists. split; [reflexivity|]. cbn. split_and!; [apply (rep_logical _ _ Hrep)|done|done].
Qed.
End scrub.
