(* ===== verification/Session.v ===== *)
(** * A mount from beginning to end

    [run_mount] of [crates/slicefs-cli/src/mount.rs]: load the store or one of its snapshots, serve the requests of the
    kernel, commit when the session ends, release the lock.  [fuser] is the
    sequence of requests; the background collector is that of [Background]. *)

From S2P Require Import Prelude Types Text Blockset Inode InodeMap Xattr Directory Segment Wal.
From S2P Require Import SegmentDir Store Filesystem Namespace Handlers Callbacks Mount Commands.
From stdpp Require Import base tactics numbers option list gmap strings.
Open Scope Z_scope.

(** The options handed to [fuser]. *)
Inductive MountOption := FSName (name : bytes) | DefaultPermissions | NoAtime | RO.
#[export] Instance MountOption_eq_dec : EqDecision MountOption.
Proof. solve_decision. Defined.
Inductive SessionACL := AclAll | AclOwner.
Record MountConfig := mkMountConfig { mc_options : list MountOption; mc_acl : SessionACL }.

(** [build_mount_options(noatime, allow_other, _)]. *)
Definition build_mount_options (noatime allow_other : bool) : MountConfig :=
  mkMountConfig
    ([FSName (str "slicefs"); DefaultPermissions] ++ (if noatime then [NoAtime] else []))
    (if allow_other then AclAll else AclOwner).
(** [cfg.mount_options.push(..)]. *)
Definition push_option (o : MountOption) (c : MountConfig) : MountConfig :=
  mkMountConfig (mc_options c ++ [o]) (mc_acl c).

(** [str.find(p)] and what [split(p).next()] returns. *)
Fixpoint find_sub (p s : bytes) : option (bytes * bytes) :=
  if decide (take (length p) s = p) then Some ([], drop (length p) s) else
  match s with
  | [] => None
  | c :: s => '(a, b) ← find_sub p s; Some (c :: a, b)
  end.

(** The path in a line of the output of [mount]: [<device> on <path> (<options>)]. *)
Definition mounted_path (line : bytes) : option bytes :=
  '(_, rest) ← find_sub (str " on ") line;
  Some (match find_sub (str " (") rest with Some (path, _) => path | None => rest end).

(** [check_mountpoint_not_in_use]: whether the lines show the mountpoint, in the form that
    [canonicalize] gives it, or as it is when that fails. *)
Definition mountpoint_in_use (canonical : bytes) (table : list bytes) : bool :=
  existsb (λ line, bool_decide (mounted_path line = Some canonical)) table.

(** The errors of [run_mount]. *)
Inductive MountError :=
  | MountpointInUse
  | MountLoad (e : LoadError)
  | MountNoSnapshot (reference : bytes)
  | MountSnapshotLoad (e : MetaError)
  | MountFuse (e : IoError).

(** A request with what the environment contributes to it. *)
Record KernelCall := mkCall {
  kc_full : list ReplyItem → ReplyItem → bool;
  kc_now : Z * Z;
  kc_statvfs : option (Z * Z * Z * Z);
  kc_statfs : option (Z * Z * Z * Z);
  kc_request : Request
}.

Section session.
Context {B : Blockset}.
Implicit Types (d : StoreDir B).

Definition serve_call (c : KernelCall) : M (SliceFsFilesystem B) Empty_set Reply :=
  serve (kc_full c) (kc_now c) (kc_statvfs c) (kc_statfs c) (kc_request c).

(** The session loop of [fuser]. *)
Fixpoint serve_calls (cs : list KernelCall) : M (SliceFsFilesystem B) Empty_set (list Reply) :=
  match cs with
  | [] => mret []
  | c :: cs => rep ← serve_call c; reps ← serve_calls cs; mret (rep :: reps)
  end.

(** The store that is served, and how it is mounted. *)
Definition choose_store (snapshot_ref : option bytes) (noatime allow_other : bool)
    (meta : DictMetadataStore B) : res MountError (DictMetadataStore B * MountConfig) :=
  match snapshot_ref with
  | Some snap_ref =>
      snap ← ok_or (find_snapshot snap_ref meta) (MountNoSnapshot snap_ref);
      snap_meta ← res_map_err MountSnapshotLoad (load_from_root (st_io meta) (sn_root snap));
      Ok (snap_meta, push_option RO (build_mount_options noatime allow_other))
  | None => Ok (meta, build_mount_options noatime allow_other)
  end.

(** The log file of a session whose log is [w], when the process drops it. *)
Definition close_segment (config : WalConfig) (id : Z) (w : option WalBox)
    (dir : gmap bytes bytes) : gmap bytes bytes :=
  match config with
  | CfgNoWal => dir
  | _ => <[seg_name id := wal_file w]> dir
  end.

(** The directory after the session: its log is closed, the content store is that of
    the file system and the lock is gone. *)
Definition end_session (config : WalConfig) (id : Z) (w : option WalBox) (io : Io) (d : StoreDir B)
    : StoreDir B :=
  mkStoreDir B (sd_dictionary_bin d) false
    (Some (close_segment config id w (default ∅ (sd_segments d)))) io.

(** [mount2] and the end of [run_mount], from the loaded store [meta]; a snapshot is
    served by a store of its own, and [meta] is dropped with its log at the end.  When
    [mount2] cannot open the session, [fuse] is its error: no request is served and
    [destroy] is not called. *)
Definition run_session (config : WalConfig) (id : Z) (snapshot_ref : option bytes)
    (noatime allow_other auto_snapshot : bool) (fuse : option IoError) (calls : list KernelCall) (now : Z * Z)
    (meta : DictMetadataStore B) (d : StoreDir B) : StoreDir B * res MountError (list Reply) :=
  match choose_store snapshot_ref noatime allow_other meta with
  | Err e => (end_session config id (st_wal meta) (st_io meta) d, Err e)
  | Panic => (end_session config id (st_wal meta) (st_io meta) d, Panic)
  | Ok (final_meta, _) =>
      match fuse with
      | Some e => (end_session config id (st_wal meta) (st_io final_meta) d, Err (MountFuse e))
      | None =>
          let fs := set_auto_snapshot auto_snapshot (fs_new final_meta) in
          let '(fs, r) := serve_calls calls fs in
          let log (fs : SliceFsFilesystem B) :=
            match snapshot_ref with Some _ => st_wal meta | None => st_wal (fs_meta fs) end in
          match r with
          | Ok replies =>
              let '(fs, r) := serve_destroy now fs in
              (end_session config id (log fs) (st_io (fs_meta fs)) d,
               match r with Panic => Panic | _ => Ok replies end)
          | _ => (end_session config id (log fs) (st_io (fs_meta fs)) d, Panic)
          end
      end
  end.

(** [run_mount]: the mountpoint check, [load_store], the session. *)
Definition run_mount (canonical : bytes) (table : list bytes) (config : WalConfig)
    (faults : list bool) (snapshot_ref : option bytes) (noatime allow_other auto_snapshot : bool)
    (fuse : option IoError) (calls : list KernelCall) (now : Z * Z) : M (StoreDir B) MountError (list Reply) :=
  if mountpoint_in_use canonical table then throw MountpointInUse else
  id ← gets (λ d, next_segment_id (sd_segments d));
  meta ← map_err MountLoad (load_store config faults);
  run_session config id snapshot_ref noatime allow_other auto_snapshot fuse calls now meta.
End session.
