(* ===== verification/Serving.v ===== *)
(** * What the callbacks guarantee

    No request but the end of the mount writes to the log, so that a crash undoes
    all requests since the last commit, synced or not.  A client that reads a
    directory page by page gets every entry once.  Replies have the type of
    their request and values that fit their fields. *)

From S2P Require Import Prelude Types Text Blockset Inode InodeMap Xattr Directory Segment Wal.
From S2P Require Import SegmentDir Store StoreSpec StoreRefine StoreCommit Filesystem WritePath.
From S2P Require Import Namespace NamespaceRefine Handlers Callbacks Frames Mount MountRefine.
From stdpp Require Import base tactics numbers option list gmap strings.
Open Scope Z_scope.

(* ------------------------------------------------------------------------ *)
(** ** Requests and the log *)

Section log.
Context {B : Blockset} {L : BlocksetLaws B}.
Implicit Types (f : SliceFsFilesystem B).

Lemma handled_keeps {E A R T} (p : SliceFsFilesystem B → T) (m : M _ E A) (ok : A → R) (err : E → R) :
  keeps p m → keeps p (handled m ok err).
Proof. intros Hm f. specialize (Hm f). unfold handled. by destruct (m f) as [f' [x|e|]]. Qed.

Lemma with_str_keeps {T} (p : SliceFsFilesystem B → T) name k :
  (∀ s, keeps p (k s)) → keeps p (with_str (B := B) name k).
Proof. intros Hk. unfold with_str. case_match; [done|apply keeps_ret]. Qed.

Definition is_fsync (req : Request) : bool := match req with ReqFsync _ _ => true | _ => false end.

(** Every callback but [fsync] leaves the log and the snapshots alone. *)
Lemma serve_keeps full now sv sf req :
  is_fsync req = false → keeps (S := SliceFsFilesystem B) fs_frame (serve full now sv sf req).
Proof.
  intros Hreq. destruct req; try discriminate Hreq; serve_unfold;
    repeat (apply with_str_keeps; intros ?);
    try apply keeps_ret; apply keeps_bind; try (intros ?; apply keeps_ret); try apply keeps_gets;
    apply handled_keeps; auto with keeps.
  all: try (unfold test_mkdir_full, test_mknod_full, test_symlink_full, test_link_full; auto with keeps).
Qed.

(** [served f f']: [f'] comes after some requests, of whatever clients at whatever
    times. *)
Inductive served f : SliceFsFilesystem B → Prop :=
  | served_nil : served f f
  | served_snoc f' full now sv sf req f'' rep :
      served f f' → serve full now sv sf req f' = (f'', rep) → served f f''.

(** Requests log nothing. *)
Lemma served_logs_nothing f f' id b d l :
  served f f' → fs_wal f = Some b → box_rep id b d l →
  ∃ b' d', fs_wal f' = Some b' ∧ box_rep id b' d' l ∧ (box_calm b → box_calm b').
Proof.
  intros Hs Hb Hrep. induction Hs as [|f' full now sv sf req f'' rep Hs IH Hreq]; [by exists b, d|].
  destruct IH as (b1 & d1 & Hb1 & Hrep1 & Hc1).
  destruct (is_fsync req) eqn:Ef.
  - destruct req; try discriminate Ef. cbn [serve] in Hreq. unfold fuse_fsync in Hreq. rewrite run_bind in Hreq.
    unfold handle_fsync, handled in Hreq.
    destruct (test_fsync now ino fh f') as [f2 r2] eqn:Et.
    destruct (fsync_logs_nothing _ _ _ _ _ _ _ _ _ _ Hb1 Hrep1 Et) as (b2 & d2 & Hb2 & Hrep2 & Hc2).
    exists b2, d2. split; [|split; [done|auto]]. by destruct r2 as [[]|e|]; injection Hreq as <- _.
  - exists b1, d1. split; [|done]. pose proof (fs_frame_wal _ _ (serve_keeps full now sv sf req Ef f')) as Hk.
    rewrite Hreq in Hk. cbn in Hk. by rewrite Hk.
Qed.

(** A crash after any requests brings back the file system of the mount. *)
Lemma served_crash config faults d d' (s0 : DictMetadataStore B) a0 f b file (io : Io) :
  dir_holds d a0 → config ≠ CfgNoWal → seg_number (next_segment_id (sd_segments d)) →
  load_store config faults d = (d', Ok s0) → served (fs_new s0) f →
  fs_wal f = Some b → crash_image (box_writer b) file → sd_io d ⊑ᵢ io → healthy io →
  dir_holds (crash (next_segment_id (sd_segments d)) file io d') a0.
Proof.
  intros (m & es & rt & Hlog & Hr & Hhealthy & Hroot) Hc Hid Hload Hs Hb Hcrash Hle Hio.
  destruct (load_store_run config faults d m es rt a0) as (segs & s1 & Hsegs & Hrep & Hl & _ & _ & Hw & _);
    [done..|].
  rewrite Hsegs in *. rewrite Hl in Hload. injection Hload as <- ->.
  destruct (served_logs_nothing _ _ _ _ [] [] Hs Hw (create_wal_rep _ _ _ Hc)) as (b' & dur & Hb' & Hbox & _).
  rewrite Hb' in Hb. injection Hb as ->.
  destruct (crash_holds (next_segment_id (Some segs)) m es rt a0 d [] 0 b dur [] file io)
    as (k & ak & Hk & _ & Hd); try done.
  - by apply next_segment_id_above.
  - lia.
  - apply list_lookup_singleton_Some in Hk as [_ ->]. by apply crash_mounted; [|done|apply Hlog|].
Qed.
End log.

(* ------------------------------------------------------------------------ *)
(** ** Reading a directory in pages *)

Section paging.
Context {B : Blockset} {L : BlocksetLaws B}.
Context (full : list ReplyItem → ReplyItem → bool) (now : Z * Z).
Context (sv sf : option (Z * Z * Z * Z)).
Implicit Types (f : SliceFsFilesystem B).

(** What a client does: ask again at the offset of the last entry until a page is
    empty. *)
Fixpoint read_pages (fuel : nat) (ino offset : Z)
    : M (SliceFsFilesystem B) Empty_set (option (list ReplyItem)) :=
  match fuel with
  | O => mret None
  | S fuel =>
      rep ← serve full now sv sf (ReqReaddir ino offset);
      match rep with
      | ReplyDirectory items =>
          match last items with
          | None => mret (Some [])
          | Some (_, next_offset, _, _) =>
              rest ← read_pages fuel ino next_offset;
              mret (app items <$> rest)
          end
      | _ => mret None
      end
  end.

(** Entries with the offsets that follow them. *)
Fixpoint items_from (offset : Z) (entries : list (Z * FileType * bytes)) : list ReplyItem :=
  match entries with
  | [] => []
  | (i, kind, name) :: entries => (i, wrap64 (offset + 1), kind, name) :: items_from (offset + 1) entries
  end.

Lemma items_from_app offset l l' :
  items_from offset (l ++ l') = items_from offset l ++ items_from (offset + Z.of_nat (length l)) l'.
Proof.
  revert offset. induction l as [|[[i kind] n] l IH]; intros offset; cbn [app items_from length].
  { by rewrite Z.add_0_r. }
  rewrite IH. cbn [app]. do 3 f_equal. lia.
Qed.

Lemma length_items_from offset l : length (items_from offset l) = length l.
Proof. revert offset. induction l as [|[[i kind] n] l IH]; intros offset; cbn; [done|]. by rewrite IH. Qed.

Lemma items_from_entries offset l :
  (λ it : ReplyItem, (it.1.1.1, it.1.2, it.2)) <$> items_from offset l = l.
Proof.
  revert offset. induction l as [|[[i kind] n] l IH]; intros offset; [done|].
  cbn [items_from fmap list_fmap fst snd]. f_equal. apply IH.
Qed.

(** A page is a prefix of the remaining entries, and not an empty one if the first
    entry fits. *)
Lemma fill_reply_prefix offset index acc l :
  ∃ k, (k ≤ length l)%nat ∧
    fill_reply full offset index acc l = acc ++ items_from (offset + index) (take k l) ∧
    (acc = [] → (∀ item, full [] item = false) → l ≠ [] → (0 < k)%nat).
Proof.
  revert index acc. induction l as [|[[i kind] n] l IH]; intros index acc; cbn [fill_reply].
  { exists 0%nat. cbn. by rewrite app_nil_r. }
  destruct (full acc _) eqn:Ef.
  - exists 0%nat. split_and!; [lia|cbn; by rewrite app_nil_r|]. intros -> Hfit _. by rewrite Hfit in Ef.
  - destruct (IH (index + 1) (acc ++ [(i, wrap64 (offset + index + 1), kind, n)])) as (k & Hk & Hrun & _).
    exists (S k). split_and!; [cbn; lia| |lia]. rewrite Hrun, <-app_assoc. cbn [take items_from app].
    by rewrite Z.add_assoc.
Qed.

Lemma last_items_from offset l :
  l ≠ [] → is_u64 (offset + Z.of_nat (length l)) → 0 ≤ offset →
  ∃ i kind n, last (items_from offset l) = Some (i, offset + Z.of_nat (length l), kind, n).
Proof.
  intros Hl Hu H0. destruct l as [|[[i kind] n] l _] using rev_ind; [done|].
  rewrite items_from_app. cbn [items_from]. rewrite last_snoc. exists i, kind, n.
  rewrite length_app in *. cbn [length] in *. unfold wrap64, is_u64 in *. rewrite Z.mod_small by lia.
  by replace (offset + Z.of_nat (length l + 1)) with (offset + Z.of_nat (length l) + 1) by lia.
Qed.

(** A directory whose listing does not change is read completely, each entry once,
    with one more request than there are entries at most. *)
Lemma read_pages_complete f ino (l : list (Z * FileType * bytes)) offset fuel :
  (∀ item, full [] item = false) →
  (∀ off, test_readdir ino off f = (f, Ok (drop (Z.to_nat off) l))) →
  0 ≤ offset ≤ Z.of_nat (length l) → is_u64 (Z.of_nat (length l)) →
  Z.of_nat (length l) - offset < Z.of_nat fuel →
  read_pages fuel ino offset f = (f, Ok (Some (items_from offset (drop (Z.to_nat offset) l)))).
Proof.
  intros Hfit Hdir. revert offset. induction fuel as [|fuel IH]; intros offset Hoff Hu Hfuel; [lia|].
  cbn [read_pages]. rewrite run_bind. cbn [serve]. unfold fuse_readdir. rewrite run_bind.
  unfold handle_readdir, handled. rewrite Hdir. cbn [mret M_ret readdir_reply].
  set (rest := drop (Z.to_nat offset) l).
  assert (Z.of_nat (length rest) = Z.of_nat (length l) - offset) as Hlen
    by (unfold rest; rewrite length_drop; lia).
  destruct (fill_reply_prefix offset 0 [] rest) as (k & Hk & Hrun & Hpos).
  rewrite Hrun, Z.add_0_r. cbn [app].
  destruct (decide (rest = [])) as [Hnil|Hne].
  { rewrite Hnil, take_nil. done. }
  specialize (Hpos eq_refl Hfit Hne).
  assert (length (take k rest) = k) as Hlk by (rewrite length_take; lia).
  destruct (last_items_from offset (take k rest)) as (i & kind & n & Hlast);
    [intros E; by rewrite E in Hlk; cbn in Hlk; lia|rewrite Hlk; unfold is_u64 in *; lia|lia|].
  rewrite Hlast, Hlk, run_bind. rewrite IH by (unfold is_u64 in *; lia).
  assert (drop (Z.to_nat (offset + Z.of_nat k)) l = drop k rest) as ->.
  { unfold rest. rewrite drop_drop. f_equal. lia. }
  cbn [mret M_ret fmap option_fmap option_map]. do 3 f_equal.
  rewrite <-(take_drop k rest) at 3. by rewrite items_from_app, Hlk.
Qed.

(** The kind that [readdir] reports for an inode. *)
Definition kind_in (a : AbsFs) (ino : Z) : FileType :=
  match a_inodes a !! ino with Some m => file_type_of (im_mode m) | None => RegularFile end.

Lemma readdir_kinds_run f a entries :
  store_rep (fs_meta f) a →
  readdir_kinds entries f = (f, Ok ((λ e, (de_ino e, kind_in a (de_ino e), de_name e)) <$> entries)).
Proof.
  intros Hr. induction entries as [|e es IH]; [done|]. cbn [readdir_kinds]. rewrite run_bind.
  unfold attempt. rewrite (on_meta_run eio _ f _ _ (get_inode_run _ _ (de_ino e) Hr)), upd_meta_same.
  cbn [fmap list_fmap]. unfold kind_in at 1.
  destruct (a_inodes a !! de_ino e) as [m|]; cbn [ok_or res_map_err]; by rewrite run_bind, IH.
Qed.

(** [readdir] of a represented file system shows its directory. *)
Lemma test_readdir_run f a ino D :
  store_rep (fs_meta f) a → a_dirs a !! ino = Some D →
  ∃ l, (∀ off, test_readdir ino off f = (f, Ok (drop (Z.to_nat off) l))) ∧
       l ≡ₚ (λ p, (p.2, kind_in a p.2, p.1)) <$> map_to_list D.
Proof.
  intros Hr HD. destruct (list_step meta_error_to_errno f a ino D Hr HD) as (l & Hl & Hp).
  exists ((λ e, (de_ino e, kind_in a (de_ino e), de_name e)) <$> l). split.
  - intros off. unfold test_readdir. rewrite run_bind, Hl, (readdir_kinds_run f a) by done.
    by rewrite fmap_drop.
  - rewrite Hp, <-list_fmap_compose. done.
Qed.

(** Reading page by page gives every entry of the directory once. *)
Lemma readdir_all f a ino D :
  store_rep (fs_meta f) a → a_dirs a !! ino = Some D →
  (∀ item, full [] item = false) → is_u64 (Z.of_nat (size D)) →
  ∃ items, read_pages (S (size D)) ino 0 f = (f, Ok (Some items)) ∧
    (λ it : ReplyItem, (it.2, it.1.1.1)) <$> items ≡ₚ map_to_list D ∧
    Forall (λ it : ReplyItem, it.1.2 = kind_in a it.1.1.1) items.
Proof.
  intros Hr HD Hfit Hu. destruct (test_readdir_run f a ino D Hr HD) as (l & Hl & Hp).
  assert (length l = size D) as Hlen.
  { by rewrite Hp, length_fmap, length_map_to_list. }
  pose proof (items_from_entries 0 l) as He.
  exists (items_from 0 l). split_and!.
  - rewrite (read_pages_complete f ino l 0); [done|done|done|lia|by rewrite Hlen|lia].
  - assert ((λ it : ReplyItem, (it.2, it.1.1.1)) <$> items_from 0 l = (λ e, (e.2, e.1.1)) <$> l) as ->.
    { rewrite <-He at 2. by rewrite <-list_fmap_compose. }
    rewrite Hp, <-list_fmap_compose. rewrite <-(list_fmap_id (map_to_list D)) at 2.
    apply Permutation_refl', list_fmap_ext. by intros ? [].
  - apply Forall_forall. intros it Hit.
    assert ((it.1.1.1, it.1.2, it.2) ∈ l) as Hin.
    { rewrite <-He. by apply (list_elem_of_fmap_2 (λ it : ReplyItem, (it.1.1.1, it.1.2, it.2))). }
    rewrite Hp in Hin. apply list_elem_of_fmap in Hin as (p & Heq & _). by injection Heq as -> -> _.
Qed.
End paging.

(* ------------------------------------------------------------------------ *)
(** ** A request that changes the tree *)

Section mkdir.
Context {B : Blockset} {L : BlocksetLaws B}.
Context (full : list ReplyItem → ReplyItem → bool) (now : Z * Z).
Context (sv sf : option (Z * Z * Z * Z)).
Implicit Types (f : SliceFsFilesystem B).

(** What the kernel gets for a [mkdir] whose outcome is [r] in the file system [a]. *)
Definition entry_for (a : AbsFs) (r : res MetaError Z) : Reply :=
  match r with
  | Ok ino => from_option (λ m, ReplyEntry (inode_to_file_attr m))
                (ReplyError (meta_error_to_errno (NotFound ino))) (a_inodes a !! ino)
  | Err e => ReplyError (meta_error_to_errno e)
  | Panic => ReplyError EIO
  end.

(** A [mkdir] request does what [create_directory] of the specification does and replies
    with the attributes of the new directory, or with the error. *)
Lemma serve_mkdir f a parent name mode umask uid gid :
  let meta := new_directory 0 uid gid (Z.lor S_IFDIR (perm_bits mode umask)) in
  let '(a', r) := abs_create_directory parent name meta a in
  store_rep (fs_meta f) a → utf8_valid name = true → mkdir_room a parent name meta → r ≠ Panic →
  ∃ f', serve full now sv sf (ReqMkdir parent name mode umask uid gid) f = (f', Ok (entry_for a' r)) ∧
        fs_step f f' a'.
Proof.
  intros meta. destruct (abs_create_directory parent name meta a) as [a' r] eqn:E.
  intros Hr Hv Hroom Hnp.
  destruct (meta_step_as meta_error_to_errno _ _ f a a' r
              (create_directory_refines _ _ parent name meta Hr Hroom) E) as (f' & Hrun & Hstep).
  exists f'. split; [|done]. cbn [serve]. unfold fuse_mkdir, with_str, to_str. rewrite from_utf8_valid by done.
  rewrite run_bind. unfold handle_mkdir, handled, test_mkdir_full, with_attrs.
  rewrite run_bind. unfold simulate_mkdir. fold meta. rewrite Hrun.
  destruct r as [ino|e|]; [|done|done]. cbn [res_map_err entry_for]. rewrite run_bind.
  destruct (a_inodes a' !! ino) as [m|] eqn:Hm.
  - by rewrite (get_inode_step _ _ _ _ _ (step_rep _ _ _ Hstep) Hm).
  - rewrite (on_meta_run _ _ _ _ _ (get_inode_run _ _ ino (step_rep _ _ _ Hstep))), Hm, upd_meta_same. done.
Qed.
End mkdir.
