(* ===== verification/FsSpec.v ===== *)
(** * What a mounted file system promises

    The requests of the kernel on a state without digests, blocks, accumulators and
    reference counts: the tree of [StoreSpec], one byte string per file, and one byte
    string per open handle.  [ServeRefine] proves that the adapter serves every request
    as it is specified here.

    A specification also says what it needs: that the contents it stores do not collide
    and that numbers stay in their ranges.  The needs of a run are collected as a
    proposition beside the state. *)

From S2P Require Import Prelude Types Text Blockset Inode InodeMap Xattr Directory Segment Wal.
From S2P Require Import Store StoreSpec StoreRefine MetadataStoreTrait Filesystem WritePath Namespace.
From S2P Require Import NamespaceRefine Handlers Callbacks Session.
From stdpp Require Import base tactics numbers option list gmap strings.
Open Scope Z_scope.

(** An open handle: its content, whether it is still written in order, whether it is
    committed, and the content of the last commit through it. *)
Record SpecHandle := mkHandle {
  sh_ino : Z;
  sh_streaming : bool;
  sh_data : bytes;
  sh_clean : bool;
  sh_root : option bytes
}.

(** [sp_tree] has no block lists; [sp_contents] maps a file to its content, which is
    [None] for a file that was never written to. *)
Record SpecFs := mkSpec {
  sp_tree : AbsFs;
  sp_contents : gmap Z (option bytes);
  sp_handles : gmap Z SpecHandle;
  sp_next_fh : Z
}.

Definition sp_set_tree (t : AbsFs) (sp : SpecFs) : SpecFs :=
  mkSpec t (sp_contents sp) (sp_handles sp) (sp_next_fh sp).
Definition sp_set_contents (c : gmap Z (option bytes)) (sp : SpecFs) : SpecFs :=
  mkSpec (sp_tree sp) c (sp_handles sp) (sp_next_fh sp).
Definition sp_set_handles (h : gmap Z SpecHandle) (sp : SpecFs) : SpecFs :=
  mkSpec (sp_tree sp) (sp_contents sp) h (sp_next_fh sp).
Definition sp_set_next_fh (n : Z) (sp : SpecFs) : SpecFs :=
  mkSpec (sp_tree sp) (sp_contents sp) (sp_handles sp) n.

(** The state with what was needed so far. *)
Definition Needs : Type := SpecFs * Prop.

Definition require {E} (P : Prop) : M Needs E unit := λ c, ((c.1, c.2 ∧ P), Ok tt).
Definition sgets {E A} (g : SpecFs → A) : M Needs E A := gets (λ c, g c.1).
Definition smodify {E} (g : SpecFs → SpecFs) : M Needs E unit := modify (λ c, (g c.1, c.2)).

(** A call of the metadata store. *)
Definition tree {A} (need : AbsFs → Prop) (m : M AbsFs MetaError A) : M Needs MetaError A := λ c,
  let '(t, r) := m (sp_tree c.1) in ((sp_set_tree t c.1, c.2 ∧ need (sp_tree c.1)), r).

Section spec.
Context {B : Blockset} {L : BlocksetLaws B}.

(** A listing is in the order of the digests of the names. *)
Definition listed (ino : Z) : M AbsFs MetaError (list DirEntry) := λ a,
  (a, match a_dirs a !! ino with
      | None => Err (NotADirectory ino)
      | Some D => Ok (dir_listing D)
      end).

(** The calls of the store, with what they need. *)
Definition no_need : AbsFs → Prop := λ _, True.
Definition t_create_inode (meta : InodeMeta) : M Needs MetaError Z :=
  tree (λ a, call_room a (CallCreateInode meta)) (abs_create_inode meta).
Definition t_get_inode (ino : Z) : M Needs MetaError InodeMeta := tree no_need (abs_get_inode ino).
Definition t_update_inode (meta : InodeMeta) : M Needs MetaError unit :=
  tree (λ a, call_room a (CallUpdateInode meta)) (abs_update_inode meta).
Definition t_delete_inode (ino : Z) : M Needs MetaError unit := tree no_need (abs_delete_inode ino).
Definition t_create_directory (parent : Z) (name : bytes) (meta : InodeMeta) : M Needs MetaError Z :=
  tree (λ a, mkdir_room a parent name meta) (abs_create_directory parent name meta).
Definition t_list_directory (ino : Z) : M Needs MetaError (list DirEntry) := tree no_need (listed ino).
Definition t_lookup (parent : Z) (name : bytes) : M Needs MetaError Z :=
  tree (λ _, admissible name) (abs_lookup parent name).
Definition t_link (parent : Z) (name : bytes) (ino : Z) : M Needs MetaError unit :=
  tree (λ a, call_room a (CallLink parent name ino)) (abs_link parent name ino).
Definition t_unlink (parent : Z) (name : bytes) : M Needs MetaError unit :=
  tree (λ a, call_room a (CallUnlink parent name)) (abs_unlink parent name).

(** The content of a file is one block list, which is stored as a blob. *)
Definition set_content (ino : Z) (c : option bytes) : M Needs Errno unit :=
  _ ← require (is_u64 ino ∧ from_option admissible True c ∧
               admissible (serialize_manifest (digest_of <$> option_list c)));
  smodify (λ sp, sp_set_contents (<[ino := c]> (sp_contents sp)) sp).

Definition spec_put_handle (fh : Z) (h : SpecHandle) : M Needs Errno unit :=
  _ ← require (admissible (sh_data h));
  smodify (λ sp, sp_set_handles (<[fh := h]> (sp_handles sp)) sp).
Definition spec_drop_handle (fh : Z) : M Needs Errno unit :=
  smodify (λ sp, sp_set_handles (delete fh (sp_handles sp)) sp).
Definition spec_fresh (ino : Z) : SpecHandle := mkHandle ino true [] false None.
(** The next handle number. *)
Definition spec_next_fh : M Needs Errno Z :=
  n ← sgets sp_next_fh;
  _ ← smodify (sp_set_next_fh (wrap64 (n + 1)));
  mret (wrap64 (n + 1)).

(* ---------------------------------------------------------------------- *)
(** ** Creating *)

Abbreviation errno := meta_error_to_errno.

(** A new inode under a name; when the name cannot be added the inode is removed. *)
Definition spec_create (parent : Z) (name : bytes) (meta : InodeMeta) : M Needs Errno Z :=
  ino ← map_err errno (t_create_inode meta);
  linked ← attempt (t_link parent name ino);
  match (linked : res MetaError unit) with
  | Err e => _ ← attempt (E := Errno) (map_err eio (t_delete_inode ino)); throw (errno e)
  | _ => mret ino
  end.

Definition spec_create_file (parent : Z) (name : bytes) (mode umask uid gid : Z) : M Needs Errno (Z * Z) :=
  ino ← spec_create parent name (new_file 0 uid gid (Z.lor S_IFREG (perm_bits mode umask)));
  fh ← spec_next_fh;
  _ ← spec_put_handle fh (spec_fresh ino);
  mret (ino, fh).

Definition spec_mknod (parent : Z) (name : bytes) (mode uid gid umask : Z) : M Needs Errno Z :=
  if decide (Z.land mode S_IFMT ≠ S_IFREG ∧ Z.land mode S_IFMT ≠ 0) then throw ENOSYS else
  spec_create parent name (new_file 0 uid gid (Z.lor S_IFREG (perm_bits mode umask))).

(** The inode of a new link and its target. *)
Definition spec_symlink (parent : Z) (name target : bytes) (uid gid : Z) : M Needs Errno Z :=
  ino ← spec_create parent name (symlink_meta uid gid (len target));
  _ ← set_content ino (Some target);
  inode ← map_err eio (t_get_inode ino);
  _ ← map_err eio (t_update_inode (set_isize (len target) inode));
  mret ino.
Definition spec_readlink (ino : Z) : M Needs Errno bytes :=
  c ← sgets (λ sp, sp_contents sp !! ino);
  match c with
  | None => throw EINVAL
  | Some None => mret []
  | Some (Some target) => lift (ok_or (from_utf8 target) EINVAL)
  end.

(* ---------------------------------------------------------------------- *)
(** ** Writing and reading *)

(** The content of a file, empty when nothing was written. *)
Definition content_of (sp : SpecFs) (ino : Z) : bytes := default [] (mjoin (sp_contents sp !! ino)).

(** What a write at [off] is applied to: a handle that was not written to yet takes the
    content of the file, unless it starts at 0. *)
Definition spec_base (sp : SpecFs) (h : SpecHandle) (off : Z) : bytes :=
  if decide (sh_streaming h = true ∧ sh_data h = [] ∧ off ≠ 0) then content_of sp (sh_ino h) else sh_data h.

(** A handle after a write: one that is not at its end is no longer written in order. *)
Definition spec_written (sp : SpecFs) (h : SpecHandle) (off : Z) (data : bytes) : SpecHandle :=
  let append := bool_decide (off = len (sh_data h)) in
  mkHandle (sh_ino h) (sh_streaming h && append) (pwrite (spec_base sp h off) off data) false
    (if sh_streaming h && negb append then None else sh_root h).

Definition spec_write (fh off : Z) (data : bytes) : M Needs Errno Z :=
  sp ← sgets id;
  match sp_handles sp !! fh with
  | None => throw EBADF
  | Some h =>
      _ ← require (0 ≤ off ∧ off + len data < 2 ^ 64);
      _ ← spec_put_handle fh (spec_written sp h off data);
      mret (wrap32 (len data))
  end.

(** Content that was written and not yet committed. *)
Definition is_writer (ino : Z) (h : SpecHandle) : Prop := sh_ino h = ino ∧ sh_data h ≠ [].
#[export] Instance is_writer_dec ino h : Decision (is_writer ino h).
Proof. apply _. Defined.
Definition writers (sp : SpecFs) (ino : Z) : list bytes :=
  sh_data <$> filter (is_writer ino) (map_to_list (sp_handles sp)).*2.

(** A read sees a writer's content before the committed one.  Which of several writers
    is not specified: they have to agree. *)
Definition spec_read (ino off size : Z) : M Needs Errno bytes :=
  sp ← sgets id;
  _ ← require (0 ≤ off ∧ 0 ≤ size ∧ ∀ c c', c ∈ writers sp ino → c' ∈ writers sp ino → c = c');
  match head (writers sp ino), sp_contents sp !! ino with
  | Some c, _ => mret (pread c off size)
  | None, None => throw EIO
  | None, Some None => mret []
  | None, Some (Some c) => mret (pread c off size)
  end.

Section clock.
Context (now : Z * Z).

Definition spec_set_size (ino : Z) (g : InodeMeta → InodeMeta) : M Needs Errno unit :=
  inode ← map_err eio (t_get_inode ino);
  map_err eio (t_update_inode (g inode)).

(** The content [c] of [ino] is committed. *)
Definition spec_commit (ino : Z) (c : bytes) : M Needs Errno unit :=
  spec_set_size ino (written_inode now (len c)).

Definition spec_release (ino fh : Z) : M Needs Errno unit :=
  sp ← sgets id;
  match sp_handles sp !! fh with
  | None => mret tt
  | Some h =>
      _ ← spec_drop_handle fh;
      if decide (sh_data h = []) then
        if sh_clean h then mret tt else
        match mjoin (sp_contents sp !! ino) with
        | Some _ => mret tt
        | None => set_content ino None
        end
      else if decide (sh_root h = Some (sh_data h) ∧ sh_clean h = true) then mret tt
      else
        _ ← set_content ino (Some (sh_data h));
        spec_commit ino (sh_data h)
  end.

Definition spec_flush (ino fh : Z) : M Needs Errno unit :=
  sp ← sgets id;
  match sp_handles sp !! fh with
  | None => mret tt
  | Some h =>
      if decide (sh_data h = []) then mret tt else
      _ ← set_content ino (Some (sh_data h));
      _ ← spec_put_handle fh (mkHandle (sh_ino h) (sh_streaming h) (sh_data h) true (Some (sh_data h)));
      spec_commit ino (sh_data h)
  end.

(* ---------------------------------------------------------------------- *)
(** ** Attributes *)

(** A handle after its content was cut or extended with zeros. *)
Definition spec_resized (h : SpecHandle) (n : Z) : SpecHandle :=
  mkHandle (sh_ino h) (sh_streaming h) (resize_zero (sh_data h) n) false
    (if sh_streaming h || bool_decide (n = 0) then None else sh_root h).

Definition spec_truncate (ino : Z) (fh : option Z) (n : Z) : M Needs Errno unit :=
  sp ← sgets id;
  _ ← require (is_u64 n);
  _ ← match (fh ≫= λ fh, (fh,.) <$> sp_handles sp !! fh) with
      | Some (fh, h) => spec_put_handle fh (spec_resized h n)
      | None =>
          let c := resize_zero (content_of sp ino) n in
          set_content ino (if decide (c = []) then None else Some c)
      end;
  spec_set_size ino (λ inode, stamp_ctime now (set_isize n inode)).

Definition spec_setattr (ino : Z) (mode uid gid size fh : option Z) (mtime : option (Z * Z))
    : M Needs Errno InodeMeta :=
  inode ← map_err errno (t_get_inode ino);
  inode ← match size with
          | Some n => _ ← spec_truncate ino fh n; map_err errno (t_get_inode ino)
          | None => mret (utimes mtime (chown uid gid (from_option chmod id mode inode)))
          end;
  _ ← map_err errno (t_update_inode (stamp_ctime now inode));
  mret (stamp_ctime now inode).

(** Truncate a handle that was just opened; close it when that fails. *)
Definition spec_trunc_new (ino fh : Z) : M Needs Errno unit :=
  r ← attempt (spec_truncate ino (Some fh) 0);
  match (r : res Errno unit) with
  | Err e => _ ← spec_drop_handle fh; throw e
  | _ => mret tt
  end.

(** Only a handle for writing has a state. *)
Definition spec_open (ino flags : Z) : M Needs Errno (Z * bool) :=
  let acc_mode := Z.land flags O_ACCMODE in
  fh ← spec_next_fh;
  if decide (acc_mode = O_WRONLY ∨ acc_mode = O_RDWR) then
    _ ← spec_put_handle fh (spec_fresh ino);
    _ ← (if decide (Z.land flags O_TRUNC = 0) then mret tt else spec_trunc_new ino fh);
    mret (fh, true)
  else mret (fh, false).

Definition spec_create_open (parent : Z) (name : bytes) (mode umask uid gid flags : Z)
    : M Needs Errno (Z * Z * InodeMeta) :=
  p ← spec_create_file parent name mode umask uid gid;
  _ ← (if decide (Z.land flags O_TRUNC = 0) then mret tt else spec_trunc_new p.1 p.2);
  meta ← map_err errno (t_get_inode p.1);
  mret (p, meta).

(* ---------------------------------------------------------------------- *)
(** ** Names *)

Definition spec_with_attrs (m : M Needs Errno Z) : M Needs Errno (Z * InodeMeta) :=
  ino ← m; meta ← map_err errno (t_get_inode ino); mret (ino, meta).

Definition spec_lookup (parent : Z) (name : bytes) : M Needs Errno (Z * InodeMeta) :=
  spec_with_attrs (map_err errno (t_lookup parent name)).

Definition spec_mkdir (parent : Z) (name : bytes) (mode umask uid gid : Z) : M Needs Errno Z :=
  map_err errno (t_create_directory parent name
                   (new_directory 0 uid gid (Z.lor S_IFDIR (perm_bits mode umask)))).

Definition is_dir (m : InodeMeta) : Prop := Z.land (im_mode m) S_IFDIR ≠ 0.
#[export] Instance is_dir_dec m : Decision (is_dir m).
Proof. apply _. Defined.

Definition spec_rmdir (parent : Z) (name : bytes) : M Needs Errno unit :=
  ino ← map_err errno (t_lookup parent name);
  inode ← map_err errno (t_get_inode ino);
  if decide (is_dir inode) then
    entries ← map_err errno (t_list_directory ino);
    if decide (real_entries entries = []) then
      _ ← map_err errno (t_unlink parent name);
      _ ← map_err errno (t_delete_inode ino);
      pm ← map_err errno (t_get_inode parent);
      if decide (0 < im_nlinks pm)
      then map_err errno (t_update_inode (set_nlinks (im_nlinks pm - 1) pm))
      else mret tt
    else throw ENOTEMPTY
  else throw ENOTDIR.

(** A link less: the inode goes with its last one. *)
Definition less_link (m : InodeMeta) : InodeMeta :=
  if decide (0 < im_nlinks m) then set_nlinks (im_nlinks m - 1) m else m.
Definition spec_unlink (parent : Z) (name : bytes) : M Needs Errno unit :=
  ino ← map_err errno (t_lookup parent name);
  inode ← map_err errno (t_get_inode ino);
  if decide (is_dir inode) then throw EISDIR else
  _ ← map_err errno (t_unlink parent name);
  if decide (im_nlinks (less_link inode) = 0)
  then _ ← attempt (E := Errno) (map_err eio (t_delete_inode ino)); mret tt
  else map_err errno (t_update_inode (less_link inode)).

Definition spec_link (ino parent : Z) (name : bytes) : M Needs Errno Z :=
  inode ← map_err errno (t_get_inode ino);
  if decide (is_dir inode) then throw EPERM else
  _ ← require (im_nlinks inode + 1 < 2 ^ 32);
  _ ← map_err errno (t_link parent name ino);
  _ ← map_err errno (t_update_inode (stamp_ctime now (add_link inode)));
  mret ino.

(** The entry that a rename replaces: it loses a link, and a file goes with its last
    one; a directory is left without a name. *)
Definition spec_displace (parent : Z) (name : bytes) (ino : Z) : M Needs Errno unit :=
  inode ← map_err errno (t_get_inode ino);
  _ ← map_err errno (t_unlink parent name);
  if decide (im_nlinks inode ≤ 1) then
    if decide (is_dir inode) then mret tt
    else _ ← attempt (E := Errno) (map_err eio (t_delete_inode ino)); mret tt
  else _ ← attempt (E := Errno) (map_err eio (t_update_inode (set_nlinks (im_nlinks inode - 1) inode)));
       mret tt.

Definition spec_rename (parent : Z) (name : bytes) (newparent : Z) (newname : bytes) (flags : Z)
    : M Needs Errno unit :=
  if decide (Z.land flags 2 ≠ 0) then throw ENOSYS else
  ino ← map_err (λ _, ENOENT) (t_lookup parent name);
  target ← attempt (E := Errno) (map_err eio (t_lookup newparent newname));
  let target := res_ok (target : res Errno Z) in
  if decide (Z.land flags 1 ≠ 0 ∧ is_Some target) then throw EEXIST else
  _ ← match target with None => mret tt | Some dst => spec_displace newparent newname dst end;
  _ ← map_err errno (t_link newparent newname ino);
  _ ← map_err errno (t_unlink parent name);
  inode ← map_err errno (t_get_inode ino);
  map_err errno (t_update_inode (stamp_ctime now inode)).
End clock.

(* ---------------------------------------------------------------------- *)
(** ** Directories and extended attributes *)

Definition spec_kind (sp : SpecFs) (ino : Z) : FileType :=
  from_option (λ m, file_type_of (im_mode m)) RegularFile (a_inodes (sp_tree sp) !! ino).

Definition spec_readdir (ino offset : Z) : M Needs Errno (list (Z * FileType * bytes)) :=
  entries ← map_err errno (t_list_directory ino);
  sp ← sgets id;
  mret ((λ e, (de_ino e, spec_kind sp (de_ino e), de_name e)) <$> drop (Z.to_nat offset) entries).

Definition spec_getxattr (ino : Z) (name : bytes) : M Needs Errno bytes :=
  map_err (λ _, ENODATA) (tree no_need (abs_get_xattr ino name)).
Definition spec_listxattr (ino : Z) : M Needs Errno bytes :=
  names ← map_err errno (tree no_need (abs_list_xattrs ino));
  mret (flat_map (λ n, n ++ [Byte.x00]) names).
Definition spec_setxattr (ino : Z) (name value : bytes) : M Needs Errno unit :=
  map_err errno (tree (λ a, call_room a (CallSetXattr ino name value)) (abs_set_xattr ino name value)).
Definition spec_removexattr (ino : Z) (name : bytes) : M Needs Errno unit :=
  map_err errno (tree (λ a, call_room a (CallRemoveXattr ino name)) (abs_remove_xattr ino name)).

(* ---------------------------------------------------------------------- *)
(** ** Requests *)

(** An operation and its reply; every error is reported as [err]. *)
Definition answer {A} (m : M Needs Errno A) (ok : A → Reply) (err : Errno → Errno) : M Needs Empty_set Reply :=
  handled m ok (λ e, ReplyError (err e)).
Definition entry_answer (m : M Needs Errno (Z * InodeMeta)) : M Needs Empty_set Reply :=
  answer m (λ p, ReplyEntry (inode_to_file_attr p.2)) id.
Definition done_answer (m : M Needs Errno unit) : M Needs Empty_set Reply := answer m (λ _, ReplyOk) id.
Definition io_answer (m : M Needs Errno unit) : M Needs Empty_set Reply :=
  answer m (λ _, ReplyOk) (λ _, EIO).
(** A name has to be UTF-8. *)
Definition spec_name (name : bytes) (k : bytes → M Needs Empty_set Reply) : M Needs Empty_set Reply :=
  match to_str name with Some s => k s | None => mret (ReplyError EINVAL) end.
Definition xattr_answer (size : Z) (data : bytes) : Reply :=
  if decide (size = 0) then ReplyXattrSize (wrap32 (len data)) else ReplyData data.

Definition spec_statfs (statvfs statfs : option (Z * Z * Z * Z)) (files : Z) : Reply :=
  let use (r : option (Z * Z * Z * Z)) (k : Reply) :=
    match r with
    | Some (blocks, bfree, bavail, bsize) =>
        if decide (0 < blocks)
        then ReplyStatfs blocks bfree bavail files (sat_sub u64_max files) (statfs_block_size bsize) 255
               (statfs_block_size bsize)
        else k
    | None => k
    end in
  use statvfs (use statfs (ReplyStatfs 0 0 0 files (sat_sub u64_max files) 4096 255 4096)).

Definition spec_serve (full : list ReplyItem → ReplyItem → bool) (now : Z * Z)
    (statvfs statfs : option (Z * Z * Z * Z)) (req : Request) : M Needs Empty_set Reply :=
  match req with
  | ReqGetattr ino =>
      answer (map_err errno (t_get_inode ino)) (λ inode, ReplyAttr (inode_to_file_attr inode)) id
  | ReqLookup parent name => entry_answer (spec_lookup parent (to_str_or_empty name))
  | ReqReaddir ino offset =>
      answer (spec_readdir ino offset) (λ l, ReplyDirectory (fill_reply full offset 0 [] l)) id
  | ReqRead ino offset size => answer (spec_read ino offset size) ReplyData id
  | ReqOpen ino flags => answer (spec_open now ino flags) (λ p, ReplyOpened p.1) id
  | ReqOpendir _ => mret (ReplyOpened 0)
  | ReqRelease ino fh => io_answer (spec_release now ino fh)
  | ReqReleasedir _ => mret ReplyOk
  | ReqFlush ino fh => io_answer (spec_flush now ino fh)
  | ReqFsync ino fh => io_answer (spec_flush now ino fh)
  | ReqStatfs => n ← sgets (λ sp, Z.of_nat (size (a_inodes (sp_tree sp)))); mret (spec_statfs statvfs statfs n)
  | ReqAccess _ _ => mret ReplyOk
  | ReqGetxattr ino name size =>
      answer (spec_getxattr ino (to_str_or_empty name)) (xattr_answer size) (λ _, ENODATA)
  | ReqListxattr ino size => answer (spec_listxattr ino) (xattr_answer size) id
  | ReqSetxattr ino name value _ => done_answer (spec_setxattr ino (to_str_or_empty name) value)
  | ReqRemovexattr ino name =>
      answer (spec_removexattr ino (to_str_or_empty name)) (λ _, ReplyOk)
        (λ e, if decide (e = ENOENT) then ENODATA else e)
  | ReqWrite fh offset data => answer (spec_write fh offset data) ReplyWritten (λ _, EBADF)
  | ReqCreate parent name mode umask flags uid gid => spec_name name (λ name,
      answer (spec_create_open now parent name mode umask uid gid flags)
        (λ p, ReplyCreated (inode_to_file_attr p.2) p.1.2) id)
  | ReqMkdir parent name mode umask uid gid => spec_name name (λ name,
      entry_answer (spec_with_attrs (spec_mkdir parent name mode umask uid gid)))
  | ReqMknod parent name mode umask uid gid => spec_name name (λ name,
      entry_answer (spec_with_attrs (spec_mknod parent name mode uid gid umask)))
  | ReqSymlink parent link_name target uid gid => spec_name link_name (λ link_name,
      spec_name target (λ target,
        entry_answer (spec_with_attrs (spec_symlink parent link_name target uid gid))))
  | ReqReadlink ino => answer (spec_readlink ino) ReplyData id
  | ReqLink ino newparent newname => spec_name newname (λ newname,
      entry_answer (spec_with_attrs (spec_link now ino newparent newname)))
  | ReqUnlink parent name => spec_name name (λ name, done_answer (spec_unlink parent name))
  | ReqRmdir parent name => spec_name name (λ name, done_answer (spec_rmdir parent name))
  | ReqRename parent name newparent newname flags => spec_name name (λ name, spec_name newname (λ newname,
      done_answer (spec_rename now parent name newparent newname flags)))
  | ReqSetattr ino mode uid gid size mtime fh =>
      answer (spec_setattr now ino mode uid gid size fh (mtime_pair now <$> mtime))
        (λ inode, ReplyAttr (inode_to_file_attr inode)) id
  | ReqGetlk _ start end_ _ pid => mret (ReplyLocked start end_ F_UNLCK pid)
  | ReqSetlk _ _ _ _ _ => mret ReplyOk
  | ReqFallocate _ _ _ => mret (ReplyError ENOSYS)
  end.

Definition spec_call (c : KernelCall) : M Needs Empty_set Reply :=
  spec_serve (kc_full c) (kc_now c) (kc_statvfs c) (kc_statfs c) (kc_request c).
Fixpoint spec_calls (cs : list KernelCall) : M Needs Empty_set (list Reply) :=
  match cs with
  | [] => mret []
  | c :: cs => rep ← spec_call c; reps ← spec_calls cs; mret (rep :: reps)
  end.
End spec.
