(* ===== verification/FsSim.v ===== *)
(** * The adapter follows its specification

    [fs_rep f sp]: the adapter [f] represents the specification state [sp].  [sim] relates
    an operation to its specification: where everything that the specification needs
    holds, the operation returns the same and the states stay related.  The operations on
    handles are proved one by one; the others are composed from the calls of the store. *)

From S2P Require Import Prelude Types Text Blockset Inode InodeMap Xattr Directory Segment Wal.
From S2P Require Import Store StoreSpec StoreRefine MetadataStoreTrait Filesystem WritePath Namespace.
From S2P Require Import NamespaceRefine Handlers Callbacks Session Serving FsSpec.
From stdpp Require Import base tactics numbers option list gmap strings.
Open Scope Z_scope.

Section sim.
Context {B : Blockset} {L : BlocksetLaws B}.
Implicit Types (f : SliceFsFilesystem B) (sp : SpecFs) (s : OpenFileState B) (h : SpecHandle).

(* ---------------------------------------------------------------------- *)
(** ** Representation *)

(** The block list of a content, and the tree with the block lists. *)
Definition blocks_of (c : option bytes) : list Digest224 := digest_of <$> option_list c.
Definition sp_abs sp : AbsFs := a_set_manifests (blocks_of <$> sp_contents sp) (sp_tree sp).

Record handle_sim (io : Io) s h : Prop := {
  hs_ino : of_ino s = sh_ino h;
  hs_mode : is_streaming s = sh_streaming h;
  hs_data : handle_rep io s (sh_data h);
  hs_clean : of_cas_committed s = sh_clean h;
  hs_root : of_last_committed_root s = digest_of <$> sh_root h;
  hs_adm : admissible (sh_data h);
  hs_root_adm : from_option admissible True (sh_root h)
}.

Record fs_rep f sp : Prop := {
  fr_store : store_rep (fs_meta f) (sp_abs sp);
  fr_contents : map_Forall (λ _ c, from_option (stored (st_io (fs_meta f))) True c) (sp_contents sp);
  fr_handles : map_Forall2 (λ _, handle_sim (st_io (fs_meta f))) (fs_open_files f) (sp_handles sp);
  fr_fh : fs_next_fh f = sp_next_fh sp
}.

Lemma handle_sim_mono io io' s h : io ⊑ᵢ io' → handle_sim io s h → handle_sim io' s h.
Proof. intros Hle []. split; try done. by eapply handle_rep_mono. Qed.

(** The metadata store changes; contents and handles stay. *)
Lemma fs_rep_meta f sp m t :
  fs_rep f sp → store_rep m (sp_abs (sp_set_tree t sp)) → st_io (fs_meta f) ⊑ᵢ st_io m →
  fs_rep (upd_meta m f) (sp_set_tree t sp).
Proof.
  intros [_ Hc Hh Hn] Hm Hle. split; [done| | |done].
  - eapply map_Forall_impl; [exact Hc|]. intros k [bs|]; [|done]. by apply stored_mono.
  - eapply map_Forall2_impl; [exact Hh|]. intros k s h. by apply handle_sim_mono.
Qed.

Lemma sp_set_tree_same sp : sp_set_tree (sp_tree sp) sp = sp.
Proof. by destruct sp. Qed.

(** Content and reference counts only. *)
Lemma fs_rep_same_meta f sp m : fs_rep f sp → same_meta (fs_meta f) m → fs_rep (upd_meta m f) sp.
Proof.
  intros Hr Hm. rewrite <-(sp_set_tree_same sp). apply fs_rep_meta; [done| |by apply same_meta_le].
  rewrite sp_set_tree_same. eapply same_meta_rep; [done|apply Hr].
Qed.

(** One handle changes. *)
Lemma fs_rep_put f sp fh s h :
  fs_rep f sp → handle_sim (st_io (fs_meta f)) s h →
  fs_rep (upd_open_files (<[fh := s]> (fs_open_files f)) f) (sp_set_handles (<[fh := h]> (sp_handles sp)) sp).
Proof. intros [] Hs. split; try done. by apply map_Forall2_insert_2. Qed.
Lemma fs_rep_drop f sp fh :
  fs_rep f sp →
  fs_rep (upd_open_files (delete fh (fs_open_files f)) f) (sp_set_handles (delete fh (sp_handles sp)) sp).
Proof. intros []. split; try done. by apply map_Forall2_delete. Qed.
Lemma fs_rep_next_fh f sp n : fs_rep f sp → fs_rep (upd_next_fh n f) (sp_set_next_fh n sp).
Proof. by intros []. Qed.

(** Both tables have the handle, or neither. *)
Lemma fs_rep_handle f sp fh :
  fs_rep f sp →
  match fs_open_files f !! fh, sp_handles sp !! fh with
  | Some s, Some h => handle_sim (st_io (fs_meta f)) s h
  | None, None => True
  | _, _ => False
  end.
Proof.
  intros Hr. pose proof (fr_handles _ _ Hr fh) as H.
  by destruct (fs_open_files f !! fh), (sp_handles sp !! fh); inversion H.
Qed.

(* ---------------------------------------------------------------------- *)
(** ** Simulation *)

(** What is needed only grows. *)
Definition mono {E A} (spec : M Needs E A) : Prop := ∀ sp P, (spec (sp, P)).1.2 → P.

Definition sim {E A} (c : M (SliceFsFilesystem B) E A) (spec : M Needs E A) : Prop :=
  mono spec ∧
  ∀ f sp P, fs_rep f sp → (spec (sp, P)).1.2 →
    (c f).2 = (spec (sp, P)).2 ∧ fs_rep (c f).1 (spec (sp, P)).1.1 ∧
    st_io (fs_meta f) ⊑ᵢ st_io (fs_meta (c f).1).

Lemma sim_mono {E A} (c : M _ E A) spec : sim c spec → mono spec.
Proof. by intros []. Qed.

Lemma mono_bind {E A A'} (spec : M Needs E A) (kspec : A → M Needs E A') :
  mono spec → (∀ x, mono (kspec x)) → mono (spec ≫= kspec).
Proof.
  intros Hc Hk sp P. rewrite run_bind. pose proof (Hc sp P) as H.
  destruct (spec (sp, P)) as [[sp1 P1] [x|e|]]; [|done..]. intros HP. apply H. by apply (Hk x sp1 P1).
Qed.
Lemma mono_require {E} P : mono (E := E) (require P).
Proof. by intros sp P' []. Qed.
Lemma mono_ret {E A} (x : A) : mono (E := E) (mret x).
Proof. by intros sp P. Qed.
Lemma mono_gets {E A} (g : SpecFs → A) : mono (E := E) (sgets g).
Proof. by intros sp P. Qed.
Lemma mono_modify {E} g : mono (E := E) (smodify g).
Proof. by intros sp P. Qed.

Lemma sim_ret {E A} (x : A) : sim (E := E) (mret x) (mret x).
Proof. split; [by intros sp P|done]. Qed.
Lemma sim_throw {E A} (e : E) : sim (A := A) (throw e) (throw e).
Proof. split; [by intros sp P|done]. Qed.
Lemma sim_lift {E A} (r : res E A) : sim (lift r) (lift r).
Proof. split; [by intros sp P|done]. Qed.

Lemma sim_bind {E A A'} (c : M _ E A) spec (k : A → M _ E A') kspec :
  sim c spec → (∀ x, sim (k x) (kspec x)) → sim (c ≫= k) (spec ≫= kspec).
Proof.
  intros [Hm Hc] Hk. split; [apply mono_bind; [done|intros x; apply Hk]|].
  intros f sp P Hr. pose proof (Hc f sp P Hr) as H2. rewrite !run_bind.
  destruct (spec (sp, P)) as [[sp1 P1] r1]. cbn [fst snd] in *.
  destruct (c f) as [f1 r]. cbn [fst snd] in *.
  destruct r1 as [x|e|]; [|by intros HP; destruct (H2 HP) as (-> & ? & ?)..].
  intros HP. destruct (H2 (proj1 (Hk x) _ _ HP)) as (-> & Hr1 & Hle).
  destruct (proj2 (Hk x) f1 sp1 P1 Hr1 HP) as (? & ? & Hle'). split_and!; [done|done|by etransitivity].
Qed.

(** Change of the result. *)
Lemma sim_handled {E A R} (c : M _ E A) spec (ok : A → R) (err : E → R) :
  sim c spec → sim (handled c ok err) (handled spec ok err).
Proof.
  intros [Hm Hc]. unfold handled. split.
  - intros sp P. specialize (Hm sp P). by destruct (spec (sp, P)) as [? [x|e|]].
  - intros f sp P Hr. pose proof (Hc f sp P Hr) as H2.
    destruct (c f) as [f1 r], (spec (sp, P)) as [sp1 r']. cbn [fst snd] in *.
    by destruct r' as [x|e|]; intros HP; destruct (H2 HP) as (-> & ? & ?).
Qed.
Lemma sim_map_err {E E' A} (g : E → E') (c : M _ E A) spec : sim c spec → sim (map_err g c) (map_err g spec).
Proof.
  intros [Hm Hc]. unfold map_err. split.
  - intros sp P. specialize (Hm sp P). by destruct (spec (sp, P)) as [? r].
  - intros f sp P Hr. pose proof (Hc f sp P Hr) as H2.
    destruct (c f) as [f1 r], (spec (sp, P)) as [sp1 r']. cbn [fst snd] in *.
    intros HP. by destruct (H2 HP) as (-> & ? & ?).
Qed.
Lemma sim_attempt {E E' A} (c : M _ E A) spec : sim c spec → sim (attempt (E' := E') c) (attempt spec).
Proof.
  intros [Hm Hc]. unfold attempt. split.
  - intros sp P. specialize (Hm sp P). by destruct (spec (sp, P)) as [? [x|e|]].
  - intros f sp P Hr. pose proof (Hc f sp P Hr) as H2.
    destruct (c f) as [f1 r], (spec (sp, P)) as [sp1 r']. cbn [fst snd] in *.
    by destruct r' as [x|e|]; intros HP; destruct (H2 HP) as (-> & ? & ?).
Qed.

(** A step that only the specification takes: a need. *)
Lemma sim_require {E A} (P : Prop) (c : M _ E A) spec :
  mono spec → (P → sim c spec) → sim c (_ ← require P; spec).
Proof.
  intros Hm Hc. split; [apply mono_bind; [apply mono_require|done]|].
  intros f sp P' Hr H. rewrite run_bind in H |- *. cbn [require fst snd] in *.
  pose proof (Hm _ _ H) as [_ HP]. by apply (Hc HP).
Qed.

(** A step that only the adapter takes: content and reference counts. *)
Lemma sim_skip {E A A'} (c : M _ E A) (k : A → M _ E A') spec :
  mono spec →
  (∀ f sp, fs_rep f sp → ∃ x m, c f = (upd_meta m f, Ok x) ∧ same_meta (fs_meta f) m ∧ sim (k x) spec) →
  sim (c ≫= k) spec.
Proof.
  intros Hm Hc. split; [done|]. intros f sp P Hr HP. destruct (Hc f sp Hr) as (x & m & Hrun & Hs & Hk).
  rewrite run_bind, Hrun. destruct (proj2 Hk (upd_meta m f) sp P) as (? & ? & Hle); [by apply fs_rep_same_meta|done|].
  split_and!; [done|done|]. etransitivity; [by apply same_meta_le|done].
Qed.

(** An operation that looks at the state. *)
Lemma sim_state {E A} (c : M _ E A) (spec : SpecFs → M Needs E A) :
  (∀ sp, mono (spec sp)) →
  (∀ f sp P, fs_rep f sp → (spec sp (sp, P)).1.2 →
     (c f).2 = (spec sp (sp, P)).2 ∧ fs_rep (c f).1 (spec sp (sp, P)).1.1 ∧
     st_io (fs_meta f) ⊑ᵢ st_io (fs_meta (c f).1)) →
  sim c (sp ← sgets id; spec sp).
Proof. intros H1 H2. split; [|done]. apply mono_bind; [apply mono_gets|done]. Qed.

(** A call of the store that does not look at the block lists. *)
Definition blind {A} (m : M AbsFs MetaError A) : Prop :=
  ∀ X a, m (a_set_manifests X a) = (a_set_manifests X (m a).1, (m a).2).

Lemma sim_tree {A} (need : AbsFs → Prop) (c : M (DictMetadataStore B) MetaError A) m :
  blind m → (∀ X a, need a → need (a_set_manifests X a)) →
  (∀ st a, store_rep st a → need a → refines c m st a) →
  sim (zoom fs_meta upd_meta c) (tree need m).
Proof.
  intros Hb Hneed Hc. unfold tree, zoom. split.
  { intros sp P. cbn [fst snd]. destruct (m (sp_tree sp)) as [t r]. by intros []. }
  intros f sp P Hr. cbn [fst snd]. destruct (m (sp_tree sp)) as [t r] eqn:E. cbn [fst snd]. intros [_ Hn]. destruct (Hc _ _ (fr_store _ _ Hr)) as (H1 & H2 & H3); [by apply Hneed|].
  unfold sp_abs in H1, H2. rewrite Hb, E in H1, H2. destruct (c (fs_meta f)) as [st' r']. cbn [fst snd] in *.
  split_and!; [done|by apply fs_rep_meta|done].
Qed.

(* ---------------------------------------------------------------------- *)
(** ** The calls of the store *)

Lemma list_directory_listing (st : DictMetadataStore B) a ino :
  store_rep st a → list_directory ino st = (st, (listed ino a).2).
Proof.
  intros Hr. unfold list_directory, listed. cbn [snd]. rewrite (on_dir _ st a) by done.
  destruct (a_dirs a !! ino) as [D|] eqn:HD; [|done]. destruct (rep_dir_facts st a _ _ Hr HD) as [Hwf Hst].
  mrun. by rewrite list_dir_entries_spec.
Qed.

Ltac solve_blind := intros X a; unfold abs_create_inode, abs_get_inode, abs_update_inode, abs_delete_inode,
  abs_create_directory, abs_lookup, abs_link, abs_unlink, abs_get_xattr, abs_list_xattrs, abs_set_xattr,
  abs_remove_xattr, listed; abs_simpl;
  repeat (case_decide || case_match); reflexivity.

Lemma sim_create_inode meta : sim (zoom fs_meta upd_meta (create_inode meta)) (t_create_inode meta).
Proof.
  apply sim_tree; [solve_blind|done|]. intros st a Hr (? & ? & ? & ?). by apply create_inode_refines.
Qed.
Lemma sim_get_inode ino : sim (zoom fs_meta upd_meta (get_inode ino)) (t_get_inode ino).
Proof. apply sim_tree; [solve_blind|done|]. intros st a Hr _. by apply get_inode_refines. Qed.
Lemma sim_update_inode meta : sim (zoom fs_meta upd_meta (update_inode meta)) (t_update_inode meta).
Proof. apply sim_tree; [solve_blind|done|]. intros st a Hr (? & ? & ?). by apply update_inode_refines. Qed.
Lemma sim_delete_inode ino : sim (zoom fs_meta upd_meta (delete_inode ino)) (t_delete_inode ino).
Proof. apply sim_tree; [solve_blind|done|]. intros st a Hr _. by apply delete_inode_refines. Qed.
Lemma sim_create_directory parent name meta :
  sim (zoom fs_meta upd_meta (create_directory parent name meta)) (t_create_directory parent name meta).
Proof.
  apply sim_tree; [solve_blind|by intros X a []|]. intros st a Hr Hroom. by apply create_directory_refines.
Qed.
Lemma sim_lookup parent name : sim (zoom fs_meta upd_meta (store_lookup parent name)) (t_lookup parent name).
Proof. apply sim_tree; [solve_blind|done|]. intros st a Hr Hn. by apply lookup_refines. Qed.
Lemma sim_link parent name ino :
  sim (zoom fs_meta upd_meta (link parent name ino)) (t_link parent name ino).
Proof. apply sim_tree; [solve_blind|done|]. intros st a Hr (? & ? & ?). by apply link_refines. Qed.
Lemma sim_unlink parent name : sim (zoom fs_meta upd_meta (unlink parent name)) (t_unlink parent name).
Proof. apply sim_tree; [solve_blind|done|]. intros st a Hr (? & ?). by apply unlink_refines. Qed.
Lemma sim_list_directory ino : sim (zoom fs_meta upd_meta (list_directory ino)) (t_list_directory ino).
Proof.
  apply sim_tree; [solve_blind|done|]. intros st a Hr _. unfold refines.
  pose proof (list_directory_listing st a ino Hr) as ->. done.
Qed.
Lemma sim_get_xattr ino name :
  sim (zoom fs_meta upd_meta (get_xattr ino name)) (tree no_need (abs_get_xattr ino name)).
Proof. apply sim_tree; [solve_blind|done|]. intros st a Hr _. by apply get_xattr_refines. Qed.
Lemma sim_list_xattrs ino :
  sim (zoom fs_meta upd_meta (list_xattrs ino)) (tree no_need (abs_list_xattrs ino)).
Proof. apply sim_tree; [solve_blind|done|]. intros st a Hr _. by apply list_xattrs_refines. Qed.
Lemma sim_set_xattr ino name value :
  sim (zoom fs_meta upd_meta (set_xattr ino name value))
    (tree (λ a, call_room a (CallSetXattr ino name value)) (abs_set_xattr ino name value)).
Proof. apply sim_tree; [solve_blind|done|]. intros st a Hr (? & ? & ?). by apply set_xattr_refines. Qed.
Lemma sim_remove_xattr ino name :
  sim (zoom fs_meta upd_meta (remove_xattr ino name))
    (tree (λ a, call_room a (CallRemoveXattr ino name)) (abs_remove_xattr ino name)).
Proof. apply sim_tree; [solve_blind|done|]. intros st a Hr Hroom. by apply remove_xattr_refines. Qed.
End sim.
