(* ===== verification/NamesSim.v ===== *)
(** * The operations on names follow their specification *)

From S2P Require Import Prelude Types Text Blockset Inode InodeMap Xattr Directory Segment Wal.
From S2P Require Import Store StoreSpec StoreRefine MetadataStoreTrait Filesystem WritePath Namespace.
From S2P Require Import NamespaceRefine Handlers Callbacks Session Serving FsSpec FsSim.
From stdpp Require Import base tactics numbers option list gmap strings.
Open Scope Z_scope.

Create HintDb sim.
#[export] Hint Resolve sim_ret sim_throw sim_lift sim_map_err sim_attempt sim_create_inode sim_get_inode
  sim_update_inode sim_delete_inode sim_create_directory sim_lookup sim_link sim_unlink
  sim_list_directory sim_get_xattr sim_list_xattrs sim_set_xattr sim_remove_xattr : sim.

(** One step of both programs. *)
Ltac sim_step :=
  lazymatch goal with
  | |- sim (_ ≫= _) (_ ≫= _) => apply sim_bind; [solve [sim_auto]|intros ?]
  | |- sim (let x := ?e in _) _ => cbv zeta
  | |- sim (if decide ?P then _ else _) (if decide ?P then _ else _) => destruct (decide P)
  | |- _ => solve [sim_auto]
  end
with sim_auto := unfold on_meta; eauto with sim.

Section names.
Context {B : Blockset} {L : BlocksetLaws B}.
Implicit Types (f : SliceFsFilesystem B) (sp : SpecFs).

Lemma sim_create_linked parent name meta :
  sim (create_linked (B := B) parent name meta) (spec_create parent name meta).
Proof.
  unfold create_linked, spec_create. do 2 sim_step. destruct x0 as [u|e|]; [sim_step| |sim_step].
  do 2 sim_step.
Qed.

Lemma sim_with_attrs m spec : sim (B := B) m spec → sim (with_attrs m) (spec_with_attrs spec).
Proof. intros Hm. unfold with_attrs, spec_with_attrs. apply sim_bind; [done|intros ino]. do 2 sim_step. Qed.

Lemma sim_test_lookup parent name : sim (test_lookup (B := B) parent name) (spec_lookup parent name).
Proof. unfold test_lookup, spec_lookup, spec_with_attrs. do 3 sim_step. Qed.

Lemma sim_mkdir parent name mode umask uid gid :
  sim (simulate_mkdir (B := B) parent name mode umask uid gid) (spec_mkdir parent name mode umask uid gid).
Proof. unfold simulate_mkdir, spec_mkdir. sim_step. Qed.

Lemma sim_mknod parent name mode uid gid umask :
  sim (test_mknod (B := B) parent name mode uid gid umask) (spec_mknod parent name mode uid gid umask).
Proof. unfold test_mknod, spec_mknod. cbv zeta. sim_step; [sim_step|apply sim_create_linked]. Qed.

Lemma sim_rmdir parent name : sim (simulate_rmdir (B := B) parent name) (spec_rmdir parent name).
Proof.
  unfold simulate_rmdir, spec_rmdir. do 2 sim_step. unfold is_dir at 1.
  destruct (decide (Z.land (im_mode x0) S_IFDIR = 0)) as [H|H];
    [rewrite decide_False by (by intros H'); sim_step|rewrite decide_True by done].
  sim_step. destruct (real_entries x1) as [|e l] eqn:E.
  - rewrite decide_False, decide_True by (cbn; done || lia). do 3 sim_step. sim_step; sim_step.
  - rewrite decide_True, decide_False by (cbn; done || lia). sim_step.
Qed.

(** Dropping the references of a file is not visible. *)
Lemma sim_drop_file ino :
  sim (drop_file (B := B) ino)
    (_ ← attempt (E := Errno) (map_err eio (t_delete_inode ino)); mret tt).
Proof.
  assert (mono (E := Errno) (_ ← attempt (E := Errno) (map_err eio (t_delete_inode ino)); mret tt)) as Hm.
  { eapply (sim_mono (attempt (on_meta (B := B) eio (delete_inode ino)) ≫= λ _, mret tt)).
    apply sim_bind; [unfold on_meta; eauto with sim|eauto with sim]. }
  unfold drop_file. apply sim_skip; [done|]. intros f sp Hr.
  pose proof (fr_store _ _ Hr) as Hst. unfold attempt at 1.
  rewrite (on_meta_run eio _ f _ _ (get_manifest_run _ _ ino Hst)).
  exists (res_map_err eio (ok_or (a_manifests (sp_abs sp) !! ino) (NotFound ino))), (fs_meta f).
  split; [by destruct (a_manifests (sp_abs sp) !! ino)|]. split; [apply same_meta_refl; apply Hst|].
  generalize (match res_map_err eio (ok_or (a_manifests (sp_abs sp) !! ino) (NotFound ino)) with
              | Ok l => l | _ => [] end). intros ds.
  apply sim_skip; [done|]. clear Hst Hr f sp. intros f sp Hr.
  destruct (with_meta_refcounts (λ s, foldl (λ s d, decrement_refcount d s) s ds) f) as [rc Hrc];
    [apply foldl_decrement|].
  exists tt, (upd_refcounts rc (fs_meta f)). split; [done|]. split; [apply same_meta_refcounts, Hr|].
  do 2 sim_step.
Qed.

Lemma sim_unlink_file parent name : sim (simulate_unlink (B := B) parent name) (spec_unlink parent name).
Proof.
  unfold simulate_unlink, spec_unlink, is_dir, less_link. do 2 sim_step. sim_step; [sim_step|].
  sim_step. cbv zeta. sim_step; [apply sim_drop_file|sim_step].
Qed.

Lemma sim_hard_link now ino parent name :
  sim (simulate_link (B := B) now ino parent name) (spec_link now ino parent name).
Proof.
  unfold simulate_link, spec_link, is_dir, add_link. sim_step. sim_step; [sim_step|].
  match goal with |- sim ?c (_ ← require _; ?spec) => assert (sim c spec) as H by (do 3 sim_step) end.
  apply sim_require; [by eapply sim_mono|done].
Qed.

(** The target that a rename replaces. *)
Lemma sim_displace parent name dst :
  sim (B := B)
    (dst_inode ← on_meta meta_error_to_errno (get_inode dst);
     _ ← on_meta meta_error_to_errno (unlink parent name);
     let new_nlinks := sat_sub (im_nlinks dst_inode) 1 in
     if decide (new_nlinks = 0 ∧ Z.land (im_mode dst_inode) S_IFDIR = 0) then drop_file dst
     else if decide (0 < new_nlinks)
     then _ ← attempt (E := Errno) (on_meta eio (update_inode (set_nlinks new_nlinks dst_inode))); mret tt
     else mret tt)
    (spec_displace parent name dst).
Proof.
  unfold spec_displace, is_dir. do 2 sim_step. cbv zeta. unfold sat_sub.
  destruct (decide (im_nlinks x ≤ 1)) as [Hle|Hgt].
  - rewrite (Z.max_l 0) by lia. destruct (decide (Z.land (im_mode x) S_IFDIR = 0)) as [Hd|Hd].
    + rewrite decide_True by done. rewrite decide_False by (by intros H). apply sim_drop_file.
    + rewrite decide_False by (by intros [_ H]). rewrite decide_False, decide_True by (done || lia). sim_step.
  - rewrite (Z.max_r 0) by lia. rewrite decide_False, decide_True by lia. do 2 sim_step.
Qed.

Lemma sim_rename now parent name newparent newname flags :
  sim (simulate_rename (B := B) now parent name newparent newname flags)
    (spec_rename now parent name newparent newname flags).
Proof.
  unfold simulate_rename, spec_rename. sim_step; [sim_step|]. do 2 sim_step. cbv zeta. sim_step; [sim_step|].
  apply sim_bind; [|intros _; do 4 sim_step].
  destruct (res_ok x0) as [dst|]; [apply sim_displace|sim_step].
Qed.

(* ---------------------------------------------------------------------- *)
(** ** Listing and extended attributes *)

Lemma sim_readdir ino offset : sim (test_readdir (B := B) ino offset) (spec_readdir ino offset).
Proof.
  unfold test_readdir, spec_readdir. sim_step. apply sim_state; [intros sp; apply mono_ret|].
  intros f sp P Hr _. rewrite (readdir_kinds_run f (sp_abs sp)) by apply Hr. cbn [fst snd].
  done.
Qed.

Lemma sim_getxattr ino name : sim (test_getxattr (B := B) ino name) (spec_getxattr ino name).
Proof. unfold test_getxattr, spec_getxattr. sim_step. Qed.
Lemma sim_listxattr ino : sim (test_listxattr (B := B) ino) (spec_listxattr ino).
Proof. unfold test_listxattr, spec_listxattr. do 2 sim_step. Qed.
Lemma sim_setxattr ino name value : sim (test_setxattr (B := B) ino name value) (spec_setxattr ino name value).
Proof. unfold test_setxattr, spec_setxattr. sim_step. Qed.
Lemma sim_removexattr ino name : sim (test_removexattr (B := B) ino name) (spec_removexattr ino name).
Proof. unfold test_removexattr, spec_removexattr. sim_step. Qed.
End names.
