(* ===== verification/ContentSim.v ===== *)
(** * The operations on content follow their specification *)

From S2P Require Import Prelude Types Text Blockset Inode InodeMap Xattr Directory Segment Wal.
From S2P Require Import Store StoreSpec StoreRefine MetadataStoreTrait Filesystem WritePath Namespace.
From S2P Require Import NamespaceRefine Handlers Callbacks Session Serving FsSpec FsSim NamesSim.
From stdpp Require Import base tactics numbers option list gmap strings.
Open Scope Z_scope.

Section content.
Context {B : Blockset} {L : BlocksetLaws B}.
Implicit Types (f : SliceFsFilesystem B) (sp : SpecFs) (s : OpenFileState B) (h : SpecHandle).

(* ---------------------------------------------------------------------- *)
(** ** Contents *)

Lemma lookup_blocks sp ino : a_manifests (sp_abs sp) !! ino = blocks_of <$> sp_contents sp !! ino.
Proof. apply lookup_fmap. Qed.

(** A content is set once it is stored. *)
Lemma fs_rep_content f sp m ino c :
  fs_rep f sp → store_rep m (abs_set_manifest ino (blocks_of c) (sp_abs sp)).1 →
  st_io (fs_meta f) ⊑ᵢ st_io m → from_option (stored (st_io m)) True c →
  fs_rep (upd_meta m f) (sp_set_contents (<[ino := c]> (sp_contents sp)) sp).
Proof.
  intros [_ Hc Hh Hn] Hm Hle Hst. split; [|by apply map_Forall_insert_2;
    [|eapply map_Forall_impl; [exact Hc|]; intros k [bs|]; [apply stored_mono|]]|
    eapply map_Forall2_impl; [exact Hh|]; intros k s h; by apply handle_sim_mono|done].
  unfold sp_abs. cbn [sp_contents sp_set_contents sp_tree]. by rewrite fmap_insert.
Qed.

(** [set_manifest] of a stored content, and of none. *)
Lemma set_manifest_content f sp ino c :
  fs_rep f sp → is_u64 ino → admissible (serialize_manifest (blocks_of c)) →
  from_option (stored (st_io (fs_meta f))) True c →
  ∃ m, on_meta eio (set_manifest ino (blocks_of c)) f = (upd_meta m f, Ok tt) ∧
       fs_rep (upd_meta m f) (sp_set_contents (<[ino := c]> (sp_contents sp)) sp) ∧
       st_io (fs_meta f) ⊑ᵢ st_io m.
Proof.
  intros Hr Hino Hadm Hst.
  destruct (on_meta_refines eio (set_manifest ino (blocks_of c)) (abs_set_manifest ino (blocks_of c)) f (sp_abs sp))
    as (m & Hrun & Hrep & Hle).
  { apply set_manifest_refines; [apply Hr|done| |done]. destruct c; [apply Forall_singleton, digest_of_wf|constructor]. }
  exists m. split; [done|]. split; [|done]. apply fs_rep_content; [done..|].
  destruct c; [|done]. by eapply stored_mono.
Qed.

Lemma commit_content_sim f sp ino c old :
  fs_rep f sp → is_u64 ino → admissible (serialize_manifest [digest_of c]) →
  stored (st_io (fs_meta f)) c →
  ∃ m, commit_content ino (digest_of c) old f = (upd_meta m f, Ok tt) ∧
       fs_rep (upd_meta m f) (sp_set_contents (<[ino := Some c]> (sp_contents sp)) sp) ∧
       st_io (fs_meta f) ⊑ᵢ st_io m.
Proof.
  intros Hr Hino Hadm Hst.
  destruct (commit_content_run f (sp_abs sp) ino (digest_of c) old) as (m & Hrun & Hrep & Hle);
    [apply Hr|done|apply digest_of_wf|done|].
  exists m. split; [done|]. split; [|done]. apply fs_rep_content; [done..|]. by eapply stored_mono.
Qed.

(** Reading the content of a file. *)
Lemma get_content f sp ino c : fs_rep f sp → sp_contents sp !! ino = Some (Some c) →
  file_storage_get (st_io (fs_meta f)) (digest_of c) = Some c.
Proof. intros Hr Hc. by apply (fr_contents _ _ Hr) in Hc. Qed.

Lemma get_manifest_sim ef f sp ino :
  fs_rep f sp →
  on_meta ef (get_manifest ino) f =
    (f, match sp_contents sp !! ino with
        | Some c => Ok (blocks_of c)
        | None => Err (ef (NotFound ino))
        end).
Proof.
  intros Hr. rewrite (on_meta_run ef _ f _ _ (get_manifest_run _ _ ino (fr_store _ _ Hr))), upd_meta_same.
  rewrite lookup_blocks. by destruct (sp_contents sp !! ino).
Qed.

Lemma committed_content f sp ino : fs_rep f sp → committed (sp_abs sp) (st_io (fs_meta f)) ino = content_of sp ino.
Proof.
  intros Hr. unfold committed, content_of. rewrite lookup_blocks.
  destruct (sp_contents sp !! ino) as [[c|]|] eqn:E; cbn; [|done..]. by rewrite (get_content f sp ino c).
Qed.

(* ---------------------------------------------------------------------- *)
(** ** Needs *)

Lemma set_content_run ino c sp P :
  set_content ino c (sp, P) =
    ((sp_set_contents (<[ino := c]> (sp_contents sp)) sp,
      P ∧ is_u64 ino ∧ from_option admissible True c ∧ admissible (serialize_manifest (blocks_of c))), Ok tt).
Proof. done. Qed.
Lemma put_handle_run fh h sp P :
  spec_put_handle fh h (sp, P) =
    ((sp_set_handles (<[fh := h]> (sp_handles sp)) sp, P ∧ admissible (sh_data h)), Ok tt).
Proof. done. Qed.

Lemma mono_throw {E A} (e : E) : mono (A := A) (throw e).
Proof. by intros sp P. Qed.
Lemma mono_lift {E A} (r : res E A) : mono (lift r).
Proof. by intros sp P. Qed.
Lemma mono_set_content ino c : mono (set_content ino c).
Proof. apply mono_bind; [apply mono_require|intros _; apply mono_modify]. Qed.
Lemma mono_put_handle fh h : mono (spec_put_handle fh h).
Proof. apply mono_bind; [apply mono_require|intros _; apply mono_modify]. Qed.
Lemma mono_tree {A} need (m : M AbsFs MetaError A) : mono (tree need m).
Proof. intros sp P. unfold tree. cbn. destruct (m (sp_tree sp)). by intros []. Qed.
Lemma mono_map_err {E E' A} (g : E → E') (m : M Needs E A) : mono m → mono (map_err g m).
Proof. intros Hm sp P. specialize (Hm sp P). unfold map_err. by destruct (m (sp, P)). Qed.

(* ---------------------------------------------------------------------- *)
(** ** Write and read *)

(** The handle of both states, or of none. *)
Ltac on_handle f sp fh Hr h s Hh := pose proof (fs_rep_handle f sp fh Hr) as Hh;
  destruct (sp_handles sp !! fh) as [h|] eqn:?, (fs_open_files f !! fh) as [s|] eqn:?; try done.

Lemma write_base_spec f sp s h off :
  fs_rep f sp → handle_sim (st_io (fs_meta f)) s h →
  write_base (sp_abs sp) (st_io (fs_meta f)) s (sh_data h) off = spec_base sp h off.
Proof.
  intros Hr Hh. unfold write_base, spec_base. pose proof (hs_mode _ _ _ Hh) as Hm. unfold is_streaming in Hm.
  rewrite (committed_content f sp), (hs_ino _ _ _ Hh) by done.
  destruct (of_write_mode s); rewrite <-Hm; [|by rewrite decide_False by (by intros [])].
  destruct (decide (sh_data h = [] ∧ off ≠ 0)) as [[]|Hn]; [by rewrite decide_True|].
  rewrite decide_False; [done|]. intros (_ & ? & ?). by apply Hn.
Qed.

Lemma sim_write fh off data : sim (test_write (B := B) fh off data) (spec_write fh off data).
Proof.
  apply sim_state.
  { intros sp. destruct (sp_handles sp !! fh); [|apply mono_throw]. apply mono_bind; [apply mono_require|intros _].
    apply mono_bind; [apply mono_put_handle|intros _; apply mono_ret]. }
  intros f sp P Hr HP. on_handle f sp fh Hr h s Hh.
  2:{ unfold test_write. rewrite run_bind. cbn [get_handle gets]. by rewrite Heqo0. }
  destruct HP as [[_ [Ho He]] Hadm]. cbn [sh_data spec_written] in Hadm.
  rewrite <-(write_base_spec f sp s h off Hr Hh) in Hadm.
  destruct (test_write_ok f (sp_abs sp) fh s (sh_data h) off data)
    as (f' & s' & -> & Hf' & Hsame & Hrep & Hi & Hc & Hm & Hroot); try done; try apply Hh; try apply Hr.
  { intros ->. revert Hadm. unfold write_base. destruct (of_write_mode s); [|done].
    rewrite decide_False; [done|]. intros [-> H]. by apply H. }
  cbn [fst snd]. split; [done|]. split; [|by apply same_meta_le].
  rewrite Hf'. apply (fs_rep_put (upd_meta (fs_meta f') f)); [by apply fs_rep_same_meta|].
  rewrite write_base_spec in Hrep, Hadm by done. destruct Hh as [Hh1 Hh2 Hh3 Hh4 Hh5 Hh6 Hh7]. cbn [fs_meta upd_meta].
  split; cbn [spec_written sh_ino sh_streaming sh_data sh_clean sh_root]; try done; try congruence.
  - rewrite Hroot, Hh2. by destruct (sh_streaming h && _).
  - by destruct (sh_streaming h && _).
Qed.

(** The writers of a file in both states. *)
Lemma find_writer_spec f sp ino :
  fs_rep f sp →
  match find_writer ino f with
  | Some s => ∃ h, handle_sim (st_io (fs_meta f)) s h ∧ sh_data h ∈ writers sp ino
  | None => writers sp ino = []
  end.
Proof.
  intros Hr. unfold find_writer, writers.
  destruct (list_find _ _) as [[i [fh s]]|] eqn:E; cbn.
  - apply list_find_Some in E as (Hin & [Hi Hb] & _). apply list_elem_of_lookup_2, elem_of_map_to_list in Hin.
    pose proof (fs_rep_handle f sp fh Hr) as Hh. rewrite Hin in Hh.
    destruct (sp_handles sp !! fh) as [h|] eqn:Eh; [|done]. exists h. split; [done|].
    apply list_elem_of_fmap. exists h. split; [done|]. apply list_elem_of_filter. split.
    + split; [by rewrite <-(hs_ino _ _ _ Hh)|]. intros Hd. destruct (hs_data _ _ _ Hh) as [Hc _].
      cbn in Hb. rewrite Hc, Hd, len_nil in Hb. lia.
    + apply list_elem_of_fmap. exists (fh, h). split; [done|]. by apply elem_of_map_to_list.
  - apply list_find_None in E. destruct (filter _ _) as [|h l] eqn:Ef; [done|].
    assert (h ∈ filter (is_writer ino) (map_to_list (sp_handles sp)).*2) as Hin by (rewrite Ef; left).
    apply list_elem_of_filter in Hin as [[Hi Hd] Hin].
    apply list_elem_of_fmap in Hin as ([fh h'] & -> & Hin). apply elem_of_map_to_list in Hin.
    pose proof (fs_rep_handle f sp fh Hr) as Hh. cbn in *. rewrite Hin in Hh.
    destruct (fs_open_files f !! fh) as [s|] eqn:Es; [|done]. exfalso.
    apply elem_of_map_to_list in Es. rewrite Forall_forall in E. apply (E _ Es). cbn.
    split; [by rewrite (hs_ino _ _ _ Hh)|]. destruct (hs_data _ _ _ Hh) as [-> _].
    destruct (sh_data h'); [done|]. unfold len. cbn. lia.
Qed.

Lemma sim_read ino off size : sim (test_read (B := B) ino off size) (spec_read ino off size).
Proof.
  apply sim_state.
  { intros sp. apply mono_bind; [apply mono_require|intros _]. repeat case_match; apply mono_ret || apply mono_throw. }
  intros f sp P Hr HP. rewrite run_bind in HP |- *. cbn [require fst snd] in *.
  assert (0 ≤ off ∧ 0 ≤ size ∧ ∀ c c', c ∈ writers sp ino → c' ∈ writers sp ino → c = c') as (Ho & Hs & Hw).
  { revert HP. repeat case_match; by intros []. }
  clear HP. pose proof (find_writer_spec f sp ino Hr) as Hf.
  unfold test_read. rewrite run_bind. cbn [gets]. destruct (find_writer ino f) as [s|] eqn:Ef.
  - destruct Hf as (h & Hh & Hin). destruct (writers sp ino) as [|c l] eqn:Ew; [by apply elem_of_nil in Hin|].
    assert (c = sh_data h) as -> by (apply Hw; [by left|done]). cbn [head].
    pose proof (hs_data _ _ _ Hh) as [Hb Hm]. rewrite run_bind. destruct (of_write_mode s) as [st next|buf].
    + destruct Hm as [Hst _].
      destruct (with_fs_io_end st f (sh_data h) (rep_io _ _ (fr_store _ _ Hr)) Hst (hs_adm _ _ _ Hh))
        as (io' & He & Hio & Hle & Hs').
      rewrite run_bind, He, run_bind. cbn [fs_get gets fs_meta upd_meta]. store_simpl. rewrite Hs'.
      rewrite run_bind. cbn [ok_or lift]. cbn [mret M_ret]. rewrite read_slice by done. cbn.
      split; [done|]. split; [|done]. apply fs_rep_same_meta; [done|].
      exists io', (st_refcounts (fs_meta f)). split; [done|done].
    + subst buf. cbn [mret M_ret lift]. by rewrite read_slice.
  - rewrite Hf. cbn [head]. rewrite run_bind, run_bind, (get_manifest_sim eio f sp) by done.
    destruct (sp_contents sp !! ino) as [[c|]|] eqn:Ec; [|done..].
    change (blocks_of (Some c)) with [digest_of c]. cbv iota.
    rewrite run_bind. cbn [fs_get gets]. rewrite (get_content f sp ino c) by done.
    rewrite run_bind. cbn [ok_or lift mret M_ret]. by rewrite read_slice.
Qed.

(* ---------------------------------------------------------------------- *)
(** ** Release and flush *)

Lemma mono_set_size ino g : mono (spec_set_size ino g).
Proof. unfold spec_set_size. apply mono_bind; [apply mono_map_err, mono_tree|intros x; apply mono_map_err, mono_tree]. Qed.

Lemma sim_commit_size now ino c : sim (commit_size (B := B) now ino (len c)) (spec_commit now ino c).
Proof. unfold commit_size, spec_commit, spec_set_size, written_inode. do 2 sim_step. Qed.

Lemma sim_set_size_now now ino n :
  sim (set_size_now (B := B) now ino n) (spec_set_size ino (λ inode, stamp_ctime now (set_isize n inode))).
Proof. unfold set_size_now, spec_set_size. do 2 sim_step. Qed.

(** The end of an operation: its last step from a state that is represented. *)
Lemma sim_last {E A} (c : M _ E A) spec f f1 sp1 P1 :
  sim c spec → fs_rep f1 sp1 → st_io (fs_meta f) ⊑ᵢ st_io (fs_meta f1) → (spec (sp1, P1)).1.2 →
  (c f1).2 = (spec (sp1, P1)).2 ∧ fs_rep (c f1).1 (spec (sp1, P1)).1.1 ∧
  st_io (fs_meta f) ⊑ᵢ st_io (fs_meta (c f1).1).
Proof.
  intros Hs Hr Hle HP. destruct (proj2 Hs f1 sp1 P1 Hr HP) as (? & ? & ?). split_and!; [done|done|by etransitivity].
Qed.

Lemma data_empty io s h : handle_sim io s h → of_byte_count s = 0 ↔ sh_data h = [].
Proof.
  intros Hh. destruct (hs_data _ _ _ Hh) as [-> _]. unfold len. destruct (sh_data h); cbn; split; (done || lia).
Qed.

(** Equal digests of admissible contents are equal contents. *)
Lemma root_is_data io s h :
  handle_sim io s h → of_last_committed_root s = Some (digest_of (sh_data h)) ↔ sh_root h = Some (sh_data h).
Proof.
  intros Hh. rewrite (hs_root _ _ _ Hh). pose proof (hs_root_adm _ _ _ Hh) as Hra.
  destruct (sh_root h) as [c|]; cbn in *; [|done]. split; [|by intros [= ->]].
  intros [= Heq]. f_equal. apply digest_of_inj; [done|apply Hh|done].
Qed.

Lemma finalize_sim f sp s h :
  fs_rep f sp → handle_sim (st_io (fs_meta f)) s h →
  ∃ m, finalize (of_write_mode s) f = (upd_meta m f, Ok (digest_of (sh_data h))) ∧
       same_meta (fs_meta f) m ∧ stored (st_io m) (sh_data h).
Proof.
  intros Hr Hh. destruct (finalize_run f s (sh_data h) (rep_io _ _ (fr_store _ _ Hr)) (hs_data _ _ _ Hh) (hs_adm _ _ _ Hh))
    as (io' & Hrun & Hio & Hle & Hst).
  exists (upd_io io' (fs_meta f)). split; [done|]. split; [|done]. exists io', (st_refcounts (fs_meta f)). done.
Qed.

Lemma sim_release now ino fh : sim (test_release (B := B) now ino fh) (spec_release now ino fh).
Proof.
  apply sim_state.
  { intros sp. destruct (sp_handles sp !! fh); [|apply mono_ret]. apply mono_bind; [apply mono_modify|intros _].
    repeat case_match; try apply mono_ret; try apply mono_set_content.
    apply mono_bind; [apply mono_set_content|intros _; apply mono_set_size]. }
  intros f sp P Hr HP. on_handle f sp fh Hr h s Hh; cycle 1.
  { unfold test_release. rewrite run_bind. cbn [get_handle gets]. by rewrite Heqo0. }
  unfold test_release. rewrite run_bind. cbn [get_handle gets]. rewrite Heqo0, run_bind.
  cbn [drop_handle modify]. set (f1 := upd_open_files _ f).
  rewrite run_bind in HP |- *. cbn [spec_drop_handle smodify modify fst snd] in HP |- *.
  set (sp1 := sp_set_handles _ sp) in *. assert (fs_rep f1 sp1) as Hr1 by by apply fs_rep_drop.
  change (handle_sim (st_io (fs_meta f1)) s h) in Hh. change (st_io (fs_meta f)) with (st_io (fs_meta f1)).
  change (sp_contents sp) with (sp_contents sp1) in HP |- *. clearbody f1 sp1. clear Hr Heqo Heqo0 f sp.
  revert HP. destruct (decide (sh_data h = [])) as [Hd|Hd].
  - rewrite decide_True by by apply (data_empty _ _ _ Hh). rewrite (hs_clean _ _ _ Hh).
    destruct (sh_clean h); [done|]. rewrite run_bind. unfold attempt. rewrite (get_manifest_sim eio f1 sp1) by done.
    destruct (sp_contents sp1 !! ino) as [[c|]|]; cbn [mjoin option_join]; [done|..];
      intros (_ & Hu & _ & Hm);
      destruct (set_manifest_content f1 sp1 ino None Hr1 Hu Hm I) as (m & Hrun & Hrep & Hle);
      change (blocks_of None) with (@nil Digest224) in *; cbv iota; rewrite Hrun;
      (split; [reflexivity|split; [exact Hrep|exact Hle]]).
  - rewrite (decide_False (P := of_byte_count s = 0)) by (by intros H; apply Hd, (data_empty _ _ _ Hh)).
    destruct (finalize_sim f1 sp1 s h Hr1 Hh) as (m & Hfin & Hsame & Hst). rewrite run_bind, Hfin.
    pose proof (fs_rep_same_meta f1 sp1 m Hr1 Hsame) as Hr2.
    rewrite (hs_clean _ _ _ Hh). pose proof (root_is_data _ _ _ Hh) as Hroot.
    destruct (decide (sh_root h = Some (sh_data h) ∧ sh_clean h = true)) as [[H1 H2]|Hn].
    { intros _. rewrite decide_True by (by rewrite Hroot). cbn. split_and!; [done|done|by apply same_meta_le]. }
    intros HP. rewrite decide_False by (by rewrite Hroot). rewrite run_bind, set_content_run in HP.
    rewrite !run_bind, set_content_run.
    pose proof (mono_set_size _ _ _ _ HP) as (_ & Hu & _ & Hadm).
    destruct (commit_content_sim (upd_meta m f1) sp1 ino (sh_data h) (of_last_committed_root s) Hr2 Hu Hadm Hst)
      as (m' & Hrun & Hr3 & Hle).
    rewrite Hrun. destruct (hs_data _ _ _ Hh) as [-> _].
    apply (sim_last _ _ f1); [apply sim_commit_size|done| |done].
    cbn. etransitivity; [by apply same_meta_le|done].
Qed.

Lemma sim_flush now ino fh : sim (flush_buffer_for_fsync (B := B) now ino fh) (spec_flush now ino fh).
Proof.
  apply sim_state.
  { intros sp. destruct (sp_handles sp !! fh); [|apply mono_ret]. case_decide; [apply mono_ret|].
    apply mono_bind; [apply mono_set_content|intros _].
    apply mono_bind; [apply mono_put_handle|intros _; apply mono_set_size]. }
  intros f sp P Hr HP. unfold flush_buffer_for_fsync. rewrite run_bind. cbn [get_handle gets].
  on_handle f sp fh Hr h s Hh. revert HP. destruct (decide (sh_data h = [])) as [Hd|Hd]; intros HP.
  { by rewrite decide_True by by apply (data_empty _ _ _ Hh). }
  rewrite decide_False by (by intros H; apply Hd, (data_empty _ _ _ Hh)).
  rewrite run_bind, set_content_run, run_bind, put_handle_run in HP.
  rewrite !run_bind, set_content_run, run_bind, put_handle_run.
  pose proof (mono_set_size _ _ _ _ HP) as ((_ & Hu & Hda & Hadm) & _).
  cbn [put_handle modify]. set (s1 := mkOpen B (of_ino s) _ _ true _). set (f1 := upd_open_files _ f).
  set (h1 := mkHandle (sh_ino h) (sh_streaming h) (sh_data h) true (sh_root h)).
  assert (handle_sim (st_io (fs_meta f)) s1 h1) as Hh1 by (destruct Hh; by split).
  assert (fs_rep f1 (sp_set_handles (<[fh := h1]> (sp_handles sp)) sp)) as Hr1 by (by apply fs_rep_put).
  destruct (finalize_sim f1 _ s1 h1 Hr1 Hh1) as (m & Hfin & Hsame & Hst).
  change (of_write_mode s) with (of_write_mode s1). rewrite run_bind, Hfin.
  change (sh_data h1) with (sh_data h) in *.
  destruct (commit_content_sim (upd_meta m f1) _ ino (sh_data h) (of_last_committed_root s)
              (fs_rep_same_meta f1 _ m Hr1 Hsame) Hu Hadm Hst) as (m' & Hrun & Hr3 & Hle).
  rewrite run_bind, Hrun, run_bind. cbn [get_handle gets]. cbn [fs_open_files upd_meta f1 upd_open_files].
  rewrite lookup_insert_eq, run_bind. cbn [put_handle modify].
  assert (st_io (fs_meta f) ⊑ᵢ st_io m') as Hle' by (etransitivity; [by apply (same_meta_le (fs_meta f))|done]).
  destruct (hs_data _ _ _ Hh) as [-> _]. apply (sim_last _ _ f); [apply sim_commit_size| |done|done].
  eapply (fs_rep_put _ _ fh (mkOpen B (of_ino s1) (of_write_mode s1) (of_byte_count s1) (of_cas_committed s1)
            (Some (digest_of (sh_data h)))) _) in Hr3.
  - cbn [sp_handles sp_set_handles sp_set_contents sp_contents sp_tree sp_next_fh] in Hr3.
    rewrite insert_insert_eq in Hr3. exact Hr3.
  - destruct Hh. split; try done. by eapply handle_rep_mono.
Qed.

(* ---------------------------------------------------------------------- *)
(** ** Truncation and attributes *)

Lemma resize_zero_0 c : resize_zero c 0 = [].
Proof. by destruct c. Qed.

(** The accumulator after a content was streamed at once. *)
Lemma push_fresh f c :
  healthy (st_io (fs_meta f)) → admissible c →
  ∃ io' st, with_fs_io (λ io, let '(io, st, _) := push_bytes state_default c io in (io, st)) f =
              (upd_meta (upd_io io' (fs_meta f)) f, Ok st) ∧
            healthy io' ∧ st_io (fs_meta f) ⊑ᵢ io' ∧ streams io' st c.
Proof.
  intros Hio Hadm. destruct (push_bytes_spec state_default [] c _ Hio (streams_default _) Hadm)
    as (io' & st & Hp & Hio' & Hle & Hst).
  exists io', st. split_and!; [|done..]. apply with_fs_io_run. by rewrite Hp.
Qed.

Lemma drop_root_sim root f sp :
  fs_rep f sp → ∃ m, drop_root root f = (upd_meta m f, Ok tt) ∧ same_meta (fs_meta f) m.
Proof.
  intros Hr. destruct (drop_root_run root f) as [rc ->]. eexists. split; [done|].
  apply same_meta_refcounts, (fr_store _ _ Hr).
Qed.

Lemma truncate_handle_sim f sp fh s h n :
  fs_rep f sp → handle_sim (st_io (fs_meta f)) s h → is_u64 n → admissible (resize_zero (sh_data h) n) →
  ∃ f', truncate_handle fh s n f = (f', Ok tt) ∧
        fs_rep f' (sp_set_handles (<[fh := spec_resized h n]> (sp_handles sp)) sp) ∧
        st_io (fs_meta f) ⊑ᵢ st_io (fs_meta f').
Proof.
  intros Hr Hh Hn Hadm. pose proof (rep_io _ _ (fr_store _ _ Hr)) as Hio. pose proof (resize_zero_0 (sh_data h)) as H00.
  assert (∀ f1 sp1 root, fs_rep f1 sp1 → st_io (fs_meta f) ⊑ᵢ st_io (fs_meta f1) →
    ∃ f', drop_root root f1 = (f', Ok tt) ∧ fs_rep f' sp1 ∧ st_io (fs_meta f) ⊑ᵢ st_io (fs_meta f')) as Hdrop.
  { intros f1 sp1 root Hr1 Hle. destruct (drop_root_sim root f1 sp1 Hr1) as (m & -> & Hs). eexists.
    split; [done|]. split; [by apply fs_rep_same_meta|]. etransitivity; [done|by apply same_meta_le]. }
  pose proof Hh as [Hi Hm [Hb Hd] Hc Hroot Ha Hra]. unfold is_streaming in Hm.
  unfold truncate_handle, spec_resized. destruct (of_write_mode s) as [st next|buf] eqn:Emode; rewrite <-Hm.
  - destruct Hd as [Hst Hnext]. destruct (decide (n = 0)) as [->|Hn0].
    { rewrite run_bind. cbn [put_handle modify]. apply Hdrop; [|done]. apply fs_rep_put; [done|].
      rewrite H00 in *. split; try done. apply (fresh_handle_rep (st_io (fs_meta f)) (of_ino s)). }
    rewrite run_bind. cbn [put_handle modify]. rewrite run_bind.
    set (f1 := upd_open_files _ f).
    assert (∃ m, (if decide (of_byte_count s = 0) then mret []
                  else digest ← with_fs_io (state_end st); c ← fs_get digest; mret (default [] c)) f1 =
                 (upd_meta m f1, Ok (sh_data h)) ∧ same_meta (fs_meta f) m) as (m & -> & Hsame).
    { destruct (decide (of_byte_count s = 0)) as [H0|H0].
      - apply (data_empty _ _ _ Hh) in H0 as ->. exists (fs_meta f). split; [reflexivity|].
        by apply same_meta_refl.
      - destruct (with_fs_io_end st f1 (sh_data h) Hio Hst Ha) as (io' & He & Hio' & Hle & Hs).
        exists (upd_io io' (fs_meta f)). split; [|by exists io', (st_refcounts (fs_meta f))].
        rewrite run_bind, He, run_bind. cbn [fs_get gets fs_meta upd_meta]. store_simpl. by rewrite Hs. }
    rewrite run_bind. set (c := resize_zero (sh_data h) n) in *.
    destruct (push_fresh (upd_meta m f1) c) as (io' & st' & -> & Hio' & Hle & Hst'); [|done|].
    { destruct Hsame as (io & rc & -> & ? & ?). done. }
    rewrite run_bind. cbn [put_handle modify].
    assert (same_meta (fs_meta f) (upd_io io' m)) as Hsame'.
    { destruct Hsame as (io & rc & -> & ? & ?). exists io', rc. split_and!; [by destruct (fs_meta f)|done|].
      by etransitivity. }
    apply Hdrop; [|by apply same_meta_le]. cbn [fs_open_files upd_meta f1 upd_open_files].
    rewrite insert_insert_eq. apply (fs_rep_put (upd_meta (upd_io io' m) f) sp); [by apply fs_rep_same_meta|].
    split; done.
  - subst buf. destruct (decide (n = 0)) as [->|Hn0].
    { rewrite run_bind. cbn [put_handle modify]. apply Hdrop; [|done]. apply fs_rep_put; [done|].
      rewrite H00 in *. by split. }
    eexists. split; [reflexivity|]. split; [|done]. apply fs_rep_put; [done|].
    rewrite bool_decide_false by done. split; done.
Qed.

(** The content of a file that is not open, cut or extended, is stored again. *)
Lemma store_content_sim f sp ino (c : bytes) :
  fs_rep f sp → is_u64 ino →
  let c' := if decide (c = []) then None else Some c in
  from_option admissible True c' → admissible (serialize_manifest (blocks_of c')) →
  ∃ f', (match c with
         | [] => on_meta eio (set_manifest ino [])
         | _ =>
             new_digest ← with_fs_io (push_all c);
             _ ← on_meta eio (set_manifest ino [new_digest]);
             with_meta (increment_refcount new_digest)
         end) f = (f', Ok tt) ∧
        fs_rep f' (sp_set_contents (<[ino := c']> (sp_contents sp)) sp) ∧
        st_io (fs_meta f) ⊑ᵢ st_io (fs_meta f').
Proof.
  intros Hr Hu c' Hadm Hman. subst c'. destruct c as [|b c].
  { destruct (set_manifest_content f sp ino None Hr Hu Hman I) as (m & Hrun & Hrep & Hle). by exists (upd_meta m f). }
  rewrite decide_False in * by done. set (c1 := b :: c) in *.
  destruct (push_all_spec c1 _ (rep_io _ _ (fr_store _ _ Hr)) Hadm) as (Hio & Hle & Hst).
  rewrite run_bind, (with_fs_io_run (push_all c1) f (push_all c1 (st_io (fs_meta f))).1 (digest_of c1))
    by (rewrite <-(push_all_digest c1 (st_io (fs_meta f))); apply surjective_pairing).
  set (f1 := upd_meta _ f).
  assert (fs_rep f1 sp) as Hr1.
  { apply fs_rep_same_meta; [done|]. eexists _, (st_refcounts (fs_meta f)). split; [reflexivity|done]. }
  destruct (set_manifest_content f1 sp ino (Some c1) Hr1 Hu Hman Hst) as (m & Hrun & Hrep & Hle').
  change (blocks_of (Some c1)) with [digest_of c1] in Hrun. rewrite run_bind, Hrun.
  destruct (with_meta_refcounts (increment_refcount (digest_of c1)) (upd_meta m f1)) as [rc Hrc];
    [apply increment_refcounts|].
  rewrite Hrc. eexists. split; [reflexivity|]. split.
  - apply fs_rep_same_meta; [done|]. apply same_meta_refcounts, (fr_store _ _ Hrep).
  - cbn. by etransitivity.
Qed.

Lemma truncate_content_sim f sp ino n :
  fs_rep f sp → is_u64 ino →
  let c := resize_zero (content_of sp ino) n in
  let c' := if decide (c = []) then None else Some c in
  from_option admissible True c' → admissible (serialize_manifest (blocks_of c')) →
  ∃ f', truncate_content ino n f = (f', Ok tt) ∧
        fs_rep f' (sp_set_contents (<[ino := c']> (sp_contents sp)) sp) ∧
        st_io (fs_meta f) ⊑ᵢ st_io (fs_meta f').
Proof.
  intros Hr Hu c c' Hadm Hman. unfold truncate_content. rewrite run_bind. unfold attempt, zoom.
  rewrite (get_manifest_run _ _ ino (fr_store _ _ Hr)), upd_meta_same, lookup_blocks.
  assert (∀ root, ∃ f', (_ ← drop_root root;
      match resize_zero (content_of sp ino) n with
      | [] => on_meta eio (set_manifest ino [])
      | _ => new_digest ← with_fs_io (push_all (resize_zero (content_of sp ino) n));
             _ ← on_meta eio (set_manifest ino [new_digest]);
             with_meta (increment_refcount new_digest)
      end) f = (f', Ok tt) ∧ fs_rep f' (sp_set_contents (<[ino := c']> (sp_contents sp)) sp) ∧
        st_io (fs_meta f) ⊑ᵢ st_io (fs_meta f')) as Htail.
  { intros root. destruct (drop_root_sim root f sp Hr) as (m & Hd & Hs).
    destruct (store_content_sim (upd_meta m f) sp ino c (fs_rep_same_meta _ _ _ Hr Hs) Hu Hadm Hman)
      as (f' & Hrun & Hr' & Hle).
    exists f'. rewrite run_bind, Hd. split; [exact Hrun|]. split; [done|].
    etransitivity; [by apply same_meta_le|done]. }
  pose proof (get_content f sp ino) as Hget. unfold content_of in *.
  destruct (sp_contents sp !! ino) as [[old|]|]; cbn [fmap option_fmap option_map ok_or] in *; rewrite run_bind;
    cbn [mret M_ret]; rewrite run_bind; [|apply (Htail None)..].
  change (blocks_of (Some old)) with [digest_of old]. cbv iota. rewrite run_bind. cbn [fs_get gets].
  rewrite (Hget old) by done. apply (Htail (Some (digest_of old))).
Qed.

Lemma sim_truncate now ino fh n : sim (test_setattr_size (B := B) now ino fh n) (spec_truncate now ino fh n).
Proof.
  apply sim_state.
  { intros sp. apply mono_bind; [apply mono_require|intros _]. apply mono_bind; [|intros _; apply mono_set_size].
    destruct (fh ≫= _) as [[]|]; [apply mono_put_handle|apply mono_set_content]. }
  intros f sp P Hr. unfold test_setattr_size. rewrite !run_bind. cbn [gets require fst snd].
  set (c' := if decide (resize_zero (content_of sp ino) n = []) then None else Some (resize_zero (content_of sp ino) n)).
  assert (let r := (set_content ino c' ≫= λ _, spec_set_size ino (λ inode, stamp_ctime now (set_isize n inode)))
                     (sp, P ∧ is_u64 n) in
    r.1.2 → ((_ ← truncate_content ino n; set_size_now now ino n) f).2 = r.2 ∧
      fs_rep ((_ ← truncate_content ino n; set_size_now now ino n) f).1 r.1.1 ∧
      st_io (fs_meta f) ⊑ᵢ st_io (fs_meta ((_ ← truncate_content ino n; set_size_now now ino n) f).1)) as Hnone.
  { cbv zeta. rewrite (run_bind (set_content _ _)), set_content_run. cbn [fst snd]. intros HP.
    pose proof (mono_set_size _ _ _ _ HP) as (_ & Hu & Hadm & Hman).
    destruct (truncate_content_sim f sp ino n Hr Hu Hadm Hman) as (f' & Hrun & Hr' & Hle).
    rewrite run_bind, Hrun. exact (sim_last _ _ f f' _ _ (sim_set_size_now now ino n) Hr' Hle HP). }
  destruct fh as [i|]; [|exact Hnone]. cbn [mbind option_bind]. unfold id.
  on_handle f sp i Hr h s Hh. cbn [fmap option_fmap option_map].
  rewrite (run_bind (spec_put_handle _ _)), put_handle_run. cbn [fst snd]. intros HP.
  pose proof (mono_set_size _ _ _ _ HP) as [[_ Hn] Hadm].
  destruct (truncate_handle_sim f sp i s h n Hr Hh Hn Hadm) as (f' & Hrun & Hr' & Hle).
  rewrite run_bind, Hrun. exact (sim_last _ _ f f' _ _ (sim_set_size_now now ino n) Hr' Hle HP).
Qed.

Lemma sim_setattr now ino mode uid gid size fh mtime :
  sim (test_setattr (B := B) now ino mode uid gid size fh mtime)
    (spec_setattr now ino mode uid gid size fh mtime).
Proof.
  unfold test_setattr, spec_setattr. sim_step. cbv zeta.
  apply sim_bind; [|intros inode; do 2 sim_step]. destruct size as [n|]; [|destruct mode; sim_step].
  apply sim_bind; [apply sim_truncate|intros _; sim_step].
Qed.

(* ---------------------------------------------------------------------- *)
(** ** Open and create *)

Lemma sim_put_handle fh s h :
  (∀ io, admissible (sh_data h) → handle_sim io s h) → sim (put_handle (B := B) fh s) (spec_put_handle fh h).
Proof.
  intros Hh. split; [apply mono_put_handle|]. intros f sp P Hr [_ Hadm].
  split; [done|]. split; [|done]. apply fs_rep_put; [done|by apply Hh].
Qed.
Lemma sim_drop_handle fh : sim (drop_handle (B := B) fh) (spec_drop_handle fh).
Proof. split; [apply mono_modify|]. intros f sp P Hr _. split; [done|]. split; [|done]. by apply fs_rep_drop. Qed.
Lemma sim_put_fresh fh ino : sim (put_handle (B := B) fh (fresh_handle ino)) (spec_put_handle fh (spec_fresh ino)).
Proof. apply sim_put_handle. intros io Hadm. split; try done. apply fresh_handle_rep. Qed.

(** Allocating a handle number. *)
Lemma sim_next_fh {A} (k : Z → M (SliceFsFilesystem B) Errno A) kspec :
  (∀ fh, mono (kspec fh)) → (∀ n, sim (k n) (kspec (wrap64 (n + 1)))) →
  sim (n ← gets fs_next_fh; _ ← modify (upd_next_fh (wrap64 (n + 1))); k n)
      (fh ← spec_next_fh; kspec fh).
Proof.
  intros Hm Hk. split.
  { apply mono_bind; [|done]. unfold spec_next_fh. apply mono_bind; [apply mono_gets|intros n].
    apply mono_bind; [apply mono_modify|intros _; apply mono_ret]. }
  intros f sp P Hr HP. rewrite (run_bind spec_next_fh) in *. rewrite !run_bind. cbn [gets modify].
  rewrite (fr_fh _ _ Hr). cbn [spec_next_fh sgets gets smodify modify mbind M_bind mret M_ret fst snd] in *.
  exact (sim_last _ _ f _ _ _ (Hk (sp_next_fh sp)) (fs_rep_next_fh f sp _ Hr) (reflexivity _) HP).
Qed.

(** Truncating a new handle. *)
Lemma sim_trunc_new {A} now ino fh (k : M (SliceFsFilesystem B) Errno A) kspec :
  sim k kspec →
  sim (r ← attempt (test_setattr_size now ino (Some fh) 0);
       match (r : res Errno unit) with Err e => _ ← drop_handle fh; throw e | _ => k end)
      (_ ← spec_trunc_new now ino fh; kspec).
Proof.
  intros Hk. unfold spec_trunc_new.
  assert (sim (r ← attempt (test_setattr_size (B := B) now ino (Some fh) 0);
       match (r : res Errno unit) with Err e => _ ← drop_handle fh; throw e | _ => k end)
      (r ← attempt (spec_truncate now ino (Some fh) 0);
       match (r : res Errno unit) with Err e => _ ← spec_drop_handle fh; throw e | _ => kspec end)) as Hs.
  { apply sim_bind; [apply sim_attempt, sim_truncate|]. intros [u|e|]; [done| |done].
    apply sim_bind; [apply sim_drop_handle|intros _; sim_step]. }
  assert (∀ c, (_ ← (r ← attempt (spec_truncate now ino (Some fh) 0);
       match (r : res Errno unit) with Err e => _ ← spec_drop_handle fh; throw e | _ => mret tt end); kspec) c =
     (r ← attempt (spec_truncate now ino (Some fh) 0);
       match (r : res Errno unit) with Err e => _ ← spec_drop_handle fh; throw e | _ => kspec end) c) as Heq.
  { intros c. rewrite !run_bind. destruct (attempt _ c) as [c' [[u|e|]|e|]]; done. }
  destruct Hs as [Hm Hs]. split; [intros sp P; rewrite Heq; apply Hm|].
  intros f sp P Hr. rewrite Heq. by apply Hs.
Qed.

Lemma mono_trunc_new now ino fh : mono (spec_trunc_new now ino fh).
Proof.
  pose proof (sim_mono _ _ (sim_trunc_new now ino fh (mret tt) (mret tt) (sim_ret tt))) as Hm.
  intros sp P HP. apply (Hm sp P). rewrite run_bind. by destruct (spec_trunc_new now ino fh (sp, P)) as [? []].
Qed.

Lemma sim_open now ino flags : sim (test_open (B := B) now ino flags) (spec_open now ino flags).
Proof.
  unfold test_open, spec_open. cbv zeta. apply sim_next_fh.
  { intros fh. case_decide; [|apply mono_ret]. apply mono_bind; [apply mono_put_handle|intros _].
    apply mono_bind; [case_decide; [apply mono_ret|apply mono_trunc_new]|intros _; apply mono_ret]. }
  intros n. set (fh := wrap64 (n + 1)).
  destruct (decide (Z.land flags O_ACCMODE = O_WRONLY ∨ Z.land flags O_ACCMODE = O_RDWR)) as [Hw|Hw].
  - rewrite bool_decide_true by done. cbn [negb]. apply sim_bind; [apply sim_put_fresh|intros _].
    destruct (decide (Z.land flags O_TRUNC = 0)); [|by apply sim_trunc_new; sim_step].
    exact (sim_ret (fh, true)).
  - rewrite bool_decide_false by done. sim_step.
Qed.

Lemma sim_create_file parent name mode umask uid gid :
  sim (test_create (B := B) parent name mode umask uid gid) (spec_create_file parent name mode umask uid gid).
Proof.
  unfold test_create, spec_create_file. cbv zeta. apply sim_bind; [apply sim_create_linked|intros ino].
  apply sim_next_fh; [intros fh; apply mono_bind; [apply mono_put_handle|intros _; apply mono_ret]|].
  intros n. apply sim_bind; [apply sim_put_fresh|intros _; sim_step].
Qed.

Lemma sim_create_open now parent name mode umask uid gid flags :
  sim (test_create_full (B := B) now parent name mode umask uid gid flags)
    (spec_create_open now parent name mode umask uid gid flags).
Proof.
  unfold test_create_full, spec_create_open. apply sim_bind; [apply sim_create_file|intros [ino fh]].
  apply sim_bind; [|intros _; do 2 sim_step]. cbn [fst snd].
  destruct (decide (Z.land flags O_TRUNC = 0)) as [Ht|Ht].
  - rewrite decide_False by (by intros H). sim_step.
  - rewrite decide_True by done. unfold spec_trunc_new. apply sim_bind; [apply sim_attempt, sim_truncate|].
    intros [u|e|]; [sim_step| |sim_step]. apply sim_bind; [apply sim_drop_handle|intros _; sim_step].
Qed.

(* ---------------------------------------------------------------------- *)
(** ** Symbolic links *)

Lemma sim_symlink parent name target uid gid :
  sim (simulate_symlink (B := B) parent name target uid gid) (spec_symlink parent name target uid gid).
Proof.
  unfold simulate_symlink, spec_symlink. apply sim_bind; [apply sim_create_linked|intros ino].
  assert (sim (B := B) (inode ← on_meta eio (get_inode ino); _ ← on_meta eio (update_inode (set_isize (len target) inode));
               mret ino)
              (inode ← map_err eio (t_get_inode ino); _ ← map_err eio (t_update_inode (set_isize (len target) inode));
               mret ino)) as Hlast by do 3 sim_step.
  split; [apply mono_bind; [apply mono_set_content|intros _; by eapply sim_mono]|].
  intros f sp P Hr HP. rewrite (run_bind (set_content _ _)), set_content_run in *.
  pose proof (sim_mono _ _ Hlast _ _ HP) as (_ & Hu & Hadm & Hman). cbn [from_option] in Hadm.
  destruct (push_all_spec target _ (rep_io _ _ (fr_store _ _ Hr)) Hadm) as (Hio & Hle & Hst).
  rewrite run_bind, (with_fs_io_run (push_all target) f (push_all target (st_io (fs_meta f))).1 (digest_of target))
    by (rewrite <-(push_all_digest target (st_io (fs_meta f))); apply surjective_pairing).
  set (f1 := upd_meta _ f). assert (fs_rep f1 sp) as Hr1.
  { apply fs_rep_same_meta; [done|]. eexists _, (st_refcounts (fs_meta f)). split; [reflexivity|done]. }
  destruct (set_manifest_content f1 sp ino (Some target) Hr1 Hu Hman Hst) as (m & Hrun & Hrep & Hle').
  change (blocks_of (Some target)) with [digest_of target] in Hrun. rewrite run_bind, Hrun, run_bind.
  destruct (with_meta_refcounts (increment_refcount (digest_of target)) (upd_meta m f1)) as [rc Hrc];
    [apply increment_refcounts|].
  rewrite Hrc. apply (sim_last _ _ f); [done| | |done].
  - apply fs_rep_same_meta; [done|]. apply same_meta_refcounts, (fr_store _ _ Hrep).
  - cbn. by etransitivity.
Qed.

Lemma sim_readlink ino : sim (simulate_readlink (B := B) ino) (spec_readlink ino).
Proof.
  split.
  { apply mono_bind; [apply mono_gets|]. intros [[c|]|]; [apply mono_lift|apply mono_ret|apply mono_throw]. }
  intros f sp P Hr _. unfold simulate_readlink, spec_readlink. rewrite run_bind, (get_manifest_sim (λ _, EINVAL) f sp) by done.
  rewrite (run_bind (sgets _)). cbn [sgets gets fst snd].
  destruct (sp_contents sp !! ino) as [[c|]|] eqn:Ec; [|done..].
  change (blocks_of (Some c)) with [digest_of c]. cbv iota. rewrite run_bind. cbn [fs_get gets].
  rewrite (get_content f sp ino c) by done. done.
Qed.
End content.

#[export] Hint Resolve sim_create_linked sim_test_lookup sim_mkdir sim_mknod sim_rmdir sim_unlink_file sim_hard_link
  sim_rename sim_readdir sim_getxattr sim_listxattr sim_setxattr sim_removexattr sim_with_attrs sim_write sim_read
  sim_release sim_flush sim_setattr sim_open sim_create_open sim_symlink sim_readlink : sim.
