(* ===== verification/ServeRefine.v ===== *)
(** * Requests are served as specified

    Every request, and every sequence of requests, gets from the adapter the replies that
    [FsSpec] says, and leaves a state that represents the one of the specification. *)

From S2P Require Import Prelude Types Text Blockset Inode InodeMap Xattr Directory Segment Wal.
From S2P Require Import Store StoreSpec StoreRefine MetadataStoreTrait Filesystem WritePath Namespace.
From S2P Require Import NamespaceRefine Handlers Callbacks Frames Mount MountRefine Session Serving.
From S2P Require Import FsSpec FsSim NamesSim ContentSim.
From stdpp Require Import base tactics numbers option list gmap strings.
Open Scope Z_scope.

Section serve.
Context {B : Blockset} {L : BlocksetLaws B}.
Implicit Types (f : SliceFsFilesystem B) (sp : SpecFs).

(** A handler whose result becomes a reply. *)
Lemma sim_answer {E A R} (m : M (SliceFsFilesystem B) E A) (spec : M Needs E A) (conv : E → Errno)
    (ok : A → R) (err : E → R) (reply : R → Reply) ok' g :
  sim m spec → (∀ x, reply (ok x) = ok' x) → (∀ e, reply (err e) = ReplyError (g (conv e))) →
  sim (r ← handled m ok err; mret (reply r)) (answer (map_err conv spec) ok' g).
Proof.
  intros [Hm Hs] Hok Herr. unfold answer, handled, map_err. split.
  - intros sp P. specialize (Hm sp P). by destruct (spec (sp, P)) as [? []].
  - intros f sp P Hr. specialize (Hs f sp P Hr). rewrite run_bind. cbn [mret M_ret].
    destruct (m f) as [f1 r], (spec (sp, P)) as [sp1 r']. cbn [fst snd] in *.
    destruct r' as [x|e|]; cbn [res_map_err]; intros HP; destruct (Hs HP) as (-> & ? & ?); cbn [fst snd].
    + by rewrite Hok.
    + by rewrite Herr.
    + done.
Qed.

(** The same for an operation that returns an error number. *)
Lemma sim_answer_id {A R} (m : M (SliceFsFilesystem B) Errno A) spec (ok : A → R) err (reply : R → Reply) ok' g :
  sim m spec → (∀ x, reply (ok x) = ok' x) → (∀ e, reply (err e) = ReplyError (g e)) →
  sim (r ← handled m ok err; mret (reply r)) (answer spec ok' g).
Proof.
  intros Hs Hok Herr. assert (∀ c, answer (map_err id spec) ok' g c = answer spec ok' g c) as Heq.
  { intros c. unfold answer, handled, map_err. by destruct (spec c) as [? []]. }
  destruct (sim_answer m spec id ok err reply ok' g Hs Hok Herr) as [H1 H2]. split.
  - intros sp P. rewrite <-Heq. apply H1.
  - intros f sp P. rewrite <-Heq. apply H2.
Qed.

Lemma sim_name name (k : bytes → M (SliceFsFilesystem B) Empty_set Reply) kspec :
  (∀ n, sim (k n) (kspec n)) → sim (with_str name k) (spec_name name kspec).
Proof. intros Hk. unfold with_str, spec_name. destruct (to_str name); [apply Hk|apply sim_ret]. Qed.

(** [release] of a handle without a state does nothing. *)
Lemma sim_release_full now ino fh : sim (test_release_full (B := B) now ino fh) (spec_release now ino fh).
Proof.
  split; [apply (sim_mono _ _ (sim_release (B := B) now ino fh))|]. intros f sp P Hr HP.
  destruct (proj2 (sim_release now ino fh) f sp P Hr HP) as (H1 & H2 & H3).
  assert (test_release_full now ino fh f = test_release now ino fh f) as ->; [|done].
  unfold test_release_full, test_release. rewrite !run_bind. cbn [get_handle gets].
  destruct (fs_open_files f !! fh) eqn:E; [|done]. rewrite run_bind. cbn [get_handle gets]. by rewrite E.
Qed.

Lemma sim_statfs sv sf :
  sim (E := Empty_set) (r ← gets (handle_statfs (B := B) sv sf); mret (statfs_reply r))
    (n ← sgets (λ sp, Z.of_nat (size (a_inodes (sp_tree sp)))); mret (spec_statfs sv sf n)).
Proof.
  split; [apply mono_bind; [apply mono_gets|intros n; apply mono_ret]|].
  intros f sp P Hr _. rewrite !run_bind. cbn [gets sgets fst snd mret M_ret]. split_and!; [|done|done].
  unfold handle_statfs, compute_statfs, spec_statfs. pose proof (rep_count _ _ (fr_store _ _ Hr)) as ->.
  change (a_inodes (sp_abs sp)) with (a_inodes (sp_tree sp)).
  destruct sv as [[[[? ?] ?] ?]|], sf as [[[[? ?] ?] ?]|]; repeat case_decide; reflexivity.
Qed.

Ltac answers := repeat (apply sim_name; intros ?); apply sim_answer_id; [eauto with sim|intros ?; reflexivity..].

Lemma sim_serve full now sv sf req :
  is_fsync req = false → sim (serve (B := B) full now sv sf req) (spec_serve full now sv sf req).
Proof.
  intros Hf. destruct req; try discriminate Hf; serve_unfold; cbn [spec_serve];
    unfold entry_answer, done_answer, io_answer; try apply sim_ret; try (answers; fail).
  - apply sim_answer; [apply sim_get_inode|done|done].
  - apply sim_answer_id; [apply sim_release_full|done|done].
  - apply sim_statfs.
  - apply sim_answer_id; [eauto with sim| |done]. intros x. unfold xattr_reply, xattr_answer. by case_decide.
  - apply sim_answer_id; [eauto with sim| |done]. intros x. unfold xattr_reply, xattr_answer. by case_decide.
  - apply sim_answer_id; [eauto with sim|done|]. by intros [].
Qed.

(** [fsync] also flushes the log, which succeeds when no sync fails. *)
Definition log_calm f : Prop := ∀ b, fs_wal f = Some b → box_calm b.

Lemma flush_wal_calm f :
  log_calm f → ∃ w, map_err (λ _, EIO) (zoom fs_meta upd_meta flush_wal) f =
    (upd_meta (upd_wal w (fs_meta f)) f, Ok tt) ∧ (∀ b, w = Some b → box_calm b).
Proof.
  intros Hc. unfold map_err, zoom, flush_wal, on_wal. unfold log_calm, fs_wal in Hc.
  destruct (st_wal (fs_meta f)) as [b|] eqn:Eb.
  - destruct (box_flush_calm b (Hc b eq_refl)) as [Hc' Hr]. destruct (flush_and_sync b) as [b' r]. cbn in *. subst r.
    exists (Some b'). split; [done|]. by intros ? [= <-].
  - exists None. split; [|done]. rewrite <-Eb. by destruct (fs_meta f).
Qed.

Lemma fs_rep_wal f sp w : fs_rep f sp → fs_rep (upd_meta (upd_wal w (fs_meta f)) f) sp.
Proof.
  intros Hr. rewrite <-(sp_set_tree_same sp). apply fs_rep_meta; [done| |done].
  rewrite sp_set_tree_same. by destruct (fr_store _ _ Hr).
Qed.

(** One request from a state whose log accepts every sync. *)
Lemma serve_call_spec f sp P c :
  fs_rep f sp → log_calm f → (spec_call c (sp, P)).1.2 →
  (serve_call c f).2 = (spec_call c (sp, P)).2 ∧ fs_rep (serve_call c f).1 (spec_call c (sp, P)).1.1 ∧
  st_io (fs_meta f) ⊑ᵢ st_io (fs_meta (serve_call c f).1) ∧ log_calm (serve_call c f).1.
Proof.
  intros Hr Hc. destruct c as [full now sv sf req]. unfold serve_call, spec_call.
  cbn [kc_full kc_now kc_statvfs kc_statfs kc_request]. intros HP.
  destruct (is_fsync req) eqn:Hf.
  - destruct req; try discriminate Hf. cbn [serve spec_serve] in *. unfold fuse_fsync, handle_fsync, io_answer, answer in *.
    rewrite run_bind. unfold handled in *. unfold test_fsync. rewrite run_bind.
    pose proof (fs_frame_wal _ _ (flush_buffer_keeps now ino fh f)) as Hk.
    pose proof (proj2 (sim_flush now ino fh) f sp P Hr) as H2.
    destruct (flush_buffer_for_fsync now ino fh f) as [f1 r1], (spec_flush now ino fh (sp, P)) as [[sp1 P1] r2].
    cbn [fst snd] in *. assert (log_calm f1) as Hc1 by (intros b; rewrite Hk; apply Hc).
    destruct r2 as [u|e|]; destruct (H2 HP) as (-> & Hr1 & Hle); [|done..].
    destruct (flush_wal_calm f1 Hc1) as (w & -> & Hw). cbn [fst snd mret M_ret]. split_and!; [done|by apply fs_rep_wal|done|].
    intros b. apply Hw.
  - destruct (proj2 (sim_serve full now sv sf req Hf) f sp P Hr HP) as (H1 & H2 & H3). split_and!; [done..|].
    intros b. rewrite (fs_frame_wal _ _ (serve_keeps full now sv sf req Hf f)). apply Hc.
Qed.

Lemma spec_call_mono c : mono (spec_call c).
Proof.
  destruct c as [full now sv sf req]. unfold spec_call. cbn [kc_full kc_now kc_statvfs kc_statfs kc_request].
  destruct (is_fsync req) eqn:Hf; [|by eapply sim_mono, sim_serve].
  destruct req; try discriminate Hf.
  exact (sim_mono _ _ (sim_serve full now sv sf (ReqFlush ino fh) eq_refl)).
Qed.
Lemma spec_calls_mono cs : mono (spec_calls cs).
Proof.
  induction cs as [|c cs IH]; [apply mono_ret|]. apply mono_bind; [apply spec_call_mono|intros rep].
  apply mono_bind; [done|intros reps; apply mono_ret].
Qed.

(** Every sequence of requests. *)
Lemma serve_calls_spec cs : ∀ f sp P,
  fs_rep f sp → log_calm f → (spec_calls cs (sp, P)).1.2 →
  (serve_calls cs f).2 = (spec_calls cs (sp, P)).2 ∧ fs_rep (serve_calls cs f).1 (spec_calls cs (sp, P)).1.1 ∧
  st_io (fs_meta f) ⊑ᵢ st_io (fs_meta (serve_calls cs f).1) ∧ log_calm (serve_calls cs f).1.
Proof.
  induction cs as [|c cs IH]; intros f sp P Hr Hc; [done|]. cbn [serve_calls spec_calls]. rewrite !run_bind.
  pose proof (serve_call_spec f sp P c Hr Hc) as Hcall.
  destruct (serve_call c f) as [f1 r1], (spec_call c (sp, P)) as [[sp1 P1] r2]. cbn [fst snd] in *.
  destruct r2 as [rep|e|]; [|by intros HP; destruct (Hcall HP) as (-> & ? & ? & ?)..].
  rewrite !run_bind. specialize (IH f1 sp1 P1). pose proof (spec_calls_mono cs sp1 P1) as Hm.
  destruct (spec_calls cs (sp1, P1)) as [[sp2 P2] r3]. cbn [fst snd] in *. intros HP.
  assert (P2) as HP2 by (by destruct r3). destruct (Hcall (Hm HP2)) as (-> & Hr1 & Hle1 & Hc1).
  rewrite run_bind. destruct (serve_calls cs f1) as [f2 r4]. cbn [fst snd] in *.
  destruct (IH Hr1 Hc1 HP2) as (-> & Hr2 & Hle2 & Hc2).
  destruct r3; cbn; split_and!; try done; by etransitivity.
Qed.
End serve.
