(* ===== verification/TreeInvariant.v ===== *)
(** * The invariant of the tree

    What holds in every file system that requests can make: a name leads to an inode, the
    link count of a file is the number of its names, a directory has at most one name, and
    of the inodes exactly the directories have a table of entries.  The tables of removed
    directories stay in the store; their names, which only a rename onto a directory with
    entries or a client that goes on using the number of a removed directory leaves there,
    are names like any other.

    [tree_ok] is stated on a view of the tree: the map from places (a directory and a name)
    to inode numbers, the inodes, the directories that have a table, and the next number.
    The operations on the view are proved once; the requests are composed from them. *)

From S2P Require Import Prelude Types Text Blockset Inode InodeMap Xattr Directory Segment Wal.
From S2P Require Import Store StoreSpec StoreRefine MetadataStoreTrait StoreCommit Filesystem WritePath.
From S2P Require Import Namespace NamespaceRefine Handlers Callbacks Session Serving FsSpec FsSim NamesSim.
From S2P Require Import ContentSim ServeRefine.
From stdpp Require Import base tactics numbers option list gmap strings.
Open Scope Z_scope.

(** A name other than [.] and [..]. *)
Definition is_real (name : bytes) : Prop := name ≠ dot ∧ name ≠ dotdot.
#[export] Instance is_real_dec name : Decision (is_real name).
Proof. apply _. Defined.

Lemma is_real_alt name : ¬ (name = dot ∨ name = dotdot) → is_real name.
Proof. intros H. split; intros Hn; apply H; auto. Qed.

(** The names of a tree: a directory and a name in it, and what they lead to. *)
Abbreviation Places := (gmap (Z * bytes) Z).
Definition names (t : AbsFs) : Places := 
  filter (λ e : Z * bytes * Z, is_real e.1.2) (map_uncurry (M1 := gmap Z) (M2 := gmap bytes) (M12 := gmap (Z * bytes)) (a_dirs t)).
(** How many of them lead to [ino]. *)
Definition links (N : Places) (ino : Z) : Z := Z.of_nat (size (filter (λ e : Z * bytes * Z, e.2 = ino) N)).

(** The invariant.  [T] has the tables of the directories, and those that removed
    directories left behind. *)
Record view_ok (N : Places) (I : gmap Z InodeMeta) (T : gset Z) (next : Z) : Prop := {
  vo_named : map_Forall (λ _ ino, is_Some (I !! ino)) N;
  vo_files : ∀ i m, I !! i = Some m → ¬ is_dir m → im_nlinks m = links N i;
  vo_dirs : ∀ i m, I !! i = Some m → is_dir m → links N i ≤ 1;
  vo_tables : ∀ i m, I !! i = Some m → is_dir m ↔ i ∈ T;
  vo_num : map_Forall (λ i m, im_ino m = i ∧ i < next) I;
  vo_next : ∀ i, i ∈ T → i < next
}.
Definition tree_ok (t : AbsFs) : Prop := view_ok (names t) (a_inodes t) (dom (a_dirs t)) (a_next t).

Lemma names_lookup t p n i :
  names t !! (p, n) = Some i ↔ is_real n ∧ ∃ D, a_dirs t !! p = Some D ∧ D !! n = Some i.
Proof.
  unfold names. rewrite map_lookup_filter_Some, lookup_map_uncurry, bind_Some. cbn. by split; intros [H1 H2]; split.
Qed.

(* ------------------------------------------------------------------------ *)
(** ** Counting *)

Lemma links_insert N k i j : N !! k = None → links (<[k := i]> N) j = links N j + (if decide (i = j) then 1 else 0).
Proof.
  intros Hk. unfold links. case_decide as Hj.
  - rewrite map_filter_insert_True by done.
    rewrite map_size_insert_None by (rewrite map_lookup_filter_None; by left). lia.
  - rewrite map_filter_insert_False by done. rewrite delete_id by done. lia.
Qed.
Lemma links_delete N k i j : N !! k = Some i → links (delete k N) j = links N j - (if decide (i = j) then 1 else 0).
Proof.
  intros Hk. rewrite <-(insert_id _ _ _ Hk) at 2. rewrite <-insert_delete_eq, links_insert by apply lookup_delete_eq.
  case_decide; lia.
Qed.
Lemma links_nonneg N i : 0 ≤ links N i.
Proof. unfold links. lia. Qed.
Lemma links_pos N k i : N !! k = Some i → 0 < links N i.
Proof.
  intros Hk. pose proof (links_delete N k i i Hk) as H. rewrite decide_True in H by done.
  pose proof (links_nonneg (delete k N) i). lia.
Qed.
Lemma links_none N i : map_Forall (λ _ j, j ≠ i) N → links N i = 0.
Proof.
  intros H. unfold links. rewrite (proj2 (map_size_empty_iff _)); [done|].
  apply map_empty. intros k. apply map_lookup_filter_None. right. intros j Hj. by apply (H k j).
Qed.

(* ------------------------------------------------------------------------ *)
(** ** Operations on the view *)

Section view.
Implicit Types (N : Places) (I : gmap Z InodeMeta) (T : gset Z).

(** Changes of attributes other than the type; the link count of a file stays. *)
Definition same_kind (m m' : InodeMeta) : Prop :=
  im_ino m' = im_ino m ∧ (is_dir m' ↔ is_dir m) ∧ (¬ is_dir m → im_nlinks m' = im_nlinks m).

Lemma view_unnamed N I T next i : view_ok N I T next → I !! i = None → links N i = 0.
Proof.
  intros Hv Hi. apply links_none. intros k j Hk ->. destruct (vo_named _ _ _ _ Hv _ _ Hk) as [m Hm].
  by rewrite Hi in Hm.
Qed.

Lemma view_touch N I T next i m m' :
  view_ok N I T next → I !! i = Some m → same_kind m m' → view_ok N (<[i := m']> I) T next.
Proof.
  intros [H1 H2 H3 H4 H5 H6] Hi (Hn & Hd & Hl). destruct (H5 i m Hi) as [Hino Hlt]. split; [..|done].
  - eapply map_Forall_impl; [exact H1|]. intros k j [x Hj]. destruct (decide (i = j)) as [->|].
    + rewrite lookup_insert_eq. by eexists.
    + rewrite lookup_insert_ne by done. by eexists.
  - intros j x. rewrite lookup_insert_Some. intros [[<- <-]|[_ ?]]; [|by eauto].
    intros Hnd. rewrite Hl by (by rewrite <-Hd). apply H2; [done|by rewrite <-Hd].
  - intros j x. rewrite lookup_insert_Some. intros [[<- <-]|[_ ?]]; [|by eauto]. rewrite Hd. by apply H3.
  - intros j x. rewrite lookup_insert_Some. intros [[<- <-]|[_ ?]]; [|by eauto]. rewrite Hd. by apply H4.
  - intros j x. rewrite lookup_insert_Some. intros [[<- <-]|[_ ?]]; [|by eauto]. split; [congruence|done].
Qed.

(** Numbers are given out and not used. *)
Lemma view_skip N I T next : view_ok N I T next → view_ok N I T (next + 1).
Proof.
  intros [H1 H2 H3 H4 H5 H6]. split; try done.
  - intros i m Hi. destruct (H5 i m Hi). split; [done|lia].
  - intros i Hi. specialize (H6 i Hi). lia.
Qed.

(** A name less. *)
Lemma view_unlink N I T next k i m m' :
  view_ok N I T next → N !! k = Some i → I !! i = Some m → im_ino m' = im_ino m → (is_dir m' ↔ is_dir m) →
  (¬ is_dir m → im_nlinks m' = im_nlinks m - 1) → view_ok (delete k N) (<[i := m']> I) T next.
Proof.
  intros [H1 H2 H3 H4 H5 H6] Hk Hi Hn Hd Hl. split; [..|done].
  - intros k' j Hk'. apply lookup_delete_Some in Hk' as [_ Hk'].
    destruct (decide (i = j)) as [->|]; [by rewrite lookup_insert_eq|rewrite lookup_insert_ne by done; by eapply H1].
  - intros j x. rewrite lookup_insert_Some, (links_delete _ _ _ _ Hk). intros [[<- <-]|[Hne Hj]] Hnd.
    + rewrite decide_True, Hl by (done || by rewrite <-Hd). by rewrite (H2 _ _ Hi) by (by rewrite <-Hd).
    + rewrite decide_False by done. rewrite (H2 _ _ Hj Hnd). lia.
  - intros j x. rewrite lookup_insert_Some, (links_delete _ _ _ _ Hk).
    intros [[<- <-]|[Hne Hj]] Hx; [rewrite Hd in Hx; pose proof (H3 _ _ Hi Hx)|pose proof (H3 _ _ Hj Hx)];
      case_decide; lia.
  - intros j x. rewrite lookup_insert_Some. intros [[<- <-]|[_ ?]]; [|by eauto]. rewrite Hd. by apply H4.
  - intros j x. rewrite lookup_insert_Some. intros [[<- <-]|[_ ?]]; [|by eauto]. destruct (H5 _ _ Hi). split; [congruence|done].
Qed.
(** The last name goes with its inode. *)
Lemma view_drop N I T next k i :
  view_ok N I T next → N !! k = Some i → links N i ≤ 1 → view_ok (delete k N) (delete i I) T next.
Proof.
  intros [H1 H2 H3 H4 H5 H6] Hk Hl.
  assert (links (delete k N) i = 0) as H0.
  { pose proof (links_nonneg (delete k N) i) as Hp. rewrite (links_delete _ _ _ _ Hk), decide_True in * by done. lia. }
  split; [..|done].
  - intros k' j Hk'. destruct (decide (i = j)) as [->|]; [by pose proof (links_pos _ _ _ Hk'); lia|].
    rewrite lookup_delete_ne by done. apply lookup_delete_Some in Hk' as [_ Hk']. by eapply H1.
  - intros j x. rewrite lookup_delete_Some, (links_delete _ _ _ _ Hk). intros [Hne Hj] Hnd.
    rewrite decide_False by done. rewrite (H2 _ _ Hj Hnd). lia.
  - intros j x. rewrite lookup_delete_Some, (links_delete _ _ _ _ Hk). intros [Hne Hj] Hd.
    rewrite decide_False by done. pose proof (H3 _ _ Hj Hd). lia.
  - intros j x. rewrite lookup_delete_Some. intros [_ ?]. by apply H4.
  - intros j x. rewrite lookup_delete_Some. intros [_ ?]. by apply H5.
Qed.

(** A name more. *)
Lemma view_link N I T next k i m m' :
  view_ok N I T next → N !! k = None → I !! i = Some m → ¬ is_dir m → ¬ is_dir m' → im_ino m' = im_ino m →
  im_nlinks m' = im_nlinks m + 1 → view_ok (<[k := i]> N) (<[i := m']> I) T next.
Proof.
  intros [H1 H2 H3 H4 H5 H6] Hk Hi Hnd Hnd' Hn Hl. split; [..|done].
  - intros k' j. rewrite lookup_insert_Some. intros [[_ <-]|[_ Hk']]; [by rewrite lookup_insert_eq|].
    destruct (decide (i = j)) as [->|]; [by rewrite lookup_insert_eq|rewrite lookup_insert_ne by done; by eapply H1].
  - intros j x. rewrite lookup_insert_Some, (links_insert _ _ _ _ Hk). intros [[<- <-]|[Hne Hj]] Hx.
    + by rewrite decide_True, Hl, (H2 _ _ Hi) by done.
    + rewrite decide_False, (H2 _ _ Hj) by done. lia.
  - intros j x. rewrite lookup_insert_Some, (links_insert _ _ _ _ Hk). intros [[<- <-]|[Hne Hj]] Hx; [done|].
    rewrite decide_False by done. pose proof (H3 _ _ Hj Hx). lia.
  - intros j x. rewrite lookup_insert_Some. intros [[<- <-]|[_ ?]]; [|by eauto]. rewrite <-(H4 _ _ Hi). by split.
  - intros j x. rewrite lookup_insert_Some. intros [[<- <-]|[_ ?]]; [|by eauto]. destruct (H5 _ _ Hi). split; [congruence|done].
Qed.

(** A new file under a new name. *)
Lemma view_create N I T next k m :
  view_ok N I T next → N !! k = None → ¬ is_dir m → im_ino m = next → im_nlinks m = 1 →
  view_ok (<[k := next]> N) (<[next := m]> I) T (next + 1).
Proof.
  intros Hv Hk Hnd Hn Hl. assert (I !! next = None) as Hfresh.
  { apply eq_None_not_Some. intros [x Hx]. destruct (vo_num _ _ _ _ Hv _ _ Hx). lia. }
  pose proof (view_unnamed _ _ _ _ _ Hv Hfresh) as H0. destruct Hv as [H1 H2 H3 H4 H5 H6]. split.
  - intros k' j. rewrite lookup_insert_Some. intros [[_ <-]|[_ Hk']]; [by rewrite lookup_insert_eq|].
    destruct (decide (next = j)) as [->|]; [by rewrite lookup_insert_eq|rewrite lookup_insert_ne by done; by eapply H1].
  - intros j x. rewrite lookup_insert_Some, (links_insert _ _ _ _ Hk). intros [[<- <-]|[Hne Hj]] Hx.
    + rewrite decide_True, Hl by done. lia.
    + rewrite decide_False, (H2 _ _ Hj) by done. lia.
  - intros j x. rewrite lookup_insert_Some, (links_insert _ _ _ _ Hk). intros [[<- <-]|[Hne Hj]] Hx; [done|].
    rewrite decide_False by done. pose proof (H3 _ _ Hj Hx). lia.
  - intros j x. rewrite lookup_insert_Some. intros [[<- <-]|[_ ?]]; [|by eauto].
    split; [done|]. intros HT. specialize (H6 _ HT). lia.
  - intros j x. rewrite lookup_insert_Some. intros [[<- <-]|[_ Hj]]; [split; [done|lia]|].
    destruct (H5 _ _ Hj). split; [done|lia].
  - intros j Hj. specialize (H6 _ Hj). lia.
Qed.

(** A new directory under a new name. *)
Lemma view_mkdir N I T next k m :
  view_ok N I T next → N !! k = None → is_dir m → im_ino m = next →
  view_ok (<[k := next]> N) (<[next := m]> I) ({[next]} ∪ T) (next + 1).
Proof.
  intros Hv Hk Hd Hn. assert (I !! next = None) as Hfresh.
  { apply eq_None_not_Some. intros [x Hx]. destruct (vo_num _ _ _ _ Hv _ _ Hx). lia. }
  pose proof (view_unnamed _ _ _ _ _ Hv Hfresh) as H0. destruct Hv as [H1 H2 H3 H4 H5 H6]. split.
  - intros k' j. rewrite lookup_insert_Some. intros [[_ <-]|[_ Hk']]; [by rewrite lookup_insert_eq|].
    destruct (decide (next = j)) as [->|]; [by rewrite lookup_insert_eq|rewrite lookup_insert_ne by done; by eapply H1].
  - intros j x. rewrite lookup_insert_Some, (links_insert _ _ _ _ Hk). intros [[<- <-]|[Hne Hj]] Hx; [done|].
    rewrite decide_False, (H2 _ _ Hj) by done. lia.
  - intros j x. rewrite lookup_insert_Some, (links_insert _ _ _ _ Hk). intros [[<- <-]|[Hne Hj]] Hx.
    + rewrite decide_True by done. lia.
    + rewrite decide_False by done. pose proof (H3 _ _ Hj Hx). lia.
  - intros j x. rewrite lookup_insert_Some. rewrite elem_of_union, elem_of_singleton. intros [[<- <-]|[Hne Hj]].
    + split; [by left|done].
    + rewrite (H4 _ _ Hj). split; [by right|by intros [->|?]].
  - intros j x. rewrite lookup_insert_Some. intros [[<- <-]|[_ Hj]]; [split; [done|lia]|].
    destruct (H5 _ _ Hj). split; [done|lia].
  - intros j. rewrite elem_of_union, elem_of_singleton. intros [->|HT]; [lia|]. specialize (H6 _ HT). lia.
Qed.

(** A name moves. *)
Lemma view_move N I T next k k' i :
  view_ok N I T next → N !! k = Some i → N !! k' = None →
  view_ok (delete k (<[k' := i]> N)) I T next.
Proof.
  intros [H1 H2 H3 H4 H5 H6] Hk Hk'. assert (k ≠ k') as Hne by (intros ->; by rewrite Hk in Hk').
  assert (∀ j, links (delete k (<[k' := i]> N)) j = links N j) as Hlinks.
  { intros j. rewrite (links_delete _ _ i) by (by rewrite lookup_insert_ne). rewrite links_insert by done. lia. }
  split; try done.
  - intros k1 j. rewrite lookup_delete_Some, lookup_insert_Some. intros [_ [[_ <-]|[_ Hj]]]; [by eapply H1|by eapply H1].
  - intros j m Hj. rewrite Hlinks. by apply H2.
  - intros j m Hj. rewrite Hlinks. by apply H3.
Qed.
End view.

(* ------------------------------------------------------------------------ *)
(** ** Programs

    [wp m Q R t]: run on the tree [t], [m] leads to a tree with [Q] when it returns and to
    one with [R] when it fails; it does not panic. *)

Definition wp {E A} (m : M Needs E A) (Q : A → AbsFs → Prop) (R : AbsFs → Prop) (t : AbsFs) : Prop :=
  ∀ sp P, sp_tree sp = t →
    match (m (sp, P)).2 with
    | Ok x => Q x (sp_tree (m (sp, P)).1.1)
    | Err _ => R (sp_tree (m (sp, P)).1.1)
    | Panic => False
    end.

Section wp.
Context {B : Blockset} {L : BlocksetLaws B}.
Implicit Types (t : AbsFs) (R : AbsFs → Prop).

Lemma wp_bind {E A A'} (m : M Needs E A) (k : A → M Needs E A') Q R t :
  wp m (λ x, wp (k x) Q R) R t → wp (m ≫= k) Q R t.
Proof.
  intros Hm sp P Ht. specialize (Hm sp P Ht). rewrite run_bind.
  destruct (m (sp, P)) as [[sp1 P1] [x|e|]]; [|done..]. by apply (Hm sp1 P1).
Qed.
Lemma wp_mono {E A} (m : M Needs E A) (Q Q' : A → AbsFs → Prop) R R' t :
  wp m Q R t → (∀ x t', Q x t' → Q' x t') → (∀ t', R t' → R' t') → wp m Q' R' t.
Proof. intros Hm HQ HR sp P Ht. specialize (Hm sp P Ht). destruct ((m (sp, P)).2); auto. Qed.
Lemma wp_ret {E A} (x : A) (Q : A → AbsFs → Prop) R t : Q x t → wp (E := E) (mret x) Q R t.
Proof. by intros HQ sp P <-. Qed.
Lemma wp_throw {E A} (e : E) (Q : A → AbsFs → Prop) R t : R t → wp (throw e) Q R t.
Proof. by intros HQ sp P <-. Qed.
Lemma wp_lift {E A} (r : res E A) (Q : A → AbsFs → Prop) R t :
  r ≠ Panic → (∀ x, Q x t) → R t → wp (lift r) Q R t.
Proof. intros Hr HQ HR sp P <-. by destruct r; cbn. Qed.
Lemma wp_gets {E A} (g : SpecFs → A) (Q : A → AbsFs → Prop) R t :
  (∀ x, Q x t) → wp (E := E) (sgets g) Q R t.
Proof. intros HQ sp P <-. apply HQ. Qed.
Lemma wp_require {E} (N : Prop) (Q : unit → AbsFs → Prop) R t : Q tt t → wp (E := E) (require N) Q R t.
Proof. by intros HQ sp P <-. Qed.
Lemma wp_modify {E} g (Q : unit → AbsFs → Prop) R t :
  (∀ sp, sp_tree (g sp) = sp_tree sp) → Q tt t → wp (E := E) (smodify g) Q R t.
Proof. intros Hg HQ sp P <-. cbn. by rewrite Hg. Qed.
Lemma wp_map_err {E E' A} (g : E → E') (m : M Needs E A) Q R t : wp m Q R t → wp (map_err g m) Q R t.
Proof. intros Hm sp P Ht. specialize (Hm sp P Ht). unfold map_err. by destruct (m (sp, P)) as [? []]. Qed.
Lemma wp_attempt {E E' A} (m : M Needs E A) (Q : res E A → AbsFs → Prop) R t :
  wp m (λ x, Q (Ok x)) (λ t', ∀ e, Q (Err e) t') t → wp (attempt (E' := E') m) Q R t.
Proof.
  intros Hm sp P Ht. specialize (Hm sp P Ht). unfold attempt.
  destruct (m (sp, P)) as [? [x|e|]]; cbn in *; [done|apply Hm|done].
Qed.
Lemma wp_handled {E A A'} (m : M Needs E A) (ok : A → A') err (R : AbsFs → Prop) t :
  wp m (λ _, R) R t → wp (handled m ok err) (λ _, R) R t.
Proof. intros Hm sp P Ht. specialize (Hm sp P Ht). unfold handled. by destruct (m (sp, P)) as [? []]. Qed.
Lemma wp_tree {A} need (m : M AbsFs MetaError A) Q R t :
  match (m t).2 with Ok x => Q x (m t).1 | Err _ => R (m t).1 | Panic => False end → wp (tree need m) Q R t.
Proof. intros Hm sp P <-. unfold tree. cbn [fst snd]. by destruct (m (sp_tree sp)). Qed.

(** The calls of the store, on the names. *)
Lemma names_same t t' : a_dirs t' = a_dirs t → names t' = names t.
Proof. unfold names. by intros ->. Qed.
Lemma names_put t p D n i :
  a_dirs t !! p = Some D → is_real n →
  names (a_set_dirs (<[p := <[n := i]> D]> (a_dirs t)) t) = <[(p, n) := i]> (names t).
Proof.
  intros HD Hn. apply map_eq. intros [p' n']. apply option_eq. intros j. rewrite names_lookup. cbn [a_dirs a_set_dirs].
  rewrite lookup_insert_Some, names_lookup. setoid_rewrite lookup_insert_Some. split.
  - intros (Hr & D' & [[<- <-]|[Hne HD']] & HI); [apply lookup_insert_Some in HI as [[<- <-]|[? ?]]|].
    + by left.
    + right. split; [congruence|by eauto].
    + right. split; [congruence|by eauto].
  - intros [[[= <- <-] <-]|[Hne (Hr & D' & HD' & HI)]].
    + split; [done|]. exists (<[n := i]> D). split; [by left|by rewrite lookup_insert_eq].
    + split; [done|]. destruct (decide (p = p')) as [<-|].
      * simplify_eq. exists (<[n := i]> D). split; [by left|]. rewrite lookup_insert_ne by congruence. done.
      * exists D'. split; [by right|done].
Qed.
Lemma names_cut t p D n :
  a_dirs t !! p = Some D → names (a_set_dirs (<[p := delete n D]> (a_dirs t)) t) = delete (p, n) (names t).
Proof.
  intros HD. apply map_eq. intros [p' n']. apply option_eq. intros j. rewrite names_lookup. cbn [a_dirs a_set_dirs].
  rewrite lookup_delete_Some, names_lookup. setoid_rewrite lookup_insert_Some. split.
  - intros (Hr & D' & [[<- <-]|[Hne HD']] & HI).
    + apply lookup_delete_Some in HI as [? ?]. split; [congruence|by eauto].
    + split; [congruence|by eauto].
  - intros [Hne (Hr & D' & HD' & HI)]. split; [done|]. destruct (decide (p = p')) as [<-|].
    + simplify_eq. exists (delete n D). split; [by left|]. rewrite lookup_delete_ne by congruence. done.
    + exists D'. split; [by right|done].
Qed.

(** The calls of the store. *)
Lemma wp_get_inode ino (Q : InodeMeta → AbsFs → Prop) R t :
  (∀ m, a_inodes t !! ino = Some m → Q m t) → R t → wp (t_get_inode ino) Q R t.
Proof. intros HQ HR. apply wp_tree. cbn. destruct (a_inodes t !! ino); cbn; auto. Qed.
Lemma wp_lookup parent name (Q : Z → AbsFs → Prop) R t :
  (∀ D ino, a_dirs t !! parent = Some D → D !! name = Some ino → Q ino t) → R t →
  wp (t_lookup (B := B) parent name) Q R t.
Proof.
  intros HQ HR. apply wp_tree. cbn. destruct (a_dirs t !! parent) as [D|] eqn:ED; [|done].
  destruct (D !! name) eqn:EN; cbn; eauto.
Qed.

(** What a call leaves of a tree: names, inodes, tables, next number. *)
Definition looks t (N : Places) (I : gmap Z InodeMeta) (T : gset Z) (next : Z) : Prop :=
  names t = N ∧ a_inodes t = I ∧ dom (a_dirs t) = T ∧ a_next t = next.
Lemma looks_ok t N I T next : looks t N I T next → view_ok N I T next → tree_ok t.
Proof. by intros (<- & <- & <- & <-). Qed.

Lemma wp_link parent name ino (Q : unit → AbsFs → Prop) R t :
  (∀ t', is_real name → names t !! (parent, name) = None →
         looks t' (<[(parent, name) := ino]> (names t)) (a_inodes t) (dom (a_dirs t)) (a_next t) → Q tt t') →
  R t → wp (t_link (B := B) parent name ino) Q R t.
Proof.
  intros HQ HR. apply wp_tree. unfold abs_link. destruct (a_dirs t !! parent) as [D|] eqn:ED; [|done].
  case_decide as Hn; [done|]. destruct (D !! name) eqn:EN; [done|]. cbn [fst snd].
  pose proof (is_real_alt _ Hn) as Hr. apply HQ; [done| |].
  - apply eq_None_not_Some. intros [j Hj]. apply names_lookup in Hj as (_ & D' & HD' & HI). congruence.
  - split_and!; [by apply names_put|done| |done]. cbn. apply dom_insert_lookup_L. by eexists.
Qed.
Lemma wp_unlink parent name (Q : unit → AbsFs → Prop) R t :
  (∀ t', is_real name → is_Some (names t !! (parent, name)) →
         looks t' (delete (parent, name) (names t)) (a_inodes t) (dom (a_dirs t)) (a_next t) → Q tt t') →
  (¬ is_real name ∨ names t !! (parent, name) = None → R t) → wp (t_unlink (B := B) parent name) Q R t.
Proof.
  intros HQ HR. apply wp_tree. unfold abs_unlink. destruct (a_dirs t !! parent) as [D|] eqn:ED.
  2:{ apply HR. right. apply eq_None_not_Some. intros [j (_ & D' & HD' & HI)%names_lookup]. congruence. }
  case_decide as Hn; [apply HR; left; intros [? ?]; by destruct Hn|].
  pose proof (is_real_alt _ Hn) as Hr. destruct (D !! name) as [i|] eqn:EN.
  2:{ apply HR. right. apply eq_None_not_Some. intros [j (_ & D' & HD' & HI)%names_lookup]. congruence. }
  cbn [fst snd]. apply HQ; [done| |].
  - exists i. apply names_lookup. eauto.
  - split_and!; [by apply names_cut|done| |done]. cbn. apply dom_insert_lookup_L. by eexists.
Qed.
Lemma wp_update_inode m (Q : unit → AbsFs → Prop) R t :
  (∀ t', looks t' (names t) (<[im_ino m := m]> (a_inodes t)) (dom (a_dirs t)) (a_next t) → Q tt t') →
  (a_inodes t !! im_ino m = None → R t) → wp (t_update_inode m) Q R t.
Proof.
  intros HQ HR. apply wp_tree. unfold abs_update_inode. destruct (a_inodes t !! im_ino m); [|by apply HR].
  by apply HQ.
Qed.
Lemma wp_delete_inode ino (Q : unit → AbsFs → Prop) R t :
  (∀ t', looks t' (names t) (delete ino (a_inodes t)) (dom (a_dirs t)) (a_next t) → Q tt t') →
  (a_inodes t !! ino = None → R t) → wp (t_delete_inode ino) Q R t.
Proof.
  intros HQ HR. apply wp_tree. unfold abs_delete_inode. destruct (a_inodes t !! ino); [|by apply HR].
  by apply HQ.
Qed.
Lemma wp_create_inode m (Q : Z → AbsFs → Prop) R t :
  (∀ t', looks t' (names t) (<[a_next t := set_ino (a_next t) m]> (a_inodes t)) (dom (a_dirs t)) (a_next t + 1) →
         Q (a_next t) t') → wp (t_create_inode m) Q R t.
Proof. intros HQ. apply wp_tree. by apply HQ. Qed.
End wp.
