(* ===== verification/TreeRequests.v ===== *)
(** * Requests keep the tree sound

    Every request of the specification keeps [tree_ok], errors included, so every state
    that a mounted file system reaches represents a sound tree. *)

From S2P Require Import Prelude Types Text Blockset Inode InodeMap Xattr Directory Segment Wal.
From S2P Require Import Store StoreSpec StoreRefine MetadataStoreTrait StoreCommit Filesystem WritePath.
From S2P Require Import Namespace NamespaceRefine Handlers Callbacks Session Serving FsSpec FsSim NamesSim.
From S2P Require Import ContentSim ServeRefine TreeInvariant.
From stdpp Require Import base tactics numbers option list gmap strings.
Open Scope Z_scope.

Create HintDb tree.

(* ------------------------------------------------------------------------ *)
(** ** Attributes *)

Section kinds.
Implicit Types (m : InodeMeta).

Lemma is_dir_mode m m' : im_mode m' = im_mode m → is_dir m' ↔ is_dir m.
Proof. unfold is_dir. by intros ->. Qed.
Lemma same_kind_fields m m' :
  im_ino m' = im_ino m → im_mode m' = im_mode m → im_nlinks m' = im_nlinks m → same_kind m m'.
Proof. intros H1 H2 H3. by split_and!; [|apply is_dir_mode|]. Qed.
Lemma same_kind_trans m1 m2 m3 : same_kind m1 m2 → same_kind m2 m3 → same_kind m1 m3.
Proof.
  intros (H1 & H2 & H3) (H4 & H5 & H6). split_and!; [congruence|by rewrite H5|].
  intros Hd. rewrite H6, H3; [done..|by rewrite H2].
Qed.

Lemma same_kind_stamp now m : same_kind m (stamp_ctime now m).
Proof. by apply same_kind_fields. Qed.
Lemma same_kind_written now n m : same_kind m (written_inode now n m).
Proof. by apply same_kind_fields. Qed.
Lemma same_kind_size n m : same_kind m (set_isize n m).
Proof. by apply same_kind_fields. Qed.
Lemma same_kind_chmod mode m : same_kind m (chmod mode m).
Proof.
  split_and!; [done| |done]. unfold is_dir, chmod, set_mode. cbn [im_mode].
  rewrite Z.land_lor_distr_l, <-!Z.land_assoc. change (Z.land S_IFMT S_IFDIR) with S_IFDIR.
  change (Z.land 4095 S_IFDIR) with 0. by rewrite Z.land_0_r, Z.lor_0_r.
Qed.
Lemma same_kind_setattr mode uid gid mtime m :
  same_kind m (utimes mtime (chown uid gid (from_option chmod id mode m))).
Proof.
  eapply (same_kind_trans _ (from_option chmod id mode m)).
  - destruct mode; [apply same_kind_chmod|by apply same_kind_fields].
  - by destruct uid, gid, mtime as [[]|]; apply same_kind_fields.
Qed.

(** What creation makes. *)
Lemma not_dir_file uid gid mode umask : ¬ is_dir (new_file 0 uid gid (Z.lor S_IFREG (perm_bits mode umask))).
Proof.
  intros H. apply H. unfold perm_bits. cbn [im_mode new_file].
  rewrite Z.land_lor_distr_l, <-!Z.land_assoc. change (Z.land 4095 S_IFDIR) with 0. by rewrite !Z.land_0_r.
Qed.
Lemma not_dir_symlink uid gid n : ¬ is_dir (symlink_meta uid gid n).
Proof. intros H. by apply H. Qed.
Lemma is_dir_dir ino m : is_dir (dir_inode ino m).
Proof.
  unfold is_dir, dir_inode. case_decide as H; cbn [im_mode set_mode set_ino] in *; [|done].
  rewrite Z.land_lor_distr_l, H. by cbv.
Qed.
End kinds.
#[export] Hint Resolve same_kind_stamp same_kind_written same_kind_size same_kind_setattr
  not_dir_file not_dir_symlink : tree.

(* ------------------------------------------------------------------------ *)
(** ** Rules *)

Section rules.
Context {B : Blockset} {L : BlocksetLaws B}.
Implicit Types (t : AbsFs).

Definition safe {E A} (m : M Needs E A) : Prop := ∀ t, tree_ok t → wp m (λ _, tree_ok) tree_ok t.
(** The tree stays as it is. *)
Definition still {E A} (m : M Needs E A) : Prop :=
  ∀ (Q : A → AbsFs → Prop) (R : AbsFs → Prop) t, (∀ x, Q x t) → R t → wp m Q R t.

Lemma safe_bind {E A A'} (m : M Needs E A) (k : A → M Needs E A') : safe m → (∀ x, safe (k x)) → safe (m ≫= k).
Proof. intros Hm Hk t Ht. apply wp_bind. eapply wp_mono; [by apply Hm| |done]. intros x t' Ht'. by apply Hk. Qed.
Lemma still_safe {E A} (m : M Needs E A) : still m → safe m.
Proof. intros Hm t Ht. by apply Hm. Qed.
Lemma safe_ret {E A} (x : A) : safe (mret (M := M Needs E) x).
Proof. intros t Ht. by apply wp_ret. Qed.
Lemma safe_throw {E A} (e : E) : safe (throw (A := A) e).
Proof. intros t Ht. by apply wp_throw. Qed.
Lemma safe_map_err {E E' A} (g : E → E') (m : M Needs E A) : safe m → safe (map_err g m).
Proof. intros Hm t Ht. apply wp_map_err. by apply Hm. Qed.
Lemma safe_attempt {E E' A} (m : M Needs E A) : safe m → safe (attempt (E' := E') m).
Proof. intros Hm t Ht. apply wp_attempt. eapply wp_mono; [by apply Hm|done|]. done. Qed.
Lemma safe_handled {E A A'} (m : M Needs E A) (ok : A → A') err : safe m → safe (handled m ok err).
Proof. intros Hm t Ht. apply wp_handled. by apply Hm. Qed.

Lemma still_gets {E A} (g : SpecFs → A) : still (sgets (E := E) g).
Proof. intros Q R t HQ HR. by apply wp_gets. Qed.
Lemma still_lift {E A} (r : res E A) : r ≠ Panic → still (lift r).
Proof. intros Hr Q R t HQ HR. by apply wp_lift. Qed.
Lemma ok_or_returns {E A} (o : option A) (e : E) : ok_or o e ≠ Panic.
Proof. by destruct o. Qed.
Lemma still_bind {E A A'} (m : M Needs E A) (k : A → M Needs E A') : still m → (∀ x, still (k x)) → still (m ≫= k).
Proof. intros Hm Hk Q R t HQ HR. apply wp_bind, Hm; [|done]. intros x. by apply Hk. Qed.
Lemma still_ret {E A} (x : A) : still (mret (M := M Needs E) x).
Proof. intros Q R t HQ HR. by apply wp_ret. Qed.
Lemma still_modify {E} g : (∀ sp, sp_tree (g sp) = sp_tree sp) → still (smodify (E := E) g).
Proof. intros Hg Q R t HQ HR. by apply wp_modify. Qed.
Lemma still_require {E} P : still (require (E := E) P).
Proof. intros Q R t HQ HR. by apply wp_require. Qed.
Lemma still_set_content ino c : still (set_content (L := L) ino c).
Proof. apply still_bind; [apply still_require|intros _; by apply still_modify]. Qed.
Lemma still_put_handle fh h : still (spec_put_handle (L := L) fh h).
Proof. apply still_bind; [apply still_require|intros _; by apply still_modify]. Qed.
Lemma still_drop_handle fh : still (spec_drop_handle fh).
Proof. by apply still_modify. Qed.
Lemma still_next_fh : still spec_next_fh.
Proof.
  apply still_bind; [apply still_gets|intros n]. apply still_bind; [by apply still_modify|intros _; apply still_ret].
Qed.

(** Calls that only read. *)
Lemma still_read {A} need (m : M AbsFs MetaError A) : (∀ t, (m t).1 = t ∧ (m t).2 ≠ Panic) → still (tree need m).
Proof.
  intros Hm Q R t HQ HR. apply wp_tree. destruct (Hm t) as [-> Hp]. by destruct ((m t).2).
Qed.
Lemma still_map_err {E E' A} (g : E → E') (m : M Needs E A) : still m → still (map_err g m).
Proof. intros Hm Q R t HQ HR. by apply wp_map_err, Hm. Qed.
Lemma still_get_inode ino : still (t_get_inode ino).
Proof. apply still_read. intros t. split; [done|apply ok_or_returns]. Qed.
Lemma still_lookup parent name : still (t_lookup (L := L) parent name).
Proof.
  apply still_read. intros t. split; [done|]. cbn. destruct (a_dirs t !! parent); [apply ok_or_returns|done].
Qed.
Lemma still_list ino : still (t_list_directory (L := L) ino).
Proof. apply still_read. intros t. split; [done|]. cbn. by destruct (a_dirs t !! ino). Qed.

(** An inode whose kind stays. *)
Lemma touch_ok t t' i m m' :
  tree_ok t → a_inodes t !! i = Some m → same_kind m m' →
  looks t' (names t) (<[im_ino m' := m']> (a_inodes t)) (dom (a_dirs t)) (a_next t) → tree_ok t'.
Proof.
  intros Ht Hi Hk Hl. apply (looks_ok _ _ _ _ _ Hl).
  assert (im_ino m' = i) as -> by (rewrite (proj1 Hk); apply (vo_num _ _ _ _ Ht i m Hi)).
  by apply (view_touch _ _ _ _ _ m).
Qed.
Lemma wp_touch t i m m' :
  tree_ok t → a_inodes t !! i = Some m → same_kind m m' → wp (t_update_inode m') (λ _, tree_ok) tree_ok t.
Proof. intros Ht Hi Hk. apply wp_update_inode; [|done]. intros t' Hl. by eapply touch_ok. Qed.
End rules.
#[export] Hint Resolve still_safe safe_ret safe_throw safe_map_err safe_attempt safe_handled still_gets still_lift ok_or_returns
  still_ret still_modify still_require still_set_content still_put_handle still_drop_handle still_next_fh
  still_map_err still_get_inode still_lookup still_list : tree.

(* ------------------------------------------------------------------------ *)
(** ** Content and attributes *)

(** One step of a program whose parts are known to be safe. *)
Ltac safe_step :=
  lazymatch goal with
  | |- safe (_ ≫= _) => apply safe_bind; [solve [eauto with tree]|intros ?]
  | |- safe (if decide ?P then _ else _) => destruct (decide P)
  | |- safe (match ?x with _ => _ end) => destruct x
  | |- safe _ => solve [eauto with tree]
  end.

Section requests.
Context {B : Blockset} {L : BlocksetLaws B}.
Implicit Types (t : AbsFs).

Lemma safe_set_size ino g : (∀ m, same_kind m (g m)) → safe (spec_set_size ino g).
Proof.
  intros Hg t Ht. apply wp_bind, wp_map_err, wp_get_inode; [|done]. intros m Hm.
  apply wp_map_err. by eapply wp_touch.
Qed.
Lemma safe_commit now ino c : safe (spec_commit now ino c).
Proof. apply safe_set_size. intros m. apply same_kind_written. Qed.
Hint Resolve safe_commit : tree.
Lemma safe_release now ino fh : safe (spec_release (L := L) now ino fh).
Proof. unfold spec_release. repeat safe_step. Qed.
Lemma safe_flush now ino fh : safe (spec_flush (L := L) now ino fh).
Proof. unfold spec_flush. repeat safe_step. Qed.
Lemma safe_write fh off data : safe (spec_write (L := L) fh off data).
Proof. unfold spec_write. repeat safe_step. Qed.
Lemma safe_read ino off n : safe (spec_read ino off n).
Proof. unfold spec_read. repeat safe_step. Qed.
Lemma safe_readlink ino : safe (spec_readlink ino).
Proof. unfold spec_readlink. repeat safe_step. Qed.

Lemma safe_truncate now ino fh n : safe (spec_truncate (L := L) now ino fh n).
Proof.
  unfold spec_truncate. do 2 safe_step.
  apply safe_bind; [by destruct (_ ≫= _) as [[]|]; eauto with tree|]. intros _. apply safe_set_size. intros m.
  eapply same_kind_trans; [apply same_kind_size|apply same_kind_stamp].
Qed.
Hint Resolve safe_truncate : tree.
Lemma safe_trunc_new now ino fh : safe (spec_trunc_new (L := L) now ino fh).
Proof. unfold spec_trunc_new. repeat safe_step. Qed.
Hint Resolve safe_trunc_new : tree.
Lemma safe_open now ino flags : safe (spec_open (L := L) now ino flags).
Proof.
  unfold spec_open. cbv zeta. do 2 safe_step; [safe_step|safe_step].
  apply safe_bind; [case_decide; eauto with tree|intros _; eauto with tree].
Qed.

Lemma safe_setattr now ino mode uid gid size fh mtime :
  safe (spec_setattr (L := L) now ino mode uid gid size fh mtime).
Proof.
  intros t Ht. apply wp_bind, wp_map_err, wp_get_inode; [|done]. intros m Hm.
  assert (∀ t' x, tree_ok t' → (∃ m', a_inodes t' !! ino = Some m' ∧ same_kind m' x) →
            wp (_ ← map_err meta_error_to_errno (t_update_inode (stamp_ctime now x)); mret (stamp_ctime now x))
              (λ _, tree_ok) tree_ok t') as Hup.
  { intros t' x Ht' (m' & Hm' & Hk). apply wp_bind, wp_map_err.
    eapply wp_mono; [eapply (wp_touch t' ino m'); [done..|]| |done].
    - eapply same_kind_trans; [done|apply same_kind_stamp].
    - intros x' t'' Ht''. by apply wp_ret. }
  apply wp_bind. destruct size as [n|].
  - apply wp_bind. eapply wp_mono; [by apply safe_truncate| |done]. intros u t' Ht'.
    apply wp_map_err, wp_get_inode; [|done]. intros m' Hm'. apply Hup; [done|].
    exists m'. split; [done|]. by apply same_kind_fields.
  - apply wp_ret, Hup; [done|]. exists m. split; [done|apply same_kind_setattr].
Qed.

(* ------------------------------------------------------------------------ *)
(** ** Names *)

Lemma safe_create parent name meta :
  ¬ is_dir meta → im_nlinks meta = 1 → safe (spec_create (L := L) parent name meta).
Proof.
  intros Hd Hl t Ht. unfold spec_create. apply wp_bind, wp_map_err, wp_create_inode.
  intros t1 Hl1. assert (a_inodes t !! a_next t = None) as Hfresh.
  { apply eq_None_not_Some. intros [x Hx]. destruct (vo_num _ _ _ _ Ht _ _ Hx). lia. }
  apply wp_bind, wp_attempt, wp_link.
  - intros t2 Hr Hn Hl2. apply wp_ret. destruct Hl1 as (E1 & E2 & E3 & E4). rewrite E1, E2, E3, E4 in *.
    apply (looks_ok _ _ _ _ _ Hl2). by apply view_create.
  - assert (∀ t2, looks t2 (names t1) (delete (a_next t) (a_inodes t1)) (dom (a_dirs t1)) (a_next t1) → tree_ok t2)
      as Hundo.
    { intros t2 Hl2. apply (looks_ok _ _ _ _ _ Hl2). destruct Hl1 as (-> & -> & -> & ->).
      rewrite delete_insert_id by done. by apply view_skip. }
    assert (is_Some (a_inodes t1 !! a_next t)) as [x Hx] by (destruct Hl1 as (_ & -> & _); rewrite lookup_insert_eq; by eexists).
    intros e. apply wp_bind, wp_attempt, wp_map_err, wp_delete_inode.
    + intros t2 Hl2. by apply wp_throw, Hundo.
    + congruence.
Qed.

Lemma safe_new_file parent name mode umask uid gid :
  safe (spec_create (L := L) parent name (new_file 0 uid gid (Z.lor S_IFREG (perm_bits mode umask)))).
Proof. apply safe_create; [apply not_dir_file|done]. Qed.
Lemma safe_new_link parent name uid gid n : safe (spec_create (L := L) parent name (symlink_meta uid gid n)).
Proof. apply safe_create; [apply not_dir_symlink|done]. Qed.
Hint Resolve safe_new_file safe_new_link : tree.
Lemma safe_create_file parent name mode umask uid gid :
  safe (spec_create_file (L := L) parent name mode umask uid gid).
Proof. unfold spec_create_file. repeat safe_step. Qed.
Hint Resolve safe_create_file : tree.
Lemma safe_create_open now parent name mode umask uid gid flags :
  safe (spec_create_open (L := L) now parent name mode umask uid gid flags).
Proof.
  unfold spec_create_open. safe_step. apply safe_bind; [case_decide; eauto with tree|intros _].
  repeat safe_step.
Qed.
Lemma safe_mknod parent name mode uid gid umask : safe (spec_mknod (L := L) parent name mode uid gid umask).
Proof. unfold spec_mknod. repeat safe_step. Qed.
Lemma safe_symlink parent name target uid gid : safe (spec_symlink (L := L) parent name target uid gid).
Proof.
  unfold spec_symlink. do 2 safe_step. intros t Ht.
  apply wp_bind, wp_map_err, wp_get_inode; [|done]. intros m Hm. apply wp_bind, wp_map_err.
  eapply wp_mono; [by eapply (wp_touch t x m); [..|apply same_kind_size]| |done].
  intros u t' Ht'. by apply wp_ret.
Qed.
Lemma safe_with_attrs m : safe m → safe (spec_with_attrs m).
Proof. intros Hm. unfold spec_with_attrs. repeat safe_step. Qed.

(** The place that a name was found at. *)
Lemma wp_lookup_name parent name (Q : Z → AbsFs → Prop) (R : AbsFs → Prop) t :
  (∀ ino, (is_real name → names t !! (parent, name) = Some ino) → parent ∈ dom (a_dirs t) → Q ino t) → R t →
  wp (t_lookup (B := B) parent name) Q R t.
Proof.
  intros HQ HR. apply wp_lookup; [|done]. intros D ino HD HI. apply HQ.
  - intros Hr. apply names_lookup. eauto.
  - apply elem_of_dom. by eexists.
Qed.

Lemma safe_mkdir parent name mode umask uid gid : safe (spec_mkdir (L := L) parent name mode umask uid gid).
Proof.
  intros t Ht. apply wp_map_err, wp_tree. unfold abs_create_directory.
  destruct (a_inodes t !! parent) as [pm|] eqn:Ep; [|done]. case_decide as Hd; [done|].
  destruct (a_dirs t !! parent) as [D|] eqn:ED; [|done].
  assert (tree_ok (a_set_next (a_next t + 1) t)) as Hskip by by apply view_skip.
  case_decide as Hn; [done|]. pose proof (is_real_alt _ Hn) as Hr. destruct (D !! name) eqn:EN; [done|].
  cbn [fst snd]. set (m := dir_inode _ _). set (ino := a_next t) in *.
  assert (parent < ino) as Hlt by apply (vo_num _ _ _ _ Ht _ _ Ep).
  assert (names t !! (parent, name) = None) as Hfree.
  { apply eq_None_not_Some. intros [j (_ & D' & HD' & HI)%names_lookup]. congruence. }
  assert (im_ino m = ino) as Hino by (unfold m, dir_inode; by case_decide).
  pose proof (view_mkdir _ _ _ _ (parent, name) m Ht Hfree (is_dir_dir _ _) Hino) as Hv.
  fold ino in Hv.
  assert (view_ok (<[(parent, name) := ino]> (names t)) (<[parent := add_link pm]> (<[ino := m]> (a_inodes t)))
            ({[ino]} ∪ dom (a_dirs t)) (ino + 1)) as Hv2.
  { apply (view_touch _ _ _ _ parent pm); [done|rewrite lookup_insert_ne by lia; done|].
    split_and!; [done|by apply is_dir_mode|]. intros Hnd. by destruct Hnd. }
  eapply looks_ok; [|exact Hv2]. split_and!; [|done| |done].
  - set (t1 := a_set_dirs (<[ino := fresh_dir ino parent]> (a_dirs t)) t).
    assert (names t1 = names t) as Hn1.
    { apply map_eq. intros [p' n']. apply option_eq. intros j. rewrite !names_lookup. cbn [t1 a_dirs a_set_dirs].
      setoid_rewrite lookup_insert_Some. split.
      - intros (Hr' & D' & [[<- <-]|[Hne HD']] & HI); [|by eauto]. exfalso. destruct Hr' as [Hr1 Hr2].
        unfold fresh_dir in HI. rewrite !lookup_insert_Some in HI. destruct HI as [[? _]|[_ HI]]; [done|].
        by apply lookup_singleton_Some in HI as [? _].
      - intros (Hr' & D' & HD' & HI). split; [done|]. exists D'. split; [|done]. right. split; [|done].
        intros <-. pose proof (vo_next _ _ _ _ Ht ino (elem_of_dom_2 _ _ _ HD')). lia. }
    rewrite <-Hn1. apply (names_put t1 parent D); [|done]. cbn. rewrite lookup_insert_ne by lia. done.
  - cbn. rewrite dom_insert_lookup_L; [by rewrite dom_insert_L|]. rewrite lookup_insert_ne by lia. by eexists.
Qed.

Lemma safe_rmdir parent name : safe (spec_rmdir (L := L) parent name).
Proof.
  intros t Ht. unfold spec_rmdir. apply wp_bind, wp_map_err, wp_lookup_name; [|done]. intros ino Hin Hp.
  apply wp_bind, wp_map_err, wp_get_inode; [|done]. intros m Hm. case_decide as Hd; [|by apply wp_throw].
  apply wp_bind, still_map_err; [apply still_list| |done]. intros es. case_decide as He; [|by apply wp_throw].
  apply wp_bind, wp_map_err, wp_unlink; [|done]. intros t1 Hr _ H1.
  apply wp_bind, wp_map_err, wp_delete_inode; [|by destruct H1 as (_ & -> & _); rewrite Hm].
  intros t2 H2. assert (tree_ok t2) as Ht2.
  { apply (looks_ok _ _ _ _ _ H2). destruct H1 as (-> & -> & -> & ->).
    apply view_drop; [done|by apply Hin|]. by apply (vo_dirs _ _ _ _ Ht ino m). }
  apply wp_bind, wp_map_err, wp_get_inode; [|done]. intros pm Hpm. case_decide; [|by apply wp_ret].
  apply wp_map_err. apply (wp_touch t2 parent pm); [done|done|].
  split_and!; [done|by apply is_dir_mode|]. intros Hnd. destruct Hnd. apply (vo_tables _ _ _ _ Ht2 parent pm Hpm).
  destruct H2 as (_ & _ & -> & _). by destruct H1 as (_ & _ & -> & _).
Qed.

(** A file loses a name, and goes with its last one. *)
Lemma view_less_link t ino m k t' (I : gmap Z InodeMeta) :
  tree_ok t → a_inodes t !! ino = Some m → names t !! k = Some ino → ¬ is_dir m →
  (im_nlinks m = 1 ∧ I = delete ino (a_inodes t) ∨
   im_nlinks m ≠ 1 ∧ I = <[ino := set_nlinks (im_nlinks m - 1) m]> (a_inodes t)) →
  looks t' (delete k (names t)) I (dom (a_dirs t)) (a_next t) → tree_ok t'.
Proof.
  intros Ht Hm Hk Hd HI Hl. apply (looks_ok _ _ _ _ _ Hl). destruct HI as [[H1 ->]|[H1 ->]].
  - apply view_drop; [done..|]. rewrite <-(vo_files _ _ _ _ Ht ino m Hm Hd). lia.
  - by apply (view_unlink _ _ _ _ _ _ m); [..|by apply is_dir_mode|].
Qed.
Lemma links_file t ino m k :
  tree_ok t → a_inodes t !! ino = Some m → names t !! k = Some ino → ¬ is_dir m → 1 ≤ im_nlinks m.
Proof. intros Ht Hm Hk Hd. rewrite (vo_files _ _ _ _ Ht ino m Hm Hd). pose proof (links_pos _ _ _ Hk). lia. Qed.
Lemma inode_num t ino m : tree_ok t → a_inodes t !! ino = Some m → im_ino m = ino.
Proof. intros Ht Hm. apply (vo_num _ _ _ _ Ht ino m Hm). Qed.

Lemma safe_unlink parent name : safe (spec_unlink (L := L) parent name).
Proof.
  intros t Ht. unfold spec_unlink. apply wp_bind, wp_map_err, wp_lookup_name; [|done]. intros ino Hin Hp.
  apply wp_bind, wp_map_err, wp_get_inode; [|done]. intros m Hm. case_decide as Hd; [by apply wp_throw|].
  apply wp_bind, wp_map_err, wp_unlink; [|done]. intros t1 Hr _ H1. specialize (Hin Hr).
  pose proof (links_file _ _ _ _ Ht Hm Hin Hd) as Hge. destruct H1 as (E1 & E2 & E3 & E4).
  assert (less_link m = set_nlinks (im_nlinks m - 1) m) as -> by (unfold less_link; by rewrite decide_True by lia).
  case_decide as H0; cbn [im_nlinks set_nlinks] in H0.
  - apply wp_bind, wp_attempt, wp_map_err, wp_delete_inode; [|by rewrite E2, Hm].
    intros t2 H2. apply wp_ret. rewrite E1, E2, E3, E4 in H2. eapply (view_less_link t ino m); [done..|left|done]. split; [lia|done].
  - apply wp_map_err, wp_update_inode; cbn [im_ino set_nlinks]; [|by rewrite E2, (inode_num t ino m), Hm].
    intros t2 H2. rewrite E1, E2, E3, E4, (inode_num t ino m) in H2 by done.
    eapply (view_less_link t ino m); [done..|right|done]. split; [lia|done].
Qed.

(** The target of a rename loses its name. *)
Lemma wp_displace parent name dst t :
  tree_ok t → (is_real name → names t !! (parent, name) = Some dst) →
  wp (spec_displace (L := L) parent name dst)
    (λ _ t', tree_ok t' ∧ names t' = delete (parent, name) (names t)) tree_ok t.
Proof.
  intros Ht Hk. unfold spec_displace. apply wp_bind, wp_map_err, wp_get_inode; [|done]. intros m Hm.
  apply wp_bind, wp_map_err, wp_unlink; [|done]. intros t1 Hr _ H1. specialize (Hk Hr).
  destruct H1 as (E1 & E2 & E3 & E4). case_decide as Hle; [case_decide as Hd|].
  - apply wp_ret. split; [|done]. unfold tree_ok. rewrite E1, E2, E3, E4.
    rewrite <-(insert_id (a_inodes t) dst m Hm). by apply (view_unlink _ _ _ _ _ _ m).
  - pose proof (links_file _ _ _ _ Ht Hm Hk Hd) as Hge.
    apply wp_bind, wp_attempt, wp_map_err, wp_delete_inode; [|by rewrite E2, Hm].
    intros t2 H2. apply wp_ret. rewrite E1, E2, E3, E4 in H2. split; [|apply H2].
    eapply (view_less_link t dst m); [done..|left|done]. split; [lia|done].
  - apply wp_bind, wp_attempt, wp_map_err, wp_update_inode; cbn [im_ino set_nlinks];
      [|by rewrite E2, (inode_num t dst m), Hm].
    intros t2 H2. apply wp_ret. rewrite E1, E2, E3, E4, (inode_num t dst m) in H2 by done. split; [|apply H2].
    apply (looks_ok _ _ _ _ _ H2). by apply (view_unlink _ _ _ _ _ _ m); [..|by apply is_dir_mode|].
Qed.

(** The moved entry, when the target is free. *)
Lemma wp_move now parent name newparent newname ino t :
  tree_ok t → is_real name →
  names t !! (parent, name) = Some ino ∨ (parent, name) = (newparent, newname) →
  wp (_ ← map_err meta_error_to_errno (t_link (L := L) newparent newname ino);
      _ ← map_err meta_error_to_errno (t_unlink (L := L) parent name);
      inode ← map_err meta_error_to_errno (t_get_inode ino);
      map_err meta_error_to_errno (t_update_inode (stamp_ctime now inode))) (λ _, tree_ok) tree_ok t.
Proof.
  intros Ht Hr Hk. apply wp_bind, wp_map_err, wp_link; [|done]. intros t1 Hr' Hfree (E1 & E2 & E3 & E4).
  assert (names t1 !! (parent, name) = Some ino) as Hk1.
  { rewrite E1. destruct (decide ((parent, name) = (newparent, newname))) as [->|Hne]; [apply lookup_insert_eq|].
    rewrite lookup_insert_ne by done. by destruct Hk. }
  apply wp_bind, wp_map_err, wp_unlink; [|by intros [?|?]; [|congruence]]. intros t2 _ _ H2.
  rewrite E1, E2, E3, E4 in H2. assert (tree_ok t2) as Ht2.
  { apply (looks_ok _ _ _ _ _ H2). destruct (decide ((parent, name) = (newparent, newname))) as [->|Hne].
    - by rewrite delete_insert_id.
    - apply view_move; [done|by destruct Hk|done]. }
  apply wp_bind, wp_map_err, wp_get_inode; [|done]. intros m Hm. apply wp_map_err.
  apply (wp_touch t2 ino m); [done|done|apply same_kind_stamp].
Qed.

Lemma safe_rename now parent name newparent newname flags :
  is_real name → safe (spec_rename (L := L) now parent name newparent newname flags).
Proof.
  intros Hr t Ht. unfold spec_rename. case_decide; [by apply wp_throw|].
  apply wp_bind, wp_map_err, wp_lookup_name; [|done]. intros ino Hin _. specialize (Hin Hr).
  apply wp_bind, wp_attempt, wp_map_err, wp_lookup_name.
  - intros dst Hdst _. cbn [res_ok]. case_decide; [by apply wp_throw|]. apply wp_bind.
    eapply wp_mono; [by apply wp_displace| |done]. intros u t1 [Ht1 E1].
    apply wp_move; [done|done|]. rewrite E1.
    destruct (decide ((parent, name) = (newparent, newname))); [by right|left].
    by rewrite lookup_delete_ne.
  - intros e. cbn [res_ok]. case_decide; [by apply wp_throw|]. apply wp_bind, wp_ret, wp_move; [done|done|by left].
Qed.

Lemma safe_readdir ino offset : safe (spec_readdir (L := L) ino offset).
Proof. unfold spec_readdir. repeat safe_step. Qed.
Lemma safe_xattr {A} need (m : M AbsFs MetaError A) :
  (∀ t, ∃ X, (m t).1 = a_set_xattrs X t) → (∀ t, (m t).2 ≠ Panic) → safe (tree need m).
Proof.
  intros Hm Hp t Ht. apply wp_tree. destruct (Hm t) as [X ->]. specialize (Hp t). by destruct ((m t).2).
Qed.

Lemma safe_getxattr ino name : safe (spec_getxattr ino name).
Proof.
  apply safe_map_err, safe_xattr; [intros t; exists (a_xattrs t); by destruct t|intros t; apply ok_or_returns].
Qed.
Lemma safe_listxattr ino : safe (spec_listxattr ino).
Proof.
  unfold spec_listxattr. apply safe_bind; [|intros l; eauto with tree]. apply safe_map_err, safe_xattr; [|done].
  intros t. exists (a_xattrs t). by destruct t.
Qed.
Lemma safe_setxattr ino name value : safe (spec_setxattr (L := L) ino name value).
Proof. apply safe_map_err, safe_xattr; [intros t; by eexists|done]. Qed.
Lemma safe_removexattr ino name : safe (spec_removexattr (L := L) ino name).
Proof.
  apply safe_map_err, safe_xattr; intros t; unfold abs_remove_xattr; destruct (a_xattrs t !! ino) as [xs|]; try done.
  - destruct (remove_xattr_entry xs name) as [xs' []]; cbn; [by eexists|exists (a_xattrs t); by destruct t].
  - exists (a_xattrs t). by destruct t.
  - by destruct (remove_xattr_entry xs name) as [xs' []].
Qed.

(* ------------------------------------------------------------------------ *)
(** ** Any request *)

(** With what the specification needs. *)
Definition keeps_tree {E A} (m : M Needs E A) : Prop :=
  ∀ sp P, tree_ok (sp_tree sp) → (m (sp, P)).1.2 → tree_ok (sp_tree (m (sp, P)).1.1).

Lemma safe_keeps {E A} (m : M Needs E A) : safe m → keeps_tree m.
Proof. intros Hm sp P Ht _. specialize (Hm _ Ht sp P eq_refl). by destruct ((m (sp, P)).2). Qed.
Lemma keeps_tree_handled {E A A'} (m : M Needs E A) (ok : A → A') err : keeps_tree m → keeps_tree (handled m ok err).
Proof. intros Hm sp P Ht. specialize (Hm sp P Ht). unfold handled. by destruct (m (sp, P)) as [? []]. Qed.
Lemma keeps_tree_bind {E A A'} (m : M Needs E A) (k : A → M Needs E A') :
  keeps_tree m → (∀ x, keeps_tree (k x)) → (∀ x, mono (k x)) → keeps_tree (m ≫= k).
Proof.
  intros Hm Hk Hmono sp P Ht. specialize (Hm sp P Ht). rewrite run_bind.
  destruct (m (sp, P)) as [[sp1 P1] [x|e|]]; [|done..]. cbn [fst snd] in *. intros HP.
  apply Hk; [|done]. by apply Hm, (Hmono x sp1 P1).
Qed.

(** The link count has to fit its type. *)
Lemma keeps_tree_link now ino parent name : keeps_tree (spec_link (L := L) now ino parent name).
Proof.
  intros sp P Ht. unfold spec_link. rewrite run_bind.
  assert (map_err meta_error_to_errno (t_get_inode ino) (sp, P) =
          ((sp, P ∧ True), res_map_err meta_error_to_errno (ok_or (a_inodes (sp_tree sp) !! ino) (NotFound ino)))) as ->
    by (unfold map_err, t_get_inode, tree; cbn [fst snd abs_get_inode]; by rewrite sp_set_tree_same).
  destruct (a_inodes (sp_tree sp) !! ino) as [m|] eqn:Hm; [|by intros _]. cbn [ok_or res_map_err].
  case_decide as Hd; [by intros _|]. rewrite run_bind. cbn [require fst snd].
  match goal with |- (?k (_, ?P1)).1.2 → _ => assert (mono k) as Hmono; [|assert (wp k (λ _, tree_ok) tree_ok (sp_tree sp)
    ∨ ¬ im_nlinks m + 1 < 2 ^ 32) as Hwp; [|set (prog := k) in *; set (P' := P1) in *]] end.
  - apply mono_bind; [apply mono_map_err, mono_tree|intros _].
    apply mono_bind; [apply mono_map_err, mono_tree|intros _; apply mono_ret].
  - destruct (decide (im_nlinks m + 1 < 2 ^ 32)) as [Hlt|]; [left|by right].
    apply wp_bind, wp_map_err, wp_link; [|done]. intros t1 Hr Hfree (E1 & E2 & E3 & E4).
    apply wp_bind, wp_map_err, wp_update_inode; cbn [im_ino set_nlinks add_link stamp_ctime set_ctime];
      [|by rewrite E2, (inode_num _ ino m Ht Hm), Hm].
    intros t2 H2. apply wp_ret. rewrite E1, E2, E3, E4, (inode_num _ ino m Ht Hm) in H2.
    apply (looks_ok _ _ _ _ _ H2). apply (view_link _ _ _ _ _ _ m); [done..|by rewrite (is_dir_mode m)|done|].
    change (wrap32 (im_nlinks m + 1) = im_nlinks m + 1). apply Z.mod_small.
    rewrite (vo_files _ _ _ _ Ht ino m Hm Hd) in *. pose proof (links_nonneg (names (sp_tree sp)) ino). lia.
  - intros HP. destruct Hwp as [Hwp|Hn].
    + specialize (Hwp sp P' eq_refl). by destruct ((prog (sp, P')).2).
    + exfalso. apply Hn. by apply (Hmono sp P').
Qed.
End requests.

(** A rename of a real entry: the kernel never passes [.] or [..]. *)
Definition renames_entry (c : KernelCall) : Prop :=
  match kc_request c with ReqRename _ name _ _ _ => is_real name | _ => True end.
#[export] Instance renames_entry_dec c : Decision (renames_entry c).
Proof. unfold renames_entry. destruct (kc_request c); apply _. Defined.

#[export] Hint Resolve safe_release safe_flush safe_write safe_read safe_readlink safe_open safe_setattr
  safe_create_open safe_mknod safe_symlink safe_with_attrs safe_mkdir safe_rmdir safe_unlink safe_rename
  safe_readdir safe_getxattr safe_listxattr safe_setxattr safe_removexattr : tree.

Section serve.
Context {B : Blockset} {L : BlocksetLaws B}.

Lemma safe_name name (k : bytes → M Needs Empty_set Reply) :
  (∀ n, keeps_tree (k n)) → keeps_tree (spec_name name k).
Proof. intros Hk. unfold spec_name. destruct (to_str name); [apply Hk|apply safe_keeps, safe_ret]. Qed.

Lemma safe_name_eq name (k : bytes → M Needs Empty_set Reply) :
  (∀ n, n = name → keeps_tree (k n)) → keeps_tree (spec_name name k).
Proof.
  intros Hk. unfold spec_name. destruct (to_str name) as [n|] eqn:E; [|apply safe_keeps, safe_ret].
  apply Hk. unfold to_str, from_utf8 in E. by destruct (utf8_valid name); simplify_eq.
Qed.

Lemma spec_call_keeps c : renames_entry c → keeps_tree (spec_call (L := L) c).
Proof.
  destruct c as [full now sv sf req]. unfold renames_entry, spec_call.
  cbn [kc_full kc_now kc_statvfs kc_statfs kc_request]. intros Hr.
  destruct req; cbn [spec_serve]; unfold entry_answer, done_answer, io_answer, answer;
    try (repeat (apply safe_name; intros ?); apply safe_keeps; eauto 6 with tree; fail).
  - apply safe_keeps, safe_bind; [eauto with tree|intros n; eauto with tree].
  - apply safe_name. intros n. apply keeps_tree_handled. unfold spec_with_attrs.
    apply keeps_tree_bind; [apply keeps_tree_link|intros i; apply safe_keeps; repeat safe_step|intros i].
    apply mono_bind; [apply mono_map_err, mono_tree|intros m; apply mono_ret].
  - apply safe_name_eq. intros n1 ->. apply safe_name. intros n2. apply safe_keeps, safe_handled, safe_rename, Hr.
Qed.

(** Block lists do not matter. *)
Lemma tree_ok_abs sp : tree_ok (sp_tree sp) → tree_ok (sp_abs sp).
Proof. done. Qed.

Lemma spec_calls_keep cs : Forall renames_entry cs → keeps_tree (spec_calls (L := L) cs).
Proof.
  induction 1 as [|c cs Hc _ IH]; [apply safe_keeps, safe_ret|]. cbn [spec_calls].
  apply keeps_tree_bind; [by apply spec_call_keeps| |].
  - intros rep. apply keeps_tree_bind; [done|intros reps; apply safe_keeps, safe_ret|intros reps; apply mono_ret].
  - intros rep. apply mono_bind; [apply spec_calls_mono|intros reps; apply mono_ret].
Qed.
End serve.

(** A fresh file system. *)
Lemma tree_ok_new uid gid : tree_ok (abs_new uid gid).
Proof.
  assert (names (abs_new uid gid) = ∅) as HN by (vm_compute; reflexivity).
  unfold tree_ok. rewrite HN. clear HN. cbn [a_inodes a_dirs a_next abs_new]. split.
  - apply map_Forall_empty.
  - intros i m [<- <-]%lookup_singleton_Some Hd. exfalso. apply Hd. discriminate.
  - intros i m _ _. rewrite links_none by apply map_Forall_empty. lia.
  - intros i m [<- <-]%lookup_singleton_Some. split; intros _; [|discriminate].
    rewrite dom_singleton_L. by apply elem_of_singleton.
  - intros i m [<- <-]%lookup_singleton_Some. done.
  - intros i. rewrite dom_singleton_L, elem_of_singleton. intros ->. done.
Qed.
