(* ===== verification/SessionRefine.v ===== *)
(** * What a mount leaves behind

    After a session that ends in a clean unmount the directory holds the file system
    as the last request left it, unlocked; mounting a snapshot changes nothing. *)

From S2P Require Import Prelude Types Text Blockset Inode InodeMap Xattr Directory Segment Wal.
From S2P Require Import SegmentDir Store StoreSpec StoreRefine StoreCommit Snapshots Filesystem.
From S2P Require Import Handlers Callbacks Frames Mount Commands MountRefine Session Serving.
From S2P Require Import FsSpec FsSim ServeRefine.
From stdpp Require Import base tactics numbers option list gmap strings.
Open Scope Z_scope.

Section session.
Context {B : Blockset} {L : BlocksetLaws B}.
Implicit Types (s : DictMetadataStore B) (d : StoreDir B) (a : AbsFs) (f : SliceFsFilesystem B).

Lemma serve_calls_served cs : ∀ f0 f f' r, served f0 f → serve_calls cs f = (f', r) → served f0 f'.
Proof.
  induction cs as [|c cs IH]; intros f0 f f' r Hs; cbn [serve_calls].
  { by intros [= <- <-]. }
  rewrite run_bind. destruct (serve_call c f) as [f1 r1] eqn:E1.
  assert (served f0 f1) as Hs1 by by eapply served_snoc.
  destruct r1 as [rep|e|]; [|by intros [= <- <-]..].
  rewrite run_bind. destruct (serve_calls cs f1) as [f2 r2] eqn:E2.
  pose proof (IH _ _ _ _ Hs1 E2) as Hs2. by destruct r2; intros [= <- <-].
Qed.

(** The flag of the automatic snapshot does not change. *)
Lemma set_auto_wal b f : fs_wal (set_auto_snapshot b f) = fs_wal f.
Proof. done. Qed.

(* ------------------------------------------------------------------------ *)
(** ** The end of the session *)

(** A session whose log cannot fail. *)
Definition calm_session (id : Z) (io0 : Io) s a (h : list AbsFs) : Prop :=
  session_inv id io0 s a h 0 ∧ ∀ b, st_wal s = Some b → box_calm b.

Lemma wal_logged_calm e (w : option WalBox) :
  (∀ b, w = Some b → box_calm b) → ∀ b, wal_logged e w = Some b → box_calm b.
Proof.
  intros Hc b. unfold wal_logged. destruct w as [b0|]; [|done]. intros [= <-]. by apply box_log_calm, Hc.
Qed.

Lemma calm_commit id io0 s a h :
  calm_session id io0 s a h → tables_fit s → is_Some (a_inodes a !! 1) →
  Forall admissible (commit_contents s) → calm_session id io0 (commit s).1 a (h ++ [a]).
Proof.
  intros [Hi Hc] Hfit Hroot Hadm. split.
  - by apply session_inv_commit.
  - rewrite commit_run. by apply wal_logged_calm.
Qed.

Lemma calm_snapshot id io0 s a h now name :
  calm_session id io0 s a h → tables_fit s → is_Some (a_inodes a !! 1) →
  Forall admissible (commit_contents s) → is_u64 now → wf_name name →
  calm_session id io0 (create_snapshot now name s).1 a (h ++ [a]).
Proof.
  intros [Hi Hc] Hfit Hroot Hadm Hnow Hname. split.
  - by apply session_inv_snapshot.
  - rewrite create_snapshot_wal. by do 2 apply wal_logged_calm.
Qed.

(** Shutting the log down makes all of it durable. *)
Lemma calm_shutdown id io0 s a h :
  calm_session id io0 s a h →
  ∃ b l, shutdown_wal s = (upd_wal (Some b) s, Ok tt) ∧ box_rep id b l l ∧
         Forall2 (root_holds (st_io s)) (wal_roots l) h.
Proof.
  intros [[Hr Hio (b & dur & l & Hb & Hrep & Hh & _)] Hc].
  unfold shutdown_wal, on_wal. rewrite Hb. destruct (shutdown b) as [b' r] eqn:E.
  pose proof (box_flush_calm b (Hc b Hb)) as [_ Hok]. rewrite <-box_shutdown_flush, E in Hok. cbn in Hok.
  destruct (wal_shutdown_spec (WalLaws := box_laws) _ _ _ _ _ _ Hrep E) as (_ & d' & Hrep' & _ & Hd).
  subst r. rewrite Hd in Hrep' by done. by exists b', l.
Qed.

(** [destroy] commits the file system and closes the log, with a snapshot if asked
    for. *)
Lemma destroy_spec id io0 now f a :
  calm_session id io0 (fs_meta f) a [] → tables_fit (fs_meta f) → is_Some (a_inodes a !! 1) →
  Forall admissible (commit_contents (fs_meta f)) → is_u64 now.1 →
  ∃ s' b l h, serve_destroy now f = (upd_meta s' f, Ok tt) ∧ st_wal s' = Some b ∧
    box_rep id b l l ∧ Forall2 (root_holds (st_io s')) (wal_roots l) h ∧ last h = Some a ∧
    healthy (st_io s') ∧ io0 ⊑ᵢ st_io s'.
Proof.
  intros Hs Hfit Hroot Hadm Hnow. pose proof (calm_commit _ _ _ _ _ Hs Hfit Hroot Hadm) as H1.
  set (s1 := (commit (fs_meta f)).1) in *.
  assert (commit (fs_meta f) = (s1, Ok (commit_digest (fs_meta f)))) as Ec
    by (unfold s1; by rewrite commit_run).
  assert (tables_fit s1 ∧ Forall admissible (commit_contents s1)) as [Hfit1 Hadm1].
  { unfold s1. rewrite commit_run. split; [destruct Hfit; by split|exact Hadm]. }
  unfold serve_destroy, test_destroy. rewrite !run_bind. unfold attempt at 1, zoom at 1. rewrite Ec.
  rewrite run_bind. cbn [gets]. rewrite run_bind.
  destruct (fs_auto_snapshot _) eqn:Ea.
  - pose proof (calm_snapshot id io0 s1 a _ now.1 (Some (str "auto-unmount")) H1 Hfit1 Hroot Hadm1 Hnow) as H2.
    specialize (H2 ltac:(done)).
    destruct (create_snapshot_state now.1 (Some (str "auto-unmount")) s1) as (s2 & Es & _).
    rewrite Es in H2. cbn [fst] in H2.
    rewrite run_bind. unfold attempt at 1, zoom at 1. cbn [upd_meta fs_meta]. rewrite Es. cbn [mret M_ret].
    destruct (calm_shutdown _ _ _ _ _ H2) as (b & l & Hsd & Hrep & Hh).
    rewrite run_bind. unfold attempt, zoom. cbn [upd_meta fs_meta]. rewrite Hsd.
    eexists _, b, l, _. split; [reflexivity|]. split_and!; [done|done|exact Hh|by rewrite last_snoc|..].
    + apply (rep_io _ _ (si_rep _ _ _ _ _ _ (proj1 H2))).
    + apply (si_io _ _ _ _ _ _ (proj1 H2)).
  - destruct (calm_shutdown _ _ _ _ _ H1) as (b & l & Hsd & Hrep & Hh).
    cbn [mret M_ret]. rewrite run_bind. unfold attempt, zoom. cbn [upd_meta fs_meta]. rewrite Hsd.
    eexists _, b, l, _. split; [reflexivity|]. split_and!; [done|done|exact Hh|by rewrite last_snoc|..].
    + apply (rep_io _ _ (si_rep _ _ _ _ _ _ (proj1 H1))).
    + apply (si_io _ _ _ _ _ _ (proj1 H1)).
Qed.

(* ------------------------------------------------------------------------ *)
(** ** The directory afterwards *)

Lemma Forall2_last_holds (io : Io) rs h a :
  Forall2 (root_holds io) rs h → last h = Some a → ∃ r, last rs = Some r ∧ root_holds io r a.
Proof.
  intros Hh Ha. destruct h as [|a' h _] using rev_ind; [done|]. rewrite last_snoc in Ha. injection Ha as ->.
  apply Forall2_app_inv_r in Hh as (rs1 & rs2 & H1 & H2 & ->).
  apply Forall2_cons_inv_r in H2 as (r & rs3 & Hr & ->%Forall2_nil_inv_r & ->).
  exists r. by rewrite last_snoc.
Qed.

(** The log of a session that ended after all others. *)
Lemma end_session_log config id w (io : Io) d segs m es ws :
  config ≠ CfgNoWal → dir_rep segs m → numbered_log m = Ok es → map_Forall (λ k _, k < id) m →
  seg_number id → recovered (wal_file w) = Ok ws → sd_dictionary_bin d = false →
  sd_segments d = Some (open_segment config id segs) →
  dir_log (end_session config id w io d) (<[id := wal_file w]> m) (es ++ ws).
Proof.
  intros Hc Hrep Hlog Hlt Hnum Hrec Hfmt Hsegs.
  destruct (dir_rep_last segs m es id _ _ Hrep Hlog Hlt Hnum Hrec) as [Hrep' Hlog'].
  split; [exact Hfmt| |exact Hlog']. eexists. split; [reflexivity|]. rewrite Hsegs. cbn [default from_option].
  by destruct config; cbn; rewrite ?insert_insert_eq.
Qed.

Lemma load_store_dir config faults d d1 s0 a0 :
  dir_holds d a0 → load_store config faults d = (d1, Ok s0) →
  ∃ segs m es r, sd_segments d = Some segs ∧ dir_rep segs m ∧ numbered_log m = Ok es ∧
    log_root es = Some r ∧ root_holds (sd_io d) r a0 ∧
    d1 = mkStoreDir B false true (Some (open_segment config (next_segment_id (Some segs)) segs)) (sd_io d) ∧
    st_io s0 = sd_io d ∧ st_wal s0 = Some (create_wal config (next_segment_id (Some segs)) faults).
Proof.
  intros (m & es & r & Hlog & Hr & Hh & Hroot) Hload.
  destruct (load_store_run config faults d m es r a0) as (segs & s1 & Hsegs & Hrep & Hl & _ & Hio & Hw & _);
    [done..|].
  rewrite Hl in Hload. injection Hload as <- ->. exists segs, m, es, r.
  split_and!; try done. apply Hlog.
Qed.

(** A clean unmount leaves the file system as it was served. *)
Lemma run_mount_clean mountpoint table config faults noatime allow_other auto calls now d d1 a0 s0 f
    replies a :
  mountpoint_in_use mountpoint table = false →
  dir_holds d a0 → config ≠ CfgNoWal → seg_number (next_segment_id (sd_segments d)) → calm faults →
  load_store config faults d = (d1, Ok s0) →
  serve_calls calls (set_auto_snapshot auto (fs_new s0)) = (f, Ok replies) →
  store_rep (fs_meta f) a → tables_fit (fs_meta f) → is_Some (a_inodes a !! 1) →
  Forall admissible (commit_contents (fs_meta f)) → is_u64 now.1 →
  ∃ d', run_mount mountpoint table config faults None noatime allow_other auto None calls now d = (d', Ok replies) ∧
        dir_holds d' a ∧ sd_mount_lock d' = false ∧ st_io (fs_meta f) ⊑ᵢ sd_io d'.
Proof.
  intros Hmp Hd Hc Hnum Hcalm Hload Hcalls Hrep Hfit Hroot Hadm Hnow.
  destruct (load_store_dir _ _ _ _ _ _ Hd Hload)
    as (segs & m & es & r & Hsegs & Hdir & Hlog & Hr & _ & Hd1 & _ & Hw).
  rewrite Hsegs in *. destruct (next_segment_id_above segs m Hdir) as [Hlt _].
  set (id := next_segment_id (Some segs)) in *.
  pose proof (serve_calls_served _ _ _ _ _ (served_nil _) Hcalls) as Hserved.
  destruct (served_logs_nothing _ _ id _ [] [] Hserved Hw (create_wal_rep _ _ _ Hc))
    as (b & dur & Hb & Hbox & Hbc).
  assert (calm_session id (st_io (fs_meta f)) (fs_meta f) a []) as Hs.
  { split; [split; [done|done|]|].
    - exists b, dur, []. split_and!; [exact Hb|exact Hbox|constructor|cbn; lia].
    - intros b' Hb'. unfold fs_wal in Hb. rewrite Hb in Hb'. injection Hb' as <-. by apply Hbc, create_wal_calm. }
  destruct (destroy_spec id _ now f a Hs Hfit Hroot Hadm Hnow) as (s' & b' & l & h & Hdes & Hw' & Hrep' & Hh & Hlast & Hio & Hle).
  assert (recovered (wal_file (st_wal s')) = Ok (wal_entry_to_segment <$> l)) as Hrec.
  { rewrite Hw'. apply (box_rep_file id); [unfold seg_number, is_u64 in *; lia|done]. }
  destruct (Forall2_last_holds _ _ _ _ Hh Hlast) as (r' & Hr' & Hholds).
  exists (end_session config id (st_wal s') (st_io s') d1). split_and!; [| |done|exact Hle].
  - unfold run_mount. rewrite Hmp, run_bind. cbn [gets]. rewrite Hsegs. fold id.
    rewrite run_bind. unfold map_err. rewrite Hload. cbn [res_map_err].
    unfold run_session, choose_store. rewrite Hcalls, Hdes. done.
  - eexists _, _, r'. split_and!; [|rewrite log_root_app; unfold log_root|exact Hio|exact Hholds].
    + apply (end_session_log config id _ _ _ segs m es); try done; by subst d1.
    + change (omap entry_root (wal_entry_to_segment <$> l)) with (wal_roots l). by rewrite Hr'.
Qed.

(** What a directory holds as a state of the specification, and that state when it is
    mounted: no handle is open. *)
Definition on_disk d (sp : SpecFs) : Prop :=
  dir_holds d (sp_abs sp) ∧
  map_Forall (λ _ c, from_option (stored (sd_io d)) True c) (sp_contents sp).
Definition mounted (sp : SpecFs) : SpecFs := mkSpec (sp_tree sp) (sp_contents sp) ∅ 0.

Lemma stored_contents_mono (io io' : Io) (C : gmap Z (option bytes)) :
  io ⊑ᵢ io' → map_Forall (λ _ c, from_option (stored io) True c) C →
  map_Forall (λ _ c, from_option (stored io') True c) C.
Proof. intros Hle HC. eapply map_Forall_impl; [exact HC|]. intros k [bs|]; [by apply stored_mono|done]. Qed.

Lemma mounted_rep config faults auto d d1 s0 sp :
  on_disk d sp → load_store config faults d = (d1, Ok s0) → calm faults →
  fs_rep (set_auto_snapshot auto (fs_new s0)) (mounted sp) ∧
  log_calm (set_auto_snapshot auto (fs_new s0)).
Proof.
  intros [(m & es & r & Hlog & Hr & Hh & Hroot) HC] Hload Hcalm.
  destruct (load_store_run config faults d m es r _ Hlog Hr Hh Hroot)
    as (segs & s1 & _ & _ & Hl & Hs & Hio & Hw & _).
  rewrite Hl in Hload. injection Hload as _ ->. split.
  - split; [exact Hs| | |done].
    + cbn [fs_meta set_auto_snapshot fs_new]. by rewrite Hio.
    + apply map_Forall2_empty.
  - intros b. unfold fs_wal. cbn [fs_meta set_auto_snapshot fs_new]. rewrite Hw. intros [= <-].
    by apply create_wal_calm.
Qed.

(** A whole session follows the specification. *)
Lemma run_mount_spec mountpoint table config faults noatime allow_other auto calls now d d1 s0
    sp sp' (P : Prop) replies :
  mountpoint_in_use mountpoint table = false →
  on_disk d sp → config ≠ CfgNoWal → seg_number (next_segment_id (sd_segments d)) → calm faults →
  load_store config faults d = (d1, Ok s0) →
  spec_calls calls (mounted sp, True) = ((sp', P), Ok replies) → P → is_Some (a_inodes (sp_tree sp') !! 1) →
  (let s := fs_meta (serve_calls calls (set_auto_snapshot auto (fs_new s0))).1 in
   tables_fit s ∧ Forall admissible (commit_contents s)) → is_u64 now.1 →
  ∃ d', run_mount mountpoint table config faults None noatime allow_other auto None calls now d = (d', Ok replies) ∧
        on_disk d' sp' ∧ sd_mount_lock d' = false.
Proof.
  intros Hmp Hd Hc Hnum Hcalm Hload Hspec HP Hroot [Hfit Hadm] Hnow.
  destruct (mounted_rep config faults auto d d1 s0 sp Hd Hload Hcalm) as [Hrep Hlc].
  destruct (serve_calls_spec calls _ _ True Hrep Hlc) as (Hres & Hrep' & _ & _); [by rewrite Hspec|].
  rewrite Hspec in Hres, Hrep'. cbn [fst snd] in *.
  destruct (serve_calls calls (set_auto_snapshot auto (fs_new s0))) as [f r] eqn:Ef. cbn [fst snd] in *. subst r.
  destruct (run_mount_clean mountpoint table config faults noatime allow_other auto calls now d d1 (sp_abs sp) s0
              f replies (sp_abs sp')) as (d' & Hrun & Hd' & Hl & Hle); try done; [apply Hd|apply Hrep'|].
  exists d'. split_and!; [done|split; [done|]|done]. eapply stored_contents_mono; [exact Hle|apply Hrep'].
Qed.
End session.
