(* ===== verification/Lifetime.v ===== *)
(** * The life of a store

    A store directory from one invocation of [slicefs] to the next: mounts of the current
    file system or of a snapshot that end in an unmount, mounts that are killed while they
    serve or while they unmount, the snapshot and collector commands, scrubs and statistics.
    [real_run] composes the commands of [Session] and [Commands]; [spec_step] says
    what they do to a [Life]: the current file system, the saved ones and the lock.  The
    invariant [store_holds] relates the two. *)

From S2P Require Import Prelude Types Text Blockset Inode InodeMap Xattr Directory Segment Wal.
From S2P Require Import SegmentDir Gc Store StoreSpec StoreRefine StoreCommit Snapshots Filesystem.
From S2P Require Import Handlers Callbacks Frames Mount Commands MountRefine CommandsRefine Session Serving.
From S2P Require Import FsSpec FsSim ServeRefine SessionRefine.
From stdpp Require Import base tactics numbers option list gmap strings.
Open Scope Z_scope.

#[export] Instance WalConfig_eq_dec : EqDecision WalConfig.
Proof. solve_decision. Defined.

(** The arguments of [slicefs mount] with what the kernel then asks for. *)
Record MountArgs := mkMountArgs {
  ma_mountpoint : bytes;
  ma_table : list bytes;
  ma_config : WalConfig;
  ma_faults : list bool;
  ma_snapshot : option bytes;
  ma_noatime : bool;
  ma_allow_other : bool;
  ma_auto_snapshot : bool;
  ma_fuse : option IoError;
  ma_calls : list KernelCall;
  ma_now : Z * Z
}.

(** Where a mount of the current file system with a log is killed: while it serves requests,
    or in [destroy] after the commit or after the snapshot.  With no requests the first is
    the end of loading. *)
Inductive KillPoint := KillServing | KillCommitted | KillSnapshot.

Inductive Event {B : Blockset} :=
  | EvMount (a : MountArgs)
  | EvKilled (a : MountArgs) (p : KillPoint) (file : bytes) (io : Io)
  | EvCreate (now : Z) (name : option bytes) (faults : list bool)
  | EvSwitch (now : Z) (reference : bytes) (faults : list bool)
  | EvGc (listing : list bytes)
  | EvScrub
  | EvStats (vt0 host : list HostEntry).
Arguments Event : clear implicits.

Inductive Outcome :=
  | OutReplies (r : res MountError (list Reply))
  | OutCreated (r : res CmdError SnapshotEntry)
  | OutSwitched (r : res CmdError (SnapshotEntry * SnapshotEntry))
  | OutCollected (r : res GcCmdError unit)
  | OutScrubbed (r : res CmdError bool)
  | OutStats (r : res CmdError Z).

(* ------------------------------------------------------------------------ *)
(** ** The program *)

Section real.
Context {B : Blockset}.
Implicit Types (d : StoreDir B) (f : SliceFsFilesystem B).

Definition auto_unmount : bytes := str "auto-unmount".
Definition auto_before_switch : bytes := str "auto-before-switch".

(** The store when the process is killed. *)
Definition kill_store (p : KillPoint) (now : Z * Z) f : DictMetadataStore B :=
  match p with
  | KillServing => fs_meta f
  | KillCommitted => (commit (fs_meta f)).1
  | KillSnapshot => (create_snapshot now.1 (Some auto_unmount) (commit (fs_meta f)).1).1
  end.

(** What [slicefs mount] has served. *)
Definition serve_mount (a : MountArgs) (meta : DictMetadataStore B)
    : SliceFsFilesystem B * res Empty_set (list Reply) :=
  serve_calls (ma_calls a) (set_auto_snapshot (ma_auto_snapshot a) (fs_new meta)).

(** The directory after an event, and what the user sees of it. *)
Definition real_run (ev : Event B) d : StoreDir B * Outcome :=
  match ev with
  | EvMount a =>
      let '(d, r) := run_mount (ma_mountpoint a) (ma_table a) (ma_config a) (ma_faults a) (ma_snapshot a)
                       (ma_noatime a) (ma_allow_other a) (ma_auto_snapshot a) (ma_fuse a) (ma_calls a)
                       (ma_now a) d in
      (d, OutReplies r)
  | EvKilled a p file io =>
      match load_store (ma_config a) (ma_faults a) d with
      | (d1, Ok meta) =>
          (crash (next_segment_id (sd_segments d)) file io d1,
           OutReplies (match (serve_mount a meta).2 with Ok replies => Ok replies | _ => Panic end))
      | (d1, Err e) => (d1, OutReplies (Err (MountLoad e)))
      | (d1, Panic) => (d1, OutReplies Panic)
      end
  | EvCreate now name faults =>
      let '(d, r) := run_snapshot_create now name faults d in (d, OutCreated r)
  | EvSwitch now reference faults =>
      let '(d, r) := run_snapshot_switch now reference faults d in (d, OutSwitched r)
  | EvGc listing =>
      let '(d, r) := run_gc_command listing [] d in (d, OutCollected ((λ _, tt) <$> r))
  | EvScrub => (d, OutScrubbed (scrub_clean <$> run_scrub d))
  | EvStats vt0 host => (d, OutStats (ts_logical_bytes <$> run_stats vt0 host d))
  end.

Fixpoint real_runs (evs : list (Event B)) d : StoreDir B * list Outcome :=
  match evs with
  | [] => (d, [])
  | ev :: evs =>
      let '(d1, out) := real_run ev d in
      let '(d2, outs) := real_runs evs d1 in (d2, out :: outs)
  end.
End real.

(* ------------------------------------------------------------------------ *)
(** ** The specification *)

(** The current file system, the snapshots with the file systems they saved, the names
    of snapshots, and whether a killed mount has left its lock. *)
Record Life := mkLife {
  lf_fs : SpecFs;
  lf_saved : gmap Z (SnapshotEntry * SpecFs);
  lf_names : gmap bytes Z;
  lf_locked : bool
}.

Definition set_fs (sp : SpecFs) (l : Life) : Life := mkLife sp (lf_saved l) (lf_names l) (lf_locked l).
Definition set_locked (b : bool) (l : Life) : Life := mkLife (lf_fs l) (lf_saved l) (lf_names l) b.
Definition save (e : SnapshotEntry) (sp : SpecFs) (l : Life) : Life :=
  mkLife (lf_fs l) (<[sn_version e := (e, sp)]> (lf_saved l))
    (match sn_name e with Some n => <[n := sn_version e]> (lf_names l) | None => lf_names l end)
    (lf_locked l).

(** A reference is a version if it is a number, and else a name. *)
Definition life_find (reference : bytes) (l : Life) : option (SnapshotEntry * SpecFs) :=
  match parse_u64 reference with
  | Some version => lf_saved l !! version
  | None => version ← lf_names l !! reference; lf_saved l !! version
  end.

(** The entry of a new snapshot: the next version, the name and the time. *)
Definition new_entry (now : Z) (name : option bytes) (e : SnapshotEntry) (l : Life) : Prop :=
  sn_version e = wrap64 (max_version (fst <$> lf_saved l) + 1) ∧ sn_name e = name ∧ sn_created_at e = now.

(** What [k] entries of the log of [destroy] make of a life: the commit, the commit of
    the snapshot, and its record. *)
Definition committed (k : nat) (sp : SpecFs) (e : SnapshotEntry) (l : Life) : Life :=
  match k with
  | O => l
  | 1%nat | 2%nat => set_fs sp l
  | _ => save e sp (set_fs sp l)
  end.

Definition unmount_entries (config : WalConfig) (auto : bool) : nat :=
  match config with CfgNoWal => 0%nat | _ => if auto then 3%nat else 1%nat end.
Definition kill_entries (p : KillPoint) : nat :=
  match p with KillServing => 0%nat | KillCommitted => 1%nat | KillSnapshot => 3%nat end.

Section spec.
Context {B : Blockset} {L : BlocksetLaws B}.

Definition spec_served (calls : list KernelCall) (sp sp' : SpecFs) (replies : list Reply) : Prop :=
  ∃ P, spec_calls calls (mounted sp, True) = ((sp', P), Ok replies).

Inductive spec_step (l : Life) : Event B → Outcome → Life → Prop :=
  (** A mount of the current file system that is unmounted at the end: the replies are
      those of the file system, and all it did is kept, unless there is no log. *)
  | spec_mount a sp' e replies :
      mountpoint_in_use (ma_mountpoint a) (ma_table a) = false → ma_snapshot a = None → ma_fuse a = None →
      spec_served (ma_calls a) (lf_fs l) sp' replies → new_entry (ma_now a).1 (Some auto_unmount) e l →
      spec_step l (EvMount a) (OutReplies (Ok replies))
        (set_locked false (committed (unmount_entries (ma_config a) (ma_auto_snapshot a)) sp' e l))
  (** A mount of a snapshot: it is served, and nothing changes. *)
  | spec_mount_snapshot a reference x sp' replies :
      mountpoint_in_use (ma_mountpoint a) (ma_table a) = false → ma_snapshot a = Some reference →
      life_find reference l = Some x → ma_fuse a = None → spec_served (ma_calls a) x.2 sp' replies →
      spec_step l (EvMount a) (OutReplies (Ok replies)) (set_locked false l)
  | spec_mount_unknown a reference :
      mountpoint_in_use (ma_mountpoint a) (ma_table a) = false → ma_snapshot a = Some reference →
      life_find reference l = None →
      spec_step l (EvMount a) (OutReplies (Err (MountNoSnapshot reference))) (set_locked false l)
  (** A session that cannot be opened: nothing is served, and nothing changes. *)
  | spec_mount_refused a e :
      mountpoint_in_use (ma_mountpoint a) (ma_table a) = false → ma_fuse a = Some e →
      (∀ reference, ma_snapshot a = Some reference → is_Some (life_find reference l)) →
      spec_step l (EvMount a) (OutReplies (Err (MountFuse e))) (set_locked false l)
  | spec_mount_in_use a :
      mountpoint_in_use (ma_mountpoint a) (ma_table a) = true →
      spec_step l (EvMount a) (OutReplies (Err MountpointInUse)) l
  (** A mount that is killed: either nothing is kept or all that was done, never a part. *)
  | spec_killed a p file io sp' e k replies :
      spec_served (ma_calls a) (lf_fs l) sp' replies → new_entry (ma_now a).1 (Some auto_unmount) e l →
      (k ≤ kill_entries p)%nat →
      spec_step l (EvKilled a p file io) (OutReplies (Ok replies)) (set_locked true (committed k sp' e l))
  (** Commands are refused while the lock is there. *)
  | spec_create_locked now name faults :
      lf_locked l = true → spec_step l (EvCreate now name faults) (OutCreated (Err CmdMounted)) l
  | spec_create now name faults e r :
      lf_locked l = false → new_entry now name e l → outcome faults e r →
      spec_step l (EvCreate now name faults) (OutCreated r) (save e (lf_fs l) l)
  | spec_switch_locked now reference faults :
      lf_locked l = true → spec_step l (EvSwitch now reference faults) (OutSwitched (Err CmdMounted)) l
  (** A switch saves the current file system and makes the saved one current. *)
  | spec_switch now reference faults x e r :
      lf_locked l = false → life_find reference l = Some x →
      new_entry now (Some auto_before_switch) e l → outcome faults (x.1, e) r →
      spec_step l (EvSwitch now reference faults) (OutSwitched r) (set_fs x.2 (save e (lf_fs l) l))
  | spec_switch_unknown now reference faults :
      lf_locked l = false → life_find reference l = None →
      spec_step l (EvSwitch now reference faults) (OutSwitched (Err (CmdSnapshotNotFound reference))) l
  | spec_gc_locked listing :
      lf_locked l = true → spec_step l (EvGc listing) (OutCollected (Err StoreMounted)) l
  | spec_gc listing : lf_locked l = false → spec_step l (EvGc listing) (OutCollected (Ok tt)) l
  | spec_scrub : spec_step l EvScrub (OutScrubbed (Ok true)) l
  | spec_stats vt0 host :
      spec_step l (EvStats vt0 host) (OutStats (Ok (total_size (a_inodes (sp_tree (lf_fs l)))))) l.

Inductive spec_steps : Life → list (Event B) → list Outcome → Life → Prop :=
  | spec_done l : spec_steps l [] [] l
  | spec_more l ev out l1 evs outs l2 :
      spec_step l ev out l1 → spec_steps l1 evs outs l2 → spec_steps l (ev :: evs) (out :: outs) l2.
End spec.

(* ------------------------------------------------------------------------ *)
(** ** What the directory keeps of a life *)

Section keeps.
Context {B : Blockset} {L : BlocksetLaws B}.
Implicit Types (d : StoreDir B) (f : SliceFsFilesystem B) (l : Life) (sp : SpecFs) (io : @Io B).

(** The root [r] loads the file system [sp], and the contents of its files are stored. *)
Definition root_keeps io (r : Digest224) sp : Prop :=
  wf_digest r ∧ root_holds io r (sp_abs sp) ∧
  map_Forall (λ _ c, from_option (stored io) True c) (sp_contents sp).

(** The log [es] with the content store [io] describes the life [l]. *)
Record log_keeps io (es : list SegmentEntry) l : Prop := {
  lk_root : ∃ r, log_root es = Some r ∧ root_keeps io r (lf_fs l);
  lk_versions : index_versions (log_snapshots es) = fst <$> lf_saved l;
  lk_names : index_names (log_snapshots es) = lf_names l;
  lk_saved : map_Forall (λ _ x, root_keeps io (sn_root x.1) x.2) (lf_saved l);
  lk_all : Forall (λ e, ∃ sp, root_keeps io (sn_root e) sp) (log_snapshots es)
}.

Definition store_holds d l : Prop :=
  ∃ m es, dir_log d m es ∧ healthy (sd_io d) ∧ sd_mount_lock d = lf_locked l ∧ log_keeps (sd_io d) es l.

Lemma root_keeps_mono io io' r sp : io ⊑ᵢ io' → root_keeps io r sp → root_keeps io' r sp.
Proof.
  intros Hle (Hw & Hr & Hc). split_and!; [done|by eapply root_holds_mono|by eapply stored_contents_mono].
Qed.

Lemma log_keeps_mono io io' es l : io ⊑ᵢ io' → log_keeps io es l → log_keeps io' es l.
Proof.
  intros Hle [(r & Hr & Hk) Hv Hn Hs Ha]. split; [|done|done|..].
  - exists r. split; [done|]. by eapply root_keeps_mono.
  - eapply map_Forall_impl; [exact Hs|]. intros v x. by apply root_keeps_mono.
  - eapply Forall_impl; [exact Ha|]. intros e [sp Hsp]. exists sp. by eapply root_keeps_mono.
Qed.

(** The lock is not in the log. *)
Lemma log_keeps_locked io es l b : log_keeps io es (set_locked b l) ↔ log_keeps io es l.
Proof. split; intros []; by split. Qed.

Lemma log_snapshots_app es es' : log_snapshots (es ++ es') = log_snapshots es ++ log_snapshots es'.
Proof. apply omap_app. Qed.

(** A new root makes another file system current. *)
Lemma log_keeps_root io es l r sp :
  log_keeps io es l → root_keeps io r sp → log_keeps io (es ++ [RootUpdate r]) (set_fs sp l).
Proof.
  intros [_ Hv Hn Hs Ha] Hr. split; rewrite ?log_snapshots_app, ?app_nil_r; try done.
  exists r. by rewrite log_root_app.
Qed.

(** A snapshot record saves one. *)
Lemma log_keeps_save io es l e sp :
  log_keeps io es l → root_keeps io (sn_root e) sp →
  log_keeps io (es ++ [SnapshotRecord (sn_version e) (sn_root e) (sn_created_at e) (sn_name e)]) (save e sp l).
Proof.
  intros [(r & Hr & Hk) Hv Hn Hs Ha] He.
  assert (log_snapshots (es ++ [SnapshotRecord (sn_version e) (sn_root e) (sn_created_at e) (sn_name e)]) =
          log_snapshots es ++ [e]) as Hl by (rewrite log_snapshots_app; by destruct e).
  split; rewrite ?Hl.
  - exists r. by rewrite log_root_app.
  - rewrite index_versions_snoc, Hv. cbn. by rewrite fmap_insert.
  - by rewrite index_names_snoc, Hn.
  - by apply map_Forall_insert_2.
  - apply Forall_app. split; [done|]. constructor; [by exists sp|constructor].
Qed.

(** A log that was copied describes the same life. *)
Lemma log_keeps_twice io es l : log_keeps io es l → log_keeps io (es ++ es) l.
Proof.
  intros [(r & Hr & Hk) Hv Hn Hs Ha]. split; [| | |done|].
  - exists r. by rewrite log_root_twice.
  - rewrite <-Hv, log_snapshots_app. unfold index_versions. by rewrite fmap_app, insert_all_twice.
  - rewrite <-Hn, log_snapshots_app. unfold index_names. by rewrite omap_app, insert_all_twice.
  - rewrite log_snapshots_app. by apply Forall_app.
Qed.

Lemma store_holds_disk d l : store_holds d l → on_disk d (lf_fs l).
Proof.
  intros (m & es & Hlog & Hh & _ & [(r & Hr & _ & Hk & Hc) _ _ _ _]). split; [|done].
  by exists m, es, r.
Qed.

(** A reference means the same snapshot in the store and in the specification. *)
Lemma find_snapshot_life (s : DictMetadataStore B) es io l reference :
  snapshots_of s (log_snapshots es) → log_keeps io es l →
  find_snapshot reference s = fst <$> life_find reference l.
Proof.
  intros [Hv Hn] []. unfold find_snapshot, life_find. rewrite Hv, Hn, lk_versions0, lk_names0.
  destruct (parse_u64 reference) as [v|]; [by rewrite lookup_fmap|].
  destruct (lf_names l !! reference) as [v|]; [|done]. cbn. by rewrite lookup_fmap.
Qed.

Lemma life_find_saved l reference x io es :
  life_find reference l = Some x → log_keeps io es l → root_keeps io (sn_root x.1) x.2.
Proof.
  unfold life_find. intros Hf [_ _ _ Hs _]. destruct (parse_u64 reference) as [v|]; [by eapply Hs|].
  destruct (lf_names l !! reference) as [v|]; [|done]. by eapply Hs.
Qed.
End keeps.

(* ------------------------------------------------------------------------ *)
(** ** The log of an unmount *)

Section unmount_log.
Context {B : Blockset} {L : BlocksetLaws B}.
Implicit Types (d : StoreDir B) (f : SliceFsFilesystem B) (s : DictMetadataStore B) (a : AbsFs).

(** The snapshots of the store and the wish for one at the end stay what they were. *)
Definition kept f := (st_by_version (fs_meta f), st_by_name (fs_meta f), fs_auto_snapshot f).

Lemma fs_frame_kept f f' : fs_frame f' = fs_frame f → kept f' = kept f.
Proof. unfold fs_frame, st_frame, kept. by intros [= _ -> -> ->]. Qed.

Lemma fsync_kept now ino fh f : kept (test_fsync now ino fh f).1 = kept f.
Proof.
  unfold test_fsync. apply (keeps_bind kept).
  - intros f'. by apply fs_frame_kept, flush_buffer_keeps.
  - intros []. apply keeps_map_err. intros f'. unfold zoom, flush_wal, on_wal.
    destruct (st_wal (fs_meta f')) as [b|]; [by destruct (flush_and_sync b)|done].
Qed.

Lemma served_kept f f' : served f f' → kept f' = kept f.
Proof.
  induction 1 as [|f' full now sv sf req f'' rep _ <- Hreq]; [done|].
  destruct (is_fsync req) eqn:Ef.
  - destruct req; try discriminate Ef. pose proof (fsync_kept now ino fh f') as Hk.
    cbn [serve] in Hreq. unfold fuse_fsync in Hreq. rewrite run_bind in Hreq.
    unfold handle_fsync, handled in Hreq. destruct (test_fsync now ino fh f') as [f2 r2].
    by destruct r2 as [[]|e|]; injection Hreq as <- _.
  - apply fs_frame_kept. pose proof (serve_keeps full now sv sf req Ef f') as Hk. by rewrite Hreq in Hk.
Qed.

(** The entry of the snapshot that the unmount takes. *)
Definition unmount_entry (now : Z * Z) f : SnapshotEntry :=
  mkSnapshot (wrap64 (max_version (st_by_version (fs_meta f)) + 1)) (Some auto_unmount)
    (commit_digest (commit (fs_meta f)).1) now.1.

(** What has been logged when the process is killed. *)
Definition kill_log (p : KillPoint) (now : Z * Z) f : list WalEntry :=
  let e := unmount_entry now f in
  take (kill_entries p)
    [WalRootUpdate (commit_digest (fs_meta f)); WalRootUpdate (sn_root e);
     WalSnapshot (sn_version e) (sn_root e) now.1 (Some auto_unmount)].

(** The log file when the process is killed: what was synced, and any part of the rest
    that is waiting to be written. *)
Definition kill_image (b : WalBox) (file : bytes) : Prop :=
  ∃ k, (length (sw_synced (box_writer b)) ≤ k)%nat ∧ file = take k (wal_file (Some (shutdown b).1)).

Lemma sync_file w w' r : sync_writer w = (w', r) → sw_synced w' ++ sw_pending w' = sw_synced w ++ sw_pending w.
Proof.
  unfold sync_writer, segment_sync. destruct (sw_faults w) as [|[] fs]; intros [= <- _]; cbn; [|done|];
    by rewrite app_nil_r.
Qed.

Lemma drain_synced buf w : sw_synced (drain_buffer buf w) = sw_synced w.
Proof.
  unfold drain_buffer. revert w. induction buf as [|e buf IH]; intros w; [done|]. cbn [foldl]. by rewrite IH.
Qed.

(** A buffered log whose buffer is being written. *)
Lemma buffered_killed id w buf dur l k w' r :
  is_u64 id → buffered_rep id w buf dur l → sync_writer (drain_buffer buf w) = (w', r) →
  (length (sw_synced w) ≤ k)%nat →
  ∃ es, recovered (take k (sw_synced w' ++ sw_pending w')) = Ok (wal_entry_to_segment <$> es) ∧
        dur `prefix_of` es ∧ es `prefix_of` l.
Proof.
  intros Hid (p & -> & Hw & Hbuf) Hs Hk. apply (writer_rep_crash id (drain_buffer buf w)); [done| |].
  - by apply writer_rep_drain.
  - exists k. split; [by rewrite drain_synced|]. by rewrite (sync_file _ _ _ Hs).
Qed.

Lemma kill_image_spec id b dur l file :
  is_u64 id → box_rep id b dur l → kill_image b file →
  ∃ es, recovered file = Ok (wal_entry_to_segment <$> es) ∧ dur `prefix_of` es ∧ es `prefix_of` l.
Proof.
  intros Hid Hrep (k & Hk & ->). destruct b as [w|w|w|w]; [..|done]; cbn in Hrep, Hk |- *.
  - destruct Hrep as (p & -> & Hw). unfold per_op_sync, zoom.
    destruct (sync_writer (po_writer w)) as [w' r] eqn:E. cbn.
    apply (writer_rep_crash id (po_writer w)); [done|done|]. exists k. split; [done|].
    by rewrite (sync_file _ _ _ E).
  - unfold flush_on_fsync_flush, zoom. rewrite run_bind. cbn [modify fl_writer].
    destruct (sync_writer _) as [w' r] eqn:E. cbn. by eapply buffered_killed.
  - unfold periodic_flush, zoom. rewrite run_bind. cbn [modify pe_writer].
    destruct (sync_writer _) as [w' r] eqn:E. cbn. by eapply buffered_killed.
Qed.

(** An unmount leaves all of it in the file, whether or not the sync succeeds. *)
Lemma shutdown_file id b dur l :
  is_u64 id → box_rep id b dur l →
  recovered (wal_file (Some (shutdown b).1)) = Ok (wal_entry_to_segment <$> l) ∧ (shutdown b).2 ≠ Panic.
Proof.
  intros Hid Hrep. destruct (shutdown b) as [b' r] eqn:E.
  destruct (wal_shutdown_spec (WalLaws := box_laws) _ _ _ _ _ _ Hrep E) as (Hr & dur' & Hrep' & _).
  split; [|done]. destruct b as [w|w|w|w]; [..|done]; cbn in Hrep, E; unfold box_call in E; cbn in E.
  - destruct Hrep as (p & -> & Hw). unfold per_op_sync, zoom in E.
    destruct (sync_writer (po_writer w)) as [w' r'] eqn:Es. injection E as <- _. cbn.
    rewrite (sync_file _ _ _ Es). by apply (writer_rep_file id).
  - unfold flush_on_fsync_flush, zoom in E. rewrite run_bind in E. cbn [modify fl_writer] in E.
    destruct (sync_writer _) as [w' r'] eqn:Es. injection E as <- _. cbn. rewrite (sync_file _ _ _ Es).
    destruct Hrep as (p & -> & Hw & Hbuf). apply (writer_rep_file id); [done|]. by apply writer_rep_drain.
  - unfold periodic_flush, zoom in E. rewrite run_bind in E. cbn [modify pe_writer] in E.
    destruct (sync_writer _) as [w' r'] eqn:Es. injection E as <- _. cbn. rewrite (sync_file _ _ _ Es).
    destruct Hrep as (p & -> & Hw & Hbuf). apply (writer_rep_file id); [done|]. by apply writer_rep_drain.
Qed.

(** One more commit fits. *)
Definition commit_fits s a : Prop :=
  tables_fit s ∧ is_Some (a_inodes a !! 1) ∧ Forall admissible (commit_contents s).

Lemma commit_fits_again s a : commit_fits s a → commit_fits (commit s).1 a.
Proof.
  intros (Hfit & Hroot & Hadm). rewrite commit_run.
  split_and!; [destruct Hfit; by split|done|exact Hadm].
Qed.

Lemma wal_logged_box id b dur l e :
  box_rep id b dur l → wf_walentry e →
  ∃ b' dur', wal_logged e (Some b) = Some b' ∧ box_rep id b' dur' (l ++ [e]).
Proof.
  intros Hrep He. destruct (log_mutation e b) as [b' r] eqn:E.
  destruct (wal_log_spec (WalLaws := box_laws) _ _ _ _ _ _ _ Hrep He E) as (_ & dur' & Hrep' & _).
  exists b', dur'. unfold wal_logged. cbn [fmap option_fmap option_map]. by rewrite E.
Qed.

(** The store of the process that is killed represents the same file system, and so do
    the roots that it logged. *)
Lemma kill_store_rep p now f a :
  store_rep (fs_meta f) a → (p ≠ KillServing → commit_fits (fs_meta f) a) →
  let s := kill_store p now f in
  store_rep s a ∧ st_io (fs_meta f) ⊑ᵢ st_io s ∧ Forall (λ r, root_holds (st_io s) r a) (wal_roots (kill_log p now f)).
Proof.
  intros Hr Hp. destruct p; [by split_and!; [|done|constructor]|..].
  all: destruct (Hp ltac:(done)) as (Hfit & Hroot & Hadm); specialize (Hp ltac:(done)).
  all: destruct (root_holds_commit (fs_meta f) a Hr Hfit Hroot Hadm) as (Hr1 & Hle1 & Hh1).
  { split_and!; try done. by repeat constructor. }
  destruct (commit_fits_again _ _ Hp) as (Hfit1 & _ & Hadm1).
  set (s1 := (commit (fs_meta f)).1) in *.
  destruct (root_holds_commit s1 a Hr1 Hfit1 Hroot Hadm1) as (Hr2 & Hle2 & Hh2).
  destruct (create_snapshot_state now.1 (Some auto_unmount) s1) as (s2 & Es & _ & _ & _ & Hio2 & Hrep2).
  assert (kill_store KillSnapshot now f = s2) as -> by (cbn [kill_store]; fold s1; by rewrite Es).
  assert (st_io s2 = st_io (commit s1).1) as Hio by by rewrite commit_run.
  cbn zeta. rewrite Hio. split_and!; [|by etransitivity|].
  - apply Hrep2. rewrite Hio. apply rep_io_grows; [done|apply (rep_io _ _ Hr2)|done].
  - constructor; [by eapply root_holds_mono|]. constructor; [exact Hh2|constructor].
Qed.

(** What it logged. *)
Lemma kill_store_log id p now f b dur :
  (p ≠ KillServing → is_u64 now.1) → st_wal (fs_meta f) = Some b → box_rep id b dur [] →
  ∃ b' dur', st_wal (kill_store p now f) = Some b' ∧ box_rep id b' dur' (kill_log p now f).
Proof.
  intros Hnow Hb Hrep. destruct p; [by exists b, dur|..].
  all: assert (st_wal (commit (fs_meta f)).1 = wal_logged (WalRootUpdate (commit_digest (fs_meta f))) (Some b))
    as Hw1 by (by rewrite commit_run, <-Hb).
  all: destruct (wal_logged_box id b dur [] (WalRootUpdate (commit_digest (fs_meta f))) Hrep (digest_of_wf _))
    as (b1 & dur1 & Hb1 & Hrep1); rewrite Hb1 in Hw1.
  { by exists b1, dur1. }
  pose proof (create_snapshot_wal now.1 (Some auto_unmount) (commit (fs_meta f)).1) as Hw2.
  assert (st_by_version (commit (fs_meta f)).1 = st_by_version (fs_meta f)) as Hv by by rewrite commit_run.
  destruct (wal_logged_box id b1 dur1 _ (WalRootUpdate (commit_digest (commit (fs_meta f)).1)) Hrep1 (digest_of_wf _))
    as (b2 & dur2 & Hb2 & Hrep2).
  destruct (wal_logged_box id b2 dur2 _ (WalSnapshot (wrap64 (max_version (st_by_version (fs_meta f)) + 1))
              (commit_digest (commit (fs_meta f)).1) now.1 (Some auto_unmount)) Hrep2) as (b3 & dur3 & Hb3 & Hrep3).
  { split_and!; [apply Z.mod_pos_bound; lia|apply digest_of_wf|by apply Hnow|done]. }
  exists b3, dur3. split; [|exact Hrep3]. cbn [kill_store]. by rewrite Hw2, Hw1, Hv, Hb2, Hb3.
Qed.

(** What a part of that log adds to a life. *)
Lemma log_keeps_committed io es l sp p now f ws :
  log_keeps io es l → Forall (λ r, root_keeps io r sp) (wal_roots (kill_log p now f)) →
  ws `prefix_of` kill_log p now f →
  (length ws ≤ kill_entries p)%nat ∧
  log_keeps io (es ++ (wal_entry_to_segment <$> ws)) (committed (length ws) sp (unmount_entry now f) l).
Proof.
  intros Hl Hroots Hp. assert (ws = take (length ws) (kill_log p now f)) as Hws.
  { destruct Hp as [k ->]. by rewrite take_app_length. }
  apply prefix_length in Hp. unfold kill_log in Hp. rewrite length_take in Hp.
  split; [lia|]. revert Hws. generalize (length ws) as k, Hp. clear Hp. intros k Hk ->.
  unfold kill_log in *. destruct p; cbn [kill_entries take] in *.
  - assert (k = 0%nat) as -> by (cbn in Hk; lia). by rewrite app_nil_r.
  - apply Forall_cons in Hroots as [H1 _].
    destruct k as [|[|]]; [by rewrite app_nil_r|by apply log_keeps_root|cbn in Hk; lia].
  - apply Forall_cons in Hroots as [H1 [H2 _]%Forall_cons].
    pose proof (log_keeps_root _ _ _ _ _ Hl H1) as Hl1. pose proof (log_keeps_root _ _ _ _ _ Hl1 H2) as Hl2.
    pose proof (log_keeps_save _ _ _ (unmount_entry now f) sp Hl2 H2) as Hl3.
    rewrite <-app_assoc in Hl2. rewrite <-!app_assoc in Hl3.
    destruct k as [|[|[|[|]]]]; [by rewrite app_nil_r|done|done|done|cbn in Hk; lia].
Qed.
End unmount_log.

(* ------------------------------------------------------------------------ *)
(** ** What an event needs *)

Section fits.
Context {B : Blockset} {L : BlocksetLaws B}.
Implicit Types (d : StoreDir B) (l : Life) (sp : SpecFs) (a : MountArgs).

(** The requests of a session are answered and the contents they store do not collide. *)
Definition calls_fit (calls : list KernelCall) sp : Prop :=
  (spec_calls calls (mounted sp, True)).1.2 ∧ ∃ replies, (spec_calls calls (mounted sp, True)).2 = Ok replies.
(** The file system after the requests. *)
Definition spec_end (calls : list KernelCall) sp : SpecFs := (spec_calls calls (mounted sp, True)).1.1.

(** A session on the store [meta] that loads [sp] can be committed. *)
Definition session_fits a (meta : DictMetadataStore B) sp : Prop :=
  commit_fits (fs_meta (serve_mount a meta).1) (sp_abs (spec_end (ma_calls a) sp)).

(** One more segment can be numbered, and no sync of its log fails while requests are
    served. *)
Definition segment_fits a d : Prop :=
  seg_number (next_segment_id (sd_segments d)) ∧ calm (ma_faults a).

(** A command can commit the current file system once more. *)
Definition command_fits d l : Prop :=
  seg_number (next_segment_id (sd_segments d)) ∧
  ∀ r snapshots meta, load_segments d = Ok (Some r, snapshots) → load_from_root (sd_io d) r = Ok meta →
                      commit_fits meta (sp_abs (lf_fs l)).

Definition event_fits (ev : Event B) d l : Prop :=
  match ev with
  | EvMount a =>
      mountpoint_in_use (ma_mountpoint a) (ma_table a) = false →
      segment_fits a d ∧ is_u64 (ma_now a).1 ∧
      (ma_fuse a = None →
       match ma_snapshot a with
       | None => calls_fit (ma_calls a) (lf_fs l) ∧
           ∀ d1 meta, load_store (ma_config a) (ma_faults a) d = (d1, Ok meta) → session_fits a meta (lf_fs l)
       | Some reference =>
           ∀ x, life_find reference l = Some x → calls_fit (ma_calls a) x.2 ∧
             ∀ meta, load_from_root (sd_io d) (sn_root x.1) = Ok meta → session_fits a meta x.2
       end)
  | EvKilled a p file io =>
      ma_snapshot a = None ∧ ma_config a ≠ CfgNoWal ∧ segment_fits a d ∧ calls_fit (ma_calls a) (lf_fs l) ∧
      (p ≠ KillServing → is_u64 (ma_now a).1) ∧ (p = KillSnapshot → ma_auto_snapshot a = true) ∧
      ∀ d1 meta, load_store (ma_config a) (ma_faults a) d = (d1, Ok meta) →
        let s := kill_store p (ma_now a) (serve_mount a meta).1 in
        (p ≠ KillServing → session_fits a meta (lf_fs l)) ∧
        (∀ b, st_wal s = Some b → kill_image b file) ∧ st_io s ⊑ᵢ io ∧ healthy io
  | EvCreate now name _ => lf_locked l = false → command_fits d l ∧ is_u64 now ∧ wf_name name
  | EvSwitch now _ _ => lf_locked l = false → command_fits d l ∧ is_u64 now
  | EvGc listing =>
      lf_locked l = false → ∀ segs m, sd_segments d = Some segs → dir_rep segs m →
      collectable m ∧ listing ≡ₚ (map_to_list segs).*1 ∧
      ∀ n, is_Some (segs !! n) → has_seg_extension n = true → is_segment_name n = true
  | EvScrub | EvStats _ _ => True
  end.

(** Every event fits where it happens. *)
Fixpoint events_fit (evs : list (Event B)) d l : Prop :=
  match evs with
  | [] => True
  | ev :: evs => event_fits ev d l ∧
      ∀ l', spec_step l ev (real_run ev d).2 l' → store_holds (real_run ev d).1 l' →
            events_fit evs (real_run ev d).1 l'
  end.
End fits.

(* ------------------------------------------------------------------------ *)
(** ** Mounts *)

Section mounts.
Context {B : Blockset} {L : BlocksetLaws B}.
Implicit Types (d : StoreDir B) (f : SliceFsFilesystem B) (l : Life) (sp : SpecFs) (a : MountArgs).

Lemma load_from_root_wal (io : Io) r (s : DictMetadataStore B) : load_from_root io r = Ok s → st_wal s = None.
Proof.
  unfold load_from_root. intros H.
  repeat match type of H with
  | ?x ≫= _ = _ => destruct x; cbn [mbind res_bind] in H; [|done..]
  end.
  case_decide; [done|]. by injection H as <-.
Qed.

(** Any store that loads [sp] serves requests as [sp] does. *)
Lemma serve_mount_spec a (meta : DictMetadataStore B) sp :
  store_rep meta (sp_abs sp) → map_Forall (λ _ c, from_option (stored (st_io meta)) True c) (sp_contents sp) →
  (∀ b, st_wal meta = Some b → box_calm b) → calls_fit (ma_calls a) sp →
  ∃ f replies, serve_mount a meta = (f, Ok replies) ∧
    spec_served (ma_calls a) sp (spec_end (ma_calls a) sp) replies ∧ fs_rep f (spec_end (ma_calls a) sp) ∧
    st_io meta ⊑ᵢ st_io (fs_meta f) ∧
    served (set_auto_snapshot (ma_auto_snapshot a) (fs_new meta)) f ∧
    kept f = (st_by_version meta, st_by_name meta, ma_auto_snapshot a).
Proof.
  intros Hr Hc Hcalm (HP & replies & Hres). unfold serve_mount.
  set (f0 := set_auto_snapshot (ma_auto_snapshot a) (fs_new meta)).
  assert (fs_rep f0 (mounted sp)) as Hrep by (split; [exact Hr|exact Hc|apply map_Forall2_empty|done]).
  destruct (serve_calls_spec (ma_calls a) f0 (mounted sp) True Hrep Hcalm HP) as (Hout & Hrep' & Hle & _).
  destruct (serve_calls (ma_calls a) f0) as [f r] eqn:E. cbn [fst snd] in *.
  pose proof (serve_calls_served _ _ _ _ _ (served_nil _) E) as Hs.
  exists f, replies. split_and!; [by rewrite Hout, Hres| |done|done|done|].
  - eexists. rewrite <-Hres. unfold spec_end.
    by rewrite <-!surjective_pairing.
  - by rewrite (served_kept _ _ Hs).
Qed.

(** The directory while it is mounted. *)
Definition mounted_dir a (segs : gmap bytes bytes) d : StoreDir B :=
  mkStoreDir B false true (Some (open_segment (ma_config a) (next_segment_id (sd_segments d)) segs)) (sd_io d).

(** A mount of [d] that has served its requests. *)
Record serving a d l segs m es (meta : DictMetadataStore B) f (replies : list Reply) : Prop := {
  sv_segs : sd_segments d = Some segs;
  sv_rep : dir_rep segs m;
  sv_log : numbered_log m = Ok es;
  sv_keeps : log_keeps (sd_io d) es l;
  sv_load : load_store (ma_config a) (ma_faults a) d = (mounted_dir a segs d, Ok meta);
  sv_serve : serve_mount a meta = (f, Ok replies);
  sv_spec : spec_served (ma_calls a) (lf_fs l) (spec_end (ma_calls a) (lf_fs l)) replies;
  sv_fs : fs_rep f (spec_end (ma_calls a) (lf_fs l));
  sv_io : sd_io d ⊑ᵢ st_io (fs_meta f);
  sv_versions : fst <$> lf_saved l = st_by_version (fs_meta f);
  sv_auto : fs_auto_snapshot f = ma_auto_snapshot a;
  sv_wal : ma_config a ≠ CfgNoWal →
           ∃ b dur, st_wal (fs_meta f) = Some b ∧ box_rep (next_segment_id (sd_segments d)) b dur []
}.

Lemma mount_serves a d l :
  store_holds d l → calm (ma_faults a) → calls_fit (ma_calls a) (lf_fs l) →
  ∃ segs m es meta f replies, serving a d l segs m es meta f replies.
Proof.
  intros (m & es & Hlog & Hh & _ & Hk) Hcalm Hfit. pose proof Hk as [(r & Hr & _ & Hroot & Hc) Hv _ _ _].
  destruct (load_store_run (ma_config a) (ma_faults a) d m es r _ Hlog Hr Hh Hroot)
    as (segs & meta & Hsegs & Hrep & Hl & Hs & Hio & Hw & Hsn & _).
  rewrite <-Hio in Hc.
  destruct (serve_mount_spec a meta (lf_fs l) Hs Hc) as (f & replies & Hserve & Hspec & Hrep' & Hle & Hserved & Hkept);
    [rewrite Hw; intros b [= <-]; by apply create_wal_calm|done|].
  unfold kept in Hkept. injection Hkept as Hv' Hn' Ha'.
  exists segs, m, es, meta, f, replies. split; try done; [apply Hlog|by unfold mounted_dir; rewrite Hsegs| | |].
  - by rewrite <-Hio.
  - by rewrite Hv', Hsn, Hv.
  - intros Hcfg. destruct (served_logs_nothing _ _ (next_segment_id (sd_segments d)) _ [] [] Hserved Hw)
      as (b & dur & Hb & Hbox & _); [rewrite Hsegs; by apply create_wal_rep|]. by exists b, dur.
Qed.

(** The end of a session. *)
Definition unmount_point (auto : bool) : KillPoint := if auto then KillSnapshot else KillCommitted.

Lemma serve_destroy_run now f :
  let s := kill_store (unmount_point (fs_auto_snapshot f)) now f in
  (shutdown_wal s).2 ≠ Panic → serve_destroy now f = (upd_meta (shutdown_wal s).1 f, Ok tt).
Proof.
  intros s Hp. unfold serve_destroy, test_destroy. rewrite !run_bind. unfold attempt at 1, zoom at 1.
  rewrite commit_run, run_bind. cbn [gets]. rewrite run_bind.
  set (f1 := upd_meta _ f). assert (fs_auto_snapshot f1 = fs_auto_snapshot f) as -> by done.
  assert (fs_meta f1 = (commit (fs_meta f)).1) as Hf1 by by rewrite commit_run.
  unfold unmount_point in s. destruct (fs_auto_snapshot f); cbn [kill_store] in s.
  - destruct (create_snapshot_state now.1 (Some auto_unmount) (fs_meta f1)) as (s2 & Es & _).
    rewrite run_bind. unfold attempt at 1, zoom at 1. change (str "auto-unmount") with auto_unmount. rewrite Es.
    assert (s = s2) as -> by (unfold s; by rewrite <-Hf1, Es). cbn [mret M_ret]. rewrite run_bind.
    unfold attempt, zoom. cbn [upd_meta fs_meta]. by destruct (shutdown_wal s2) as [s3 [x|e|]].
  - cbn [mret M_ret]. rewrite run_bind. unfold attempt, zoom. rewrite Hf1. fold s.
    by destruct (shutdown_wal s) as [s3 [x|e|]].
Qed.

Lemma shutdown_wal_run (s : DictMetadataStore B) :
  st_io (shutdown_wal s).1 = st_io s ∧
  ∀ b, st_wal s = Some b → st_wal (shutdown_wal s).1 = Some (shutdown b).1 ∧ (shutdown_wal s).2 = (shutdown b).2.
Proof.
  unfold shutdown_wal, on_wal. destruct (st_wal s) as [b|]; [|done].
  destruct (shutdown b) as [b' r] eqn:E. split; [done|]. intros b0 [= <-]. by rewrite E.
Qed.

Lemma shutdown_no_panic (s : DictMetadataStore B) : (shutdown_wal s).2 ≠ Panic.
Proof.
  unfold shutdown_wal, on_wal. destruct (st_wal s) as [[w|w|w|w]|]; [..|done|done]; cbn; unfold box_call; cbn.
  - unfold per_op_sync, zoom, sync_writer. by destruct (segment_sync _) as [w' []].
  - unfold flush_on_fsync_flush, zoom, sync_writer. rewrite run_bind. cbn [modify fl_writer].
    by destruct (segment_sync _) as [w' []].
  - unfold periodic_flush, zoom, sync_writer. rewrite run_bind. cbn [modify pe_writer].
    by destruct (segment_sync _) as [w' []].
Qed.

(** The roots of an unmount keep the file system that was served. *)
Lemma kill_roots_keep p now f sp :
  fs_rep f sp → (p ≠ KillServing → commit_fits (fs_meta f) (sp_abs sp)) →
  let s := kill_store p now f in
  healthy (st_io s) ∧ st_io (fs_meta f) ⊑ᵢ st_io s ∧
  Forall (λ r, root_keeps (st_io s) r sp) (wal_roots (kill_log p now f)).
Proof.
  intros Hrep Hp. destruct (kill_store_rep p now f (sp_abs sp) (fr_store _ _ Hrep) Hp) as (Hr & Hle & Hroots).
  cbn zeta. split_and!; [apply (rep_io _ _ Hr)|done|].
  assert (Forall wf_digest (wal_roots (kill_log p now f))) as Hwf.
  { destruct p; [constructor|..]; repeat (constructor; [apply digest_of_wf|]); constructor. }
  eapply Forall_impl; [exact (proj2 (Forall_and _ _) (conj Hwf Hroots))|].
  intros r [Hw Hh]. split_and!; [done|done|]. eapply stored_contents_mono; [exact Hle|apply Hrep].
Qed.

Lemma length_kill_log p now f : length (kill_log p now f) = kill_entries p.
Proof. by destruct p. Qed.

Lemma unmount_entry_new now f l :
  fst <$> lf_saved l = st_by_version (fs_meta f) →
  new_entry now.1 (Some auto_unmount) (unmount_entry now f) l.
Proof. intros Hv. split_and!; [by rewrite Hv|done|done]. Qed.

(** The log of the directory after an unmount. *)
Lemma unmount_log_of a d l segs m es meta f replies :
  serving a d l segs m es meta f replies → seg_number (next_segment_id (sd_segments d)) → is_u64 (ma_now a).1 →
  let p := unmount_point (ma_auto_snapshot a) in
  let s := kill_store p (ma_now a) f in
  ∃ m' ws, dir_log (end_session (ma_config a) (next_segment_id (sd_segments d)) (st_wal (shutdown_wal s).1) (st_io s)
                      (mounted_dir a segs d)) m' (es ++ (wal_entry_to_segment <$> ws)) ∧
    ws `prefix_of` kill_log p (ma_now a) f ∧
    length ws = unmount_entries (ma_config a) (ma_auto_snapshot a).
Proof.
  intros [] Hnum Hnow p s. set (id := next_segment_id (sd_segments d)) in *.
  destruct (next_segment_id_above segs m sv_rep0) as [Hlt _]. rewrite <-sv_segs0 in Hlt. fold id in Hlt.
  destruct (decide (ma_config a = CfgNoWal)) as [Hcfg|Hcfg].
  - exists m, []. rewrite Hcfg, app_nil_r. unfold mounted_dir. rewrite Hcfg.
    split_and!; [split; [done|by exists segs|done]|apply prefix_nil|done].
  - destruct (sv_wal0 Hcfg) as (b & dur & Hb & Hbox).
    destruct (kill_store_log id p (ma_now a) f b dur (λ _, Hnow) Hb Hbox) as (b' & dur' & Hb' & Hbox').
    destruct (proj2 (shutdown_wal_run s) b' Hb') as [-> _].
    exists (<[id := wal_file (Some (shutdown b').1)]> m), (kill_log p (ma_now a) f). split_and!; [|done|].
    + apply (end_session_log (ma_config a) id _ _ _ segs m es); try done.
      apply (shutdown_file id b' dur'); [unfold seg_number, is_u64 in *; lia|done].
    + rewrite length_kill_log. unfold p, unmount_entries. by destruct (ma_config a), (ma_auto_snapshot a).
Qed.

Lemma run_mount_current a d l segs m es meta f replies :
  serving a d l segs m es meta f replies →
  mountpoint_in_use (ma_mountpoint a) (ma_table a) = false → ma_snapshot a = None → ma_fuse a = None →
  let s := kill_store (unmount_point (ma_auto_snapshot a)) (ma_now a) f in
  real_run (EvMount a) d =
    (end_session (ma_config a) (next_segment_id (sd_segments d)) (st_wal (shutdown_wal s).1) (st_io s)
       (mounted_dir a segs d), OutReplies (Ok replies)).
Proof.
  intros [] Hmp Hsnap Hfuse s. cbn [real_run]. unfold run_mount. rewrite Hmp, run_bind. cbn [gets].
  rewrite run_bind. unfold map_err. rewrite sv_load0. cbn [res_map_err]. rewrite Hsnap.
  unfold run_session, choose_store. rewrite Hfuse. unfold serve_mount in sv_serve0. rewrite sv_serve0.
  rewrite serve_destroy_run; rewrite sv_auto0; fold s; [|apply shutdown_no_panic].
  cbn [fs_meta upd_meta]. by rewrite (proj1 (shutdown_wal_run s)).
Qed.

(** An unmount of the current file system keeps all that was done. *)
Lemma mount_sim a d l :
  store_holds d l → mountpoint_in_use (ma_mountpoint a) (ma_table a) = false → ma_snapshot a = None →
  ma_fuse a = None → event_fits (EvMount a) d l →
  ∃ l', spec_step l (EvMount a) (real_run (EvMount a) d).2 l' ∧ store_holds (real_run (EvMount a) d).1 l'.
Proof.
  intros Hd Hmp Hsnap Hfuse Hfit. cbn in Hfit. rewrite Hsnap in Hfit.
  destruct (Hfit Hmp) as ([Hnum Hcalm] & Hnow & Hses'). destruct (Hses' Hfuse) as [Hcalls Hses]. clear Hfit Hses'.
  destruct (mount_serves a d l Hd Hcalm Hcalls) as (segs & m & es & meta & f & replies & Hs).
  specialize (Hses _ _ (sv_load _ _ _ _ _ _ _ _ _ Hs)). unfold session_fits in Hses.
  rewrite (sv_serve _ _ _ _ _ _ _ _ _ Hs) in Hses.
  destruct (kill_roots_keep (unmount_point (ma_auto_snapshot a)) (ma_now a) f _ (sv_fs _ _ _ _ _ _ _ _ _ Hs) (λ _, Hses))
    as (Hh & Hle & Hroots).
  destruct (unmount_log_of _ _ _ _ _ _ _ _ _ Hs Hnum Hnow) as (m' & ws & Hdir & Hws & Hlen).
  rewrite (run_mount_current _ _ _ _ _ _ _ _ _ Hs Hmp Hsnap Hfuse). cbn [fst snd].
  destruct (log_keeps_committed _ es l _ _ _ _ ws
              (log_keeps_mono _ _ _ _ (transitivity (sv_io _ _ _ _ _ _ _ _ _ Hs) Hle) (sv_keeps _ _ _ _ _ _ _ _ _ Hs))
              Hroots Hws) as [_ Hk].
  rewrite Hlen in Hk. eexists. split.
  - eapply spec_mount; [done|done|done|apply Hs|]. apply unmount_entry_new. apply Hs.
  - exists m', (es ++ (wal_entry_to_segment <$> ws)). split_and!; [exact Hdir|exact Hh|done|].
    by apply log_keeps_locked.
Qed.

(** A mount that is killed keeps nothing or all that was done. *)
Lemma kill_sim a p file io d l :
  store_holds d l → event_fits (EvKilled a p file io) d l →
  ∃ l', spec_step l (EvKilled a p file io) (real_run (EvKilled a p file io) d).2 l' ∧
        store_holds (real_run (EvKilled a p file io) d).1 l'.
Proof.
  intros Hd (_ & Hcfg & [Hnum Hcalm] & Hcalls & Hnow & _ & Hfit).
  destruct (mount_serves a d l Hd Hcalm Hcalls) as (segs & m & es & meta & f & replies & Hs).
  destruct (Hfit _ _ (sv_load _ _ _ _ _ _ _ _ _ Hs)) as (Hses & Himg & Hle & Hh). clear Hfit.
  unfold session_fits in Hses. cbn [real_run].
  rewrite (sv_load _ _ _ _ _ _ _ _ _ Hs), (sv_serve _ _ _ _ _ _ _ _ _ Hs) in *. cbn [fst snd] in *.
  destruct Hs. set (id := next_segment_id (sd_segments d)) in *.
  destruct (kill_roots_keep p (ma_now a) f _ sv_fs0 Hses) as (_ & Hle' & Hroots).
  destruct (sv_wal0 Hcfg) as (b & dur & Hb & Hbox).
  destruct (kill_store_log id p (ma_now a) f b dur Hnow Hb Hbox) as (b' & dur' & Hb' & Hbox').
  destruct (kill_image_spec id b' dur' _ file ltac:(unfold seg_number, is_u64 in *; lia) Hbox' (Himg _ Hb'))
    as (ws & Hrec & _ & Hws).
  assert (Forall (λ r, root_keeps io r (spec_end (ma_calls a) (lf_fs l))) (wal_roots (kill_log p (ma_now a) f)))
    as Hroots' by (eapply Forall_impl; [exact Hroots|]; intros r; by apply root_keeps_mono).
  assert (sd_io d ⊑ᵢ io) as Hle0 by (etransitivity; [exact sv_io0|]; by etransitivity).
  destruct (log_keeps_committed io es l _ p (ma_now a) f ws (log_keeps_mono _ _ _ _ Hle0 sv_keeps0) Hroots' Hws)
    as [Hlen Hk].
  destruct (next_segment_id_above segs m sv_rep0) as [Hlt _]. rewrite <-sv_segs0 in Hlt.
  destruct (dir_rep_last segs m es id file _ sv_rep0 sv_log0 Hlt Hnum Hrec) as [Hrep' Hlog'].
  eexists. split.
  - eapply spec_killed; [done| |exact Hlen]. by apply unmount_entry_new.
  - eexists _, _. split_and!; [|exact Hh|done|by apply log_keeps_locked].
    split; [done| |exact Hlog']. eexists. split; [reflexivity|]. unfold mounted_dir. fold id.
    cbn [sd_segments default from_option]. by destruct (ma_config a); cbn; rewrite ?insert_insert_eq.
Qed.

(** The directory after a mount that logged nothing: it served a snapshot, or nothing. *)
Lemma unlogged_closed a d segs m es (io : Io) :
  dir_log d m es → sd_segments d = Some segs → seg_number (next_segment_id (sd_segments d)) →
  ∃ m', dir_log (end_session (ma_config a) (next_segment_id (sd_segments d))
                   (Some (create_wal (ma_config a) (next_segment_id (sd_segments d)) (ma_faults a))) io
                   (mounted_dir a segs d)) m' es.
Proof.
  intros [_ (segs' & Hsegs' & Hrep) Hlog] Hsegs Hnum. rewrite Hsegs in Hsegs'. injection Hsegs' as <-.
  destruct (next_segment_id_above segs m Hrep) as [Hlt _]. rewrite <-Hsegs in Hlt.
  set (id := next_segment_id (sd_segments d)) in *.
  destruct (decide (ma_config a = CfgNoWal)) as [Hcfg|Hcfg].
  - exists m. unfold mounted_dir. rewrite Hcfg. split; [done|by exists segs|done].
  - rewrite <-(app_nil_r es). eexists. apply (end_session_log (ma_config a) id _ _ _ segs m es); try done.
    apply (box_rep_file id _ []); [unfold seg_number, is_u64 in *; lia|by apply create_wal_rep].
Qed.
Lemma snapshot_closed a d l segs m es (io : Io) :
  dir_log d m es → log_keeps (sd_io d) es l → sd_segments d = Some segs →
  seg_number (next_segment_id (sd_segments d)) → sd_io d ⊑ᵢ io → healthy io →
  store_holds (end_session (ma_config a) (next_segment_id (sd_segments d))
                 (Some (create_wal (ma_config a) (next_segment_id (sd_segments d)) (ma_faults a))) io
                 (mounted_dir a segs d)) (set_locked false l).
Proof.
  intros Hlog Hk Hsegs Hnum Hle Hh. destruct (unlogged_closed a d segs m es io Hlog Hsegs Hnum) as [m' Hlog'].
  exists m', es. split_and!; [exact Hlog'|done|done|]. apply log_keeps_locked. by eapply log_keeps_mono.
Qed.

(** Two directories with the same log replay to the same root and snapshots. *)
Lemma dir_log_replay d d' m m' es :
  dir_log d m es → dir_log d' m' es →
  load_store_from_segments (default ∅ (sd_segments d')) = load_store_from_segments (default ∅ (sd_segments d)).
Proof.
  intros [_ (segs & -> & Hrep) Hlog] [_ (segs' & -> & Hrep') Hlog']. cbn [default from_option id].
  by rewrite (load_store_numbered _ _ Hrep), (load_store_numbered _ _ Hrep'), Hlog, Hlog'.
Qed.

(** A mount of a snapshot serves it and changes nothing. *)
Lemma snapshot_run a reference x d l :
  store_holds d l → mountpoint_in_use (ma_mountpoint a) (ma_table a) = false → ma_snapshot a = Some reference →
  ma_fuse a = None → life_find reference l = Some x → event_fits (EvMount a) d l →
  ∃ d' replies,
    run_mount (ma_mountpoint a) (ma_table a) (ma_config a) (ma_faults a) (ma_snapshot a) (ma_noatime a)
      (ma_allow_other a) (ma_auto_snapshot a) (ma_fuse a) (ma_calls a) (ma_now a) d = (d', Ok replies) ∧
    spec_served (ma_calls a) x.2 (spec_end (ma_calls a) x.2) replies ∧ store_holds d' (set_locked false l) ∧
    load_store_from_segments (default ∅ (sd_segments d')) = load_store_from_segments (default ∅ (sd_segments d)).
Proof.
  intros (m & es & Hlog & Hh & _ & Hk) Hmp Hsnap Hfuse Hfind Hfit. cbn in Hfit. rewrite Hsnap in Hfit.
  destruct (Hfit Hmp) as ([Hnum Hcalm] & Hnow & Hses). specialize (Hses Hfuse). clear Hfit.
  pose proof Hk as [(r & Hr & _ & Hroot & _) _ _ _ _].
  destruct (load_store_run (ma_config a) (ma_faults a) d m es r _ Hlog Hr Hh Hroot)
    as (segs & meta & Hsegs & _ & Hload & _ & Hio & Hw & Hsn).
  rewrite <-Hsegs in *. unfold run_mount. rewrite Hmp, run_bind. cbn [gets]. rewrite run_bind. unfold map_err.
  rewrite Hload. cbn [res_map_err]. unfold run_session, choose_store.
  rewrite Hsnap, Hfuse, (find_snapshot_life meta es _ l reference Hsn Hk), Hfind.
  cbn [fmap option_fmap option_map ok_or mbind res_bind]. rewrite Hio, Hw.
  destruct (life_find_saved _ _ _ _ _ Hfind Hk) as (_ & Hx & Hxc).
  destruct (Hx (sd_io d)) as (s1 & Hs1 & Hrep1); [done|done|]. rewrite Hs1. cbn [res_map_err mbind res_bind].
  destruct (Hses x Hfind) as [Hcalls Hses']. specialize (Hses' s1 Hs1). unfold session_fits in Hses'.
  pose proof (load_from_root_io _ _ _ Hs1) as Hio1. rewrite <-Hio1 in Hxc.
  destruct (serve_mount_spec a s1 x.2 Hrep1 Hxc) as (f & replies & Hserve & Hspec & Hfs & Hle & _ & Hkept);
    [by rewrite (load_from_root_wal _ _ _ Hs1)|done|].
  rewrite Hserve in Hses'. unfold serve_mount in Hserve. rewrite Hserve.
  set (s := kill_store (unmount_point (fs_auto_snapshot f)) (ma_now a) f).
  rewrite serve_destroy_run by apply shutdown_no_panic. cbn [fs_meta upd_meta]. fold s.
  rewrite (proj1 (shutdown_wal_run s)).
  destruct (kill_roots_keep (unmount_point (fs_auto_snapshot f)) (ma_now a) f _ Hfs (λ _, Hses')) as (Hh' & Hle' & _).
  eexists _, replies. split_and!; [reflexivity|exact Hspec| |].
  - apply (snapshot_closed a d l segs m es); try done. rewrite <-Hio1. by etransitivity.
  - destruct (unlogged_closed a d segs m es (st_io s) Hlog Hsegs Hnum) as [m' Hlog']. exact (dir_log_replay _ _ _ _ _ Hlog Hlog').
Qed.

(** A mount of a snapshot that is not there changes nothing either. *)
Lemma unknown_sim a reference d l :
  store_holds d l → mountpoint_in_use (ma_mountpoint a) (ma_table a) = false → ma_snapshot a = Some reference →
  life_find reference l = None → event_fits (EvMount a) d l →
  ∃ l', spec_step l (EvMount a) (real_run (EvMount a) d).2 l' ∧ store_holds (real_run (EvMount a) d).1 l'.
Proof.
  intros (m & es & Hlog & Hh & _ & Hk) Hmp Hsnap Hfind Hfit. destruct (Hfit Hmp) as ([Hnum Hcalm] & _). clear Hfit.
  pose proof Hk as [(r & Hr & _ & Hroot & _) _ _ _ _].
  destruct (load_store_run (ma_config a) (ma_faults a) d m es r _ Hlog Hr Hh Hroot)
    as (segs & meta & Hsegs & _ & Hload & _ & Hio & Hw & Hsn).
  rewrite <-Hsegs in *. exists (set_locked false l).
  cbn [real_run]. unfold run_mount. rewrite Hmp, run_bind. cbn [gets]. rewrite run_bind. unfold map_err. rewrite Hload.
  cbn [res_map_err]. unfold run_session, choose_store. rewrite Hsnap, (find_snapshot_life meta es _ l reference Hsn Hk).
  rewrite Hfind. cbn [fmap option_fmap option_map ok_or mbind res_bind]. rewrite Hio, Hw.
  split; [by apply spec_mount_unknown|]. by apply (snapshot_closed a d l segs m es).
Qed.

Lemma snapshot_sim a reference d l :
  store_holds d l → mountpoint_in_use (ma_mountpoint a) (ma_table a) = false → ma_snapshot a = Some reference →
  ma_fuse a = None → event_fits (EvMount a) d l →
  ∃ l', spec_step l (EvMount a) (real_run (EvMount a) d).2 l' ∧ store_holds (real_run (EvMount a) d).1 l'.
Proof.
  intros Hd Hmp Hsnap Hfuse Hfit. destruct (life_find reference l) as [x|] eqn:Hfind; [|by eapply unknown_sim].
  destruct (snapshot_run a reference x d l Hd Hmp Hsnap Hfuse Hfind Hfit) as (d' & replies & Hrun & Hspec & Hd' & _).
  exists (set_locked false l). cbn [real_run]. rewrite Hrun. split; [by eapply spec_mount_snapshot|done].
Qed.

(** A mount whose session cannot be opened changes nothing. *)
Lemma refused_sim a e d l :
  store_holds d l → mountpoint_in_use (ma_mountpoint a) (ma_table a) = false → ma_fuse a = Some e →
  event_fits (EvMount a) d l →
  ∃ l', spec_step l (EvMount a) (real_run (EvMount a) d).2 l' ∧ store_holds (real_run (EvMount a) d).1 l'.
Proof.
  intros (m & es & Hlog & Hh & _ & Hk) Hmp Hfuse Hfit. destruct (Hfit Hmp) as ([Hnum Hcalm] & _). clear Hfit.
  pose proof Hk as [(r & Hr & _ & Hroot & _) _ _ _ _].
  destruct (load_store_run (ma_config a) (ma_faults a) d m es r _ Hlog Hr Hh Hroot)
    as (segs & meta & Hsegs & _ & Hload & _ & Hio & Hw & Hsn).
  rewrite <-Hsegs in *. exists (set_locked false l).
  cbn [real_run]. unfold run_mount. rewrite Hmp, run_bind. cbn [gets]. rewrite run_bind. unfold map_err. rewrite Hload.
  cbn [res_map_err]. unfold run_session, choose_store. rewrite Hfuse.
  destruct (ma_snapshot a) as [reference|] eqn:Hsnap.
  2: { rewrite Hio, Hw. split; [apply spec_mount_refused; [done|done|by rewrite Hsnap]|].
       by apply (snapshot_closed a d l segs m es). }
  rewrite (find_snapshot_life meta es _ l reference Hsn Hk).
  destruct (life_find reference l) as [x|] eqn:Hfind; cbn [fmap option_fmap option_map ok_or mbind res_bind];
    rewrite Hio, Hw.
  2: { split; [by apply spec_mount_unknown|]. by apply (snapshot_closed a d l segs m es). }
  destruct (life_find_saved _ _ _ _ _ Hfind Hk) as (_ & Hx & _).
  destruct (Hx (sd_io d)) as (s1 & Hs1 & _); [done|done|]. rewrite Hs1. cbn [res_map_err mbind res_bind].
  rewrite (load_from_root_io _ _ _ Hs1). split; [|by apply (snapshot_closed a d l segs m es)].
  apply spec_mount_refused; [done|done|]. intros ref. rewrite Hsnap. intros [= <-]. by exists x.
Qed.
End mounts.

(* ------------------------------------------------------------------------ *)
(** ** Commands *)

Section commands.
Context {B : Blockset} {L : BlocksetLaws B}.
Implicit Types (d : StoreDir B) (l : Life).

Lemma store_unmounted d l :
  store_holds d l → lf_locked l = false → command_fits d l →
  ∃ m es r s0, unmounted d m es r (sp_abs (lf_fs l)) s0 ∧ log_keeps (sd_io d) es l.
Proof.
  intros (m & es & Hlog & Hh & Hlock & Hk) Hl [Hnum Hfit]. pose proof Hk as [(r & Hr & _ & Hroot & _) _ _ _ _].
  destruct (Hroot (sd_io d)) as (s0 & Hs0 & _); [done|done|].
  destruct (load_segments_log _ _ _ Hlog) as [_ Hseg]. rewrite Hr in Hseg.
  destruct (Hfit _ _ _ Hseg Hs0) as (Ht & Hi & Ha). exists m, es, r, s0. split; [|done].
  split; try done. by rewrite Hlock.
Qed.

Lemma find_opened d l m es r s0 faults reference :
  unmounted d m es r (sp_abs (lf_fs l)) s0 → log_keeps (sd_io d) es l →
  find_snapshot reference (opened d es s0 faults) = fst <$> life_find reference l.
Proof. intros _ Hk. eapply find_snapshot_life; [apply set_snapshots_of|exact Hk]. Qed.

Lemma next_entry_new es now name e l (io : Io) :
  log_keeps io es l → next_entry es now name e → new_entry now name e l.
Proof. intros Hk (Hv & Hn & Ht & _). split_and!; [|done|done]. by rewrite Hv, (lk_versions _ _ _ Hk). Qed.

(** The state before a command is kept by its snapshot. *)
Lemma saved_current (io io' : Io) es l e :
  log_keeps io es l → io ⊑ᵢ io' → wf_digest (sn_root e) → root_holds io' (sn_root e) (sp_abs (lf_fs l)) →
  root_keeps io' (sn_root e) (lf_fs l).
Proof.
  intros [(r & _ & _ & _ & Hc) _ _ _ _] Hle Hw Hr. split_and!; [done|done|]. by eapply stored_contents_mono.
Qed.

Lemma create_sim now name faults d l :
  store_holds d l → event_fits (EvCreate now name faults) d l →
  ∃ l', spec_step l (EvCreate now name faults) (real_run (EvCreate now name faults) d).2 l' ∧
        store_holds (real_run (EvCreate now name faults) d).1 l'.
Proof.
  intros Hd Hfit. cbn [real_run]. destruct (lf_locked l) eqn:Hl.
  { pose proof Hd as (_ & _ & _ & _ & Hlock & _). rewrite Hl in Hlock.
    unfold run_snapshot_create. rewrite with_unmounted_mounted by done.
    exists l. split; [by apply spec_create_locked|done]. }
  destruct (Hfit Hl) as (Hcmd & Hnow & Hname).
  destruct (store_unmounted d l Hd Hl Hcmd) as (m & es & r & s0 & Hu & Hk).
  destruct (snapshot_create_run _ _ _ _ _ _ now name faults Hu Hnow Hname)
    as (d' & res & e & m' & -> & Hout & Hnew & Hlog & Hh & Hr & Hle & Hlock).
  exists (save e (lf_fs l) l). cbn [fst snd]. split.
  - apply spec_create; [done|by eapply next_entry_new|done].
  - pose proof (saved_current _ _ _ _ _ Hk Hle (proj2 (proj2 (proj2 Hnew))) Hr) as He.
    pose proof (log_keeps_root _ _ _ _ _ (log_keeps_mono _ _ _ _ Hle Hk) He) as Hk1.
    pose proof (log_keeps_save _ _ _ e (lf_fs l) Hk1 He) as Hk2. rewrite <-app_assoc in Hk2.
    eexists m', _. split_and!; [exact Hlog|done|by rewrite Hlock|]. by destruct l.
Qed.

Lemma switch_sim now reference faults d l :
  store_holds d l → event_fits (EvSwitch now reference faults) d l →
  ∃ l', spec_step l (EvSwitch now reference faults) (real_run (EvSwitch now reference faults) d).2 l' ∧
        store_holds (real_run (EvSwitch now reference faults) d).1 l'.
Proof.
  intros Hd Hfit. cbn [real_run]. destruct (lf_locked l) eqn:Hl.
  { pose proof Hd as (_ & _ & _ & _ & Hlock & _). rewrite Hl in Hlock.
    unfold run_snapshot_switch. rewrite with_unmounted_mounted by done.
    exists l. split; [by apply spec_switch_locked|done]. }
  destruct (Hfit Hl) as (Hcmd & Hnow).
  destruct (store_unmounted d l Hd Hl Hcmd) as (m & es & r & s0 & Hu & Hk).
  pose proof (find_opened d l m es r s0 faults reference Hu Hk) as Hf.
  destruct (life_find reference l) as [x|] eqn:Hx; cbn [fmap option_fmap option_map] in Hf.
  - pose proof (life_find_saved _ _ _ _ _ Hx Hk) as Hxk.
    destruct (snapshot_switch_run _ _ _ _ _ _ now reference x.1 faults Hu Hnow Hf (proj1 Hxk))
      as (d' & res & e & m' & -> & Hout & Hnew & Hlog & Hh & Hr & Hle & Hlock).
    exists (set_fs x.2 (save e (lf_fs l) l)). cbn [fst snd]. split.
    + eapply spec_switch; [done|done|by eapply next_entry_new|done].
    + pose proof (saved_current _ _ _ _ _ Hk Hle (proj2 (proj2 (proj2 Hnew))) Hr) as He.
      pose proof (log_keeps_root _ _ _ _ _ (log_keeps_mono _ _ _ _ Hle Hk) He) as Hk1.
      pose proof (log_keeps_save _ _ _ e (lf_fs l) Hk1 He) as Hk2.
      pose proof (log_keeps_root _ _ _ _ _ Hk2 (root_keeps_mono _ _ _ _ Hle Hxk)) as Hk3.
      rewrite <-!app_assoc in Hk3. eexists m', _. split_and!; [exact Hlog|done|by rewrite Hlock|exact Hk3].
  - destruct (snapshot_switch_refused _ _ _ _ _ _ now reference faults Hu Hf)
      as (d' & m' & -> & Hlog & Hio & Hlock).
    exists l. cbn [fst snd]. split; [by apply spec_switch_unknown|].
    exists m', es. rewrite Hio. split_and!; [done|apply Hu|by rewrite Hlock|done].
Qed.

Lemma gc_sim listing d l :
  store_holds d l → event_fits (EvGc listing) d l →
  ∃ l', spec_step l (EvGc listing) (real_run (EvGc listing) d).2 l' ∧ store_holds (real_run (EvGc listing) d).1 l'.
Proof.
  intros Hd Hfit. pose proof Hd as (m & es & [Hfmt (segs & Hsegs & Hrep) Hlog] & Hh & Hlock & Hk).
  exists l. cbn [real_run]. destruct (lf_locked l) eqn:Hl.
  { unfold run_gc_command. rewrite run_bind. cbn [gets]. change (id d) with d. rewrite Hlock.
    split; [by apply spec_gc_locked|done]. }
  destruct (Hfit Hl segs m Hsegs Hrep) as (Hc & Hlist & Hext).
  destruct (run_gc_log segs m listing Hrep Hlist Hext Hc)
    as (dir' & m' & stats & es' & Hrun & Hlog0 & Hrep' & Hlog' & _).
  rewrite Hlog in Hlog0. injection Hlog0 as <-.
  rewrite (run_gc_command_run d segs (log_root es) (log_snapshots es)), Hrun;
    [|done|done|by rewrite (load_store_numbered _ _ Hrep), Hlog].
  split; [by apply spec_gc|]. exists m', (es ++ es).
  split_and!; [|done|by rewrite Hl|by apply log_keeps_twice]. split; [done|by exists dir'|done].
Qed.

(** A root that loads resolves. *)
Lemma root_keeps_resolves (io : Io) r sp : healthy io → root_keeps io r sp → is_Some (file_storage_get io r).
Proof.
  intros Hh (_ & Hr & _). destruct (Hr io) as (s & Hs & _); [done|done|].
  unfold load_from_root in Hs. by destruct (file_storage_get io r).
Qed.

Lemma scrub_sim d l : store_holds d l → real_run EvScrub d = (d, OutScrubbed (Ok true)).
Proof.
  intros (m & es & Hlog & Hh & _ & [(r & Hr & Hk) _ _ _ Ha]).
  destruct (proj1 (proj2 Hk) (sd_io d)) as (s & Hs & _); [done|done|].
  destruct (run_scrub_clean d m es Hlog) as (rep & Hrun & Hclean).
  { intros r' Hr'. rewrite Hr in Hr'. injection Hr' as <-. by rewrite Hs. }
  cbn [real_run]. rewrite Hrun. cbn [fmap res_fmap]. rewrite (proj2 Hclean); [done|]. split.
  - unfold scrub_roots. rewrite Hr. constructor; [by eapply root_keeps_resolves|].
    apply Forall_fmap. eapply Forall_impl; [exact Ha|]. intros e [sp Hsp]. by eapply root_keeps_resolves.
  - intros r' Hr'. rewrite Hr in Hr'. injection Hr' as <-. by exists s.
Qed.

Lemma stats_sim vt0 host d l :
  store_holds d l →
  real_run (EvStats vt0 host) d = (d, OutStats (Ok (total_size (a_inodes (sp_tree (lf_fs l)))))).
Proof.
  intros (m & es & Hlog & Hh & _ & [(r & Hr & _ & Hk & _) _ _ _ _]).
  destruct (run_stats_run d m es r _ vt0 host Hlog Hr Hh Hk) as (st & Hrun & Hst & _).
  cbn [real_run]. rewrite Hrun. cbn [fmap res_fmap]. by rewrite Hst.
Qed.

(** One event. *)
Lemma real_run_sim ev d l :
  store_holds d l → event_fits ev d l →
  ∃ l', spec_step l ev (real_run ev d).2 l' ∧ store_holds (real_run ev d).1 l'.
Proof.
  intros Hd Hfit. destruct ev as [a|a p file io|now name faults|now reference faults|listing| |vt0 host].
  - destruct (mountpoint_in_use (ma_mountpoint a) (ma_table a)) eqn:Hmp.
    + exists l. cbn [real_run]. unfold run_mount. rewrite Hmp. split; [by apply spec_mount_in_use|done].
    + destruct (ma_fuse a) as [e|] eqn:Hf; [by apply (refused_sim a e)|].
      destruct (ma_snapshot a) as [reference|] eqn:Hs; [by apply (snapshot_sim a reference)|by apply mount_sim].
  - by apply kill_sim.
  - by apply create_sim.
  - by apply switch_sim.
  - by apply gc_sim.
  - exists l. rewrite (scrub_sim _ _ Hd). split; [constructor|done].
  - exists l. rewrite (stats_sim _ _ _ _ Hd). split; [constructor|done].
Qed.

Lemma real_runs_sim evs d l :
  store_holds d l → events_fit evs d l →
  ∃ l', spec_steps l evs (real_runs evs d).2 l' ∧ store_holds (real_runs evs d).1 l'.
Proof.
  revert d l. induction evs as [|ev evs IH]; intros d l Hd Hfit; [exists l; split; [constructor|done]|].
  destruct Hfit as [Hfit Hrest]. destruct (real_run_sim ev d l Hd Hfit) as (l1 & Hstep & Hd1).
  destruct (IH _ _ Hd1 (Hrest l1 Hstep Hd1)) as (l2 & Hsteps & Hd2). cbn [real_runs].
  destruct (real_run ev d) as [d1 out]. cbn [fst snd] in *.
  destruct (real_runs evs d1) as [d2 outs]. cbn [fst snd] in *. exists l2. split; [by eapply spec_more|done].
Qed.
End commands.

(* ------------------------------------------------------------------------ *)
(** ** Snapshots stay *)

Section saved.
Context {B : Blockset} {L : BlocksetLaws B}.
Implicit Types (l : Life).

Definition saved_below (b : Z) l : Prop := map_Forall (λ v _, v ≤ b) (lf_saved l).

Lemma saved_below_max l : saved_below (max_version (fst <$> lf_saved l)) l.
Proof. intros v x Hv. eapply max_version_ge. by rewrite lookup_fmap, Hv. Qed.

(** [l'] has all snapshots of [l] and at most one more version. *)
Definition saved_more (b : Z) l l' : Prop :=
  saved_below (b + 1) l' ∧ ∀ v x, lf_saved l !! v = Some x → lf_saved l' !! v = Some x.

Lemma saved_same b l l' : saved_below b l → lf_saved l' = lf_saved l → saved_more b l l'.
Proof.
  intros Hb Heq. split; unfold saved_below; rewrite Heq; [|done].
  eapply map_Forall_impl; [exact Hb|]. cbn. lia.
Qed.

Lemma saved_new b l l' now name e sp :
  0 ≤ b → b + 1 < 2 ^ 64 → saved_below b l → new_entry now name e l →
  lf_saved l' = <[sn_version e := (e, sp)]> (lf_saved l) → saved_more b l l'.
Proof.
  intros H0 H64 Hb (Hv & _) Heq.
  destruct (max_version_range (fst <$> lf_saved l) b H0) as [Hm0 Hmb].
  { apply map_Forall_fmap. exact Hb. }
  assert (sn_version e = max_version (fst <$> lf_saved l) + 1) as He.
  { rewrite Hv. unfold wrap64. apply Z.mod_small. lia. }
  split; unfold saved_below; rewrite Heq.
  - apply map_Forall_insert_2; [lia|]. eapply map_Forall_impl; [exact Hb|]. cbn. lia.
  - intros v x Hx. pose proof (saved_below_max l v x Hx) as Hle. cbn in Hle. rewrite lookup_insert_ne by lia. done.
Qed.

Lemma saved_committed b l k sp now name e :
  0 ≤ b → b + 1 < 2 ^ 64 → saved_below b l → new_entry now name e l → saved_more b l (committed k sp e l).
Proof.
  intros H0 H64 Hb He. destruct k as [|[|[|k]]]; [by apply saved_same..|]. by eapply saved_new.
Qed.

Lemma spec_step_saved b l (ev : Event B) out l' :
  0 ≤ b → b + 1 < 2 ^ 64 → saved_below b l → spec_step l ev out l' → saved_more b l l'.
Proof.
  intros H0 H64 Hb Hs. destruct Hs; try (by apply saved_same).
  - eapply (saved_committed b l _ sp'); eauto.
  - eapply (saved_committed b l k sp'); eauto.
  - by eapply saved_new.
  - by eapply saved_new.
Qed.

Lemma spec_steps_saved (evs : list (Event B)) outs l l' b :
  0 ≤ b → b + Z.of_nat (length evs) < 2 ^ 64 → saved_below b l → spec_steps l evs outs l' →
  ∀ v x, lf_saved l !! v = Some x → lf_saved l' !! v = Some x.
Proof.
  intros H0 H64 Hb Hs. revert b H0 H64 Hb. induction Hs as [|l ev out l1 evs outs l2 Hs _ IH]; [done|].
  intros b H0 H64 Hb v x Hx. cbn [length] in H64.
  destruct (spec_step_saved b l ev out l1 H0 ltac:(lia) Hb Hs) as [Hb1 Hkeep].
  apply (IH (b + 1)); [lia|lia|done|by apply Hkeep].
Qed.
End saved.
