(* ===== verification/Seed.v ===== *)
(** * Importing a directory tree

    [crates/slicefs-cli/src/seed.rs]: [run_seed] walks a source directory of the
    host and writes a store that holds a copy of it.  The walk is written against
    the operations of the [MetadataStore] trait that it uses, so that it runs on the
    store and on its specification. *)

From S2P Require Import Prelude Types Text Blockset Inode InodeMap Xattr Directory Segment Wal.
From S2P Require Import SegmentDir Store Mount.
From stdpp Require Import base tactics numbers option list gmap strings.
Open Scope Z_scope.

(** What [std::fs::metadata] tells about an entry. *)
Record HostMeta := mkHost {
  hm_mode : Z;
  hm_uid : Z;
  hm_gid : Z;
  hm_mtime : Z;
  hm_mtime_nsec : Z
}.

(** The source: links are followed, so that an entry is a file, a directory, something
    else, or cannot be read ([metadata], [read] or [read_dir] fails). *)
Inductive SourceNode :=
  | SrcFile (m : HostMeta) (content : option bytes)
  | SrcDir (m : HostMeta) (entries : list (bytes * SourceNode))
  | SrcUnreadableDir (m : HostMeta)
  | SrcOther (m : HostMeta)
  | SrcNoMetadata.

Inductive SeedError := SeedIo | SeedMeta (e : MetaError).

(** [file_inode_meta(fs_meta, size)] and [dir_inode_meta(fs_meta)]. *)
Definition file_inode_meta (m : HostMeta) (size : Z) : InodeMeta :=
  set_mtime (hm_mtime m) (wrap32 (hm_mtime_nsec m))
    (set_isize size (new_file 0 (hm_uid m) (hm_gid m) (Z.lor S_IFREG (Z.land (hm_mode m) 4095)))).
Definition dir_inode_meta (m : HostMeta) : InodeMeta :=
  new_directory 0 (hm_uid m) (hm_gid m) (Z.lor S_IFDIR (Z.land (hm_mode m) 4095)).

(** The operations of the walk: four of the [MetadataStore] trait, and
    [State::push_all] on the content store. *)
Class SeedTarget (S : Type) := {
  tgt_create_directory : Z → bytes → InodeMeta → M S MetaError Z;
  tgt_create_inode : InodeMeta → M S MetaError Z;
  tgt_link : Z → bytes → Z → M S MetaError unit;
  tgt_set_manifest : Z → list Digest224 → M S MetaError unit;
  tgt_push : bytes → M S MetaError Digest224
}.

(** [entries.sort_by_key(|e| e.file_name())], which is stable. *)
Section sort.
Context {A : Type}.
Fixpoint insert_by_name (x : bytes * A) (l : list (bytes * A)) : list (bytes * A) :=
  match l with
  | [] => [x]
  | y :: l => if bytes_leb x.1 y.1 then x :: y :: l else y :: insert_by_name x l
  end.
Definition sort_by_name (l : list (bytes * A)) : list (bytes * A) := foldr insert_by_name [] l.
End sort.

Section walk.
Context {S : Type} `{SeedTarget S}.

Definition seed_meta {A} (m : M S MetaError A) : M S SeedError A := map_err SeedMeta m.

(** [seed_file]: the inode number and the digest of the content. *)
Definition seed_file (m : HostMeta) (content : option bytes) : M S SeedError (Z * Digest224) :=
  bs ← lift (ok_or content SeedIo);
  content_digest ← seed_meta (tgt_push bs);
  ino ← seed_meta (tgt_create_inode (file_inode_meta m (len bs)));
  mret (ino, content_digest).

(** The loop of [walk_dir]; an action is what an entry does in its directory. *)
Fixpoint run_entries (acts : list (bytes * (bytes → Z → M S SeedError unit))) (parent : Z)
    : M S SeedError unit :=
  match acts with
  | [] => mret tt
  | (file_name, act) :: acts =>
      _ ← act (to_string_lossy file_name) parent;
      run_entries acts parent
  end.

(** One entry named [name] in the directory [parent]. *)
Fixpoint seed_entry (n : SourceNode) (name : bytes) (parent : Z) : M S SeedError unit :=
  match n with
  | SrcDir m entries =>
      ino ← seed_meta (tgt_create_directory parent name (dir_inode_meta m));
      run_entries (sort_by_name ((λ e, (e.1, seed_entry e.2)) <$> entries)) ino
  | SrcUnreadableDir m =>
      _ ← seed_meta (tgt_create_directory parent name (dir_inode_meta m));
      throw SeedIo
  | SrcFile m content =>
      p ← seed_file m content;
      _ ← seed_meta (tgt_link parent name p.1);
      seed_meta (tgt_set_manifest p.1 [p.2])
  | SrcOther _ => mret tt
  | SrcNoMetadata => throw SeedIo
  end.

(** [walk_dir] of a directory with these entries. *)
Definition walk_dir (entries : list (bytes * SourceNode)) (parent : Z) : M S SeedError unit :=
  run_entries (sort_by_name ((λ e, (e.1, seed_entry e.2)) <$> entries)) parent.
End walk.

Section seed.
Context {B : Blockset}.

#[export] Instance store_target : SeedTarget (DictMetadataStore B) := {|
  tgt_create_directory := create_directory;
  tgt_create_inode := create_inode;
  tgt_link := link;
  tgt_set_manifest := set_manifest;
  tgt_push := λ bs, with_io (push_all bs)
|}.

(** [root_inode.mode = ..; root_inode.uid = ..; root_inode.gid = ..]. *)
Definition seed_root (m : HostMeta) (root : InodeMeta) : InodeMeta :=
  set_gid (im_gid (dir_inode_meta m)) (set_uid (im_uid (dir_inode_meta m))
    (set_mode (im_mode (dir_inode_meta m)) root)).

(** The part of [run_seed] on the metadata store; [None] is a source whose entries
    cannot be read. *)
Definition seed_store (m : HostMeta) (entries : option (list (bytes * SourceNode)))
    : M (DictMetadataStore B) SeedError Digest224 :=
  root_inode ← seed_meta (get_inode 1);
  _ ← seed_meta (update_inode (seed_root m root_inode));
  es ← lift (ok_or entries SeedIo);
  _ ← walk_dir es 1;
  seed_meta commit.

(** [run_seed(store_path, source_dir)] in a process of user [uid] and group [gid]; the
    segment is created anew and closed with one sync. *)
Definition run_seed (uid gid : Z) (source : SourceNode) (faults : list bool)
    : M (StoreDir B) SeedError unit := λ d,
  let start m es :=
    let '(s, r) := seed_store m es (store_new uid gid (sd_io d)) in
    match r with
    | Ok root =>
        let '(w, ok) := segment_close (write_entry (RootUpdate root) (segment_writer_new 1 faults)) in
        (mkStoreDir B (sd_dictionary_bin d) (sd_mount_lock d)
           (Some (<[seg_name 1 := sw_synced w ++ sw_pending w]> (default ∅ (sd_segments d)))) (st_io s),
         if (ok : bool) then Ok tt else Err SeedIo)
    | Err e => (mkStoreDir B (sd_dictionary_bin d) (sd_mount_lock d) (sd_segments d) (st_io s), Err e)
    | Panic => (mkStoreDir B (sd_dictionary_bin d) (sd_mount_lock d) (sd_segments d) (st_io s), Panic)
    end in
  match source with
  | SrcDir m entries => start m (Some entries)
  | SrcUnreadableDir m | SrcFile m _ | SrcOther m => start m None
  | SrcNoMetadata =>
      (mkStoreDir B (sd_dictionary_bin d) (sd_mount_lock d) (sd_segments d)
         (st_io (store_new (B := B) uid gid (sd_io d))), Err SeedIo)
  end.
End seed.
