(* ===== verification/CommandLine.v ===== *)
(** * The command line

    [crates/slicefs-cli/src/cli.rs] and [main.rs]: the commands with their arguments, the
    dispatch, the exit status and the line that is printed for an error.  [clap] parses
    the arguments and is not modelled. *)

From S2P Require Import Prelude Types Text Blockset Inode InodeMap Xattr Directory Segment Wal.
From S2P Require Import SegmentDir Gc Store Filesystem Namespace Handlers Callbacks Backend Mount Unmount.
From S2P Require Import Calendar Commands Session Seed.
From stdpp Require Import base tactics numbers option list gmap strings.
Open Scope Z_scope.

(** [enum SnapshotAction], [enum Cmd] and [struct Cli]; paths are their text. *)
Inductive SnapshotAction :=
  | SnapCreate (store : bytes) (name : option bytes)
  | SnapList (store : bytes)
  | SnapSwitch (store : bytes) (version_or_name : bytes).
Inductive Cmd :=
  | CmdMount (mountpoint store : bytes) (noatime : bool) (cache_size : Z) (allow_other : bool)
      (wal_strategy snapshot : option bytes) (auto_snapshot : bool) (backend : option bytes) (force : bool)
  | CmdUnmount (mountpoint : bytes) (store : option bytes)
  | CmdSeed (store source_dir : bytes)
  | CmdGc (store : bytes)
  | CmdSnapshot (action : SnapshotAction)
  | CmdStats (store : bytes)
  | CmdScrub (store : bytes).
Record Cli := mkCli { cli_json : bool; cli_command : Cmd }.

(** What the host contributes: whether the mountpoint can be made, its canonical form,
    whether the session can be opened, the requests of the kernel, the source tree,
    directory listings, faults and times, and the outcomes of commands. *)
Record CliEnv := mkEnv {
  ev_mountpoint : option IoError;
  ev_canonical : option bytes;
  ev_fuse : option IoError;
  ev_calls : list KernelCall;
  ev_source : SourceNode;
  ev_vt0 : list HostEntry;
  ev_host : list HostEntry;
  ev_listing : list bytes;
  ev_faults : list bool;
  ev_now : Z * Z;
  ev_uid : Z;
  ev_gid : Z;
  ev_oracle : HostOracle
}.

Definition quote : byte := Byte.x22.
(** The text of [path.join(name)] for a relative name. *)
Definition join_text (path name : bytes) : bytes :=
  if decide (path = [] ∨ last path = Some Byte.x2f) then path ++ name else path ++ Byte.x2f :: name.

Section messages.
(** The text of an error of the operating system. *)
Context (io_text : IoError → bytes).

(** [Display] of the error types. *)
Definition meta_error_text (e : MetaError) : bytes :=
  match e with
  | NotFound ino => str "inode not found: " ++ fmt_dec ino
  | AlreadyExists ino => str "inode already exists: " ++ fmt_dec ino
  | NotADirectory ino => str "not a directory: " ++ fmt_dec ino
  | IsADirectory ino => str "is a directory: " ++ fmt_dec ino
  | NotEmpty ino => str "directory not empty: " ++ fmt_dec ino
  | InvalidName name => str "invalid name: " ++ name
  | Corrupted msg => str "corrupted data: " ++ str msg
  | MetaIo msg => str "I/O error: " ++ str msg
  end.
Definition segment_error_text (e : IoError) : bytes := str "segment I/O error: " ++ io_text e.
Definition wal_error_text (e : WalError) : bytes := match e with WalIo e => segment_error_text e end.
Definition lock_error_text (e : MountLockError) : bytes :=
  match e with
  | DirtyMount => str "dirty mount detected: mount.lock already exists"
  | LockIo e => str "mount lock I/O error: " ++ io_text e
  end.

Definition legacy_text (store : bytes) : bytes :=
  str "legacy store format detected at " ++ store ++ str ". Re-seed required: slicefs seed <store> <source>".
Definition not_found_text (store : bytes) : bytes :=
  str "store not found at " ++ store ++ str ": no segments/ directory".
Definition segments_text (e : IoError) : bytes := str "failed to load segments: " ++ segment_error_text e.
Definition no_state_text (store : bytes) : bytes :=
  str "no committed state found in segments at " ++ join_text store (str "segments").
Definition mounted_text (store advice : bytes) : bytes :=
  str "Store is mounted (mount.lock found at " ++ join_text store (str "mount.lock") ++
  str "). Unmount first " ++ advice ++ str ".".

Definition load_error_text (store : bytes) (e : LoadError) : bytes :=
  match e with
  | LegacyFormat => legacy_text store
  | StoreNotFound => not_found_text store
  | LockFailed e => str "failed to acquire mount lock after dirty mount: " ++ lock_error_text e
  | SegmentsFailed e => segments_text e
  | NoCommittedState => no_state_text store
  | ReconstructFailed e => str "failed to reconstruct metadata store: " ++ meta_error_text e
  end.
(** The line of the mount table that shows the mountpoint. *)
Definition table_line (canonical : bytes) (table : list bytes) : bytes :=
  from_option snd [] (list_find (λ line, mounted_path line = Some canonical) table).
Definition mount_error_text (mountpoint canonical store : bytes) (table : list bytes) (e : MountError) : bytes :=
  match e with
  | MountpointInUse =>
      str "mountpoint " ++ mountpoint ++ str " is already in use:" ++ [newline] ++ str "  " ++
      table_line canonical table ++ [newline] ++ str "Run `slicefs unmount " ++ mountpoint ++
      str "` or `umount " ++ mountpoint ++ str "` first."
  | MountLoad e => load_error_text store e
  | MountNoSnapshot reference => str "snapshot not found: " ++ reference
  | MountSnapshotLoad e => str "failed to load snapshot root: " ++ meta_error_text e
  | MountFuse e => io_text e
  end.
Definition unmount_error_text (mountpoint : bytes) : bytes :=
  str "Failed to unmount " ++ mountpoint ++ str ". Try: sudo diskutil unmount force " ++ mountpoint.
Definition seed_error_text (e : SeedError) : bytes :=
  match e with SeedIo => io_text (OtherIo "seed") | SeedMeta e => meta_error_text e end.
(** [Display] of the errors of the compaction and of the collector. *)
Definition compaction_error_text (e : IoError) : bytes := str "I/O error during compaction: " ++ io_text e.
Definition gc_failure_text (e : IoError) : bytes := str "Segment error: " ++ compaction_error_text e.
Definition gc_error_text (store : bytes) (e : GcCmdError) : bytes :=
  match e with
  | StoreMounted => mounted_text store (str "or use background GC")
  | GcSegments e => segments_text e
  | GcFailed e => str "GC failed: " ++ gc_failure_text e
  end.
(** [snapshot create] and [switch] word two of their errors in their own way, and [stats]
    one. *)
Definition cmd_error_text (store advice what reconstruct : bytes) (e : CmdError) : bytes :=
  match e with
  | CmdMounted => mounted_text store advice
  | CmdLegacyFormat => legacy_text store
  | CmdStoreNotFound => not_found_text store
  | CmdSegments e => segments_text e
  | CmdNoCommittedState => no_state_text store
  | CmdReconstruct e => str "failed to reconstruct " ++ reconstruct ++ str ": " ++ meta_error_text e
  | CmdSnapshotNotFound reference => str "snapshot not found: " ++ reference
  | CmdSnapshotFailed e => str "failed to create " ++ what ++ str ": " ++ meta_error_text e
  | CmdRootUpdate e => str "failed to write root update: " ++ meta_error_text e
  | CmdWalShutdown e => str "WAL shutdown failed: " ++ wal_error_text e
  end.
Definition scrub_found_text (n : Z) : bytes := str "scrub found " ++ fmt_dec n ++ str " error(s)".

(** [print_human_report]: the lines of the output, and the warning for the error output. *)
Definition scrub_message (e : ScrubError) : bytes :=
  match e with
  | MissingRoot hex => str "missing or corrupt root " ++ hex
  | TreeCorrupt e => str "metadata tree corrupt: " ++ meta_error_text e
  end.
Definition scrub_status (r : ScrubReport) : bytes :=
  if decide (sc_corrupted_roots r = 0) then str "clean"
  else str "corrupted (" ++ fmt_dec (sc_corrupted_roots r) ++ str " error(s))".
Definition print_human_report (r : ScrubReport) : list bytes * list bytes :=
  ([str "SliceFS Scrub Report"; str "====================";
    str "Roots verified   : " ++ fmt_dec (sc_roots_verified r);
    str "Corrupted roots  : " ++ fmt_dec (sc_corrupted_roots r);
    str "Status           : " ++ scrub_status r;
    str "Mounted          : " ++ (if sc_mounted r then str "yes" else str "no");
    str "Saturated blocks : " ++ fmt_dec (sc_saturated_blocks r)]
   ++ (if decide (sc_errors r = []) then []
       else [[]; str "Errors"; str "------"] ++ ((λ e, str "  " ++ scrub_message e) <$> sc_errors r)),
   if decide (0 < sc_saturated_blocks r)
   then [str "Warning: " ++ fmt_dec (sc_saturated_blocks r) ++ str " block(s) have saturated refcounts (immortal " ++
         [Byte.xe2; Byte.x80; Byte.x94] ++ str " will not be GC'd)"]
   else []).

(* ---------------------------------------------------------------------- *)
(** ** The commands *)

Section commands.
Context {B : Blockset} (ev : CliEnv).

(** The stores by path, and what was done on the host. *)
Record Machine := mkMachine {
  mc_stores : bytes → StoreDir B;
  mc_actions : list HostAction
}.
Definition put_store (path : bytes) (d : StoreDir B) (mc : Machine) : Machine :=
  mkMachine (λ p, if decide (p = path) then d else mc_stores mc p) (mc_actions mc).
Definition on_store {E A} (path : bytes) (m : M (StoreDir B) E A) : M Machine E A :=
  zoom (λ mc, mc_stores mc path) (put_store path) m.
(** A command that only reads the store. *)
Definition reading {E A} (g : StoreDir B → res E A) : M (StoreDir B) E A := λ d, (d, g d).
Definition discard {S E A} (m : M S E A) : M S E unit := _ ← m; mret tt.

(** [Command::new(prog).args(args).output()] and what it wrote to its output. *)
Definition host_output {E} (prog : bytes) (args : list bytes) : M Machine E (option bytes) := λ mc,
  (mkMachine (mc_stores mc) (mc_actions mc ++ [Exec prog args]),
   Ok (ho_output (ev_oracle ev) (mc_actions mc) prog args)).

(** [run_mount] with the checks before it: [mount] without arguments prints the table. *)
Definition run_mount_cmd (mountpoint store : bytes) (noatime allow_other : bool)
    (wal_strategy snapshot : option bytes) (auto_snapshot : bool) : M Machine bytes unit :=
  match ev_mountpoint ev with
  | Some e => throw (str "failed to create mountpoint " ++ mountpoint ++ str ": " ++ io_text e)
  | None =>
      let canonical := default mountpoint (ev_canonical ev) in
      output ← host_output (str "mount") [];
      match (output : option bytes) with
      | Some stdout =>
          let table := lines (to_string_lossy stdout) in
          map_err (mount_error_text mountpoint canonical store table)
            (discard (on_store store (run_mount canonical table (parse_wal_config wal_strategy) (ev_faults ev)
                                        snapshot noatime allow_other auto_snapshot (ev_fuse ev) (ev_calls ev)
                                        (ev_now ev))))
      | None => throw (str "failed to run `mount`: " ++ io_text (OtherIo "mount"))
      end
  end.
(** Without a store the directory is not looked at. *)
Definition run_unmount_cmd (mountpoint : bytes) (store : option bytes) : M Machine bytes unit := λ mc,
  let path := default [] store in
  let '(w, r) := run_unmount (ev_oracle ev) mountpoint (bool_decide (is_Some store)) (mc_actions mc, mc_stores mc path) in
  let mc := mkMachine (mc_stores mc) w.1 in
  (if store is Some path then put_store path w.2 mc else mc, res_map_err unmount_error_text r).
Definition run_snapshot_cmd (action : SnapshotAction) : M Machine bytes unit :=
  match action with
  | SnapCreate store name =>
      map_err (cmd_error_text store (str "before creating snapshots") (str "snapshot") (str "metadata store"))
        (discard (on_store store (run_snapshot_create (ev_now ev).1 name (ev_faults ev))))
  | SnapList store =>
      map_err (cmd_error_text store [] [] []) (discard (on_store store (reading run_snapshot_list)))
  | SnapSwitch store version_or_name =>
      map_err (cmd_error_text store (str "before switching snapshots") (str "auto-snapshot") (str "metadata store"))
        (discard (on_store store (run_snapshot_switch (ev_now ev).1 version_or_name (ev_faults ev))))
  end.
Definition run_scrub_cmd (store : bytes) : M Machine bytes unit :=
  report ← map_err (cmd_error_text store [] [] []) (on_store store (reading run_scrub));
  if decide (0 < sc_corrupted_roots report) then throw (scrub_found_text (sc_corrupted_roots report)) else mret tt.

(** The name of a command in its error line, and what it runs. *)
Definition dispatch (c : Cmd) : bytes * M Machine bytes unit :=
  match c with
  | CmdMount mountpoint store noatime _ allow_other wal_strategy snapshot auto_snapshot _ _ =>
      (str "mount", run_mount_cmd mountpoint store noatime allow_other wal_strategy snapshot auto_snapshot)
  | CmdUnmount mountpoint store => (str "unmount", run_unmount_cmd mountpoint store)
  | CmdSeed store source_dir =>
      (str "seed", map_err seed_error_text
                     (on_store store (run_seed (ev_uid ev) (ev_gid ev) (ev_source ev) (ev_faults ev))))
  | CmdGc store =>
      (str "gc", map_err (gc_error_text store)
                   (discard (on_store store (run_gc_command (ev_listing ev) (ev_faults ev)))))
  | CmdSnapshot action => (str "snapshot", run_snapshot_cmd action)
  | CmdStats store =>
      (str "stats", map_err (cmd_error_text store [] [] (str "metadata"))
                      (discard (on_store store (reading (run_stats (ev_vt0 ev) (ev_host ev))))))
  | CmdScrub store => (str "scrub", run_scrub_cmd store)
  end.

(** The line for an error. *)
Definition error_line (json : bool) (name text : bytes) : bytes :=
  if json then str "{" ++ [quote] ++ str "error" ++ [quote] ++ str ": " ++ [quote] ++ text ++ [quote] ++ str "}"
  else str "slicefs " ++ name ++ str " error: " ++ text.

(** How the process ends: the exit status and the error line, or a panic. *)
Inductive Exit := Exited (status : Z) (error : option bytes) | Panicked.

Definition main (cli : Cli) (mc : Machine) : Machine * Exit :=
  let '(name, run) := dispatch (cli_command cli) in
  let '(mc, r) := run mc in
  (mc, match r with
       | Ok _ => Exited 0 None
       | Err e => Exited 1 (Some (error_line (cli_json cli) name e))
       | Panic => Panicked
       end).
End commands.
End messages.
