(* ===== verification/SeedRefine.v ===== *)
(** * The imported tree

    The walk of [Seed] runs on the abstract file system too; an abstract state with a
    proposition collects what every operation needs of the content store and of the
    number ranges.  Where that holds, the store does what the specification does; and
    the specification builds a copy of the source. *)

From S2P Require Import Prelude Types Text Blockset Inode InodeMap Xattr Directory Segment Wal.
From S2P Require Import SegmentDir Store StoreSpec StoreRefine StoreCommit Mount MountRefine Seed.
From stdpp Require Import base tactics numbers option list gmap strings.
Open Scope Z_scope.

(** Induction on the source with a hypothesis for every entry of a directory. *)
Section source_ind.
Context (P : SourceNode → Prop).
Context (Hfile : ∀ m c, P (SrcFile m c)).
Context (Hdir : ∀ m es, Forall (λ e, P e.2) es → P (SrcDir m es)).
Context (Hud : ∀ m, P (SrcUnreadableDir m)).
Context (Hother : ∀ m, P (SrcOther m)) (Hnone : P SrcNoMetadata).

Fixpoint source_ind' (n : SourceNode) : P n :=
  match n with
  | SrcFile m c => Hfile m c
  | SrcDir m es =>
      Hdir m es ((fix go (es : list (bytes * SourceNode)) : Forall (λ e, P e.2) es :=
                    match es with
                    | [] => Forall_nil_2 _
                    | e :: es => Forall_cons_2 _ e es (source_ind' e.2) (go es)
                    end) es)
  | SrcUnreadableDir m => Hud m
  | SrcOther m => Hother m
  | SrcNoMetadata => Hnone
  end.
End source_ind.

(** Sorting and changing the values commute. *)
Lemma sort_by_name_fmap {A A'} (g : A → A') (l : list (bytes * A)) :
  sort_by_name ((λ e, (e.1, g e.2)) <$> l) = (λ e, (e.1, g e.2)) <$> sort_by_name l.
Proof.
  induction l as [|x l IH]; [done|]. cbn [fmap list_fmap sort_by_name foldr].
  change (foldr insert_by_name [] ?k) with (sort_by_name k). rewrite IH. clear IH.
  induction (sort_by_name l) as [|y k IHk]; [done|]. cbn [fmap list_fmap insert_by_name fst].
  destruct (bytes_leb x.1 y.1); [done|]. cbn [fmap list_fmap]. by rewrite <-IHk.
Qed.

Lemma sort_by_name_perm {A} (l : list (bytes * A)) : sort_by_name l ≡ₚ l.
Proof.
  induction l as [|x l IH]; [done|]. cbn [sort_by_name foldr].
  change (foldr insert_by_name [] l) with (sort_by_name l). rewrite <-IH at 2. clear IH.
  induction (sort_by_name l) as [|y k IHk]; [done|]. cbn [insert_by_name].
  destruct (bytes_leb x.1 y.1); [done|]. rewrite IHk. apply Permutation_swap.
Qed.

(* ------------------------------------------------------------------------ *)
(** ** The walk on the specification *)

Section spec.
Context {B : Blockset} {L : BlocksetLaws B}.
Implicit Types (s : DictMetadataStore B) (a : AbsFs).

(** An abstract state and what was needed so far. *)
Definition Checked : Type := AbsFs * Prop.
Definition checked {A} (need : AbsFs → Prop) (m : M AbsFs MetaError A) : M Checked MetaError A := λ c,
  let '(a, r) := m c.1 in ((a, c.2 ∧ need c.1), r).

#[export] Instance checked_target : SeedTarget Checked := {|
  tgt_create_directory := λ parent name meta,
    checked (λ a, mkdir_room a parent name meta) (abs_create_directory parent name meta);
  tgt_create_inode := λ meta,
    checked (λ a, a_next a + 1 < 2 ^ 64 ∧ wf_inode (set_ino (a_next a) meta) ∧
                  admissible (serialize_inode (set_ino (a_next a) meta)) ∧
                  total_size (a_inodes a) + im_size meta < 2 ^ 64)
      (abs_create_inode meta);
  tgt_link := λ parent name ino,
    checked (λ a, name_ok name ∧ is_u64 ino ∧ dir_room a parent name ino) (abs_link parent name ino);
  tgt_set_manifest := λ ino blocks,
    checked (λ a, is_u64 ino ∧ Forall wf_digest blocks ∧ admissible (serialize_manifest blocks))
      (abs_set_manifest ino blocks);
  tgt_push := λ bs, checked (λ a, admissible bs) (λ a, (a, Ok (digest_of bs)))
|}.

(** The contents of the files of a source. *)
Fixpoint contents (n : SourceNode) : list bytes :=
  match n with
  | SrcFile _ (Some c) => [c]
  | SrcDir _ es => flat_map (λ e, contents e.2) es
  | _ => []
  end.

(** Where everything that [spec] needs holds, [c] returns the same and represents its
    state; if it succeeds, the contents [C] are stored.  What is needed only grows. *)
Definition simulates {E A} (C : list bytes) (c : M (DictMetadataStore B) E A) (spec : M Checked E A) : Prop :=
  ∀ s a P, ((spec (a, P)).1.2 → P) ∧
    (store_rep s a → (spec (a, P)).1.2 →
     (c s).2 = (spec (a, P)).2 ∧ store_rep (c s).1 (spec (a, P)).1.1 ∧ st_io s ⊑ᵢ st_io (c s).1 ∧
     (∀ x, (c s).2 = Ok x → Forall (stored (st_io (c s).1)) C)).

Lemma simulates_refines {A} need (c : M (DictMetadataStore B) MetaError A) spec :
  (∀ s a, store_rep s a → need a → refines c spec s a) → simulates [] c (checked need spec).
Proof.
  intros Hc s a P. unfold checked. cbn [fst snd]. destruct (spec a) as [a' r] eqn:E. cbn [fst snd].
  split; [by intros []|]. intros Hr [_ Hn]. destruct (Hc s a Hr Hn) as (H1 & H2 & H3).
  by rewrite E in H1, H2.
Qed.

Lemma simulates_ret {E A} (x : A) : simulates (E := E) [] (mret x) (mret x).
Proof. intros s a P. by split. Qed.
Lemma simulates_lift {E A} (r : res E A) : simulates [] (lift r) (lift r).
Proof. intros s a P. by split. Qed.
Lemma simulates_throw {E A} C (e : E) : simulates (A := A) C (throw e) (throw e).
Proof. intros s a P. by split. Qed.
Lemma simulates_map_err {E E' A} C (g : E → E') (c : M _ E A) spec :
  simulates C c spec → simulates C (map_err g c) (map_err g spec).
Proof.
  intros Hc s a P. destruct (Hc s a P) as [H1 H2]. unfold map_err.
  destruct (c s) as [s' r], (spec (a, P)) as [[a' P'] r']. cbn [fst snd] in *. split; [done|].
  intros Hr HP. destruct (H2 Hr HP) as (-> & ? & ? & HC). split_and!; [done|done|done|].
  intros x Hx. destruct r' as [y|e|]; [|done..]. by apply (HC y).
Qed.
Lemma simulates_bind {E A A'} C C' (c : M _ E A) spec (k : A → M _ E A') kspec :
  simulates C c spec → (∀ x, simulates C' (k x) (kspec x)) →
  simulates (C ++ C') (c ≫= k) (spec ≫= kspec).
Proof.
  intros Hc Hk s a P. destruct (Hc s a P) as [H1 H2]. rewrite !run_bind.
  destruct (spec (a, P)) as [[a1 P1] r1] eqn:Es. cbn [fst snd] in *.
  destruct r1 as [x|e|]; cbn [fst snd].
  - destruct (c s) as [s1 r] eqn:Ec. cbn [fst snd] in *. destruct (Hk x s1 a1 P1) as [H3 H4].
    split; [auto|]. intros Hr HP. destruct (H2 Hr (H3 HP)) as (-> & Hr1 & Hle & HC). cbn [fst snd].
    destruct (H4 Hr1 HP) as (? & ? & Hle' & HC'). split_and!; [done|done|by etransitivity|].
    intros y Hy. apply Forall_app. split; [|by apply (HC' y)].
    eapply Forall_impl; [by apply (HC x)|]. intros bs. by apply stored_mono.
  - split; [done|]. intros Hr HP. destruct (H2 Hr HP) as (Hres & Hr1 & Hle & _).
    destruct (c s) as [s1 r]. cbn [fst snd] in *. by rewrite Hres.
  - split; [done|]. intros Hr HP. destruct (H2 Hr HP) as (Hres & Hr1 & Hle & _).
    destruct (c s) as [s1 r]. cbn [fst snd] in *. by rewrite Hres.
Qed.

Lemma push_simulates bs :
  simulates [bs] (tgt_push (S := DictMetadataStore B) bs) (tgt_push (S := Checked) bs).
Proof.
  intros s a P. cbn [tgt_push checked_target store_target]. unfold checked. cbn [fst snd].
  split; [by intros []|]. intros Hr [_ Hadm].
  destruct (push_all_spec bs _ (rep_io _ _ Hr) Hadm) as (Hh & Hle & Hst).
  rewrite with_io_push. cbn [fst snd]. split_and!; [done|by apply rep_io_grows|done|].
  intros _ _. by constructor.
Qed.

Lemma seed_file_simulates m content :
  simulates (contents (SrcFile m content)) (seed_file (S := DictMetadataStore B) m content)
    (seed_file (S := Checked) m content).
Proof.
  destruct content as [c|]; [|apply (simulates_throw (A := Z * Digest224) [] SeedIo)].
  change (simulates ([c] ++ [] ++ [])
    (content_digest ← seed_meta (S := DictMetadataStore B) (tgt_push c);
     ino ← seed_meta (tgt_create_inode (file_inode_meta m (len c))); mret (ino, content_digest))
    (content_digest ← seed_meta (S := Checked) (tgt_push c);
     ino ← seed_meta (tgt_create_inode (file_inode_meta m (len c))); mret (ino, content_digest))).
  apply simulates_bind; [apply simulates_map_err, push_simulates|intros dg].
  apply simulates_bind; [|intros ino; apply simulates_ret].
  apply simulates_map_err, simulates_refines. intros s a Hr (? & ? & ? & ?). by apply create_inode_refines.
Qed.

Lemma simulates_perm {E A} C C' (c : M _ E A) spec : C ≡ₚ C' → simulates C c spec → simulates C' c spec.
Proof.
  intros Hp Hc s a P. destruct (Hc s a P) as [H1 H2]. split; [done|]. intros Hr HP.
  destruct (H2 Hr HP) as (? & ? & ? & HC). split_and!; try done. intros x Hx. rewrite <-Hp. by apply (HC x).
Qed.

Lemma run_entries_simulates (es : list (bytes * SourceNode)) parent :
  Forall (λ e, ∀ name p, simulates (contents e.2) (seed_entry (S := DictMetadataStore B) e.2 name p)
                                   (seed_entry (S := Checked) e.2 name p)) es →
  simulates (flat_map (λ e, contents e.2) es) (walk_dir (S := DictMetadataStore B) es parent)
    (walk_dir (S := Checked) es parent).
Proof.
  intros Hes. unfold walk_dir. rewrite !sort_by_name_fmap.
  apply (simulates_perm (flat_map (λ e, contents e.2) (sort_by_name es)));
    [apply Permutation_flat_map, sort_by_name_perm|].
  assert (Forall (λ e, ∀ name p, simulates (contents e.2) (seed_entry (S := DictMetadataStore B) e.2 name p)
            (seed_entry (S := Checked) e.2 name p)) (sort_by_name es)) as Hs
    by (by rewrite sort_by_name_perm).
  induction Hs as [|e es' He _ IH]; cbn [fmap list_fmap run_entries flat_map]; [apply simulates_ret|].
  by apply simulates_bind.
Qed.

Lemma seed_entry_simulates n : ∀ name parent,
  simulates (contents n) (seed_entry (S := DictMetadataStore B) n name parent)
    (seed_entry (S := Checked) n name parent).
Proof.
  assert (∀ m name parent, simulates [] (seed_meta (create_directory (B := B) parent name (dir_inode_meta m)))
    (seed_meta (S := Checked) (tgt_create_directory parent name (dir_inode_meta m)))) as Hmk.
  { intros m name parent. apply simulates_map_err, simulates_refines.
    intros s a Hr Hroom. by apply create_directory_refines. }
  induction n as [m c|m es IH|m|m|] using source_ind'; intros name parent; cbn [seed_entry].
  - rewrite <-(app_nil_r (contents _)). apply simulates_bind; [apply seed_file_simulates|]. intros [ino dg].
    apply (simulates_bind [] []); [|intros _]; apply simulates_map_err, simulates_refines.
    + intros s a Hr (? & ? & ?). by apply link_refines.
    + intros s a Hr (? & ? & ?). by apply set_manifest_refines.
  - apply (simulates_bind []); [apply Hmk|]. intros ino. by apply run_entries_simulates.
  - apply (simulates_bind []); [apply Hmk|]. intros _. apply simulates_throw.
  - apply simulates_ret.
  - apply simulates_throw.
Qed.

(** The walk on the store does what the walk on the specification does. *)
Lemma walk_dir_simulates es parent :
  simulates (flat_map (λ e, contents e.2) es) (walk_dir (S := DictMetadataStore B) es parent)
    (walk_dir (S := Checked) es parent).
Proof. apply run_entries_simulates, Forall_forall. intros e _. apply seed_entry_simulates. Qed.
End spec.

(* ------------------------------------------------------------------------ *)
(** ** What the walk builds *)

(** The entries that are imported, and those that are directories. *)
Definition visible (n : SourceNode) : bool :=
  match n with SrcFile _ _ | SrcDir _ _ | SrcUnreadableDir _ => true | _ => false end.
Definition is_src_dir (n : SourceNode) : bool :=
  match n with SrcDir _ _ => true | _ => false end.
Definition seed_names (es : list (bytes * SourceNode)) : list bytes :=
  (λ e, to_string_lossy e.1) <$> filter (λ e, visible e.2 = true) es.
Definition subdirs (es : list (bytes * SourceNode)) : nat :=
  length (filter (λ e, is_src_dir e.2 = true) es).

(** [P] of every entry, in a form that recursion on the tree accepts. *)
Fixpoint all_entries (P : bytes → SourceNode → Prop) (es : list (bytes * SourceNode)) : Prop :=
  match es with
  | [] => True
  | e :: es => P e.1 e.2 ∧ all_entries P es
  end.
Lemma all_entries_Forall P es : all_entries P es ↔ Forall (λ e, P e.1 e.2) es.
Proof.
  induction es as [|e es IH]; cbn [all_entries]; [by split; [constructor|]|]. by rewrite Forall_cons, IH.
Qed.

(** A source that can be imported: everything can be read, and the names of a
    directory stay different from each other, [.] and [..] as strings. *)
Fixpoint wf_source (n : SourceNode) : Prop :=
  match n with
  | SrcFile _ c => c ≠ None
  | SrcDir _ es =>
      NoDup (seed_names es) ∧ Forall (λ nm, nm ≠ dot ∧ nm ≠ dotdot) (seed_names es) ∧
      all_entries (λ _, wf_source) es
  | SrcOther _ => True
  | SrcUnreadableDir _ | SrcNoMetadata => False
  end.

Section copy.
Context {B : Blockset} {L : BlocksetLaws B}.
Implicit Types (a : AbsFs).

Lemma dir_inode_meta_mode m : Z.land (im_mode (dir_inode_meta m)) S_IFDIR = S_IFDIR.
Proof.
  cbn [dir_inode_meta new_directory im_mode]. apply Z.bits_inj'. intros k Hk.
  rewrite Z.land_spec, Z.lor_spec. by destruct (Z.testbit S_IFDIR k), (Z.testbit (Z.land _ _) k).
Qed.

Lemma dir_inode_of_meta ino m : dir_inode ino (dir_inode_meta m) = set_ino ino (dir_inode_meta m).
Proof.
  unfold dir_inode. cbn zeta. rewrite decide_False; [done|].
  change (im_mode (set_ino ino (dir_inode_meta m))) with (im_mode (dir_inode_meta m)).
  by rewrite dir_inode_meta_mode.
Qed.

(** The inode of a copied file has the permissions, owner, size and modification time of the
    file, one link and no time of change; that of a directory its permissions and owner, two
    links and no times. *)
Definition copied_file (ino : Z) (m : HostMeta) (size : Z) : InodeMeta :=
  mkInode ino (Z.lor S_IFREG (Z.land (hm_mode m) 4095)) (hm_uid m) (hm_gid m) 1 size
    (hm_mtime m) (hm_mtime_nsec m mod 2 ^ 32) 0 0.
Definition copied_dir (ino : Z) (m : HostMeta) : InodeMeta :=
  mkInode ino (Z.lor S_IFDIR (Z.land (hm_mode m) 4095)) (hm_uid m) (hm_gid m) 2 0 0 0 0 0.
Lemma copied_dir_eq ino m : dir_inode ino (dir_inode_meta m) = copied_dir ino m.
Proof. by rewrite dir_inode_of_meta. Qed.

(** Inode [ino] of [a] is a copy of the source: files with their attributes and one
    block, which is their content, directories with their entries, a link for each
    directory in them, and nothing else. *)
Fixpoint holds_tree a (ino : Z) (n : SourceNode) : Prop :=
  match n with
  | SrcFile m content =>
      ∃ c, content = Some c ∧
        a_inodes a !! ino = Some (copied_file ino m (len c)) ∧
        a_manifests a !! ino = Some [digest_of c]
  | SrcDir m es =>
      a_inodes a !! ino = Some (Nat.iter (subdirs es) add_link (copied_dir ino m)) ∧
      ∃ D, a_dirs a !! ino = Some D ∧
        all_entries (λ nm n, visible n = true →
          ∃ child, D !! to_string_lossy nm = Some child ∧ ino < child ∧ holds_tree a child n) es ∧
        ∀ nm, nm ∉ seed_names es → nm ≠ dot → nm ≠ dotdot → D !! nm = None
  | _ => False
  end.

(** What is there stays as it is, except at [p]. *)
Definition frame_except a a' (p : Z) : Prop :=
  ∀ k, is_Some (a_inodes a !! k) → k ≠ p →
    a_inodes a' !! k = a_inodes a !! k ∧ a_dirs a' !! k = a_dirs a !! k ∧
    a_manifests a' !! k = a_manifests a !! k.
Definition numbers_below a : Prop := ∀ k, is_Some (a_inodes a !! k) → k < a_next a.

Lemma frame_trans a1 a2 a3 p : frame_except a1 a2 p → frame_except a2 a3 p → frame_except a1 a3 p.
Proof.
  intros H1 H2 k Hk Hp. destruct (H1 k Hk Hp) as (E1 & E2 & E3).
  destruct (H2 k) as (F1 & F2 & F3); [by rewrite E1|done|]. by rewrite F1, F2, F3.
Qed.

Lemma holds_tree_frame a a' p n : ∀ ino,
  holds_tree a ino n → p < ino → frame_except a a' p → holds_tree a' ino n.
Proof.
  induction n as [m c|m es IH|m|m|] using source_ind'; intros ino; cbn [holds_tree]; [..|done|done|done].
  - intros (bs & -> & Hi & Hm) Hp Hf. destruct (Hf ino) as (-> & _ & ->); [by rewrite Hi|lia|]. by exists bs.
  - intros (Hi & D & HD & Hes & Hrest) Hp Hf. destruct (Hf ino) as (-> & -> & _); [by rewrite Hi|lia|].
    split; [done|]. exists D. split_and!; [done| |done].
    rewrite all_entries_Forall in *. rewrite Forall_forall in *. intros e He Hv.
    destruct (Hes e He Hv) as (child & Hc & Hlt & Ht). exists child. split_and!; [done|done|].
    apply (IH e He); [done|lia|done].
Qed.

(** What a list of entries adds to the directory [parent] with entries [D]. *)
Record entered a a' (parent : Z) (pm : InodeMeta) (D : gmap bytes Z) (l : list (bytes * SourceNode)) : Prop := {
  en_below : numbers_below a';
  en_frame : frame_except a a' parent;
  en_parent : a_inodes a' !! parent = Some (Nat.iter (subdirs l) add_link pm);
  en_dir : ∃ D', a_dirs a' !! parent = Some D' ∧
    Forall (λ e, visible e.2 = true →
      ∃ child, D' !! to_string_lossy e.1 = Some child ∧ parent < child ∧ holds_tree a' child e.2) l ∧
    ∀ nm, nm ∉ seed_names l → D' !! nm = D !! nm
}.

(** The directory before. *)
Record enterable a (parent : Z) (pm : InodeMeta) (D : gmap bytes Z) : Prop := {
  eb_below : numbers_below a;
  eb_parent : a_inodes a !! parent = Some pm;
  eb_mode : Z.land (im_mode pm) S_IFDIR ≠ 0;
  eb_dir : a_dirs a !! parent = Some D
}.

(** What one entry has to do. *)
Definition enters (n : SourceNode) : Prop :=
  ∀ nm parent a P pm D, wf_source n → enterable a parent pm D →
    (visible n = true → nm ≠ dot ∧ nm ≠ dotdot ∧ D !! nm = None) →
    ∃ a' P', seed_entry (S := Checked) n nm parent (a, P) = ((a', P'), Ok tt) ∧
      numbers_below a' ∧ frame_except a a' parent ∧
      a_inodes a' !! parent = Some (if is_src_dir n then add_link pm else pm) ∧
      a_dirs a' !! parent = Some (if visible n then <[nm := a_next a]> D else D) ∧
      (visible n = true → holds_tree a' (a_next a) n).

Lemma iter_add_link_mode k m : im_mode (Nat.iter k add_link m) = im_mode m.
Proof. induction k as [|k IH]; [done|]. exact IH. Qed.
(** The names of a list with one more entry. *)
Lemma seed_names_cons fn n l :
  seed_names ((fn, n) :: l) = (if visible n then [to_string_lossy fn] else []) ++ seed_names l.
Proof. unfold seed_names. rewrite filter_cons. cbn [snd]. destruct (visible n); by case_decide. Qed.
Lemma subdirs_cons fn n l : subdirs ((fn, n) :: l) = ((if is_src_dir n then 1 else 0) + subdirs l)%nat.
Proof. unfold subdirs. rewrite filter_cons. cbn [snd]. destruct (is_src_dir n); by case_decide. Qed.

(** The directory after the first entry can take the others. *)
Lemma enterable_next a a1 parent pm D nm n :
  enterable a parent pm D → numbers_below a1 →
  a_inodes a1 !! parent = Some (if is_src_dir n then add_link pm else pm) →
  a_dirs a1 !! parent = Some (if visible n then <[nm := a_next a]> D else D) →
  enterable a1 parent (if is_src_dir n then add_link pm else pm)
    (if visible n then <[nm := a_next a]> D else D).
Proof. intros [] Hb Hp HD. split; [done|done| |done]. by destruct (is_src_dir n). Qed.

Lemma entered_cons a a1 a' parent pm D fn n l :
  enterable a parent pm D → frame_except a a1 parent →
  (visible n = true → holds_tree a1 (a_next a) n) →
  NoDup (seed_names ((fn, n) :: l)) →
  entered a1 a' parent (if is_src_dir n then add_link pm else pm)
    (if visible n then <[to_string_lossy fn := a_next a]> D else D) l →
  entered a a' parent pm D ((fn, n) :: l).
Proof.
  intros [Hbelow Hpar _ _] Hf1 Ht1 Hnd [Hb Hf Hp (D' & HD' & Hes & Hrest)].
  assert (parent < a_next a) as Hlt by (apply Hbelow; by rewrite Hpar).
  rewrite seed_names_cons in Hnd. split.
  - done.
  - by eapply frame_trans.
  - rewrite Hp, subdirs_cons. destruct (is_src_dir n); [|done]. f_equal. apply Nat.iter_swap.
  - exists D'. split_and!; [done| |].
    + constructor; [|exact Hes]. cbn [fst snd]. intros Hv. rewrite Hv in *.
      exists (a_next a). apply NoDup_app in Hnd as (_ & Hnot & _). split_and!; [|done|].
      * rewrite Hrest; [by rewrite lookup_insert_eq|]. apply Hnot. by left.
      * by eapply holds_tree_frame; [apply Ht1| |].
    + intros nm Hnm. rewrite seed_names_cons, not_elem_of_app in Hnm. destruct Hnm as [Hn1 Hn2].
      rewrite Hrest by done. destruct (visible n); [|done].
      rewrite lookup_insert_ne; [done|]. intros <-. apply Hn1. by left.
Qed.

Lemma run_entries_enter l : ∀ a P parent pm D,
  Forall (λ e, enters e.2 ∧ wf_source e.2) l → enterable a parent pm D →
  NoDup (seed_names l) → Forall (λ nm, nm ≠ dot ∧ nm ≠ dotdot ∧ D !! nm = None) (seed_names l) →
  ∃ a' P', run_entries (S := Checked) ((λ e, (e.1, seed_entry e.2)) <$> l) parent (a, P)
             = ((a', P'), Ok tt) ∧ entered a a' parent pm D l.
Proof.
  induction l as [|[fn n] l IH]; intros a P parent pm D Hl Hpre Hnd Hfree.
  { destruct Hpre. exists a, P. split; [done|]. split; [done|by intros k|done|].
    exists D. split_and!; [done|constructor|done]. }
  apply Forall_cons in Hl as [[Hen Hwf] Hl]. cbn [fmap list_fmap run_entries fst snd] in *.
  rewrite seed_names_cons in Hfree. apply Forall_app in Hfree as [Hfree1 Hfree2].
  destruct (Hen (to_string_lossy fn) parent a P pm D Hwf Hpre) as (a1 & P1 & Hrun & Hb1 & Hf1 & Hp1 & HD1 & Ht1).
  { intros Hv. rewrite Hv in Hfree1. by apply Forall_cons in Hfree1 as [? _]. }
  rewrite run_bind, Hrun.
  pose proof (enterable_next _ _ _ _ _ _ _ Hpre Hb1 Hp1 HD1) as Hpre1.
  pose proof Hnd as Hnd'. rewrite seed_names_cons in Hnd'. apply NoDup_app in Hnd' as (_ & Hnot & Hnd2).
  destruct (IH a1 P1 parent _ _ Hl Hpre1 Hnd2) as (a' & P' & Hrun' & Hent).
  { rewrite Forall_forall in Hfree2 |- *. intros nm Hnm. destruct (Hfree2 nm Hnm) as (? & ? & ?).
    split_and!; [done|done|]. destruct (visible n); [|done]. rewrite lookup_insert_ne; [done|].
    intros <-. apply (Hnot (to_string_lossy fn)); [by left|done]. }
  exists a', P'. split; [exact Hrun'|]. by eapply entered_cons.
Qed.

(** The same for the sorted entries of a directory. *)
Lemma entered_perm a a' parent pm D l l' : l ≡ₚ l' → entered a a' parent pm D l → entered a a' parent pm D l'.
Proof.
  intros Hp [Hb Hf Hpar (D' & HD' & Hes & Hrest)].
  assert (seed_names l ≡ₚ seed_names l') as Hn by (unfold seed_names; by rewrite Hp).
  assert (subdirs l = subdirs l') as Hs by (unfold subdirs; by rewrite Hp).
  split; [done|done|by rewrite <-Hs|]. exists D'. split_and!; [done|by rewrite <-Hp|].
  intros nm Hnm. apply Hrest. by rewrite Hn.
Qed.

Lemma walk_dir_enter es a P parent pm D :
  Forall (λ e, enters e.2 ∧ wf_source e.2) es → enterable a parent pm D →
  NoDup (seed_names es) → Forall (λ nm, nm ≠ dot ∧ nm ≠ dotdot ∧ D !! nm = None) (seed_names es) →
  ∃ a' P', walk_dir (S := Checked) es parent (a, P) = ((a', P'), Ok tt) ∧ entered a a' parent pm D es.
Proof.
  intros Hes Hpre Hnd Hfree. unfold walk_dir. rewrite sort_by_name_fmap.
  pose proof (sort_by_name_perm es) as Hp.
  assert (seed_names (sort_by_name es) ≡ₚ seed_names es) as Hn by (unfold seed_names; by rewrite Hp).
  destruct (run_entries_enter (sort_by_name es) a P parent pm D) as (a' & P' & Hrun & Hent);
    [by rewrite Hp|done|by rewrite Hn|by rewrite Hn|].
  exists a', P'. split; [exact Hrun|]. by eapply entered_perm.
Qed.

Lemma seed_checked {A} need (m : M AbsFs MetaError A) a P a' r :
  m a = (a', r) →
  seed_meta (S := Checked) (checked need m) (a, P) = ((a', P ∧ need a), res_map_err SeedMeta r).
Proof. intros E. unfold seed_meta, map_err, checked. cbn [fst snd]. by rewrite E. Qed.

Lemma file_enters m content : enters (SrcFile m content).
Proof.
  intros nm parent a P pm D Hwf [Hbelow Hpar Hmode HD] Hfree. cbn in Hwf.
  destruct content as [c|]; [|done]. destruct (Hfree eq_refl) as (Hd1 & Hd2 & HDn).
  assert (parent < a_next a) as Hlt by (apply Hbelow; by rewrite Hpar).
  set (ino := a_next a) in *.
  set (a1 := a_set_next (ino + 1) (a_set_inodes (<[ino := set_ino ino (file_inode_meta m (len c))]> (a_inodes a)) a)).
  set (a2 := a_set_dirs (<[parent := <[nm := ino]> D]> (a_dirs a1)) a1).
  set (a3 := a_set_manifests (<[ino := [digest_of c]]> (a_manifests a2)) a2).
  eexists a3, _. split.
  { cbn [seed_entry]. unfold seed_file. rewrite !run_bind. cbn [lift ok_or]. rewrite run_bind.
    cbn [tgt_push checked_target]. erewrite seed_checked by reflexivity. cbn [res_map_err].
    rewrite run_bind. cbn [tgt_create_inode checked_target].
    erewrite seed_checked by reflexivity. cbn [res_map_err mret M_ret fst snd].
    rewrite run_bind. cbn [tgt_link checked_target].
    erewrite (seed_checked _ _ _ _ a2 (Ok tt)).
    2:{ unfold abs_link. fold ino. fold a1. change (a_dirs a1) with (a_dirs a). rewrite HD.
        rewrite decide_False by tauto. by rewrite HDn. }
    cbn [res_map_err tgt_set_manifest checked_target]. by erewrite seed_checked by reflexivity. }
  unfold a3, a2, a1. cbn [visible is_src_dir]. abs_simpl.
  split_and!.
  - intros k. abs_simpl. intros [x [[<- _]|[_ Hk]]%lookup_insert_Some]; [lia|].
    assert (k < ino) by (apply Hbelow; by rewrite Hk). lia.
  - intros k Hk Hp. assert (k < ino) by by apply Hbelow. abs_simpl.
    rewrite !lookup_insert_ne by lia. done.
  - by rewrite lookup_insert_ne by lia.
  - by rewrite lookup_insert_eq.
  - intros _. exists c. abs_simpl. by rewrite !lookup_insert_eq.
Qed.

Lemma fresh_dir_other ino parent nm : nm ≠ dot → nm ≠ dotdot → fresh_dir ino parent !! nm = None.
Proof. intros H1 H2. unfold fresh_dir. rewrite lookup_insert_ne by done. by apply lookup_singleton_ne. Qed.

Lemma dir_enters m es : Forall (λ e, enters e.2) es → enters (SrcDir m es).
Proof.
  intros IH nm parent a P pm D Hwf [Hbelow Hpar Hmode HD] Hfree. cbn [wf_source] in Hwf.
  destruct Hwf as (Hnd & Hdots & Hall). rewrite all_entries_Forall in Hall.
  destruct (Hfree eq_refl) as (Hd1 & Hd2 & HDn).
  assert (parent < a_next a) as Hlt by (apply Hbelow; by rewrite Hpar).
  set (ino := a_next a) in *.
  set (dm := dir_inode ino (dir_inode_meta m)).
  set (a1 := a_set_inodes (<[parent := add_link pm]> (<[ino := dm]> (a_inodes a)))
               (a_set_dirs (<[parent := <[nm := ino]> D]> (<[ino := fresh_dir ino parent]> (a_dirs a)))
                  (a_set_next (ino + 1) a))).
  assert (abs_create_directory parent nm (dir_inode_meta m) a = (a1, Ok ino)) as Hmk.
  { unfold abs_create_directory. rewrite Hpar, decide_False, HD by done. rewrite decide_False by tauto.
    by rewrite HDn. }
  assert (enterable a1 ino dm (fresh_dir ino parent)) as Hpre.
  { split; unfold a1; abs_simpl.
    - intros k. abs_simpl. intros [x [[<- _]|[_ [[<- _]|[_ Hk]]%lookup_insert_Some]]%lookup_insert_Some]; [lia..|].
      assert (k < ino) by (apply Hbelow; by rewrite Hk). lia.
    - rewrite lookup_insert_ne by lia. by rewrite lookup_insert_eq.
    - unfold dm, dir_inode. case_decide as Hz; [|exact Hz].
      cbn [set_mode set_ino im_mode]. intros Hz'. apply (f_equal (λ z, Z.testbit z 14)) in Hz'.
      rewrite Z.land_spec, Z.lor_spec in Hz'. cbn in Hz'. by rewrite orb_true_r in Hz'.
    - rewrite lookup_insert_ne by lia. by rewrite lookup_insert_eq. }
  destruct (walk_dir_enter es a1 (P ∧ mkdir_room a parent nm (dir_inode_meta m)) ino dm (fresh_dir ino parent))
    as (a' & P' & Hrun & [Hb' Hf' Hp' (D' & HD' & Hes & Hrest)]); [by apply Forall_and|done|done| |].
  { eapply Forall_impl; [exact Hdots|]. intros n [Hn1 Hn2]. split_and!; [done|done|].
    by apply fresh_dir_other. }
  assert (frame_except a a1 parent) as Hf1.
  { intros k Hk Hp. assert (k < ino) by by apply Hbelow. unfold a1. abs_simpl.
    rewrite !lookup_insert_ne by lia. done. }
  destruct (Hf' parent) as (Hi' & Hdd' & _); [unfold a1; abs_simpl; by rewrite lookup_insert_eq|lia|].
  exists a', P'. cbn [visible is_src_dir]. split_and!.
  - cbn [seed_entry]. rewrite run_bind. cbn [tgt_create_directory checked_target].
    rewrite (seed_checked _ _ _ _ _ _ Hmk). exact Hrun.
  - done.
  - intros k Hk Hp. destruct (Hf1 k Hk Hp) as (E1 & E2 & E3).
    assert (k < ino) by by apply Hbelow.
    destruct (Hf' k) as (F1 & F2 & F3); [by rewrite E1|lia|]. by rewrite F1, F2, F3.
  - rewrite Hi'. unfold a1. abs_simpl. by rewrite lookup_insert_eq.
  - rewrite Hdd'. unfold a1. abs_simpl. by rewrite lookup_insert_eq.
  - intros _. cbn [holds_tree]. rewrite <-copied_dir_eq. split; [exact Hp'|]. exists D'. split_and!; [done|by rewrite all_entries_Forall|].
    intros n Hn1 Hn2 Hn3. rewrite Hrest by done. by apply fresh_dir_other.
Qed.

Lemma seed_enters n : enters n.
Proof.
  induction n as [m c|m es IH|m|m|] using source_ind'; [apply file_enters|by apply dir_enters|..].
  - intros nm parent a P pm D [].
  - intros nm parent a P pm D _ []. by exists a, P; split_and!.
  - intros nm parent a P pm D [].
Qed.
End copy.

(* ------------------------------------------------------------------------ *)
(** ** The store that is written *)

Section seed.
Context {B : Blockset} {L : BlocksetLaws B}.
Implicit Types (s : DictMetadataStore B) (d : StoreDir B).

(** The file system before the walk, and after it with what the walk needed. *)
Definition seed_start (uid gid : Z) (m : HostMeta) : AbsFs :=
  a_set_inodes {[1 := dir_inode 1 (dir_inode_meta m)]} (abs_new uid gid).
Definition seeded (uid gid : Z) (m : HostMeta) (es : list (bytes * SourceNode)) : Checked :=
  (walk_dir (S := Checked) es 1 (seed_start uid gid m, True)).1.

(** The store at the same points. *)
Definition seed_state0 (uid gid : Z) (m : HostMeta) (io : Io) : DictMetadataStore B :=
  (update_inode (dir_inode 1 (dir_inode_meta m)) (store_new uid gid io)).1.
Definition seed_state (uid gid : Z) (m : HostMeta) (es : list (bytes * SourceNode)) (io : Io)
    : DictMetadataStore B := (walk_dir es 1 (seed_state0 uid gid m io)).1.

(** The ranges of the source and what is stored. *)
Record seed_room (uid gid : Z) (m : HostMeta) (es : list (bytes * SourceNode)) (io : Io) : Prop := {
  sr_io : healthy io;
  sr_user : is_u32 uid ∧ is_u32 gid;
  sr_owner : is_u32 (hm_uid m) ∧ is_u32 (hm_gid m);
  sr_dots : admissible dot ∧ admissible dotdot;
  sr_root : admissible (serialize_inode (root_inode uid gid)) ∧ admissible (dir_content (fresh_dir 1 1)) ∧
            admissible (serialize_inode (dir_inode 1 (dir_inode_meta m)));
  sr_walk : (seeded uid gid m es).2;
  sr_commit : tables_fit (seed_state uid gid m es io) ∧
              Forall admissible (commit_contents (seed_state uid gid m es io))
}.

(** The root inode with the permissions of the source is that of an imported
    directory. *)
Lemma seed_root_eq uid gid m : seed_root m (root_inode uid gid) = dir_inode 1 (dir_inode_meta m).
Proof. by rewrite dir_inode_of_meta. Qed.

Lemma dir_inode_meta_wf ino m :
  is_u64 ino → is_u32 (hm_uid m) → is_u32 (hm_gid m) → wf_inode (dir_inode ino (dir_inode_meta m)).
Proof.
  intros Hi Hu Hg. rewrite dir_inode_of_meta. split_and!; try done.
  cbn [set_ino dir_inode_meta new_directory im_mode]. unfold is_u32. apply (lor_width 32); [done|done|].
  pose proof (land_bound (hm_mode m) 12 ltac:(done)) as Hb. change (Z.ones 12) with 4095 in Hb. lia.
Qed.

Lemma seed_start_rep uid gid m es (io : Io) :
  seed_room uid gid m es io →
  store_rep (seed_state0 uid gid m io) (seed_start uid gid m) ∧
  get_inode 1 (store_new uid gid io) = (store_new uid gid io, Ok (root_inode uid gid)) ∧
  update_inode (dir_inode 1 (dir_inode_meta m)) (store_new uid gid io) = (seed_state0 uid gid m io, Ok tt).
Proof.
  intros [Hio [Hu Hg] [Hmu Hmg] [Hd Hdd] (Hr1 & Hr2 & Hr3) _ _].
  destruct (store_new_rep uid gid io) as [Hrep Hle]; [done..|].
  assert (a_inodes (abs_new uid gid) !! 1 = Some (root_inode uid gid)) as Hroot by done.
  assert (im_ino (dir_inode 1 (dir_inode_meta m)) = 1) as Hino by (rewrite dir_inode_of_meta; done).
  assert (abs_update_inode (dir_inode 1 (dir_inode_meta m)) (abs_new uid gid)
          = (seed_start uid gid m, Ok tt)) as Ha.
  { unfold abs_update_inode. rewrite Hino, Hroot. unfold seed_start, abs_new. abs_simpl.
    by rewrite insert_singleton_eq. }
  destruct (update_inode_refines _ _ (dir_inode 1 (dir_inode_meta m)) Hrep) as (H1 & H2 & H3).
  - by apply dir_inode_meta_wf.
  - done.
  - rewrite Hino. intros old Ho. rewrite Hroot in Ho. injection Ho as <-.
    pose proof (wf_total _ (rep_wf _ _ Hrep)). rewrite dir_inode_of_meta. cbn. cbn in *. lia.
  - rewrite Ha in H1, H2. split_and!; [exact H2| |].
    + by rewrite (get_inode_run _ _ _ Hrep), Hroot.
    + unfold seed_state0. rewrite (surjective_pairing (update_inode _ _)). f_equal. exact H1.
Qed.

(** The walk on the new store. *)
Lemma seed_walk uid gid m es (io : Io) :
  seed_room uid gid m es io → wf_source (SrcDir m es) →
  let a := (seeded uid gid m es).1 in
  walk_dir es 1 (seed_state0 uid gid m io) = (seed_state uid gid m es io, Ok tt) ∧
  store_rep (seed_state uid gid m es io) a ∧ holds_tree a 1 (SrcDir m es) ∧
  is_Some (a_inodes a !! 1) ∧
  Forall (stored (st_io (seed_state uid gid m es io))) (contents (SrcDir m es)).
Proof.
  intros Hroom (Hnd & Hdots & Hall) a. rewrite all_entries_Forall in Hall.
  destruct (seed_start_rep _ _ _ _ _ Hroom) as (Hrep & _ & _).
  destruct (walk_dir_enter es (seed_start uid gid m) True 1 (dir_inode 1 (dir_inode_meta m)) (fresh_dir 1 1))
    as (a' & P' & Hrun & [Hb Hf Hp (D' & HD' & Hes & Hrest)]); [| |done| |].
  { eapply Forall_impl; [exact Hall|]. intros e He. split; [apply seed_enters|done]. }
  { split; [|done| |done].
    - intros k [x Hx]. unfold seed_start in Hx. abs_simpl_in Hx.
      apply lookup_singleton_Some in Hx as [<- _]. done.
    - rewrite dir_inode_of_meta.
      change (im_mode (set_ino 1 (dir_inode_meta m))) with (im_mode (dir_inode_meta m)).
      by rewrite dir_inode_meta_mode. }
  { eapply Forall_impl; [exact Hdots|]. intros n [Hn1 Hn2]. split_and!; [done|done|by apply fresh_dir_other]. }
  assert (a = a') as -> by (unfold a, seeded; by rewrite Hrun).
  destruct (walk_dir_simulates es 1 (seed_state0 uid gid m io) (seed_start uid gid m) True) as [_ Hsim].
  pose proof (sr_walk _ _ _ _ _ Hroom) as Hneed. unfold seeded in Hneed. rewrite Hrun in Hsim, Hneed.
  destruct (Hsim Hrep Hneed) as (H1 & H2 & H3 & H4). cbn [fst snd] in *.
  split_and!; [|exact H2| |by rewrite Hp|by apply (H4 tt)].
  - unfold seed_state. rewrite <-H1. apply surjective_pairing.
  - split; [by rewrite <-copied_dir_eq|]. exists D'. split_and!; [done|by rewrite all_entries_Forall|].
    intros n Hn1 Hn2 Hn3. rewrite Hrest by done. by apply fresh_dir_other.
Qed.

(** The segment that [run_seed] writes, whether its sync fails or not. *)
Lemma seed_segment root faults :
  ∃ w ok, segment_close (write_entry (RootUpdate root) (segment_writer_new 1 faults)) = (w, ok) ∧
    sw_synced w ++ sw_pending w = closed_segment 1 [RootUpdate root] ∧ (calm faults → ok = true).
Proof.
  unfold segment_close, segment_sync. cbn [segment_writer_new write_entry sw_synced sw_pending sw_faults app].
  unfold closed_segment. cbn [flat_map]. rewrite app_nil_r, <-!app_assoc.
  destruct faults as [|[] fs]; eexists _, _; (split; [reflexivity|]); split; cbn; rewrite ?app_nil_r; try done.
  intros Hc. by apply Forall_cons in Hc as [].
Qed.

(** A new store that is seeded holds a copy of the source and can be mounted. *)
Lemma run_seed_holds uid gid m es faults d :
  sd_dictionary_bin d = false → sd_segments d = None →
  seed_room uid gid m es (sd_io d) → wf_source (SrcDir m es) →
  let a := (seeded uid gid m es).1 in
  ∃ d' res, run_seed uid gid (SrcDir m es) faults d = (d', res) ∧ (calm faults → res = Ok tt) ∧
    dir_holds d' a ∧ holds_tree a 1 (SrcDir m es) ∧
    Forall (stored (sd_io d')) (contents (SrcDir m es)).
Proof.
  intros Hfmt Hsegs Hroom Hwf a. set (s := seed_state uid gid m es (sd_io d)).
  destruct (seed_walk _ _ _ _ _ Hroom Hwf) as (Hrun & Hrep & Htree & Hroot & Hst). fold a s in Hrun, Hrep, Htree, Hroot, Hst.
  destruct (seed_start_rep _ _ _ _ _ Hroom) as (_ & Hget & Hupd).
  destruct (sr_commit _ _ _ _ _ Hroom) as [Hfit Hadm].
  destruct (root_holds_commit s a Hrep Hfit Hroot Hadm) as (Hrep' & Hle & Hholds).
  destruct (seed_segment (commit_digest s) faults) as (w & ok & Hw & Hfile & Hok).
  assert (seed_store m (Some es) (store_new uid gid (sd_io d)) = ((commit s).1, Ok (commit_digest s))) as Hseed.
  { unfold seed_store. rewrite run_bind. unfold seed_meta, map_err at 1. rewrite Hget. cbn [res_map_err].
    rewrite run_bind. unfold map_err at 1. rewrite seed_root_eq, Hupd. cbn [res_map_err].
    rewrite run_bind. cbn [lift ok_or]. rewrite run_bind, Hrun. unfold map_err. by rewrite commit_run. }
  eexists _, _. split.
  { unfold run_seed. rewrite Hseed, Hw. reflexivity. }
  split; [intros Hc; by rewrite (Hok Hc)|].
  destruct (dir_rep_last ∅ ∅ [] 1 (closed_segment 1 [RootUpdate (commit_digest s)]) [RootUpdate (commit_digest s)])
    as [R1 L1]; [apply dir_rep_empty|done|apply map_Forall_empty|done| |].
  { apply recovered_closed; [done|]. constructor; [apply digest_of_wf|constructor]. }
  split_and!; [|done|].
  - eexists _, ([] ++ [RootUpdate (commit_digest s)]), (commit_digest s).
    split_and!; [|done|apply (rep_io _ _ Hrep')|exact Hholds].
    split; [exact Hfmt| |exact L1]. eexists. split; [reflexivity|]. rewrite Hsegs, Hfile. exact R1.
  - eapply Forall_impl; [exact Hst|]. intros bs. by apply stored_mono.
Qed.
End seed.
