(* ===== verification/CasTheorems.v ===== *)
(** * Block stores, the dedup index, compression and dates: the properties

    The theorems about [crates/cas-local], [crates/slicefs-compression] and the
    dates of the reports, each with an input at which its hypotheses hold. *)

From S2P Require Import Prelude Text Segment Cas CasRefine Dedup Compression Calendar.
From stdpp Require Import base tactics numbers option list gmap strings.
Open Scope Z_scope.

(* ------------------------------------------------------------------------ *)
(** ** Concrete parameters for the witnesses *)

(** A hash function without collisions: the content behind two zero bytes. *)
Definition toy_hash (d : bytes) : ChunkHash := Byte.x00 :: Byte.x00 :: d.
Definition toy_hasher : ContentHasher := blake3_hasher toy_hash.
#[export] Instance toy_hash_laws : HashLaws toy_hasher (λ _, True).
Proof. split; [intros d; cbn; lia|]. by intros a b _ _ [= ->]. Qed.

Definition toy_mem : MemBlockStore := mem_new default_config toy_hasher.
Definition toy_disk : LocalDiskStore := disk_new (mkDisk ∅ ∅ ∅) (mkBsConfig false) toy_hasher.

Lemma toy_mem_rep : mem_rep toy_hasher (λ _, True) toy_mem ∅.
Proof. split_and!; [done|done|apply map_Forall_empty]. Qed.
Lemma toy_disk_rep : disk_rep toy_hasher (λ _, True) toy_disk ∅.
Proof. split_and!; [done|done|apply map_Forall_empty]. Qed.

(** A filter that remembers first bytes only, so that it reports hashes that were never
    inserted. *)
#[export] Instance toy_bloom : Bloom := {|
  Dedup.Filter := list (option byte);
  bloom_new _ _ := [];
  bloom_insert h f := head h :: f;
  bloom_contains h f := bool_decide (head h ∈ f)
|}.
#[export] Instance toy_bloom_laws : BloomLaws toy_bloom.
Proof.
  split; intros; cbn in *; apply bool_decide_eq_true.
  - by left.
  - apply bool_decide_eq_true in H. by right.
Qed.

(** A codec that shortens contents with four leading zeros, and one that does not. *)
Definition zeros4 : bytes := replicate 4 Byte.x00.
#[export] Instance toy_codecs : Codecs := {|
  zstd_encode _ bs := inr (if decide (take 4 bs = zeros4) then Byte.x01 :: drop 4 bs else Byte.x00 :: bs);
  zstd_decode bs := match bs with
                    | [] => inl "empty"%string
                    | b :: bs => inr (if decide (b = Byte.x01) then zeros4 ++ bs else bs)
                    end;
  lz4_compress bs := bs ++ [Byte.x00];
  lz4_decompress bs := match last bs with None => inl "empty"%string | _ => inr (take (length bs - 1) bs) end
|}.
#[export] Instance toy_codec_laws : CodecLaws toy_codecs.
Proof.
  split.
  - intros level bs out [= <-]. cbn [zstd_decode toy_codecs].
    destruct (decide (take 4 bs = zeros4)) as [H|H].
    + rewrite decide_True by done. by rewrite <-H, take_drop.
    + by rewrite decide_False.
  - intros bs _. cbn [lz4_decompress lz4_compress toy_codecs]. rewrite last_snoc, length_app. cbn [length].
    by rewrite Nat.add_sub, take_app_length.
Qed.

(* ------------------------------------------------------------------------ *)
(** ** Block stores *)

(** C21. The in-memory store and the store on disk cannot be told apart by hashes of at
    least two bytes, and every hash of the hasher has as many: started with the same
    blocks, whatever their [verify_on_read], they answer every sequence of [put], [get],
    [exists] and [delete] calls with the same replies, errors included, and hold the same
    blocks afterwards, as long as the contents put do not collide.  ([put] may be called
    with any hash; for shorter hashes in the other calls see [short_hash_differs].) *)
Theorem block_stores_agree (hasher : ContentHasher) (P : bytes → Prop) `{!HashLaws hasher P}
    (mem : MemBlockStore) (disk : LocalDiskStore) m cs :
  mem_rep hasher P mem m → disk_rep hasher P disk m → Forall (call_ok P) cs →
  (bs_run cs mem).2 = (bs_run cs disk).2 ∧
  ∃ m', mem_rep hasher P (bs_run cs mem).1 m' ∧ disk_rep hasher P (bs_run cs disk).1 m'.
Proof. intros Hm Hd Hcs. exact (bs_run_agree hasher P cs mem disk m Hm Hd Hcs). Qed.

Definition toy_calls : list BsCall :=
  [BsPut (toy_hash (str "a")) (str "a"); BsGet (toy_hash (str "a")); BsExists (toy_hash (str "b"));
   BsPut (toy_hash (str "a")) (str "x"); BsDelete (toy_hash (str "a")); BsGet (toy_hash (str "a"))].

Lemma block_stores_agree_witness :
  (bs_run toy_calls toy_mem).2 = (bs_run toy_calls toy_disk).2 ∧
  (bs_run toy_calls toy_disk).2 =
    [RUnit (Ok tt); RData (Ok (str "a")); RBool (Ok false);
     RUnit (Err (IntegrityFailure (toy_hash (str "a")) (toy_hash (str "x"))));
     RUnit (Ok tt); RData (Err (NotFound (toy_hash (str "a"))))].
Proof.
  split; [|vm_compute; reflexivity].
  apply (block_stores_agree toy_hasher (λ _, True) toy_mem toy_disk ∅ toy_calls toy_mem_rep toy_disk_rep).
  unfold toy_calls. repeat (apply Forall_cons; split; [first [exact I | cbn; lia]|]). apply Forall_nil; exact I.
Defined.

(** A hash of one byte is the shard directory of that byte on disk: after a [put] into the
    shard, [exists] finds it, and the store in memory does not. *)
Example short_hash_differs :
  let cs := [BsPut (toy_hash (str "a")) (str "a"); BsExists [Byte.x00]] in
  (bs_run cs toy_mem).2 = [RUnit (Ok tt); RBool (Ok false)] ∧
  (bs_run cs toy_disk).2 = [RUnit (Ok tt); RBool (Ok true)].
Proof. split; vm_compute; reflexivity. Qed.

(** With [verify_on_read], no store ever returns a content whose hash is not the one
    asked for, whatever happened to the files or the map: a damaged block is reported as
    [IntegrityFailure] with both hashes. *)
Theorem get_verified (mem : MemBlockStore) (disk : LocalDiskStore) h :
  verify_on_read (mb_config mem) = true → verify_on_read (ld_config disk) = true →
  (∀ d, (bs_get h mem).2 = Ok d → ch_hash (mb_hasher mem) d = h) ∧
  (∀ d, (bs_get h disk).2 = Ok d → ch_hash (ld_hasher disk) d = h) ∧
  (∀ d, dk_files (ld_disk disk) !! hash_to_path h = Some d → (2 ≤ length h)%nat →
        ch_hash (ld_hasher disk) d ≠ h →
        bs_get h disk = (disk, Err (IntegrityFailure h (ch_hash (ld_hasher disk) d)))).
Proof.
  intros Hm Hd. split_and!.
  - intros d. cbn [bs_get mem_block_store]. unfold mem_get. rewrite run_bind. cbn [gets].
    change (id mem) with mem. rewrite run_bind.
    destruct (mb_store mem !! h) as [x|]; cbn [lift ok_or]; [|done]. cbn [snd].
    intros H. by apply (verified_inv _ _ _ _ _ Hm) in H as [_ H].
  - intros d. cbn [bs_get disk_block_store]. unfold disk_get. rewrite run_bind. cbn [gets].
    change (id disk) with disk. destruct (path_exists _ _); cbn [negb]; [|done]. rewrite run_bind.
    destruct (dk_files _ !! _) as [x|]; cbn [lift ok_or]; [|done]. cbn [snd].
    intros H. by apply (verified_inv _ _ _ _ _ Hd) in H as [_ H].
  - intros d Hf Hl Hne. cbn [bs_get disk_block_store]. unfold disk_get. rewrite run_bind. cbn [gets].
    change (id disk) with disk. unfold path_exists. rewrite decide_False by by apply hash_to_path_long.
    rewrite Hf, bool_decide_eq_true_2 by done. cbn [negb]. rewrite run_bind. cbn [lift ok_or].
    unfold verified. rewrite Hd. by rewrite decide_True.
Qed.

(** A block of the disk store that was overwritten. *)
Definition damaged_disk : LocalDiskStore :=
  disk_new (mkDisk {[str "00"]} {[hash_to_path (toy_hash (str "a")) := str "z"]} ∅) default_config toy_hasher.

Lemma get_verified_witness :
  bs_get (toy_hash (str "a")) damaged_disk =
  (damaged_disk, Err (IntegrityFailure (toy_hash (str "a")) (toy_hash (str "z")))).
Proof.
  apply (proj2 (proj2 (get_verified toy_mem damaged_disk (toy_hash (str "a")) eq_refl eq_refl)) (str "z")).
  - reflexivity.
  - cbn; lia.
  - discriminate.
Defined.

(** C22. [put] on disk is atomic when the process is killed: wherever its system calls are
    cut short, in the middle of writing the data included, the store holds either the
    blocks it held before or those and the whole new one; a [put] that returns [Ok] has
    stored its block, and one that returns an error has changed nothing. *)
Theorem put_crash_atomic (hasher : ContentHasher) (P : bytes → Prop) `{!HashLaws hasher P}
    (disk : LocalDiskStore) m h d :
  disk_rep hasher P disk m → P d →
  (∀ disk', put_killed h d disk disk' →
     disk_rep hasher P disk' m ∨ ch_hash hasher d = h ∧ disk_rep hasher P disk' (<[h := d]> m)) ∧
  (∀ disk' r, disk_put h d disk = (disk', r) →
     r = Ok tt ∧ ch_hash hasher d = h ∧ disk_rep hasher P disk' (<[h := d]> m) ∨
     r = Err (IntegrityFailure h (ch_hash hasher d)) ∧ ch_hash hasher d ≠ h ∧ disk' = disk).
Proof.
  intros Hm Hd. split; [intros disk' Hk; by eapply (put_killed_rep hasher P)|].
  intros disk' r Hput. destruct (decide (ch_hash hasher d = h)) as [<-|Hne].
  - left. destruct (bs_put_spec (BlockStoreLaws := disk_laws hasher P) hasher P disk m (ch_hash hasher d) d Hm Hd)
      as (s1 & Hs & Hrep).
    cbn [bs_put disk_block_store] in Hs. rewrite Hput in Hs. unfold abs_put in *. rewrite !decide_True in * by done.
    injection Hs as -> ->. by split_and!.
  - right. destruct Hm as (_ & Hh & _). unfold disk_put, put_plan in Hput. rewrite run_bind in Hput.
    cbn [gets] in Hput. change (id disk) with disk in Hput. rewrite run_bind, Hh, decide_True in Hput by done.
    by injection Hput as <- <-.
Qed.

(** The process is killed when the temporary file holds one of two bytes. *)
Definition torn_disk : Disk :=
  (disk_calls [CreateParent (hash_to_path (toy_hash (str "ab")));
               WriteFile (tmp_place (hash_to_path (toy_hash (str "ab")))) (str "a")] (ld_disk toy_disk)).1.

Lemma torn_disk_killed : put_killed (toy_hash (str "ab")) (str "ab") toy_disk (upd_disk torn_disk toy_disk).
Proof.
  exists (put_calls (hash_to_path (toy_hash (str "ab"))) (str "ab")), torn_disk.
  split; [vm_compute; reflexivity|]. split; [|reflexivity].
  eapply cut_later; [reflexivity|]. apply cut_in. apply (cut_write _ _ 1). vm_compute. reflexivity.
Qed.

Lemma put_crash_atomic_witness :
  disk_rep toy_hasher (λ _, True) (upd_disk torn_disk toy_disk) ∅ ∨
  ch_hash toy_hasher (str "ab") = toy_hash (str "ab") ∧
  disk_rep toy_hasher (λ _, True) (upd_disk torn_disk toy_disk) (<[toy_hash (str "ab") := str "ab"]> ∅).
Proof.
  apply (proj1 (put_crash_atomic toy_hasher (λ _, True) toy_disk ∅ (toy_hash (str "ab")) (str "ab") toy_disk_rep I)).
  exact torn_disk_killed.
Defined.

(** [put] never syncs the file that it renames, so that the host can lose a part of it when
    it crashes itself.  Whatever is left under the name of the block, [get] reports it,
    but [put] takes it for the block and does not repair it. *)
Theorem torn_block_stays (disk : LocalDiskStore) d x :
  let h := ch_hash (ld_hasher disk) d in
  (2 ≤ length h)%nat → verify_on_read (ld_config disk) = true → ch_hash (ld_hasher disk) x ≠ h →
  let disk' := upd_disk (set_file (InShard (hash_to_path h)) x (ld_disk disk)) disk in
  disk_put h d disk' = (disk', Ok tt) ∧
  disk_get h disk' = (disk', Err (IntegrityFailure h (ch_hash (ld_hasher disk) x))).
Proof.
  intros h Hh Hv Hx disk'.
  assert (path_exists (hash_to_path h) (ld_disk disk') = true) as Hp.
  { unfold path_exists. rewrite decide_False by by apply hash_to_path_long. cbn. rewrite lookup_insert_eq.
    by apply bool_decide_eq_true. }
  split.
  - unfold disk_put, put_plan. rewrite run_bind. cbn [gets]. change (id disk') with disk'. rewrite run_bind.
    change (ch_hash (ld_hasher disk') d) with h. rewrite decide_False by auto. by rewrite Hp.
  - unfold disk_get. rewrite run_bind. cbn [gets]. change (id disk') with disk'. rewrite Hp. cbn [negb].
    cbn [ld_disk disk' upd_disk set_file dk_files]. rewrite lookup_insert_eq, run_bind. cbn [lift ok_or].
    unfold verified. cbn [ld_config ld_hasher upd_disk disk']. rewrite Hv. by rewrite decide_True.
Qed.

(** C23. The chunking loop ends and is the reference division into blocks: block [i] starts
    at [i * block_size], every block but the last has exactly [block_size] bytes, none is
    empty, and the blocks in order are the buffer. *)
Theorem chunk_blocks (bs : Z) (data : bytes) :
  0 < bs < 2 ^ 64 → len data < 2 ^ 63 →
  let n := block_count bs data in
  chunk (mkChunker bs) data = Ok (block_at bs data <$> seqZ 0 n) ∧
  concat (ck_data <$> (block_at bs data <$> seqZ 0 n)) = data ∧
  ∀ i, 0 ≤ i < n → 0 < len (ck_data (block_at bs data i)) ≤ bs ∧
                   (i + 1 < n → len (ck_data (block_at bs data i)) = bs).
Proof.
  intros Hbs Hd n. split_and!.
  - by apply chunk_spec.
  - destruct (block_count_last bs data Hbs Hd) as [Hn _].
    pose proof (blocks_concat bs data Hbs Hd (Z.to_nat n) 0 ltac:(lia) ltac:(unfold n; lia)) as H.
    rewrite Z2Nat.id in H by (unfold n; lia). exact H.
  - intros i Hi. by apply block_size.
Qed.

Lemma chunk_blocks_witness :
  chunk (mkChunker 4) (str "abcdefghi") =
    Ok [mkChunk 0 (str "abcd"); mkChunk 4 (str "efgh"); mkChunk 8 (str "i")] ∧
  concat (ck_data <$> (block_at 4 (str "abcdefghi") <$> seqZ 0 3)) = str "abcdefghi".
Proof.
  destruct (chunk_blocks 4 (str "abcdefghi")) as (H1 & H2 & _); [lia|reflexivity|].
  split; [rewrite H1; vm_compute; reflexivity|exact H2].
Defined.

(* ------------------------------------------------------------------------ *)
(** ** The dedup index *)

(** C29. Whatever the Bloom filter makes up, the index is exact: after any sequence of
    [insert] and [remove] calls on a new index, [lookup] answers [Present] for exactly the
    hashes whose last call was an [insert], and never answers [DefinitelyAbsent] for one
    of them. *)
Theorem dedup_exact {B : Bloom} `{!BloomLaws B} n rate (s : MemDedupIndex B) h :
  index_reach (index_new n rate) s →
  (index_lookup h s = Ok Present ↔ h ∈ di_present s) ∧
  index_lookup h (index_insert h s) = Ok Present ∧
  index_lookup h (index_remove h s) ≠ Ok Present ∧
  (∀ k, k ≠ h → (index_lookup k (index_insert h s) = Ok Present ↔ index_lookup k s = Ok Present) ∧
                (index_lookup k (index_remove h s) = Ok Present ↔ index_lookup k s = Ok Present)).
Proof.
  intros Hr. pose proof (λ s Hs k, proj1 (lookup_exact s k (reach_inv _ s (new_inv n rate) Hs))) as Hex.
  pose proof (reach_insert _ _ h Hr) as Hi. pose proof (reach_remove _ _ h Hr) as Hrm.
  split_and!; [by apply Hex|apply Hex; [done|]|rewrite Hex by done|intros k Hk; rewrite !Hex by done];
    clear Hex; cbn; set_solver.
Qed.

Lemma dedup_exact_witness :
  let s := index_insert (str "ab") (index_remove (str "cd") (index_insert (str "cd") (index_new 10 0))) in
  index_lookup (str "ab") s = Ok Present ∧ index_lookup (str "ax") s = Ok Absent ∧
  index_lookup (str "cd") s = Ok Absent ∧ index_lookup (str "ef") s = Ok DefinitelyAbsent ∧
  index_lookup (str "ab") (index_remove (str "ab") s) ≠ Ok Present.
Proof.
  intros s. assert (index_reach (index_new 10 0) s) as Hr by (repeat constructor).
  split; [apply (proj1 (dedup_exact 10 0 s (str "ab") Hr)); vm_compute; reflexivity|].
  split; [vm_compute; reflexivity|]. split; [vm_compute; reflexivity|]. split; [vm_compute; reflexivity|].
  exact (proj1 (proj2 (proj2 (dedup_exact 10 0 s (str "ab") Hr)))).
Defined.

(** An index that is saved with its header, in whatever order the set is iterated,
    loads with the same hashes and parameters and satisfies the invariant.  Loading any
    other bytes ends, too: with an index, with an end-of-file error, or with the panic of
    a reservation that the count in the file asks for and that is refused. *)
Theorem dedup_save_load {B : Bloom} `{!BloomLaws B} (reserve : Z → bool) (order : list ChunkHash)
    (s : MemDedupIndex B) :
  reserve (Z.of_nat (length order)) = true →
  order ≡ₚ elements (di_present s) → Forall (λ h, len h < 2 ^ 32) order →
  is_u64 (di_expected_items s) → is_u64 (di_false_positive_rate s) → is_u64 (Z.of_nat (length order)) →
  (∃ s', load_from_reader reserve (save_to_writer_with_header order s) = Ok s' ∧ index_inv s' ∧
     di_present s' = di_present s ∧ di_expected_items s' = di_expected_items s ∧
     di_false_positive_rate s' = di_false_positive_rate s) ∧
  (∀ bs, (∃ s' : MemDedupIndex B, load_from_reader reserve bs = Ok s') ∨
         load_from_reader (B := B) reserve bs = Err (CasIo UnexpectedEof) ∨
         load_from_reader (B := B) reserve bs = Panic ∧ ∃ n, reserve n = false).
Proof.
  intros. split; [by apply load_save|]. intros bs. unfold load_from_reader, read_n.
  destruct (read_exact 8 bs) as [[b1 bs1]|]; cbn [ok_or mbind res_bind]; [|by right; left].
  destruct (read_exact 8 bs1) as [[b2 bs2]|]; cbn [ok_or mbind res_bind]; [|by right; left].
  destruct (read_exact 8 bs2) as [[b3 bs3]|]; cbn [ok_or mbind res_bind]; [|by right; left].
  destruct (reserve (le_decode b3)) eqn:Hres; cbn [negb]; [|right; right; split; [done|by eexists]].
  edestruct (load_loop_total (S (length bs3))) as [Hok|Herr]; [|by left|right; left; exact Herr]. lia.
Qed.

Lemma dedup_save_load_witness :
  let s := index_insert (str "ab") (index_insert (str "cde") (index_new 10 7)) in
  let reserve n := bool_decide (n < 2 ^ 58) in
  ∃ order s', order ≡ₚ elements (di_present s) ∧
    load_from_reader reserve (save_to_writer_with_header order s) = Ok s' ∧ di_present s' = di_present s.
Proof.
  intros s reserve.
  destruct (dedup_save_load reserve (elements (di_present s)) s) as [(s' & H1 & _ & H2 & _) _].
  - vm_compute. reflexivity.
  - reflexivity.
  - apply (bool_decide_unpack _). vm_compute. exact I.
  - split; [discriminate|reflexivity].
  - split; [discriminate|reflexivity].
  - apply (bool_decide_unpack _). vm_compute. exact I.
  - exists (elements (di_present s)), s'. split; [reflexivity|]. by split.
Defined.

(** A file of 24 bytes whose count cannot be reserved makes the loader panic. *)
Example dedup_load_panics (reserve : Z → bool) :
  reserve (2 ^ 64 - 1) = false →
  load_from_reader (B := toy_bloom) reserve (le_bytes 16 0 ++ replicate 8 Byte.xff) = Panic.
Proof.
  intros H. assert (reserve 18446744073709551615 = false) as H' by exact H. vm_compute. by rewrite H'.
Qed.

(* ------------------------------------------------------------------------ *)
(** ** Compression *)

(** C31. Every compressor that [parse_compressor] returns is lossless on blocks below
    4 GiB: compressing never fails, adds at most the tag byte, and decompressing gives the
    block back, incompressible and empty blocks and failures of the codec included; a tag
    that is no algorithm is refused. *)
Theorem compression_roundtrip {C : Codecs} `{!CodecLaws C} name level c bs :
  parse_compressor name level = Ok c → len bs < 2 ^ 32 →
  (∃ wire, compress_block c bs = Ok wire ∧ len wire ≤ len bs + 1 ∧ decompress_block c wire = Ok bs) ∧
  (∀ id payload, 3 < Z_of_byte id → decompress_block c (id :: payload) = Err (UnknownAlgorithm id)).
Proof.
  intros Hp Hl. split; [by apply block_roundtrip, (parse_compressor_lawful name level)|].
  intros id payload Hid. cbn [decompress_block].
  assert (algorithm_from_u8 id = None) as ->; [|done].
  destruct id; cbn in Hid |- *; done || lia.
Qed.

Lemma compression_roundtrip_witness :
  compress_block (zstd_compressor 3) (zeros4 ++ str "ab") = Ok (Byte.x01 :: Byte.x01 :: str "ab") ∧
  (∃ wire, compress_block (zstd_compressor 3) (zeros4 ++ str "ab") = Ok wire ∧
     len wire ≤ len (zeros4 ++ str "ab") + 1 ∧
     decompress_block (zstd_compressor 3) wire = Ok (zeros4 ++ str "ab")).
Proof.
  split; [vm_compute; reflexivity|].
  exact (proj1 (compression_roundtrip (str "zstd") None (zstd_compressor 3) (zeros4 ++ str "ab")
                  eq_refl eq_refl)).
Defined.

(* ------------------------------------------------------------------------ *)
(** ** Dates *)

(** C33. The closed form of [days_to_ymd] is the calendar: for every day count up to the
    year that no longer fits the type, it is the date reached from 1970-01-01 by stepping
    that many days, with the leap years and the lengths of the months. *)
Theorem days_to_ymd_calendar (n : nat) :
  Z.of_nat n < 365 * 2 ^ 31 →
  days_to_ymd (Z.of_nat n) = Nat.iter n next_day (1970, 1, 1) ∧ valid_date (days_to_ymd (Z.of_nat n)).
Proof.
  induction n as [|n IH]; intros Hn.
  { change (Z.of_nat 0) with 0. rewrite days_to_ymd_epoch. split; [done|by apply (bool_decide_unpack _)]. }
  destruct (IH ltac:(lia)) as [H _]. rewrite Nat2Z.inj_succ in *. unfold Z.succ in *.
  destruct (days_to_ymd_next (Z.of_nat n)) as [H1 _]; [lia|lia|].
  split; [cbn [Nat.iter]; by rewrite H1, H|]. rewrite days_to_ymd_civil by lia. apply civil_valid.
Qed.

Lemma days_to_ymd_calendar_witness :
  days_to_ymd 19782 = (2024, 2, 29) ∧ valid_date (days_to_ymd (Z.of_nat 800)) ∧
  days_to_ymd (Z.of_nat 800) = Nat.iter 800 next_day (1970, 1, 1).
Proof.
  split; [vm_compute; reflexivity|].
  assert (Z.of_nat 800 < 365 * 2 ^ 31) as H by (vm_compute; reflexivity).
  split; [exact (proj2 (days_to_ymd_calendar 800 H))|exact (proj1 (days_to_ymd_calendar 800 H))].
Defined.
