(* ===== verification/Examples.v ===== *)
(** * A concrete run

    The toy content store of [Blockset], a fresh file system in it and the
    contents of a small run, on which the hypotheses of the theorems are checked
    by evaluation. *)

From S2P Require Import Prelude Types Text Blockset Inode InodeMap Xattr Directory Segment Wal.
From S2P Require Import SegmentDir Store StoreSpec StoreRefine StoreCommit Filesystem WritePath Namespace.
From S2P Require Import NamespaceRefine Handlers Callbacks Snapshots Mount Session Lifetime Seed.
From stdpp Require Import base tactics numbers option list gmap strings.
Open Scope Z_scope.

(** Decide a closed proposition by evaluation. *)
Ltac by_compute := apply (bool_decide_unpack _); vm_compute; exact I.

(** The digests of the toy store do not depend on the contents of the run. *)
Definition toy0 : BlocksetLaws toy := toy_laws [] (NoDup_nil_2).

Definition nm_a : bytes := str "a".
Definition nm_b : bytes := str "b".
Definition nm_d : bytes := str "d".
Definition ex_now : Z * Z := (1700000000, 42).
(** An empty store directory. *)
Definition ex_io : @Io toy := (∅ : gmap (list Z) bytes).
Definition ex_store : DictMetadataStore toy := store_new 501 20 ex_io.
Definition ex_abs : AbsFs := @abs_new 501 20.
Definition ex_root_dir : gmap bytes Z := fresh_dir 1 1.
(** A file, a directory and a link as their creation makes them. *)
Definition ex_file : InodeMeta := new_file 0 501 20 (Z.lor S_IFREG (perm_bits 438 18)).
Definition ex_dir : InodeMeta := new_directory 0 501 20 (Z.lor S_IFDIR (perm_bits 511 18)).
Definition ex_link : InodeMeta := symlink_meta 501 20 1.
(** In order, then in the middle: ["hel"], ["hello"], ["hEllo"]. *)
Definition ex_writes : list (Z * bytes) :=
  [(0, str "hel"); (3, str "lo"); (1, str "E")].
Definition ex_content : bytes := pwrites [] ex_writes.
Definition ex_root : InodeMeta := root_inode 501 20.
Definition ex_xattrs : xattr_list := [(str "user.k", str "v")].

(** A source tree with a file [a] and an empty directory [d], listed in another order. *)
Definition ex_host : HostMeta := mkHost 493 501 20 1700000000 42.
Definition ex_tree : list (bytes * SourceNode) :=
  [(nm_d, SrcDir ex_host []); (nm_a, SrcFile ex_host (Some (str "hel")))].
(** A directory without a store. *)
Definition ex_blank : StoreDir toy := mkStoreDir toy false false None ex_io.
(** Everything that is written to a content store. *)
Definition io_contents (io : @Io toy) : list bytes := (map_to_list (io : gmap (list Z) bytes)).*2.

(** A file [a] is created, written, closed and read. *)
Definition ex_call (req : Request) : KernelCall := mkCall (λ _ _, false) ex_now None None req.
Definition ex_requests : list KernelCall :=
  ex_call <$> [ReqCreate 1 nm_a 438 18 O_WRONLY 501 20; ReqWrite 1 0 (str "hel"); ReqRelease 2 1;
               ReqRead 2 1 10; ReqUnlink 1 nm_b].

(** A life of a store whose last segment holds the first commit: the requests above on a
    mount that takes a snapshot at the end; a mount that is killed after it has unlinked the
    file; a snapshot, which the lock refuses; a mount that unlinks it; a switch back to the
    snapshot. *)
Definition ex_dir0 : StoreDir toy :=
  mkStoreDir toy false false
    (Some (<[seg_name 1 := closed_segment 1 [RootUpdate (commit_digest (L := toy0) ex_store)]]> ∅))
    (st_io (commit ex_store).1).
Definition ex_mount_args (auto : bool) (calls : list KernelCall) : MountArgs :=
  mkMountArgs (str "/mnt") [] CfgFlushOnFsync [] None true false auto None calls ex_now.
Definition ex_unlink : list KernelCall := [ex_call (ReqUnlink 1 nm_a)].
Definition ex_dir1 : StoreDir toy := (real_run (EvMount (ex_mount_args true ex_requests)) ex_dir0).1.
Definition ex_meta1 : DictMetadataStore toy :=
  match (load_store CfgFlushOnFsync [] ex_dir1).2 with Ok s => s | _ => ex_store end.
Definition ex_kill_io : @Io toy := st_io (fs_meta (serve_mount (ex_mount_args false ex_unlink) ex_meta1).1).
Definition ex_events : list (Event toy) :=
  [EvMount (ex_mount_args true ex_requests);
   EvKilled (ex_mount_args false ex_unlink) KillServing [] ex_kill_io;
   EvCreate 1700000002 None []; EvMount (ex_mount_args false ex_unlink); EvSwitch 1700000003 (str "1") []; EvScrub].

Definition ex_contents : list bytes := Eval vm_compute in
  remove_dups (
    [dot; dotdot; nm_a; nm_b; nm_d; [];
     serialize_inode ex_root; dir_content (L := toy0) ex_root_dir;
     (* a file [a] in the root *)
     serialize_inode (set_ino 2 ex_file);
     dir_content (L := toy0) (<[nm_a := 2]> ex_root_dir);
     dir_content (L := toy0) (delete nm_a (<[nm_a := 2]> ex_root_dir));
     str "hel"; str "hello"; ex_content;
     serialize_manifest [toy_digest ex_content]; serialize_manifest [toy_digest (str "hel")];
     serialize_inode (written_inode ex_now 3 (set_ino 2 ex_file));
     serialize_inode (written_inode ex_now 5 (set_ino 2 ex_file));
     serialize_inode (set_nlinks 0 (set_ino 2 ex_file));
     (* its other names *)
     dir_content (L := toy0) (<[nm_b := 2]> (<[nm_a := 2]> ex_root_dir));
     dir_content (L := toy0) (delete nm_a (<[nm_b := 2]> (<[nm_a := 2]> ex_root_dir)));
     dir_content (L := toy0) (<[nm_a := 2]> (delete nm_a (<[nm_a := 2]> ex_root_dir)));
     serialize_inode (stamp_ctime ex_now (set_ino 2 ex_file));
     serialize_inode (stamp_ctime ex_now (add_link (set_ino 2 ex_file)));
     (* a directory [d] *)
     serialize_inode (dir_inode 2 ex_dir); dir_content (L := toy0) (fresh_dir 2 1);
     dir_content (L := toy0) (<[nm_d := 2]> ex_root_dir);
     dir_content (L := toy0) (<[nm_a := 1]> (fresh_dir 2 1));
     dir_content (L := toy0) (delete nm_d (<[nm_d := 2]> ex_root_dir));
     serialize_inode (add_link ex_root);
     serialize_inode (set_nlinks 2 (add_link ex_root));
     (* a symbolic link to [a] *)
     dir_content (L := toy0) (<[nm_b := 2]> ex_root_dir); serialize_inode (set_ino 3 ex_file);
     serialize_inode (set_ino 2 ex_link); serialize_manifest [toy_digest nm_a];
     serialize_xattrs ex_xattrs; serialize_manifest []]
    ++ commit_contents (L := toy0) ex_store
    ++ commit_contents (L := toy0) (create_directory 1 nm_d ex_dir ex_store).1
    ++ commit_contents (L := toy0) (fs_meta (serve_calls ex_requests (fs_new ex_store)).1)
    ++ io_contents (sd_io (real_runs ex_events ex_dir0).1)
    ++ io_contents (sd_io (run_seed 501 20 (SrcDir ex_host ex_tree) [] ex_blank).1)).

Lemma ex_nodup : NoDup (toy_digest <$> ex_contents).
Proof. by_compute. Qed.

#[export] Instance ex_laws : BlocksetLaws toy := toy_laws ex_contents ex_nodup.

(** The contents of the run are admissible. *)
Ltac by_adm := match goal with |- admissible ?x => change (x ∈ ex_contents); by_compute end.

Lemma ex_healthy : healthy ex_io.
Proof. apply map_Forall_empty. Qed.

Lemma ex_rep : store_rep ex_store ex_abs.
Proof.
  apply (store_new_rep 501 20 ex_io); [apply ex_healthy|by split|by split|by_adm..].
Qed.

(** The file system of the run before anything was created. *)
Definition ex_fs : SliceFsFilesystem toy := fs_new ex_store.

(** What the creation of the directory [d] needs. *)
Lemma ex_mkdir_room : mkdir_room ex_abs 1 nm_d ex_dir.
Proof.
  split; try done; try by_adm.
  - split_and!; try done. by_adm.
  - split; by_adm.
  - split; [by_compute|by_adm].
  - intros pm [= <-]. by_adm.
  - intros D [= <-] _. split; [done|by_adm].
Qed.

Lemma ex_tables_fit : tables_fit ex_store.
Proof. split; try done. Qed.

Lemma ex_commit_admissible : Forall admissible (commit_contents ex_store).
Proof.
  change (Forall (λ bs, bs ∈ ex_contents) (commit_contents ex_store)). by_compute.
Qed.
