(* ===== verification/MountExamples.v ===== *)
(** * A concrete store directory

    The directory that a commit of the run of [Examples] writes, the store that a mount
    of it gives, and a session on that store: the input of the witnesses about mounts,
    commands and sessions. *)

From S2P Require Import Prelude Types Text Blockset Inode InodeMap Xattr Directory Segment Wal.
From S2P Require Import SegmentDir Gc Store StoreSpec StoreRefine StoreCommit Snapshots Filesystem.
From S2P Require Import Mount MountRefine Examples.
From stdpp Require Import base tactics numbers option list gmap strings.
Open Scope Z_scope.

(** A directory with one segment, which a commit of the fresh store has written;
    a crashed mount has left its lock. *)
Definition ex_root_digest : Digest224 := commit_digest ex_store.
Definition ex_log : list SegmentEntry := [RootUpdate ex_root_digest].
Definition ex_segs : gmap bytes bytes := <[seg_name 1 := closed_segment 1 ex_log]> ∅.
Definition ex_numbered : gmap Z bytes := <[1 := closed_segment 1 ex_log]> ∅.
Definition ex_io1 : @Io toy := st_io (commit ex_store).1.
Definition ex_sdir (lock : bool) : StoreDir toy := mkStoreDir toy false lock (Some ex_segs) ex_io1.

Lemma ex_committed :
  store_rep (commit ex_store).1 ex_abs ∧ st_io ex_store ⊑ᵢ ex_io1 ∧
  root_holds ex_io1 ex_root_digest ex_abs.
Proof.
  apply root_holds_commit; [exact ex_rep|by split|by eexists|exact ex_commit_admissible].
Qed.

Lemma ex_segs_rep : dir_rep ex_segs ex_numbered ∧ numbered_log ex_numbered = Ok ex_log.
Proof.
  apply (dir_rep_last ∅ ∅ []);
    [apply dir_rep_empty|done|apply map_Forall_empty|done|].
  apply recovered_closed; [done|]. constructor; [apply digest_of_wf|constructor].
Qed.

Lemma ex_dir_log lock : dir_log (ex_sdir lock) ex_numbered ex_log.
Proof. split; [reflexivity|exists ex_segs; split; [reflexivity|]|]; apply ex_segs_rep. Qed.

Lemma ex_io1_healthy : healthy ex_io1.
Proof. exact (rep_io _ _ (proj1 ex_committed)). Qed.

Lemma ex_dir_holds lock : dir_holds (ex_sdir lock) ex_abs.
Proof.
  exists ex_numbered, ex_log, ex_root_digest.
  split_and!; [apply ex_dir_log|reflexivity|exact ex_io1_healthy|apply ex_committed].
Qed.

(** The store that the mount of this directory gives. *)
Definition ok_or_else {E A} (x : A) (r : res E A) : A := match r with Ok y => y | _ => x end.
Definition ex_mounted : DictMetadataStore toy :=
  ok_or_else ex_store (load_store CfgFlushOnFsync [] (ex_sdir false)).2.

Lemma ex_mount :
  ∃ d', load_store CfgFlushOnFsync [] (ex_sdir false) = (d', Ok ex_mounted) ∧ store_rep ex_mounted ex_abs ∧
        st_io ex_mounted = ex_io1 ∧
        st_wal ex_mounted = Some (create_wal CfgFlushOnFsync (next_segment_id (Some ex_segs)) []).
Proof.
  destruct (load_store_run CfgFlushOnFsync [] (ex_sdir false) ex_numbered ex_log ex_root_digest ex_abs)
    as (segs & s & [= <-] & _ & Hl & Hs & Hio & Hw & _);
    [apply ex_dir_log|reflexivity|exact ex_io1_healthy|apply ex_committed|].
  assert (ex_mounted = s) as -> by (unfold ex_mounted; by rewrite Hl).
  eexists. split; [exact Hl|]. split; [exact Hs|]. split; [exact Hio|exact Hw].
Qed.

Lemma ex_mounted_contents : Forall (λ bs, bs ∈ ex_contents) (commit_contents ex_mounted).
Proof. by_compute. Qed.

Lemma ex_mounted_commit :
  tables_fit ex_mounted ∧ is_Some (a_inodes ex_abs !! 1) ∧ Forall admissible (commit_contents ex_mounted).
Proof.
  split_and!; [split; unfold fits, wf_counts, wf_digest, is_u64; by_compute|by eexists
              |exact ex_mounted_contents].
Qed.

(** It commits and flushes. *)
Definition ex_flushed : DictMetadataStore toy := (flush_wal (commit ex_mounted).1).1.

Lemma ex_session : session ex_mounted ex_abs ex_flushed ex_abs [ex_abs] 1.
Proof.
  destruct ex_mounted_commit as (Hfit & Hroot & Hadm).
  assert ((flush_wal (commit ex_mounted).1).2 = Ok tt) as Hok by (vm_compute; reflexivity).
  pose proof (session_commit _ _ _ _ _ _ (session_start ex_mounted ex_abs) Hfit Hroot Hadm) as Hc.
  pose proof (session_flush _ _ _ _ _ _ _ _ Hc (surjective_pairing _)) as Hs.
  rewrite Hok in Hs. exact Hs.
Qed.

Lemma ex_flushed_rep : store_rep ex_flushed ex_abs.
Proof.
  destruct ex_mount as (d' & _ & Hs & _ & Hw).
  apply (si_rep _ _ _ _ _ _
    (session_inv_holds _ _ _ _ _ _ _ _ (session_inv_start CfgFlushOnFsync [] _ _ _ ltac:(done) Hs Hw) ex_session)).
Qed.

(** What the session leaves on disk when it is killed. *)
Definition ex_box : WalBox := from_option id (BoxNoWal mkNoWal) (st_wal ex_flushed).

(* ------------------------------------------------------------------------ *)
(** ** A directory with a snapshot

    The first commit is the snapshot [s1]; a directory [d] is created after it and
    committed, too. *)

Definition ex_abs_sub : AbsFs := (abs_create_directory 1 nm_d ex_dir ex_abs).1.
Definition ex_store_d : DictMetadataStore toy := (create_directory 1 nm_d ex_dir (commit ex_store).1).1.
Definition ex_root_d : Digest224 := commit_digest ex_store_d.
Definition ex_io_d : @Io toy := st_io (commit ex_store_d).1.
Definition ex_snap : SnapshotEntry := mkSnapshot 1 (Some (str "s1")) ex_root_digest 1700000000.
Definition ex_log_d : list SegmentEntry :=
  [RootUpdate ex_root_digest; SnapshotRecord 1 ex_root_digest 1700000000 (Some (str "s1"));
   RootUpdate ex_root_d].
Definition ex_segs_d : gmap bytes bytes := <[seg_name 1 := closed_segment 1 ex_log_d]> ∅.
Definition ex_numbered_d : gmap Z bytes := <[1 := closed_segment 1 ex_log_d]> ∅.
Definition ex_sdir_d (lock : bool) : StoreDir toy := mkStoreDir toy false lock (Some ex_segs_d) ex_io_d.
Definition ex_loaded_d : DictMetadataStore toy := ok_or_else ex_store (load_from_root ex_io_d ex_root_d).

Lemma ex_store_d_rep : store_rep ex_store_d ex_abs_sub ∧ ex_io1 ⊑ᵢ st_io ex_store_d.
Proof.
  destruct (create_directory_refines (commit ex_store).1 ex_abs 1 nm_d ex_dir (proj1 ex_committed)
              ex_mkdir_room) as (_ & H2 & H3). split; [exact H2|exact H3].
Qed.

Lemma ex_committed_d :
  store_rep (commit ex_store_d).1 ex_abs_sub ∧ st_io ex_store_d ⊑ᵢ ex_io_d ∧
  root_holds ex_io_d ex_root_d ex_abs_sub.
Proof.
  apply (root_holds_commit ex_store_d ex_abs_sub); [exact (proj1 ex_store_d_rep)| |by_compute|].
  - split; unfold fits, wf_counts, wf_digest, is_u64; by_compute.
  - change (Forall (λ bs, bs ∈ ex_contents) (commit_contents ex_store_d)). by_compute.
Qed.

Lemma ex_io_d_healthy : healthy ex_io_d.
Proof. exact (rep_io _ _ (proj1 ex_committed_d)). Qed.

(** The snapshot is still there. *)
Lemma ex_snap_holds : root_holds ex_io_d ex_root_digest ex_abs.
Proof.
  apply (root_holds_mono ex_io1); [|apply ex_committed].
  etransitivity; [apply ex_store_d_rep|apply ex_committed_d].
Qed.

Lemma ex_segs_d_rep : dir_rep ex_segs_d ex_numbered_d ∧ numbered_log ex_numbered_d = Ok ex_log_d.
Proof.
  apply (dir_rep_last ∅ ∅ []);
    [apply dir_rep_empty|done|apply map_Forall_empty|done|].
  apply recovered_closed; [done|].
  repeat (apply Forall_cons; split); [apply digest_of_wf| |apply digest_of_wf|constructor].
  split_and!; [done|apply digest_of_wf|done|done].
Qed.

Lemma ex_dir_log_d lock : dir_log (ex_sdir_d lock) ex_numbered_d ex_log_d.
Proof. split; [reflexivity|exists ex_segs_d; split; [reflexivity|]|]; apply ex_segs_d_rep. Qed.

Lemma ex_dir_holds_d lock : dir_holds (ex_sdir_d lock) ex_abs_sub.
Proof.
  exists ex_numbered_d, ex_log_d, ex_root_d.
  split_and!; [apply ex_dir_log_d|reflexivity|exact ex_io_d_healthy|apply ex_committed_d].
Qed.

Lemma ex_loaded_d_eq : load_from_root ex_io_d ex_root_d = Ok ex_loaded_d.
Proof.
  destruct (proj2 (proj2 ex_committed_d) ex_io_d) as (s & Hs & _); [done|exact ex_io_d_healthy|].
  unfold ex_loaded_d. rewrite Hs. reflexivity.
Qed.

Lemma ex_loaded_d_contents : Forall (λ bs, bs ∈ ex_contents) (commit_contents ex_loaded_d).
Proof. by_compute. Qed.

Lemma ex_loaded_d_fit : tables_fit ex_loaded_d.
Proof. split; unfold fits, wf_counts, wf_digest, is_u64; by_compute. Qed.
