(* ===== verification/SpecExamples.v ===== *)
(** * The concrete run on the specification

    The requests of [Examples] as [FsSpec] serves them, and tactics that check what a run on
    a concrete state needs. *)

From S2P Require Import Prelude Types Text Blockset Inode InodeMap Xattr Directory Segment Wal.
From S2P Require Import Store StoreSpec StoreRefine MetadataStoreTrait StoreCommit.
From S2P Require Import Filesystem WritePath Namespace NamespaceRefine Handlers Callbacks.
From S2P Require Import Session FsSpec FsSim Examples MountExamples.
From stdpp Require Import base tactics numbers option list gmap strings.
Open Scope Z_scope.

(** The run [ex_requests] on the specification. *)
Definition ex_spec : SpecFs := mkSpec ex_abs ∅ ∅ 0.
Definition ex_spec_end : SpecFs := (spec_calls ex_requests (ex_spec, True)).1.1.
(** What a run on a concrete state needs, one step of the specification at a time. *)
Lemma need_bind {E A R} (m : M Needs E A) (k : A → M Needs E R) c x :
  (m c).1.2 → (m c).2 = Ok x → ((m c).1.2 → (k x (m c).1).1.2) → ((m ≫= k) c).1.2.
Proof. intros H1 H2 H3. rewrite run_bind. destruct (m c) as [c1 r]. cbn in H2. subst r. by apply H3. Qed.
Lemma need_err {E A R} (m : M Needs E A) (k : A → M Needs E R) c e :
  (m c).1.2 → (m c).2 = Err e → ((m ≫= k) c).1.2.
Proof. intros H1 H2. rewrite run_bind. destruct (m c) as [c1 r]. cbn in H2. by subst r. Qed.
Lemma need_gets {E A R} (g : SpecFs → A) (k : A → M Needs E R) c :
  (k (g c.1) c).1.2 → ((sgets g ≫= k) c).1.2.
Proof. done. Qed.
Lemma need_map_err {E E' A} (g : E → E') (m : M Needs E A) c : (m c).1.2 → (map_err g m c).1.2.
Proof. unfold map_err. by destruct (m c). Qed.
Lemma need_attempt {E E' A} (m : M Needs E A) c : (m c).1.2 → (attempt (E' := E') m c).1.2.
Proof. unfold attempt. by destruct (m c) as [? []]. Qed.
Lemma need_handled {E A R} (m : M Needs E A) (ok : A → R) (err : E → R) c :
  (m c).1.2 → (handled m ok err c).1.2.
Proof. unfold handled. by destruct (m c) as [? []]. Qed.
Lemma need_tree {A} need (m : M AbsFs MetaError A) c :
  c.2 → need (sp_tree c.1) → (tree need m c).1.2.
Proof. unfold tree. by destruct (m (sp_tree c.1)). Qed.
Lemma need_ret {E A} (x : A) (c : Needs) : c.2 → (mret (M := M Needs E) x c).1.2.
Proof. done. Qed.
Lemma need_throw {E A} (e : E) (c : Needs) : c.2 → (throw (A := A) e c).1.2.
Proof. done. Qed.
Lemma need_modify {E} g (c : Needs) : c.2 → (smodify (E := E) g c).1.2.
Proof. done. Qed.
Lemma need_require {E} (P : Prop) (c : Needs) : c.2 → P → (require (E := E) P c).1.2.
Proof. by split. Qed.
Lemma need_same {A} (l : list A) (Q : A → A → Prop) : l = [] → ∀ x y, x ∈ l → y ∈ l → Q x y.
Proof. intros -> x y Hx. by apply elem_of_nil in Hx. Qed.

Ltac need_held := match goal with H : ?Q |- ?Q => exact H end.
Ltac need_step :=
  match goal with
  | |- ((sgets _ ≫= _) _).1.2 => apply need_gets
  | |- ((?m ≫= _) ?c).1.2 =>
      let r := eval vm_compute in (m c).2 in
      match r with
      | Ok ?x => apply (need_bind m _ c x); [|vm_compute; reflexivity|intros ?; cbv beta iota]
      | Err ?e => apply (need_err m _ c e); [|vm_compute; reflexivity]
      end
  | |- (map_err _ _ _).1.2 => apply need_map_err
  | |- (attempt _ _).1.2 => apply need_attempt
  | |- (handled _ _ _ _).1.2 => apply need_handled
  | |- (tree _ _ _).1.2 => apply need_tree; [need_held|]
  | |- (require _ _).1.2 => apply need_require; [need_held|]
  | |- (smodify _ _).1.2 => apply need_modify; need_held
  | |- (mret _ _).1.2 => apply need_ret; need_held
  | |- (throw _ _).1.2 => apply need_throw; need_held
  | |- ((match decide ?Q with left _ => _ | right _ => _ end) _).1.2 =>
      first [rewrite (decide_True (P := Q)) by by_compute | rewrite (decide_False (P := Q)) by by_compute]
  | |- ((match ?x with _ => _ end) ?c).1.2 =>
      let v := eval vm_compute in x in
      replace x with v by (vm_compute; reflexivity); cbv beta iota
  | |- (?m ?c).1.2 => let m' := eval red in m in change ((m' c).1.2)
  end.
Ltac need_some d :=
  let x := fresh in let H := fresh in
  intros x H; lazymatch type of H with ?o = _ => replace x with (default d o) by (by rewrite H) end; clear x H.
Ltac need_leaf :=
  lazymatch goal with
  | |- no_need _ => exact I
  | |- call_room _ _ => hnf
  | |- mkdir_room _ _ _ _ => constructor
  | |- dir_room _ _ _ _ => unfold dir_room
  | |- _ ∧ _ => split
  | |- from_option _ _ (Some _) => cbv beta iota delta [from_option]
  | |- admissible ?x => change (x ∈ ex_contents); by_compute
  | |- name_ok _ => unfold name_ok
  | |- ∀ D : gmap bytes Z, _ = Some D → _ => need_some (∅ : gmap bytes Z)
  | |- ∀ m : InodeMeta, _ = Some m → _ => need_some ex_root
  | |- ∀ c c', c ∈ _ → c' ∈ _ → _ => apply need_same; vm_compute; reflexivity
  | |- _ → _ => intros ?
  | |- _ => by_compute
  end.
(** The needs of a run of requests. *)
Ltac by_needs := cbn [fmap list_fmap spec_calls]; repeat need_step; repeat need_leaf.

Lemma ex_spec_needs : (spec_calls ex_requests (ex_spec, True)).1.2.
Proof.
  assert ((ex_spec, True).2) by exact I. unfold ex_requests. by_needs.
Qed.

Lemma ex_spec_run : spec_calls ex_requests (ex_spec, True) =
  ((ex_spec_end, (spec_calls ex_requests (ex_spec, True)).1.2), (spec_calls ex_requests (ex_spec, True)).2).
Proof.
  unfold ex_spec_end. by rewrite <-(surjective_pairing (spec_calls ex_requests (ex_spec, True)).1),
    <-(surjective_pairing (spec_calls ex_requests (ex_spec, True))).
Qed.

(** The replies: three that succeed, the rest of the file, and a name that is not there. *)
Definition ex_replies : list Reply := ok_or_else [] (spec_calls ex_requests (ex_spec, True)).2.
Lemma ex_replies_ok : (spec_calls ex_requests (ex_spec, True)).2 = Ok ex_replies ∧
  drop 1 ex_replies = [ReplyWritten 3; ReplyOk; ReplyData (str "el"); ReplyError ENOENT].
Proof. split; vm_compute; reflexivity. Qed.

Lemma ex_fs_spec_rep : fs_rep (fs_new ex_store) ex_spec.
Proof. split; [exact ex_rep|apply map_Forall_empty|apply map_Forall2_empty|reflexivity]. Qed.

(** Two checks on the content stores of the run. *)
Lemma toy_io_le (io io' : gmap (list Z) bytes) :
  forallb (λ p, bool_decide (io' !! p.1 = Some p.2)) (map_to_list io) = true → @io_le toy io io'.
Proof.
  rewrite forallb_forall. intros H k v Hk.
  specialize (H (k, v) (proj1 (list_elem_of_In _ _) (proj2 (elem_of_map_to_list _ _ _) Hk))).
  by apply bool_decide_eq_true in H.
Qed.
Lemma toy_io_healthy (io : gmap (list Z) bytes) :
  forallb (λ p, bool_decide (p.1 = toy_digest p.2 ∧ p.2 ∈ ex_contents)) (map_to_list io) = true → healthy io.
Proof.
  rewrite forallb_forall. intros H k v Hk.
  specialize (H (k, v) (proj1 (list_elem_of_In _ _) (proj2 (elem_of_map_to_list _ _ _) Hk))).
  by apply bool_decide_eq_true in H.
Qed.
