(* ===== verification/LogTheorems.v ===== *)
(** * Theorems: encodings, segment files and the write-ahead log *)

From S2P Require Import Prelude Types Text Blockset Inode InodeMap Xattr Directory Segment Wal.
From S2P Require Import Examples.
From stdpp Require Import base tactics numbers option list gmap strings.
Open Scope Z_scope.

(** C10. Crash recovery of the write-ahead log, for every durable strategy
    (proved against the [WalLaws] interface): after any history of logging,
    flushing and shutting down, with any syncs failing, and a crash that keeps
    the synced bytes and any part of the rest, the next mount reads back a prefix
    of the logged entries that contains everything an acknowledged flush covered. *)
Theorem wal_crash_recovery {W} `{WalLaws W} id (w : W) ops w' rs file :
  is_u64 id → wal_rep id w [] [] → Forall wf_op ops →
  wal_run ops w = (w', rs) → crash_image (wal_writer w') file →
  ∃ es, recovered file = Ok (wal_entry_to_segment <$> es) ∧
        acknowledged ops rs [] [] `prefix_of` es ∧ es `prefix_of` logged ops.
Proof. apply wal_recovery. Qed.

Definition ex_digest : Digest224 := toy_digest ex_content.
(** Two root updates, a failed flush between them, a successful one, a third
    update that is not flushed. *)
Definition ex_ops : list WalOp :=
  [OpLog (WalRootUpdate ex_digest); OpFlush; OpLog (WalSnapshot 1 ex_digest 7 (Some nm_a)); OpFlush;
   OpLog (WalRootUpdate ex_digest)].
Definition ex_wal : FlushOnFsyncWal := flush_on_fsync_new 3 [true].

Lemma wal_crash_recovery_witness :
  ∃ es, recovered (sw_synced (fl_writer (wal_run ex_ops ex_wal).1))
          = Ok (wal_entry_to_segment <$> es) ∧
        acknowledged ex_ops (wal_run ex_ops ex_wal).2 [] [] `prefix_of` es ∧
        es `prefix_of` logged ex_ops.
Proof.
  apply (wal_crash_recovery (W := FlushOnFsyncWal) 3 ex_wal ex_ops
           (wal_run ex_ops ex_wal).1 (wal_run ex_ops ex_wal).2).
  - by split.
  - apply buffered_new_rep.
  - repeat constructor; try done; try apply toy_digest_wf.
  - by destruct (wal_run ex_ops ex_wal).
  - exists (length (sw_synced (fl_writer (wal_run ex_ops ex_wal).1))). split; [done|].
    cbn [wal_writer flush_on_fsync_laws]. by rewrite take_app_length.
Defined.

(** With the per-operation strategy, an entry whose [log_mutation] returned
    [Ok] is durable when the call returns: every crash image holds the whole log,
    that entry included. *)
Theorem per_op_durable id w d l e w' file :
  is_u64 id → per_op_rep id w d l → wf_walentry e →
  log_mutation e w = (w', Ok tt) → crash_image (po_writer w') file →
  recovered file = Ok (wal_entry_to_segment <$> (l ++ [e])).
Proof. apply per_op_log_durable. Qed.

Lemma per_op_durable_witness :
  recovered (sw_synced (po_writer (log_mutation (WalRootUpdate ex_digest) (per_op_new 3 [])).1))
  = Ok (wal_entry_to_segment <$> ([] ++ [WalRootUpdate ex_digest])).
Proof.
  apply (per_op_durable 3 (per_op_new 3 []) [] [] (WalRootUpdate ex_digest)
           (log_mutation (WalRootUpdate ex_digest) (per_op_new 3 [])).1).
  - by split.
  - apply per_op_new_rep.
  - apply toy_digest_wf.
  - reflexivity.
  - eexists. split; [reflexivity|]. by rewrite take_app_length.
Defined.

(** C13. Crash tolerance of the segment reader: a segment cut anywhere yields
    exactly the entries that were written completely, in order. *)
Theorem truncated_segment k es :
  Forall wf_segentry es →
  ∃ es', reader_entries (take k (flat_map frame es)) = es' ∧ es' `prefix_of` es ∧
         ∀ es'', es'' `prefix_of` es → (length (flat_map frame es'') ≤ k)%nat →
                 es'' `prefix_of` es'.
Proof. apply read_truncated. Qed.

Definition ex_entries : list SegmentEntry :=
  [RootUpdate ex_digest; SnapshotRecord 1 ex_digest 7 (Some nm_a); RootUpdate ex_digest].

Lemma ex_entries_wf : Forall wf_segentry ex_entries.
Proof. repeat constructor; try done; try apply toy_digest_wf. Qed.

Lemma truncated_segment_witness :
  ∃ es', reader_entries (take 50 (flat_map frame ex_entries)) = es' ∧ es' `prefix_of` ex_entries ∧
         ∀ es'', es'' `prefix_of` ex_entries → (length (flat_map frame es'') ≤ 50)%nat →
                 es'' `prefix_of` es'.
Proof. apply (truncated_segment 50 ex_entries). exact ex_entries_wf. Defined.

(** A closed segment reads back exactly the entries it was written with. *)
Theorem segment_roundtrip id es :
  is_u64 id → Forall wf_segentry es → read_segment (closed_segment id es) = Ok es.
Proof. apply read_closed_segment. Qed.

Lemma segment_roundtrip_witness : read_segment (closed_segment 4 ex_entries) = Ok ex_entries.
Proof. apply (segment_roundtrip 4 ex_entries); [by split|exact ex_entries_wf]. Defined.

(** C24. Compaction keeps the log.  From any readable segment, when the sync succeeds, the
    compaction succeeds, counts every entry, and the file that it renames into place reads
    back the same entries, with no temporary file left; when the sync fails, it reports
    the error, the file under the output name, if there was one, is still the old one, and
    the temporary file stays behind.  No other file changes, the original included. *)
Theorem compaction_preserves name id faults dir file es :
  is_u64 id → dir !! name = Some file → read_segment file = Ok es →
  let out := seg_file_name 3 id in
  let tmp := out ++ str ".tmp" in
  (head faults ≠ Some true → ∃ dir' copy,
     compact_segment name id faults dir = (dir', Ok (mkCompaction (Z.of_nat (length es)) 0)) ∧
     dir' !! out = Some copy ∧ read_segment copy = Ok es ∧ dir' !! tmp = None ∧
     ∀ n, n ≠ out → n ≠ tmp → dir' !! n = dir !! n) ∧
  (head faults = Some true → ∃ dir',
     compact_segment name id faults dir = (dir', Err (OtherIo "sync_all")) ∧
     dir' !! out = dir !! out ∧ is_Some (dir' !! tmp) ∧ ∀ n, n ≠ tmp → dir' !! n = dir !! n).
Proof.
  intros Hid Hf Hr out tmp. rewrite (compact_segment_spec _ _ _ _ _ _ Hf Hr). fold out. fold tmp.
  assert (tmp ≠ out) as Hne.
  { intros E. apply (f_equal length) in E. unfold tmp in E. rewrite length_app in E. cbn in E. lia. }
  pose proof (read_closed_segment id es Hid (read_segment_wf _ _ Hr)) as Hout. split; intros Hfault.
  - exists (<[out := closed_segment id es]> (delete tmp dir)), (closed_segment id es). split_and!.
    + by destruct faults as [|[] faults].
    + apply lookup_insert_eq.
    + done.
    + by rewrite lookup_insert_ne, lookup_delete_eq.
    + intros n Hn Hn'. by rewrite lookup_insert_ne, lookup_delete_ne.
  - exists (<[tmp := closed_segment id es]> dir). split_and!.
    + by destruct faults as [|[] faults].
    + by rewrite lookup_insert_ne.
    + by rewrite lookup_insert_eq.
    + intros n Hn. by rewrite lookup_insert_ne.
Qed.

Lemma compaction_preserves_witness :
  let dir : gmap bytes bytes := {[ seg_file_name 6 1 := closed_segment 1 ex_entries ]} in
  (∃ dir' copy,
     compact_segment (seg_file_name 6 1) 100001 [] dir =
       (dir', Ok (mkCompaction (Z.of_nat (length ex_entries)) 0)) ∧
     dir' !! seg_file_name 3 100001 = Some copy ∧ read_segment copy = Ok ex_entries ∧
     dir' !! seg_file_name 6 1 = Some (closed_segment 1 ex_entries)) ∧
  (∃ dir', compact_segment (seg_file_name 6 1) 100001 [true] dir = (dir', Err (OtherIo "sync_all")) ∧
     dir' !! seg_file_name 3 100001 = None).
Proof.
  intros dir.
  assert (dir !! seg_file_name 6 1 = Some (closed_segment 1 ex_entries)) as Hf by apply lookup_singleton_eq.
  assert (read_segment (closed_segment 1 ex_entries) = Ok ex_entries) as Hr by (vm_compute; reflexivity).
  split.
  - destruct (proj1 (compaction_preserves (seg_file_name 6 1) 100001 [] dir _ ex_entries ltac:(by split) Hf Hr))
      as (dir' & copy & H1 & H2 & H3 & _ & H4); [discriminate|].
    exists dir', copy. split; [exact H1|]. split; [exact H2|]. split; [exact H3|].
    rewrite H4; [exact Hf|vm_compute; congruence..].
  - destruct (proj2 (compaction_preserves (seg_file_name 6 1) 100001 [true] dir _ ex_entries ltac:(by split) Hf Hr)
                eq_refl) as (dir' & H1 & H2 & _).
    exists dir'. split; [exact H1|]. rewrite H2. vm_compute. reflexivity.
Defined.

(** C35. Replaying a directory of segments: the result depends only on the
    concatenation of the logs of its segment files in name order; the root is
    that of the last root update, the snapshots are all snapshot records; a file
    too short for a header is skipped, an invalid header is an error. *)
Theorem replay_denotes_log dir :
  load_store_from_segments dir =
  (λ es, (log_root es, log_snapshots es)) <$> files_entries (segment_files dir).
Proof. apply load_store_log. Qed.

(** C39. Beyond six digits the order breaks: with segment 999999 present, the
    number that [next_segment_id] hands out next is 1000000, its file sorts first
    and replay returns the root of the older segment. *)
Theorem segment_order_breaks r1 r2 :
  wf_digest r1 → wf_digest r2 →
  load_store_from_segments
    (<[seg_file_name 6 1000000 := closed_segment 1000000 [RootUpdate r2]]>
       {[seg_file_name 6 999999 := closed_segment 999999 [RootUpdate r1]]})
  = Ok (Some r1, []).
Proof.
  intros H1 H2. rewrite load_store_log.
  assert (segment_files
    (<[seg_file_name 6 1000000 := closed_segment 1000000 [RootUpdate r2]]>
       {[seg_file_name 6 999999 := closed_segment 999999 [RootUpdate r1]]})
    = [(seg_file_name 6 1000000, closed_segment 1000000 [RootUpdate r2]);
       (seg_file_name 6 999999, closed_segment 999999 [RootUpdate r1])]) as ->.
  { generalize (closed_segment 1000000 [RootUpdate r2]), (closed_segment 999999 [RootUpdate r1]).
    intros x y. vm_compute. reflexivity. }
  cbn [files_entries foldr snd].
  rewrite !read_closed_segment by (done || (repeat constructor; apply H1) || (repeat constructor; apply H2)).
  assert (∀ id es, ¬ len (closed_segment id es) < 16) as Hl.
  { intros id es. unfold closed_segment, len. rewrite length_app, length_header. lia. }
  rewrite !decide_False by apply Hl. done.
Qed.

Lemma segment_order_breaks_witness :
  load_store_from_segments
    (<[seg_file_name 6 1000000 := closed_segment 1000000 [RootUpdate [0;0;0;0;0;0;2]]]>
       {[seg_file_name 6 999999 := closed_segment 999999 [RootUpdate [0;0;0;0;0;0;1]]]})
  = Ok (Some [0;0;0;0;0;0;1], []).
Proof.
  apply (segment_order_breaks [0;0;0;0;0;0;1] [0;0;0;0;0;0;2]); (split; [done|repeat constructor; done]).
Defined.

(* ------------------------------------------------------------------------ *)
(** ** Encodings *)

(** C36. The blob formats.  A buffer decodes to an inode exactly when it is the 56-byte
    encoding of that inode and the fields fit their types; and decoding an encoded
    directory entry table, an encoded attribute list (order and duplicates included), an
    encoded inode or reference count table or block list gives it back. *)
Theorem blob_roundtrips buf i e xs m c l :
  wf_entries e → Forall wf_xattr xs → wf_table m → fits m → wf_counts c → fits c →
  Forall wf_digest l →
  (deserialize_inode buf = Ok i ↔ buf = serialize_inode i ∧ wf_inode i) ∧
  deserialize_entry_list (serialize_entry_list e) = Ok e ∧
  deserialize_xattrs (serialize_xattrs xs) = Ok xs ∧
  load_counted "u64-digest map" dec_ino_digest (serialize_u64_digest_map m) = Ok m ∧
  load_counted "digest224-u64 map" dec_digest_count (serialize_digest224_u64_map c) = Ok c ∧
  deserialize_manifest (serialize_manifest l) = Ok l.
Proof.
  intros. split_and!; [apply inode_encoded|by apply deserialize_serialize_entry_list|by apply deserialize_serialize_xattrs
    |by apply load_u64_digest_serialize|by apply load_digest224_u64_serialize
    |by apply deserialize_serialize_manifest].
Qed.

Definition ex_dir_entries : gmap Digest224 EntryRecord :=
  <[toy_digest nm_b := mkEntry (toy_digest nm_b) 3 nm_b]>
    {[toy_digest nm_a := mkEntry (toy_digest nm_a) 2 nm_a]}.
Definition ex_table : gmap Z Digest224 := {[7 := ex_digest]}.
Definition ex_counts : gmap Digest224 Z := {[ex_digest := u64_max]}.

Lemma blob_roundtrips_witness :
  deserialize_entry_list (serialize_entry_list ex_dir_entries) = Ok ex_dir_entries ∧
  deserialize_xattrs (serialize_xattrs ex_xattrs) = Ok ex_xattrs ∧
  load_counted "u64-digest map" dec_ino_digest (serialize_u64_digest_map ex_table) = Ok ex_table ∧
  load_counted "digest224-u64 map" dec_digest_count (serialize_digest224_u64_map ex_counts)
    = Ok ex_counts ∧
  deserialize_manifest (serialize_manifest [ex_digest]) = Ok [ex_digest].
Proof.
  apply (blob_roundtrips (serialize_inode ex_root) ex_root).
  - split; [|done]. apply map_Forall_insert_2; [|apply map_Forall_singleton].
    all: split; [done|]; unfold wf_entry; split_and!; try done; apply toy_digest_wf.
  - repeat constructor; done.
  - apply map_Forall_singleton. split; [done|apply toy_digest_wf].
  - done.
  - apply map_Forall_singleton. split; [apply toy_digest_wf|done].
  - done.
  - constructor; [apply toy_digest_wf|constructor].
Defined.

(** A stored count whose byte size wraps around [usize] to the size of the
    blob passes the length check of the table loaders; the first record read is
    out of bounds and panics. *)
Theorem table_count_wraps :
  load_counted "u64-digest map" dec_ino_digest (le_bytes 8 (2 ^ 62)) = Panic ∧
  load_counted "digest224-u64 map" dec_digest_count (le_bytes 8 (2 ^ 62)) = Panic.
Proof. split; apply load_counted_panics. Qed.
