(* ===== verification/StoreTheorems.v ===== *)
(** * Theorems: the metadata store *)

From S2P Require Import Prelude Types Text Blockset Inode InodeMap Xattr Directory Segment Wal.
From S2P Require Import Store StoreSpec StoreRefine MetadataStoreTrait StoreCommit Snapshots.
From S2P Require Import Filesystem WritePath Namespace NamespaceRefine Examples.
From stdpp Require Import base tactics numbers option list gmap strings.
Open Scope Z_scope.

Section theorems.
Context {B : Blockset} {L : BlocksetLaws B}.
Implicit Types (s : DictMetadataStore B) (a : AbsFs).

(** C7. Commit and reload: the root that [commit] returns, loaded from any
    later state of the content store, rebuilds a store that represents the same
    file system, with the same reference counts and the same allocator. *)
Theorem commit_reload s a io :
  store_rep s a → tables_fit s → is_Some (a_inodes a !! 1) →
  Forall admissible (commit_contents s) →
  ∃ s' root, commit s = (s', Ok root) ∧ store_rep s' a ∧
    (st_io s' ⊑ᵢ io → healthy io →
     ∃ s'', load_from_root io root = Ok s'' ∧ store_rep s'' a ∧
            st_refcounts s'' = st_refcounts s ∧ st_last_root s'' = Some root ∧
            st_inode_map s'' = st_inode_map s).
Proof. apply commit_load. Qed.

(** C11. The store implements its specification: a client that makes any calls of the
    [MetadataStore] trait, each chosen by the replies so far, gets from
    [DictMetadataStore] the replies that the abstract file system gives, errors
    included, and afterwards the store represents the abstract state and nothing that
    was stored is lost. *)
Theorem store_implements_spec n (client : Client) s a :
  store_rep s a → client_room n client [] a →
  (run_client n client [] s).2 = (run_client n client [] a).2 ∧
  store_rep (run_client n client [] s).1 (run_client n client [] a).1 ∧
  st_io s ⊑ᵢ st_io (run_client n client [] s).1.
Proof. apply run_client_refines. Qed.

(** C14. A snapshot preserves the file system: whatever is stored after it was
    taken, loading its root gives back the file system of that moment. *)
Theorem snapshot_preserves now name s a l io :
  store_rep s a → snapshots_of s l → tables_fit s → is_Some (a_inodes a !! 1) →
  Forall admissible (commit_contents s) →
  ∃ s' e, create_snapshot now name s = (s', Ok e) ∧ store_rep s' a ∧
    (st_io s' ⊑ᵢ io → healthy io →
     ∃ s'', load_from_root io (sn_root e) = Ok s'' ∧ store_rep s'' a).
Proof. apply snapshot_load. Qed.

(** A new snapshot gets a version above all others and is found by it and
    by its name (unless the name is a number); earlier snapshots are still found
    by theirs. *)
Theorem snapshot_found now name s l s' e :
  snapshots_of s l → versions_wf s → create_snapshot now name s = (s', Ok e) →
  sn_version e = max_version (st_by_version s) + 1 ∧
  find_snapshot (fmt_dec (sn_version e)) s' = Some e ∧
  (∀ n, name = Some n → parse_u64 n = None → find_snapshot n s' = Some e) ∧
  (∀ v e', st_by_version s !! v = Some e' → find_snapshot (fmt_dec v) s' = Some e').
Proof. apply create_snapshot_find. Qed.

(** C25. Reference counting: over a history in which every drop matches an
    earlier reference and no count reaches [u64::MAX], the count of a digest is
    the number of references to it; and a count that has reached [u64::MAX] never
    changes again, whatever is taken or dropped. *)
Theorem refcount_balance d ops s :
  counts_wf s →
  (rc_legal d (get_refcount d s) ops →
   get_refcount d (foldl rc_step s ops) = rc_balance d (get_refcount d s) ops) ∧
  (get_refcount d s = u64_max → get_refcount d (foldl rc_step s ops) = u64_max).
Proof. intros Hs. split; [by apply rc_run_balance|by apply rc_saturated]. Qed.
End theorems.

(* ------------------------------------------------------------------------ *)
(** ** The hypotheses at a concrete run *)

Lemma commit_reload_witness :
  ∃ s' root, commit ex_store = (s', Ok root) ∧ store_rep s' ex_abs ∧
    ∃ s'', load_from_root (st_io s') root = Ok s'' ∧ store_rep s'' ex_abs.
Proof.
  destruct (commit_reload ex_store ex_abs (st_io (commit ex_store).1)) as (s' & root & Hc & Hr & Hl);
    [exact ex_rep|exact ex_tables_fit|by eexists|exact ex_commit_admissible|].
  rewrite Hc in Hl. cbn [fst] in Hl.
  destruct Hl as (s'' & Hload & Hr'' & _); [reflexivity|exact (rep_io _ _ Hr)|].
  exists s', root. split; [exact Hc|]. split; [exact Hr|]. by exists s''.
Defined.

Lemma ex_snapshots : snapshots_of ex_store [].
Proof. done. Qed.

Lemma snapshot_preserves_witness :
  ∃ s' e, create_snapshot 7 (Some nm_a) ex_store = (s', Ok e) ∧ store_rep s' ex_abs ∧
    ∃ s'', load_from_root (st_io s') (sn_root e) = Ok s'' ∧ store_rep s'' ex_abs.
Proof.
  destruct (snapshot_preserves 7 (Some nm_a) ex_store ex_abs []
              (st_io (create_snapshot 7 (Some nm_a) ex_store).1)) as (s' & e & Hc & Hr & Hl);
    [exact ex_rep|exact ex_snapshots|exact ex_tables_fit|by eexists|exact ex_commit_admissible|].
  rewrite Hc in Hl. cbn [fst] in Hl.
  destruct Hl as (s'' & Hload & Hr''); [reflexivity|exact (rep_io _ _ Hr)|].
  exists s', e. split; [exact Hc|]. split; [exact Hr|]. by exists s''.
Defined.

Lemma ex_name_a : name_ok nm_a.
Proof. split_and!; [done|done|by_adm]. Qed.

Lemma ex_room_a : dir_room ex_abs 1 nm_a 2.
Proof. intros D [= <-] _. split; [done|by_adm]. Qed.

(** A client that creates, links, finds, lists, tags and removes a file. *)
Definition ex_calls : list StoreCall :=
  [CallCreateInode ex_file; CallLink 1 nm_a 2; CallLookup 1 nm_a; CallListDirectory 1;
   CallSetXattr 1 (str "user.k") (str "v"); CallGetXattr 1 (str "user.k"); CallUnlink 1 nm_a;
   CallDeleteInode 2; CallGetInode 2].
Definition ex_client : Client := λ log, ex_calls !! length log.

Lemma ex_client_room : client_room 10 ex_client [] ex_abs.
Proof.
  cbn. split_and!; try exact I; try by_compute; try by_adm.
  - exact ex_name_a.
  - exact ex_room_a.
  - intros D HD _.
    assert (a_dirs (abs_link 1 nm_a 2 (abs_create_inode ex_file ex_abs).1).1 !! 1 =
            Some (<[nm_a := 2]> ex_root_dir)) as E by reflexivity.
    assert (Some D = Some (<[nm_a := 2]> ex_root_dir)) as [= ->] by (rewrite <-E; symmetry; exact HD).
    by_compute.
Qed.

Lemma store_implements_spec_witness :
  (run_client 10 ex_client [] ex_store).2 =
    [GotIno (Ok 2); GotUnit (Ok tt); GotIno (Ok 2); GotListing (Ok (<[nm_a := 2]> ex_root_dir, 3%nat));
     GotUnit (Ok tt); GotBytes (Ok (str "v")); GotUnit (Ok tt); GotUnit (Ok tt); GotInode (Err (NotFound 2))].
Proof.
  rewrite (proj1 (store_implements_spec 10 ex_client ex_store ex_abs ex_rep ex_client_room)).
  reflexivity.
Defined.

Lemma snapshot_found_witness :
  ∃ s' e, create_snapshot 7 (Some nm_a) ex_store = (s', Ok e) ∧
    find_snapshot (fmt_dec (sn_version e)) s' = Some e ∧ find_snapshot nm_a s' = Some e.
Proof.
  destruct (create_snapshot_run 7 (Some nm_a) ex_store [] ex_snapshots) as (s' & Hc & _).
  eexists s', _. split; [exact Hc|].
  destruct (snapshot_found 7 (Some nm_a) ex_store [] s' _ ex_snapshots (map_Forall_empty _) Hc)
    as (_ & H1 & H2 & _).
  split; [exact H1|]. by apply H2.
Defined.

Definition ex_d : Digest224 := toy_digest ex_content.

Lemma refcount_balance_witness :
  get_refcount ex_d (foldl rc_step ex_store [Take ex_d; Take ex_d; Drop ex_d]) = 1 ∧
  get_refcount ex_d (foldl rc_step (upd_refcounts {[ex_d := u64_max]} ex_store)
                       [Drop ex_d; Take ex_d; Drop ex_d]) = u64_max.
Proof.
  split.
  - rewrite (proj1 (refcount_balance ex_d [Take ex_d; Take ex_d; Drop ex_d] ex_store (map_Forall_empty _))).
    + vm_compute. reflexivity.
    + vm_compute. by split_and!.
  - apply refcount_balance.
    + apply map_Forall_singleton. by split.
    + vm_compute. reflexivity.
Defined.
