(* ===== verification/FsTheorems.v ===== *)
(** * Theorems: the file system adapter *)

From S2P Require Import Prelude Types Text Blockset Inode InodeMap Xattr Directory Segment Wal.
From S2P Require Import Store StoreSpec StoreRefine StoreCommit Snapshots Filesystem WritePath.
From S2P Require Import Namespace NamespaceRefine Examples.
From stdpp Require Import base tactics numbers option list gmap strings.
Open Scope Z_scope.

Section theorems.
Context {B : Blockset} {L : BlocksetLaws B}.
Implicit Types (f : SliceFsFilesystem B) (a : AbsFs).

(** C6. Create, write, close, read: after a new file was written in any order
    and closed, every read returns the bytes that [pwrite] on a byte string
    would have produced, and the metadata is the specified one. *)
Theorem create_write_close_read now f a parent name mode umask uid gid D ws :
  is_u64 now.1 → is_u32 now.2 →
  store_rep (fs_meta f) a → 0 ≤ fs_next_fh f → fs_next_fh f + 1 < 2 ^ 64 →
  let meta := new_file 0 uid gid (Z.lor S_IFREG (perm_bits mode umask)) in
  let ino := a_next a in
  let a1 := created a parent name D meta in
  create_room a parent name meta →
  a_dirs a !! parent = Some D → D !! name = None → name ≠ dot → name ≠ dotdot →
  default [] (a_manifests a !! ino) = [] → no_writer f ino →
  writes_ok [] ws → pwrites [] ws ≠ [] → commit_room now a1 ino (set_ino ino meta) (pwrites [] ws) →
  ∃ f', (p ← test_create parent name mode umask uid gid;
         _ ← write_seq p.2 ws; _ ← test_release now p.1 p.2; mret p.1) f = (f', Ok ino) ∧
        store_rep (fs_meta f') (commit_abs now a1 ino (set_ino ino meta) (pwrites [] ws)) ∧
        ∀ off size, 0 ≤ off → 0 ≤ size →
          test_read ino off size f' = (f', Ok (pread (pwrites [] ws) off size)).
Proof. apply create_write_read. Qed.

(** C12. One write, in streaming or in buffered mode, in order or not, turns the
    content [c] of the handle into [pwrite] of it (a handle that has written
    nothing and is written at an offset above 0 starts from the committed
    content), and leaves the metadata alone.  A write that is not at the end makes the
    handle a buffered one and forgets its last commit. *)
Theorem write_correct f a fh s c off data :
  store_rep (fs_meta f) a → fs_open_files f !! fh = Some s →
  handle_rep (st_io (fs_meta f)) s c → admissible c →
  (off = len c → admissible (pwrite c off data)) →
  0 ≤ off → off + len data < 2 ^ 64 →
  ∃ f' s',
    test_write fh off data f = (f', Ok (wrap32 (len data))) ∧
    f' = upd_open_files (<[fh := s']> (fs_open_files f)) (upd_meta (fs_meta f') f) ∧
    same_meta (fs_meta f) (fs_meta f') ∧
    handle_rep (st_io (fs_meta f')) s'
      (pwrite (write_base a (st_io (fs_meta f)) s c off) off data) ∧
    of_ino s' = of_ino s ∧ of_cas_committed s' = false ∧
    is_streaming s' = is_streaming s && bool_decide (off = len c) ∧
    of_last_committed_root s' =
      (if is_streaming s && negb (bool_decide (off = len c)) then None else of_last_committed_root s).
Proof. apply test_write_ok. Qed.

(** [unlink] removes the name; the inode loses a link, and goes with the
    last one. *)
Theorem unlink_file f a parent name D ino m :
  store_rep (fs_meta f) a → admissible name → name ≠ dot → name ≠ dotdot →
  a_dirs a !! parent = Some D → D !! name = Some ino → a_inodes a !! ino = Some m →
  Z.land (im_mode m) S_IFDIR = 0 → admissible (dir_content (delete name D)) →
  admissible (serialize_inode (set_nlinks (im_nlinks m - 1) m)) →
  ∃ f', simulate_unlink parent name f = (f', Ok tt) ∧
        fs_step f f' (unlinked a parent name D ino m).
Proof. apply simulate_unlink_ok. Qed.

(** [rmdir] of an empty directory removes its name and its inode and takes
    a link from the parent; of a directory with entries, it fails with [ENOTEMPTY] and
    changes nothing. *)
Theorem rmdir_correct f a parent name D ino m Dc pm :
  store_rep (fs_meta f) a → admissible name → name ≠ dot → name ≠ dotdot →
  a_dirs a !! parent = Some D → D !! name = Some ino → a_inodes a !! ino = Some m →
  Z.land (im_mode m) S_IFDIR ≠ 0 → a_dirs a !! ino = Some Dc →
  a_inodes a !! parent = Some pm → parent ≠ ino →
  admissible (dir_content (delete name D)) →
  admissible (serialize_inode (set_nlinks (im_nlinks pm - 1) pm)) →
  (dir_empty Dc →
   ∃ f', simulate_rmdir parent name f = (f', Ok tt) ∧ fs_step f f' (rmdir_abs a parent name D ino pm)) ∧
  (¬ dir_empty Dc → ∃ f', simulate_rmdir parent name f = (f', Err ENOTEMPTY) ∧ fs_step f f' a).
Proof.
  intros. split; intros; [by eapply simulate_rmdir_ok|by eapply simulate_rmdir_notempty].
Qed.

(** [rename] onto a free name of the same directory moves the entry and
    stamps the inode. *)
Theorem rename_moves now f a parent name newname D ino m :
  is_u64 now.1 → is_u32 now.2 → store_rep (fs_meta f) a →
  admissible name → name ≠ dot → name ≠ dotdot →
  name_ok newname → newname ≠ dot → newname ≠ dotdot →
  a_dirs a !! parent = Some D → D !! name = Some ino → D !! newname = None →
  a_inodes a !! ino = Some m → dir_room a parent newname ino →
  admissible (dir_content (delete name (<[newname := ino]> D))) →
  admissible (serialize_inode (stamp_ctime now m)) →
  ∃ f', simulate_rename now parent name parent newname 0 f = (f', Ok tt) ∧
    fs_step f f' (a_set_inodes (<[ino := stamp_ctime now m]> (a_inodes a))
      (a_set_dirs (<[parent := delete name (<[newname := ino]> D)]> (a_dirs a)) a)).
Proof. apply simulate_rename_ok. Qed.

(** [fsync] commits what was written and keeps the handle usable: it still
    holds the content, and knows that it is committed. *)
Theorem fsync_commits now f a fh s ino m c :
  is_u64 now.1 → is_u32 now.2 →
  store_rep (fs_meta f) a → fs_open_files f !! fh = Some s →
  handle_rep (st_io (fs_meta f)) s c → c ≠ [] → commit_room now a ino m c →
  ∃ f' s', flush_buffer_for_fsync now ino fh f = (f', Ok tt) ∧
        fs_open_files f' = <[fh := s']> (fs_open_files f) ∧
        handle_rep (st_io (fs_meta f')) s' c ∧ of_write_mode s' = of_write_mode s ∧
        of_cas_committed s' = true ∧ of_last_committed_root s' = Some (digest_of c) ∧
        store_rep (fs_meta f') (commit_abs now a ino m c) ∧ stored (st_io (fs_meta f')) c ∧
        st_io (fs_meta f) ⊑ᵢ st_io (fs_meta f').
Proof. intros Hnow Hnsec. by apply flush_buffer_ok. Qed.

(** C34. Read your writes: a read while the only writer of a file has not
    committed returns what it has written so far. *)
Theorem read_sees_writer f a ino fh s c off size :
  store_rep (fs_meta f) a → sole_writer f ino fh s →
  handle_rep (st_io (fs_meta f)) s c → admissible c → 0 ≤ off → 0 ≤ size →
  ∃ io', test_read ino off size f =
           (upd_meta (upd_io io' (fs_meta f)) f, Ok (pread c off size)) ∧
         healthy io' ∧ st_io (fs_meta f) ⊑ᵢ io'.
Proof. apply test_read_writer. Qed.

(** [readlink] returns the target a symbolic link was made with. *)
Theorem symlink_read_back f a parent name target uid gid D :
  store_rep (fs_meta f) a →
  let meta := symlink_meta uid gid (len target) in
  let ino := a_next a in
  create_room a parent name meta →
  a_dirs a !! parent = Some D → D !! name = None → name ≠ dot → name ≠ dotdot →
  admissible target → utf8_valid target = true →
  admissible (serialize_manifest [digest_of target]) →
  ∃ f', simulate_symlink parent name target uid gid f = (f', Ok ino) ∧
    store_rep (fs_meta f')
      (abs_set_manifest ino [digest_of target] (created a parent name D meta)).1 ∧
    simulate_readlink ino f' = (f', Ok target).
Proof. apply symlink_readlink. Qed.

(** A hard link adds the entry and a link to the inode. *)
Theorem hard_link now f a ino m parent name D :
  is_u64 now.1 → is_u32 now.2 → store_rep (fs_meta f) a → a_inodes a !! ino = Some m →
  Z.land (im_mode m) S_IFDIR = 0 → name_ok name → name ≠ dot → name ≠ dotdot →
  a_dirs a !! parent = Some D → D !! name = None → dir_room a parent name ino →
  admissible (serialize_inode (stamp_ctime now (add_link m))) →
  ∃ f', simulate_link now ino parent name f = (f', Ok ino) ∧
    fs_step f f' (a_set_inodes (<[ino := stamp_ctime now (add_link m)]> (a_inodes a))
      (a_set_dirs (<[parent := <[name := ino]> D]> (a_dirs a)) a)).
Proof. apply simulate_link_ok. Qed.

(** Creating a file under a name that is taken fails with [EEXIST] and
    leaves the file system as it was: the inode made for it is removed again, so
    that only its number is consumed. *)
Theorem create_taken f a parent name meta D j :
  store_rep (fs_meta f) a → create_room a parent name meta →
  a_dirs a !! parent = Some D → D !! name = Some j → name ≠ dot → name ≠ dotdot →
  ∃ f', create_linked parent name meta f = (f', Err EEXIST) ∧
        fs_step f f' (a_set_next (a_next a + 1) a).
Proof. apply create_linked_exists. Qed.

(** C37. Renaming a file with one link onto itself destroys it: the name and the
    inode are gone and the call reports [ENOENT]. *)
Theorem rename_onto_itself now f a parent name D ino m :
  store_rep (fs_meta f) a → name_ok name → name ≠ dot → name ≠ dotdot →
  a_dirs a !! parent = Some D → D !! name = Some ino → a_inodes a !! ino = Some m →
  Z.land (im_mode m) S_IFDIR = 0 → im_nlinks m = 1 →
  admissible (dir_content (delete name D)) → admissible (dir_content (<[name := ino]> (delete name D))) →
  ∃ f' a', simulate_rename now parent name parent name 0 f = (f', Err ENOENT) ∧
    fs_step f f' a' ∧ a_inodes a' !! ino = None ∧ a_dirs a' !! parent = Some (delete name D).
Proof. apply simulate_rename_same. Qed.
End theorems.

(* ------------------------------------------------------------------------ *)
(** ** The hypotheses at a concrete run *)

Ltac not_dot := by (vm_compute; discriminate).

Lemma ex_now_sec : is_u64 ex_now.1. Proof. by split. Qed.
Lemma ex_now_nsec : is_u32 ex_now.2. Proof. by split. Qed.

(** A file [a] in the root. *)
Lemma ex_create_room : create_room ex_abs 1 nm_a ex_file.
Proof.
  split; try done; try by_adm.
  - split_and!; try done. by_adm.
  - intros D [= <-] _. split; [done|by_adm].
Qed.

Definition ex_fs_a : SliceFsFilesystem toy := (test_create 1 nm_a 438 18 501 20 ex_fs).1.
Definition ex_abs_a : AbsFs := created ex_abs 1 nm_a ex_root_dir ex_file.
Definition ex_dir_a : gmap bytes Z := <[nm_a := 2]> ex_root_dir.
Definition ex_inode_a : InodeMeta := set_ino 2 ex_file.

Lemma ex_fs_a_ok :
  store_rep (fs_meta ex_fs_a) ex_abs_a ∧ fs_open_files ex_fs_a = {[1 := fresh_handle 2]}.
Proof.
  destruct (test_create_ok ex_fs ex_abs 1 nm_a 438 18 501 20 ex_root_dir)
    as (f' & H & Hr & Ho & _);
    [exact ex_rep|done|done|exact ex_create_room|reflexivity|by_compute|not_dot|not_dot|].
  unfold ex_fs_a. rewrite H. split; [exact Hr|]. cbn [fst]. rewrite Ho. reflexivity.
Qed.
Definition ex_rep_a : store_rep (fs_meta ex_fs_a) ex_abs_a := proj1 ex_fs_a_ok.

Lemma ex_dirs_a : a_dirs ex_abs_a !! 1 = Some ex_dir_a. Proof. reflexivity. Qed.
Lemma ex_lookup_a : ex_dir_a !! nm_a = Some 2. Proof. reflexivity. Qed.
Lemma ex_free_b : ex_dir_a !! nm_b = None. Proof. by_compute. Qed.
Lemma ex_inodes_a : a_inodes ex_abs_a !! 2 = Some ex_inode_a. Proof. reflexivity. Qed.

Lemma ex_name_b : name_ok nm_b.
Proof. split_and!; [done|done|by_adm]. Qed.
Lemma ex_room_b : dir_room ex_abs_a 1 nm_b 2.
Proof. intros D HD _. rewrite ex_dirs_a in HD. injection HD as <-. split; [done|by_adm]. Qed.

Lemma ex_writes_ok : writes_ok [] ex_writes.
Proof. repeat split; try by_adm; by vm_compute. Qed.

Lemma ex_commit_room : commit_room ex_now ex_abs_a 2 ex_inode_a ex_content.
Proof. split; [reflexivity|by_adm..|done|done]. Qed.

Lemma create_write_close_read_witness :
  ∃ f', (p ← test_create 1 nm_a 438 18 501 20;
         _ ← write_seq p.2 ex_writes; _ ← test_release ex_now p.1 p.2; mret p.1) ex_fs = (f', Ok 2) ∧
        test_read 2 1 3 f' = (f', Ok (str "Ell")).
Proof.
  destruct (create_write_close_read ex_now ex_fs ex_abs 1 nm_a 438 18 501 20 ex_root_dir ex_writes)
    as (f' & H & _ & Hread).
  - exact ex_now_sec.
  - exact ex_now_nsec.
  - exact ex_rep.
  - done.
  - done.
  - exact ex_create_room.
  - reflexivity.
  - by_compute.
  - not_dot.
  - not_dot.
  - reflexivity.
  - intros fh s Hs. cbn [ex_fs fs_new fs_open_files] in Hs. by rewrite lookup_empty in Hs.
  - exact ex_writes_ok.
  - not_dot.
  - exact ex_commit_room.
  - exists f'. split; [exact H|]. exact (Hread 1 3 ltac:(done) ltac:(done)).
Defined.

Lemma write_correct_witness :
  ∃ f' s', test_write 1 0 (str "hel") ex_fs_a = (f', Ok 3) ∧
           handle_rep (st_io (fs_meta f')) s' (str "hel").
Proof.
  destruct (write_correct ex_fs_a ex_abs_a 1 (fresh_handle 2) [] 0 (str "hel"))
    as (f' & s' & H & _ & _ & Hh & _).
  - exact ex_rep_a.
  - by rewrite (proj2 ex_fs_a_ok).
  - apply fresh_handle_rep.
  - by_adm.
  - intros _. by_adm.
  - done.
  - done.
  - exists f', s'. split; [exact H|exact Hh].
Defined.

Lemma unlink_file_witness :
  ∃ f', simulate_unlink 1 nm_a ex_fs_a = (f', Ok tt) ∧
        fs_step ex_fs_a f' (unlinked ex_abs_a 1 nm_a ex_dir_a 2 ex_inode_a).
Proof.
  apply unlink_file; [exact ex_rep_a|by_adm|not_dot|not_dot|exact ex_dirs_a|exact ex_lookup_a
    |exact ex_inodes_a|reflexivity|by_adm|by_adm].
Defined.

(** A directory [d] in the root. *)
Definition ex_fs_d : SliceFsFilesystem toy := (simulate_mkdir 1 nm_d 511 18 501 20 ex_fs).1.
Definition ex_abs_d : AbsFs := (abs_create_directory 1 nm_d ex_dir ex_abs).1.
Definition ex_dir_d : gmap bytes Z := <[nm_d := 2]> ex_root_dir.

Lemma ex_rep_d : store_rep (fs_meta ex_fs_d) ex_abs_d.
Proof.
  destruct (meta_step meta_error_to_errno _ _ ex_fs ex_abs
    (create_directory_refines ex_store ex_abs 1 nm_d ex_dir ex_rep ex_mkdir_room)) as (f' & H & Hs).
  change (store_rep (fs_meta (on_meta meta_error_to_errno (create_directory 1 nm_d ex_dir) ex_fs).1)
    ex_abs_d). rewrite H. exact (step_rep _ _ _ Hs).
Qed.

Lemma ex_dirs_d : a_dirs ex_abs_d !! 1 = Some ex_dir_d. Proof. reflexivity. Qed.
Lemma ex_dirs_d2 : a_dirs ex_abs_d !! 2 = Some (fresh_dir 2 1). Proof. reflexivity. Qed.
Lemma ex_inodes_d : a_inodes ex_abs_d !! 2 = Some (dir_inode 2 ex_dir). Proof. reflexivity. Qed.
Lemma ex_parent_d : a_inodes ex_abs_d !! 1 = Some (add_link ex_root). Proof. reflexivity. Qed.
Lemma ex_lookup_d : ex_dir_d !! nm_d = Some 2. Proof. reflexivity. Qed.

Lemma rename_moves_witness :
  ∃ f', simulate_rename ex_now 1 nm_a 1 nm_b 0 ex_fs_a = (f', Ok tt) ∧
    fs_step ex_fs_a f' (a_set_inodes (<[2 := stamp_ctime ex_now ex_inode_a]> (a_inodes ex_abs_a))
      (a_set_dirs (<[1 := delete nm_a (<[nm_b := 2]> ex_dir_a)]> (a_dirs ex_abs_a)) ex_abs_a)).
Proof.
  apply rename_moves; [exact ex_now_sec|exact ex_now_nsec|exact ex_rep_a|by_adm|not_dot|not_dot
    | |not_dot|not_dot|exact ex_dirs_a|exact ex_lookup_a|exact ex_free_b|exact ex_inodes_a
    |exact ex_room_b|by_adm|by_adm].
  exact ex_name_b.
Defined.

(** The handle of [a] after ["hel"] was written. *)
Definition ex_fs_w : SliceFsFilesystem toy := (test_write 1 0 (str "hel") ex_fs_a).1.
Definition ex_written : Prop :=
  ∃ s, store_rep (fs_meta ex_fs_w) ex_abs_a ∧ fs_open_files ex_fs_w = {[1 := s]} ∧
       handle_rep (st_io (fs_meta ex_fs_w)) s (str "hel") ∧ of_ino s = 2.
Lemma ex_fs_w_ok : ex_written.
Proof.
  destruct (test_write_ok ex_fs_a ex_abs_a 1 (fresh_handle 2) [] 0 (str "hel"))
    as (f' & s' & H & Hf & Hsame & Hh & Hino & _);
    [exact ex_rep_a|by rewrite (proj2 ex_fs_a_ok)|apply fresh_handle_rep|by_adm
    |intros _; by_adm|done|done|].
  exists s'. unfold ex_fs_w. rewrite H. cbn [fst].
  split_and!; [exact (same_meta_rep _ _ _ Hsame ex_rep_a)| |exact Hh|exact Hino].
  rewrite Hf. cbn [upd_open_files fs_open_files]. by rewrite (proj2 ex_fs_a_ok), insert_singleton_eq.
Qed.

Lemma ex_commit_room_w : commit_room ex_now ex_abs_a 2 ex_inode_a (str "hel").
Proof. split; [reflexivity|by_adm..|done|done]. Qed.

Lemma fsync_commits_witness :
  ∃ f' s', flush_buffer_for_fsync ex_now 2 1 ex_fs_w = (f', Ok tt) ∧
    fs_open_files f' !! 1 = Some s' ∧ of_cas_committed s' = true ∧
    store_rep (fs_meta f') (commit_abs ex_now ex_abs_a 2 ex_inode_a (str "hel")).
Proof.
  destruct ex_fs_w_ok as (s & Hr & Ho & Hh & _).
  destruct (fsync_commits ex_now ex_fs_w ex_abs_a 1 s 2 ex_inode_a (str "hel"))
    as (f' & s' & H & Hf & _ & _ & Hcc & _ & Hr' & _);
    [exact ex_now_sec|exact ex_now_nsec|exact Hr|by rewrite Ho|exact Hh|not_dot
    |exact ex_commit_room_w|].
  exists f', s'. rewrite Hf, lookup_insert_eq.
  split_and!; [exact H|reflexivity|exact Hcc|exact Hr'].
Defined.

Lemma read_sees_writer_witness :
  ∃ f', test_read 2 1 9 ex_fs_w = (f', Ok (str "el")).
Proof.
  destruct ex_fs_w_ok as (s & Hr & Ho & Hh & Hino).
  destruct (read_sees_writer ex_fs_w ex_abs_a 2 1 s (str "hel") 1 9) as (io' & H & _);
    [exact Hr| |exact Hh|by_adm|done|done|].
  - split_and!; [rewrite Ho; apply lookup_singleton_eq|exact Hino|rewrite (proj1 Hh); done|].
    intros fh' s'. rewrite Ho. intros [<- _]%lookup_singleton_Some. reflexivity.
  - eexists. exact H.
Defined.

Lemma ex_symlink_room : create_room ex_abs 1 nm_b ex_link.
Proof.
  split; try done; try by_adm.
  - split_and!; try done. by_adm.
  - intros D [= <-] _. split; [done|by_adm].
Qed.

Lemma symlink_read_back_witness :
  ∃ f', simulate_symlink 1 nm_b nm_a 501 20 ex_fs = (f', Ok 2) ∧
        simulate_readlink 2 f' = (f', Ok nm_a).
Proof.
  destruct (symlink_read_back ex_fs ex_abs 1 nm_b nm_a 501 20 ex_root_dir) as (f' & H & _ & Hr);
    [exact ex_rep|exact ex_symlink_room|reflexivity|by_compute|not_dot|not_dot|by_adm|reflexivity
    |by_adm|].
  exists f'. split; [exact H|exact Hr].
Defined.

Lemma hard_link_witness :
  ∃ f', simulate_link ex_now 2 1 nm_b ex_fs_a = (f', Ok 2) ∧
    fs_step ex_fs_a f'
      (a_set_inodes (<[2 := stamp_ctime ex_now (add_link ex_inode_a)]> (a_inodes ex_abs_a))
        (a_set_dirs (<[1 := <[nm_b := 2]> ex_dir_a]> (a_dirs ex_abs_a)) ex_abs_a)).
Proof.
  apply hard_link; [exact ex_now_sec|exact ex_now_nsec|exact ex_rep_a|exact ex_inodes_a|reflexivity
    |exact ex_name_b|not_dot|not_dot|exact ex_dirs_a|exact ex_free_b|exact ex_room_b|by_adm].
Defined.

Lemma ex_taken_room : create_room ex_abs_a 1 nm_a ex_file.
Proof.
  split; try done; try by_adm.
  - split_and!; try done. by_adm.
  - intros D HD Hf. rewrite ex_dirs_a in HD. injection HD as <-. by rewrite ex_lookup_a in Hf.
Qed.

Lemma create_taken_witness :
  ∃ f', create_linked 1 nm_a ex_file ex_fs_a = (f', Err EEXIST) ∧
        fs_step ex_fs_a f' (a_set_next (a_next ex_abs_a + 1) ex_abs_a).
Proof.
  apply (create_taken ex_fs_a ex_abs_a 1 nm_a ex_file ex_dir_a 2);
    [exact ex_rep_a|exact ex_taken_room|exact ex_dirs_a|exact ex_lookup_a|not_dot|not_dot].
Defined.

(** The directory [d] with an entry [a]. *)
Definition ex_fs_da : SliceFsFilesystem toy := (on_meta meta_error_to_errno (link 2 nm_a 1) ex_fs_d).1.
Definition ex_full_d : gmap bytes Z := <[nm_a := 1]> (fresh_dir 2 1).
Definition ex_abs_da : AbsFs := a_set_dirs (<[2 := ex_full_d]> (a_dirs ex_abs_d)) ex_abs_d.

Lemma ex_rep_da : store_rep (fs_meta ex_fs_da) ex_abs_da.
Proof.
  destruct (link_step meta_error_to_errno ex_fs_d ex_abs_d 2 nm_a (fresh_dir 2 1) 1)
    as (f' & H & Hs);
    [exact ex_rep_d|split_and!; [done|done|by_adm]|by split|exact ex_dirs_d2|by_compute|not_dot
    |not_dot| |].
  - intros D HD _. rewrite ex_dirs_d2 in HD. injection HD as <-. split; [done|by_adm].
  - unfold ex_fs_da. rewrite H. exact (step_rep _ _ _ Hs).
Qed.

Lemma rmdir_correct_witness :
  (∃ f', simulate_rmdir 1 nm_d ex_fs_d = (f', Ok tt) ∧
         fs_step ex_fs_d f' (rmdir_abs ex_abs_d 1 nm_d ex_dir_d 2 (add_link ex_root))) ∧
  (∃ f', simulate_rmdir 1 nm_d ex_fs_da = (f', Err ENOTEMPTY) ∧ fs_step ex_fs_da f' ex_abs_da).
Proof.
  split.
  - apply (rmdir_correct ex_fs_d ex_abs_d 1 nm_d ex_dir_d 2 (dir_inode 2 ex_dir) (fresh_dir 2 1)
             (add_link ex_root));
      [exact ex_rep_d|by_adm|not_dot|not_dot|exact ex_dirs_d|exact ex_lookup_d|exact ex_inodes_d
      |not_dot|exact ex_dirs_d2|exact ex_parent_d|done|by_adm|by_adm|].
    apply fresh_dir_empty.
  - apply (rmdir_correct ex_fs_da ex_abs_da 1 nm_d ex_dir_d 2 (dir_inode 2 ex_dir) ex_full_d
             (add_link ex_root));
      [exact ex_rep_da|by_adm|not_dot|not_dot|reflexivity|exact ex_lookup_d|exact ex_inodes_d|not_dot
      |reflexivity|exact ex_parent_d|done|by_adm|by_adm|].
    intros Hempty. by destruct (Hempty nm_a 1 eq_refl).
Defined.

Lemma rename_onto_itself_witness :
  ∃ f' a', simulate_rename ex_now 1 nm_a 1 nm_a 0 ex_fs_a = (f', Err ENOENT) ∧
    fs_step ex_fs_a f' a' ∧ a_inodes a' !! 2 = None ∧ a_dirs a' !! 1 = Some (delete nm_a ex_dir_a).
Proof.
  apply (rename_onto_itself ex_now ex_fs_a ex_abs_a 1 nm_a ex_dir_a 2 ex_inode_a);
    [exact ex_rep_a|split_and!; [done|done|by_adm]|not_dot|not_dot|exact ex_dirs_a|exact ex_lookup_a
    |exact ex_inodes_a|reflexivity|reflexivity|by_adm|by_adm].
Defined.
