(* ===== verification/MountTheorems.v ===== *)
(** * Theorems: mounting, crashes and the collector *)

From S2P Require Import Prelude Types Text Blockset Inode InodeMap Xattr Directory Segment Wal.
From S2P Require Import SegmentDir Gc Store StoreSpec StoreRefine StoreCommit Snapshots Filesystem.
From S2P Require Import WritePath Namespace NamespaceRefine Handlers Callbacks Frames Mount MountRefine.
From S2P Require Import Serving Examples MountExamples.
From stdpp Require Import base tactics numbers option list gmap strings.
Open Scope Z_scope.

Section theorems.
Context {B : Blockset} {L : BlocksetLaws B}.

(** C8. Crash and remount.  Mount a directory that holds [a0], run any session of
    store operations, commits, snapshots and log flushes, crash at any point, with
    any part of the unsynced log lost: the directory then holds [a0] or a file
    system that was committed in the session, and none older than the last commit
    that a successful flush covered. *)
Theorem crash_remount config faults (d d' : StoreDir B) s0 a0 s a h n b file io :
  dir_holds d a0 → config ≠ CfgNoWal → seg_number (next_segment_id (sd_segments d)) →
  load_store config faults d = (d', Ok s0) → session s0 a0 s a h n →
  st_wal s = Some b → crash_image (box_writer b) file → st_io s ⊑ᵢ io → healthy io →
  ∃ k ak, (a0 :: h) !! k = Some ak ∧ (n ≤ k)%nat ∧
          dir_holds (crash (next_segment_id (sd_segments d)) file io d') ak.
Proof. apply session_crash. Qed.

(** C15. Mounting a directory that holds [a] succeeds, whether or not a crashed
    mount left its lock behind: the store represents [a] and knows the logged
    snapshots, the lock is taken, and the store logs to a new segment whose number
    is above all others. *)
Theorem mount_restores config faults (d : StoreDir B) m es r a :
  dir_log d m es → log_root es = Some r → healthy (sd_io d) → root_holds (sd_io d) r a →
  ∃ segs s, sd_segments d = Some segs ∧
    let id := next_segment_id (Some segs) in
    load_store config faults d =
      (mkStoreDir B false true (Some (open_segment config id segs)) (sd_io d), Ok s) ∧
    store_rep s a ∧ st_wal s = Some (create_wal config id faults) ∧
    snapshots_of s (log_snapshots es) ∧ map_Forall (λ k _, k < id) m.
Proof.
  intros Hlog Hr Hh Hroot.
  destruct (load_store_run config faults d m es r a Hlog Hr Hh Hroot)
    as (segs & s & Hsegs & Hrep & Hl & Hs & _ & Hw & Hsn).
  exists segs, s. split; [exact Hsegs|]. cbn zeta.
  split_and!; [exact Hl|exact Hs|exact Hw|exact Hsn|by apply next_segment_id_above].
Qed.

(** C16. A collector pass over readable segments with numbers below 100000, in
    whatever order the directory lists them: it succeeds, compacts every segment,
    and the directory still holds the same file system and snapshots. *)
Theorem gc_keeps_store (d : StoreDir B) m es r a segs listing :
  dir_log d m es → log_root es = Some r → healthy (sd_io d) → root_holds (sd_io d) r a →
  sd_mount_lock d = false → sd_segments d = Some segs → dir_rep segs m → collectable m →
  listing ≡ₚ (map_to_list segs).*1 →
  (∀ n, is_Some (segs !! n) → has_seg_extension n = true → is_segment_name n = true) →
  ∃ d' stats es', run_gc_command listing [] d = (d', Ok stats) ∧
    gs_segments_compacted stats = Z.of_nat (size m) ∧ dir_holds d' a ∧
    load_store_from_segments (default ∅ (sd_segments d')) = Ok (Some r, log_snapshots es') ∧
    ∀ s : DictMetadataStore B,
      set_snapshots (log_snapshots es') s = set_snapshots (log_snapshots es) s.
Proof. apply gc_command_holds. Qed.

(** C38. [fsync] does not make the metadata durable: it logs no root.  Mount, serve
    any requests of the kernel, any number of [fsync]s among them: if the mount then
    crashes before a commit, the directory holds the file system of the mount again,
    whatever was created, written and synced since. *)
Theorem fsync_not_durable config faults (d d' : StoreDir B) s0 a0 f b file io :
  dir_holds d a0 → config ≠ CfgNoWal → seg_number (next_segment_id (sd_segments d)) →
  load_store config faults d = (d', Ok s0) → served (fs_new s0) f →
  fs_wal f = Some b → crash_image (box_writer b) file → sd_io d ⊑ᵢ io → healthy io →
  dir_holds (crash (next_segment_id (sd_segments d)) file io d') a0.
Proof. apply served_crash. Qed.
End theorems.

(** A collector pass that stops at an empty segment, which a mount killed
    before its first sync leaves behind, loses the latest commit: segment 1 was
    copied above segment 2 before the failure, so its older root is the last one. *)
Theorem gc_failure_reverts r1 r2 :
  wf_digest r1 → wf_digest r2 →
  let dir := <[seg_name 3 := []]> (<[seg_name 2 := closed_segment 2 [RootUpdate r2]]>
               (<[seg_name 1 := closed_segment 1 [RootUpdate r1]]> ∅)) in
  load_store_from_segments dir = Ok (Some r2, []) ∧
  ∃ dir', run_gc_inner (seg_name <$> [1; 3; 2]) [] dir = (dir', Err UnexpectedEof) ∧
          load_store_from_segments dir' = Ok (Some r1, []).
Proof.
  intros H1 H2 dir.
  destruct (dir_rep_last ∅ ∅ [] 1 (closed_segment 1 [RootUpdate r1]) [RootUpdate r1]) as [R1 L1];
    [apply dir_rep_empty|done|apply map_Forall_empty|done|by apply recovered_closed; [|constructor]|].
  destruct (dir_rep_last _ _ _ 2 (closed_segment 2 [RootUpdate r2]) [RootUpdate r2] R1 L1) as [R2 L2];
    [by apply map_Forall_insert_2|done|by apply recovered_closed; [|constructor]|].
  destruct (dir_rep_last _ _ _ 3 [] [] R2 L2) as [R3 L3];
    [by repeat apply map_Forall_insert_2|done|apply recovered_empty|].
  split; [unfold dir; by rewrite (load_store_numbered _ _ R3), L3|].
  pose proof (dir_rep_delete _ _ R3 _ (is_segment_name_tmp (seg_name 100001))) as R4.
  destruct (dir_rep_last _ _ _ 100001 (closed_segment 100001 [RootUpdate r1]) [RootUpdate r1] R4 L3)
    as [R5 L5]; [by repeat apply map_Forall_insert_2|done|by apply recovered_closed; [|constructor]|].
  eexists. split; [|by rewrite (load_store_numbered _ _ R5), L5].
  change 100001 with (1 + 100000).
  apply (run_gc_stops dir _ 1 3 [2] (closed_segment 1 [RootUpdate r1]) [RootUpdate r1] R3);
    [|by apply read_closed_segment; [|constructor]|apply lookup_insert_eq|lia|lia].
  do 2 (rewrite lookup_insert_ne; [|lia]). apply lookup_insert_eq.
Qed.

Lemma gc_failure_reverts_witness :
  let dir := <[seg_name 3 := []]>
      (<[seg_name 2 := closed_segment 2 [RootUpdate [0;0;0;0;0;0;2]]]>
         (<[seg_name 1 := closed_segment 1 [RootUpdate [0;0;0;0;0;0;1]]]> ∅)) in
  load_store_from_segments dir = Ok (Some [0;0;0;0;0;0;2], []) ∧
  ∃ dir', run_gc_inner (seg_name <$> [1; 3; 2]) [] dir = (dir', Err UnexpectedEof) ∧
          load_store_from_segments dir' = Ok (Some [0;0;0;0;0;0;1], []).
Proof. apply gc_failure_reverts; by_compute. Defined.

(* ------------------------------------------------------------------------ *)
(** ** The hypotheses at a concrete run *)

Lemma mount_restores_witness :
  ∃ s, (load_store CfgPerOp [] (ex_sdir true)).2 = Ok s ∧ store_rep s ex_abs.
Proof.
  destruct (mount_restores CfgPerOp [] (ex_sdir true) ex_numbered ex_log ex_root_digest ex_abs)
    as (segs & s & _ & Hl & Hs & _);
    [apply ex_dir_log|reflexivity|exact ex_io1_healthy|apply ex_committed|].
  exists s. rewrite Hl. split; [reflexivity|exact Hs].
Defined.

Lemma gc_keeps_store_witness :
  ∃ d' stats, run_gc_command [seg_name 1] [] (ex_sdir false) = (d', Ok stats) ∧
    gs_segments_compacted stats = 1 ∧ dir_holds d' ex_abs.
Proof.
  destruct (gc_keeps_store (ex_sdir false) ex_numbered ex_log ex_root_digest ex_abs ex_segs [seg_name 1])
    as (d' & stats & es' & Hrun & Hsize & Hd & _);
    [apply ex_dir_log|reflexivity|exact ex_io1_healthy|apply ex_committed|reflexivity|reflexivity
    |apply ex_segs_rep| | | |].
  - apply map_Forall_insert_2; [|apply map_Forall_empty]. split; [done|]. exists ex_log.
    apply read_closed_segment; [done|]. constructor; [apply digest_of_wf|constructor].
  - unfold ex_segs. by rewrite map_to_list_insert, map_to_list_empty.
  - unfold ex_segs. intros n [f [[<- _]|[_ Hf]]%lookup_insert_Some]; [intros _; apply is_segment_name_file|].
    by rewrite lookup_empty in Hf.
  - exists d', stats. split; [exact Hrun|]. split; [exact Hsize|exact Hd].
Defined.

Lemma crash_remount_witness :
  ∃ d', load_store CfgFlushOnFsync [] (ex_sdir false) = (d', Ok ex_mounted) ∧
  ∃ k ak, [ex_abs; ex_abs] !! k = Some ak ∧ (1 ≤ k)%nat ∧
    dir_holds (crash (next_segment_id (Some ex_segs)) (sw_synced (box_writer ex_box))
                 (st_io ex_flushed) d') ak.
Proof.
  destruct ex_mount as (d' & Hl & Hs & Hio & _). exists d'. split; [exact Hl|].
  apply (crash_remount CfgFlushOnFsync [] (ex_sdir false) d' ex_mounted ex_abs ex_flushed ex_abs [ex_abs]
           1 ex_box).
  - exact (ex_dir_holds false).
  - discriminate.
  - by_compute.
  - exact Hl.
  - exact ex_session.
  - vm_compute. reflexivity.
  - apply crash_image_synced.
  - reflexivity.
  - exact (rep_io _ _ ex_flushed_rep).
Defined.

(** A file is created, written and synced on the mounted file system. *)
Definition ex_create : Request := ReqCreate 1 nm_a 438 18 0 501 20.
Definition ex_serve (req : Request) (f : SliceFsFilesystem toy) : SliceFsFilesystem toy * res Empty_set Reply :=
  serve (λ _ _, false) ex_now None None req f.
Definition ex_fs_c : SliceFsFilesystem toy := (ex_serve ex_create (fs_new ex_mounted)).1.
Definition ex_fs_m : SliceFsFilesystem toy := (ex_serve (ReqWrite 1 0 (str "hel")) ex_fs_c).1.
Definition ex_fs_synced : SliceFsFilesystem toy := (ex_serve (ReqFsync 2 1) ex_fs_m).1.
Definition ex_box_synced : WalBox := from_option id (BoxNoWal mkNoWal) (fs_wal ex_fs_synced).

Lemma ex_served_one req f f' : served f f' → served f (ex_serve req f').1.
Proof. intros Hs. unfold ex_serve. eapply served_snoc; [exact Hs|apply surjective_pairing]. Qed.

Lemma ex_served : served (fs_new ex_mounted) ex_fs_synced.
Proof. apply ex_served_one, ex_served_one, ex_served_one, served_nil. Qed.

Lemma fsync_not_durable_witness :
  (ex_serve (ReqFsync 2 1) ex_fs_m).2 = Ok ReplyOk ∧
  ∃ d', load_store CfgFlushOnFsync [] (ex_sdir false) = (d', Ok ex_mounted) ∧
        dir_holds (crash (next_segment_id (Some ex_segs)) (sw_synced (box_writer ex_box_synced))
                     ex_io1 d') ex_abs.
Proof.
  split; [vm_compute; reflexivity|].
  destruct ex_mount as (d' & Hl & _). exists d'. split; [exact Hl|].
  apply (fsync_not_durable CfgFlushOnFsync [] (ex_sdir false) d' ex_mounted ex_abs
           ex_fs_synced ex_box_synced).
  - exact (ex_dir_holds false).
  - discriminate.
  - by_compute.
  - exact Hl.
  - exact ex_served.
  - vm_compute. reflexivity.
  - apply crash_image_synced.
  - reflexivity.
  - exact ex_io1_healthy.
Defined.
