(* ===== verification/CommandTheorems.v ===== *)
(** * Theorems: the commands on an unmounted store

    Snapshots, scrub, statistics and seeding, each with a directory of [MountExamples]
    at which its hypotheses hold. *)

From S2P Require Import Prelude Types Text Blockset Inode InodeMap Xattr Directory Segment Wal.
From S2P Require Import SegmentDir Store StoreSpec StoreRefine StoreCommit Snapshots Mount MountRefine.
From S2P Require Import Commands CommandsRefine Seed SeedRefine Examples MountExamples.
From stdpp Require Import base tactics numbers option list gmap strings.
Open Scope Z_scope.

Section theorems.
Context {B : Blockset} {L : BlocksetLaws B}.
Implicit Types (d : StoreDir B).

(** Taking a snapshot of an unmounted store: the directory still holds the same
    file system, the log ends with one more snapshot whose root loads that file system,
    nothing that was stored is lost and no lock stays behind, whatever syncs of the log
    fail; the command reports the entry, or that the log could not be closed.  A store
    that is mounted is left alone. *)
Theorem snapshot_create_correct d m es r a s0 now name faults :
  unmounted d m es r a s0 → is_u64 now → wf_name name →
  (∃ d' res e, run_snapshot_create now name faults d = (d', res) ∧ outcome faults e res ∧
    sn_name e = name ∧ sn_created_at e = now ∧
    dir_holds d' a ∧ root_holds (sd_io d') (sn_root e) a ∧ sd_io d ⊑ᵢ sd_io d' ∧
    sd_mount_lock d' = false ∧
    load_store_from_segments (default ∅ (sd_segments d')) =
      Ok (Some (sn_root e), log_snapshots es ++ [e])) ∧
  run_snapshot_create now name faults (set_lock true d) = (set_lock true d, Err CmdMounted).
Proof.
  intros Hu Hnow Hname. split; [by apply (snapshot_create_holds d m es r a s0)|].
  by apply with_unmounted_mounted.
Qed.

(** C18. Switching to a snapshot: the directory holds the file system of the snapshot,
    and what it held before can be reached by the new snapshot "auto-before-switch";
    an unknown reference changes neither the file system nor the snapshots. *)
Theorem snapshot_switch_correct d m es r a s0 now reference faults :
  unmounted d m es r a s0 → is_u64 now →
  match find_snapshot reference (opened d es s0 faults) with
  | Some target => ∀ at_, wf_digest (sn_root target) → root_holds (sd_io d) (sn_root target) at_ →
      ∃ d' res auto, run_snapshot_switch now reference faults d = (d', res) ∧
        outcome faults (target, auto) res ∧ sn_name auto = Some (str "auto-before-switch") ∧
        dir_holds d' at_ ∧ root_holds (sd_io d') (sn_root auto) a ∧ sd_io d ⊑ᵢ sd_io d' ∧
        sd_mount_lock d' = false ∧
        load_store_from_segments (default ∅ (sd_segments d')) =
          Ok (Some (sn_root target), log_snapshots es ++ [auto])
  | None =>
      ∃ d', run_snapshot_switch now reference faults d = (d', Err (CmdSnapshotNotFound reference)) ∧
        dir_holds d' a ∧ sd_io d' = sd_io d ∧
        load_store_from_segments (default ∅ (sd_segments d')) = Ok (Some r, log_snapshots es)
  end.
Proof.
  intros Hu Hnow. destruct (find_snapshot reference (opened d es s0 faults)) as [target|] eqn:Hf.
  - intros at_ Hw Hr. by apply (snapshot_switch_holds d m es r a s0).
  - by apply (snapshot_switch_unknown d m es r a s0).
Qed.

(** C30. On a readable log a scrub panics exactly when loading the current root panics,
    and otherwise produces a report, which is clean exactly when the current root and all
    snapshot roots resolve and the current root loads.  (A damaged table can make the load
    panic, see [scrub_panics].) *)
Theorem scrub_clean_iff d m es :
  dir_log d m es →
  (run_scrub d = Panic ↔ ∃ r, log_root es = Some r ∧ load_from_root (sd_io d) r = Panic) ∧
  (run_scrub d ≠ Panic → ∃ rep, run_scrub d = Ok rep ∧
    (scrub_clean rep = true ↔
     Forall (λ root, is_Some (file_storage_get (sd_io d) root)) (scrub_roots es) ∧
     ∀ r, log_root es = Some r → ∃ s, load_from_root (sd_io d) r = Ok s)).
Proof.
  intros Hlog.
  assert ((∃ r, log_root es = Some r ∧ load_from_root (sd_io d) r = Panic) ∨
          ∀ r, log_root es = Some r → load_from_root (sd_io d) r ≠ Panic) as [(r & Hr & Hp)|Hnp].
  { destruct (log_root es) as [r|]; [|by right].
    destruct (load_from_root (sd_io d) r) as [s|e|] eqn:E; [right; congruence..|left; by exists r]. }
  - pose proof (run_scrub_panic d m es r Hlog Hr Hp) as H. split; [|done]. split; [by exists r|done].
  - destruct (run_scrub_clean d m es Hlog Hnp) as (rep & Hrun & Hiff). split; [|intros _; by exists rep].
    rewrite Hrun. split; [done|]. intros (r & Hr & Hp). by destruct (Hnp r Hr).
Qed.

(** Scrub does not look at the contents of files: two content stores that agree on
    the root records and the tables they name give the same report, whatever happened to
    all the other blocks. *)
Theorem scrub_sees_only_tables d m es (io' : Io) :
  dir_log d m es → (∀ root, root ∈ scrub_roots es → agree_on (sd_io d) io' root) →
  run_scrub (mkStoreDir B (sd_dictionary_bin d) (sd_mount_lock d) (sd_segments d) io') = run_scrub d.
Proof. apply run_scrub_scope. Qed.

(** The statistics of a store that holds [a]: the logical bytes are the sum of the
    file sizes, and the snapshots are those of the log, in its order. *)
Theorem stats_report d m es r a vt0 host :
  dir_log d m es → log_root es = Some r → healthy (sd_io d) → root_holds (sd_io d) r a →
  ∃ st, run_stats vt0 host d = Ok st ∧ ts_logical_bytes st = total_size (a_inodes a) ∧
        ts_snapshot_count st = Z.of_nat (length (log_snapshots es)) ∧
        ts_mounted st = sd_mount_lock d.
Proof. apply run_stats_run. Qed.

(** C17. Seeding a directory without a store from a source tree, whose names are distinct
    and no dots: the new store can be mounted and holds a copy of the tree, with every
    directory with its mode, owner and entries, every file with its size, mode, owner and
    modification time, and the content of every file stored.  The times of directories are
    not copied. *)
Theorem seed_copies_tree uid gid m es faults d :
  sd_dictionary_bin d = false → sd_segments d = None →
  seed_room uid gid m es (sd_io d) → wf_source (SrcDir m es) →
  let a := (seeded uid gid m es).1 in
  ∃ d' res, run_seed uid gid (SrcDir m es) faults d = (d', res) ∧ (calm faults → res = Ok tt) ∧
    dir_holds d' a ∧ holds_tree a 1 (SrcDir m es) ∧
    Forall (stored (sd_io d')) (contents (SrcDir m es)).
Proof. apply run_seed_holds. Qed.
End theorems.

(* ------------------------------------------------------------------------ *)
(** ** The hypotheses at a concrete directory *)

Lemma ex_unmounted : unmounted (ex_sdir_d false) ex_numbered_d ex_log_d ex_root_d ex_abs_sub ex_loaded_d.
Proof.
  split; [apply ex_dir_log_d|reflexivity|exact ex_io_d_healthy|apply ex_committed_d|reflexivity
         |by_compute|exact ex_loaded_d_eq|exact ex_loaded_d_fit|by_compute|exact ex_loaded_d_contents].
Qed.

Lemma snapshot_create_correct_witness :
  ∃ d' e, run_snapshot_create 1700000001 (Some (str "s2")) [] (ex_sdir_d false) = (d', Ok e) ∧
    dir_holds d' ex_abs_sub ∧ root_holds (sd_io d') (sn_root e) ex_abs_sub.
Proof.
  destruct (snapshot_create_correct (ex_sdir_d false) ex_numbered_d ex_log_d ex_root_d ex_abs_sub ex_loaded_d
              1700000001 (Some (str "s2")) []) as [(d' & res & e & Hrun & [_ Hout] & _ & _ & Hd & Hr & _) _];
    [exact ex_unmounted|by_compute|by_compute|].
  exists d', e. rewrite (Hout (Forall_nil_2 _)) in Hrun. split; [exact Hrun|]. split; [exact Hd|exact Hr].
Defined.

Lemma ex_find_snapshot :
  find_snapshot (str "s1") (opened (ex_sdir_d false) ex_log_d ex_loaded_d []) = Some ex_snap.
Proof. vm_compute. reflexivity. Qed.

Lemma snapshot_switch_correct_witness :
  ∃ d' auto, run_snapshot_switch 1700000001 (str "s1") [] (ex_sdir_d false) = (d', Ok (ex_snap, auto)) ∧
    dir_holds d' ex_abs ∧ root_holds (sd_io d') (sn_root auto) ex_abs_sub.
Proof.
  pose proof (snapshot_switch_correct (ex_sdir_d false) ex_numbered_d ex_log_d ex_root_d ex_abs_sub ex_loaded_d
                1700000001 (str "s1") [] ex_unmounted ltac:(by_compute)) as H.
  rewrite ex_find_snapshot in H.
  destruct (H ex_abs (digest_of_wf _) ex_snap_holds) as (d' & res & auto & Hrun & [_ Hout] & _ & Hd & Hr & _).
  exists d', auto. rewrite (Hout (Forall_nil_2 _)) in Hrun. split; [exact Hrun|]. split; [exact Hd|exact Hr].
Defined.

Lemma ex_resolves : Forall (λ root, is_Some (file_storage_get ex_io_d root)) (scrub_roots ex_log_d).
Proof.
  apply (resolves_all ex_io_d (scrub_roots ex_log_d)). vm_compute. reflexivity.
Qed.

Lemma scrub_clean_iff_witness : ∃ rep, run_scrub (ex_sdir_d true) = Ok rep ∧ scrub_clean rep = true.
Proof.
  destruct (scrub_clean_iff (ex_sdir_d true) ex_numbered_d ex_log_d (ex_dir_log_d true)) as [Hp Hr].
  assert (∀ r, log_root ex_log_d = Some r → load_from_root (sd_io (ex_sdir_d true)) r = Ok ex_loaded_d) as Hload.
  { intros r Hlr. assert (r = ex_root_d) as -> by (injection Hlr as <-; reflexivity). exact ex_loaded_d_eq. }
  destruct Hr as (rep & Hrun & Hiff).
  - intros (r & Hlr & Hpanic)%Hp. rewrite (Hload r Hlr) in Hpanic. discriminate.
  - exists rep. split; [exact Hrun|]. apply Hiff. split; [exact ex_resolves|].
    intros r Hlr. exists ex_loaded_d. exact (Hload r Hlr).
Defined.

(** A content store whose table of inodes has a damaged count, which wraps around to the
    size of the table: the scrub that should report it panics. *)
Definition ex_record : bytes := default [] (file_storage_get (Blockset := toy) ex_io_d ex_root_d).
Definition ex_inode_table : Digest224 := parse_digest224 (take 28 (drop 44 ex_record)).
Definition ex_io_damaged : @Io toy := <[ex_inode_table := le_bytes 8 (2 ^ 62)]> (ex_io_d : gmap (list Z) bytes).

Example scrub_panics : run_scrub (mkStoreDir toy false false (Some ex_segs_d) ex_io_damaged) = Panic.
Proof.
  apply (run_scrub_panic _ ex_numbered_d ex_log_d ex_root_d
           (dir_log_io (ex_sdir_d false) _ _ ex_io_damaged (ex_dir_log_d false)) eq_refl).
  destruct (load_inode_map (B := toy) ex_io_damaged (parse_digest224 (take 28 ex_record))) as [im|e|] eqn:E;
    [|by vm_compute in E..].
  apply (load_from_root_panics ex_io_damaged ex_root_d ex_record im); [vm_compute; reflexivity..|exact E|].
  change (load_u64_digest_map (B := toy) ex_io_damaged ex_inode_table = Panic). unfold load_u64_digest_map.
  assert (file_storage_get (Blockset := toy) ex_io_damaged ex_inode_table = Some (le_bytes 8 (2 ^ 62))) as ->
    by (apply lookup_insert_eq). apply load_counted_panics.
Qed.

(** A content store that lost the inode of the directory [d]. *)
Definition ex_io_lost : @Io toy := delete (toy_digest (serialize_inode (dir_inode 2 ex_dir))) (ex_io_d : gmap (list Z) bytes).

Lemma scrub_sees_only_tables_witness :
  file_storage_get (Blockset := toy) ex_io_d (toy_digest (serialize_inode (dir_inode 2 ex_dir))) ≠ None ∧
  run_scrub (mkStoreDir toy false true (Some ex_segs_d) ex_io_lost) = run_scrub (ex_sdir_d true).
Proof.
  split; [vm_compute; discriminate|].
  apply (scrub_sees_only_tables (ex_sdir_d true) ex_numbered_d ex_log_d ex_io_lost (ex_dir_log_d true)).
  apply (agree_check_all ex_io_d ex_io_lost (scrub_roots ex_log_d)). vm_compute. reflexivity.
Defined.

Lemma stats_report_witness :
  ∃ st, run_stats [HostFile 10; HostDir [HostFile 5; HostOther]] [] (ex_sdir_d true) = Ok st ∧
        ts_logical_bytes st = 0 ∧ ts_physical_bytes st = 15 ∧ ts_snapshot_count st = 1.
Proof.
  destruct (stats_report (ex_sdir_d true) ex_numbered_d ex_log_d ex_root_d ex_abs_sub
              [HostFile 10; HostDir [HostFile 5; HostOther]] []) as (st & Hrun & Hl & Hn & _);
    [apply ex_dir_log_d|reflexivity|exact ex_io_d_healthy|apply ex_committed_d|].
  exists st. split; [exact Hrun|]. split; [rewrite Hl; vm_compute; reflexivity|].
  split; [|exact Hn]. revert Hrun. vm_compute. intros [= <-]. reflexivity.
Defined.

(** The steps of the walk over [ex_tree]: the file [a] first, then the directory [d]. *)
Definition ex_seed_file : InodeMeta := file_inode_meta ex_host 3.
Definition ex_t0 : AbsFs := seed_start 501 20 ex_host.
Definition ex_t1 : AbsFs := (abs_create_inode ex_seed_file ex_t0).1.
Definition ex_t2 : AbsFs := (abs_link 1 nm_a 2 ex_t1).1.
Definition ex_t3 : AbsFs := (abs_set_manifest 2 [toy_digest (str "hel")] ex_t2).1.
Definition ex_t4 : AbsFs := (abs_create_directory 1 nm_d (dir_inode_meta ex_host) ex_t3).1.

Lemma ex_t1_run : abs_create_inode ex_seed_file ex_t0 = (ex_t1, Ok 2).
Proof. vm_compute. reflexivity. Qed.
Lemma ex_t2_run : abs_link 1 nm_a 2 ex_t1 = (ex_t2, Ok tt).
Proof. vm_compute. reflexivity. Qed.
Lemma ex_t3_run : abs_set_manifest 2 [toy_digest (str "hel")] ex_t2 = (ex_t3, Ok tt).
Proof. vm_compute. reflexivity. Qed.
Lemma ex_t4_run : abs_create_directory 1 nm_d (dir_inode_meta ex_host) ex_t3 = (ex_t4, Ok 3).
Proof. vm_compute. reflexivity. Qed.

Lemma seed_name_a : name_ok nm_a.
Proof. split_and!; [reflexivity|reflexivity|by_adm]. Qed.
Lemma seed_name_d : name_ok nm_d.
Proof. split_and!; [reflexivity|reflexivity|by_adm]. Qed.

Lemma seed_room_a : dir_room ex_t1 1 nm_a 2.
Proof.
  intros D HD _. assert (a_dirs ex_t1 !! 1 = Some ex_root_dir) as H by reflexivity.
  rewrite H in HD. injection HD as <-. split; [by_compute|by_adm].
Qed.

Lemma seed_room_d : mkdir_room ex_t3 1 nm_d (dir_inode_meta ex_host).
Proof.
  split; [by_compute|exact seed_name_d|split; by_adm|split; [by_compute|by_adm]|reflexivity|by_adm| |].
  - intros pm Hpm.
    assert (a_inodes ex_t3 !! 1 = Some (dir_inode 1 (dir_inode_meta ex_host))) as H by reflexivity.
    rewrite H in Hpm. injection Hpm as <-. by_adm.
  - intros D HD _.
    assert (a_dirs ex_t3 !! 1 = Some (<[nm_a := 2]> ex_root_dir)) as H by reflexivity.
    rewrite H in HD. injection HD as <-. split; [by_compute|by_adm].
Qed.

Lemma ex_seeded_run : ∃ P : Prop, P ∧ seeded 501 20 ex_host ex_tree = (ex_t4, P).
Proof.
  unfold seeded, walk_dir.
  change (sort_by_name _) with [(nm_a, seed_entry (S := Checked) (SrcFile ex_host (Some (str "hel"))));
                                (nm_d, seed_entry (S := Checked) (SrcDir ex_host []))].
  cbn [run_entries]. rewrite run_bind. change (to_string_lossy nm_a) with nm_a. cbn [seed_entry].
  rewrite run_bind. unfold seed_file. rewrite run_bind. cbn [lift ok_or]. rewrite run_bind.
  cbn [tgt_push tgt_create_inode tgt_link tgt_set_manifest tgt_create_directory checked_target].
  fold ex_t0. change (len (str "hel")) with 3. fold ex_seed_file.
  rewrite (seed_checked _ _ ex_t0 True ex_t0 _ eq_refl). cbn [res_map_err].
  rewrite run_bind, (seed_checked _ _ _ _ _ _ ex_t1_run). cbn [res_map_err].
  cbn [mret M_ret fst snd]. rewrite run_bind, (seed_checked _ _ _ _ _ _ ex_t2_run). cbn [res_map_err].
  change (digest_of (str "hel")) with (toy_digest (str "hel")).
  rewrite (seed_checked _ _ _ _ _ _ ex_t3_run). cbn [res_map_err].
  rewrite run_bind, run_bind. change (to_string_lossy nm_d) with nm_d.
  rewrite (seed_checked _ _ _ _ _ _ ex_t4_run). cbn [res_map_err].
  eexists. split; [|reflexivity].
  split_and!; [exact I|by_adm|by_compute|by_compute|by_adm|by_compute|exact seed_name_a|by_compute
              |exact seed_room_a|by_compute| |by_adm|exact seed_room_d].
  repeat constructor; by_compute.
Qed.

(** The store that is seeded from [ex_tree]. *)
Lemma ex_seed_commit :
  tables_fit (seed_state 501 20 ex_host ex_tree ex_io) ∧
  Forall admissible (commit_contents (seed_state 501 20 ex_host ex_tree ex_io)).
Proof.
  split; [split; unfold fits, wf_counts, wf_digest, is_u64; by_compute|].
  change (Forall (λ bs, bs ∈ ex_contents) (commit_contents (seed_state 501 20 ex_host ex_tree ex_io))).
  by_compute.
Qed.

Lemma ex_seed_room : seed_room 501 20 ex_host ex_tree ex_io.
Proof.
  split; [apply ex_healthy|by split|by split|split; by_adm|split_and!; by_adm| |].
  - destruct ex_seeded_run as (P & HP & ->). exact HP.
  - exact ex_seed_commit.
Qed.

Lemma seed_copies_tree_witness :
  ∃ d', run_seed 501 20 (SrcDir ex_host ex_tree) [] ex_blank = (d', Ok tt) ∧ dir_holds d' ex_t4 ∧
    holds_tree ex_t4 1 (SrcDir ex_host ex_tree) ∧ stored (sd_io d') (str "hel").
Proof.
  destruct (seed_copies_tree 501 20 ex_host ex_tree [] ex_blank eq_refl eq_refl ex_seed_room)
    as (d' & res & Hrun & Hok & Hd & Ht & Hst).
  - split; [by_compute|]. split; [by_compute|]. split; [split; [constructor|]; split; constructor|].
    split; [discriminate|exact I].
  - exists d'. rewrite (Hok (Forall_nil_2 _)) in Hrun.
    destruct ex_seeded_run as (P & _ & Heq). rewrite Heq in Hd, Ht.
    split; [exact Hrun|]. split; [exact Hd|]. split; [exact Ht|]. by inversion Hst.
Defined.
