(* ===== verification/SessionTheorems.v ===== *)
(** * Theorems: serving requests, from mount to unmount

    Replies, directory listings, clean and read-only sessions, the background
    collector, and the choice of the FUSE-T backend. *)

From S2P Require Import Prelude Types Text Blockset Inode InodeMap Xattr Directory Segment Wal.
From S2P Require Import SegmentDir Gc Background Backend Store StoreSpec StoreRefine MetadataStoreTrait StoreCommit.
From S2P Require Import Snapshots Filesystem WritePath Namespace NamespaceRefine Handlers Callbacks.
From S2P Require Import ReplyTypes Mount MountRefine Commands Session Serving FsSpec FsSim ServeRefine.
From S2P Require Import TreeInvariant TreeRequests SessionRefine.
From S2P Require Import Examples MountExamples SpecExamples.
From stdpp Require Import base tactics numbers option list gmap strings.
Open Scope Z_scope.

Section theorems.
Context {B : Blockset} {L : BlocksetLaws B}.
Implicit Types (d : StoreDir B).

(** C19. Every reply has the type of its request, in every state of the file system: an
    error or the answer that the kernel expects to that request, with attributes whose
    fields fit their types, for a read no more data than asked for, for an extended
    attribute or the list of their names a size when the size was asked for and data
    otherwise, and for a write the number of bytes that was written.  (Those data are the
    whole value, however small the buffer is: [xattr_size_ignored].) *)
Theorem replies_typed full now sv sf req (f f' : SliceFsFilesystem B) rep :
  is_u64 now.1 → is_u32 now.2 → wf_request req →
  serve full now sv sf req f = (f', Ok rep) → reply_fits req rep.
Proof. intros H1 H2 Hreq. by apply serve_typed_returns. Qed.

(** The size of the buffer does not matter to [getxattr] and [listxattr] unless it is 0:
    a value that does not fit is sent all the same, where getxattr(2) asks for ERANGE. *)
Theorem xattr_size_ignored full now sv sf ino name size size' (f : SliceFsFilesystem B) :
  size ≠ 0 → size' ≠ 0 →
  serve full now sv sf (ReqGetxattr ino name size) f = serve full now sv sf (ReqGetxattr ino name size') f ∧
  serve full now sv sf (ReqListxattr ino size) f = serve full now sv sf (ReqListxattr ino size') f.
Proof.
  intros H H'. cbn [serve]. unfold fuse_getxattr, fuse_listxattr, handle_getxattr, handle_listxattr.
  assert (∀ data, xattr_reply size data = xattr_reply size' data) as Hx
    by (intros data; unfold xattr_reply; by rewrite !decide_False).
  rewrite !run_bind. unfold handled. split.
  - destruct (test_getxattr _ _ _) as [f1 [v|e|]]; [by rewrite Hx|done..].
  - destruct (test_listxattr _ _) as [f1 [v|e|]]; [by rewrite Hx|done..].
Qed.

(** C20. Listing a directory ends and is complete: a client that asks again at the offset
    of the last entry it got, until a page is empty, needs at most one request more than
    there are entries, and gets every entry exactly once with the kind of its inode,
    however many entries fit a page. *)
Theorem readdir_pages_complete full now sv sf (f : SliceFsFilesystem B) a ino D :
  store_rep (fs_meta f) a → a_dirs a !! ino = Some D →
  (∀ item, full [] item = false) → is_u64 (Z.of_nat (size D)) →
  ∃ items, read_pages full now sv sf (S (size D)) ino 0 f = (f, Ok (Some items)) ∧
    (λ it : ReplyItem, (it.2, it.1.1.1)) <$> items ≡ₚ map_to_list D ∧
    Forall (λ it : ReplyItem, it.1.2 = kind_in a it.1.1.1) items.
Proof. apply readdir_all. Qed.

(** C4. A mounted file system does what its specification says.  The specification knows
    nothing of digests, blocks, write buffers and reference counts: it has a tree of names
    and attributes, one byte string per file and one per open handle.  Any sequence of
    requests gets the replies that the specification gives, errors included, and leaves a
    state that represents the one of the specification; no stored content is lost.  It is
    needed that the contents do not collide under the digest and that numbers stay in
    their ranges. *)
Theorem served_as_specified calls (f : SliceFsFilesystem B) sp sp' (P : Prop) res :
  fs_rep f sp → log_calm f → spec_calls calls (sp, True) = ((sp', P), res) → P →
  ∃ f', serve_calls calls f = (f', res) ∧ fs_rep f' sp' ∧ st_io (fs_meta f) ⊑ᵢ st_io (fs_meta f').
Proof.
  intros Hr Hc Hs HP. destruct (serve_calls_spec calls f sp True Hr Hc) as (H1 & H2 & H3 & _); [by rewrite Hs|].
  rewrite Hs in H1, H2. exists (serve_calls calls f).1. split_and!; [|done|done].
  rewrite (surjective_pairing (serve_calls calls f)). by rewrite H1.
Qed.

(** C9. The tree stays sound: from a sound tree, such as that of a new file system, any
    sequence of requests, those that fail half way included, leads to a store that
    represents a sound tree, as long as no rename moves [.] or [..], which the kernel
    refuses before it asks.  Every name leads to an inode, the link count
    of a file is the number of its names, a directory has at most one name, and of the
    inodes exactly the directories have a table of entries.  The table of a directory
    that was removed stays in the store, and a name in it counts like any other:
    [removed_table_stays]. *)
Theorem tree_stays_sound calls (f : SliceFsFilesystem B) sp sp' (P : Prop) res :
  fs_rep f sp → log_calm f → tree_ok (sp_tree sp) → Forall renames_entry calls →
  spec_calls calls (sp, True) = ((sp', P), res) → P →
  ∃ f' a, serve_calls calls f = (f', res) ∧ store_rep (fs_meta f') a ∧ tree_ok a.
Proof.
  intros Hr Hc Ht Hn Hs HP. destruct (serve_calls_spec calls f sp True Hr Hc) as (H1 & H2 & _); [by rewrite Hs|].
  pose proof (spec_calls_keep calls Hn sp True Ht) as Hk. rewrite Hs in H1, H2, Hk. cbn [fst snd] in *.
  exists (serve_calls calls f).1, (sp_abs sp'). split_and!; [|apply H2|by apply Hk].
  rewrite (surjective_pairing (serve_calls calls f)). by rewrite H1.
Qed.

End theorems.

(** C32. The background collector stops, whatever the mount does in between: once the mount
    has asked for the shutdown or has dropped its store, the thread finishes at most the
    pass it is in, or one pass that it begins at that moment, and stops within [n + 3] of
    its own steps, where no pass has more than [n] segments.  From then on the segment
    directory is only what the mount writes to it; until then, the thread has changed no
    file but the copies of the segments that it listed and their temporary files. *)
Theorem background_gc_stops n th es es' t :
  existsb ends_store es = true → (length (pass_left (gc_run th es t)) ≤ n)%nat →
  Forall (λ e, length (step_listing e) ≤ n)%nat es' → (n + 3 ≤ own_steps es')%nat →
  bg_pc (gc_run th (es ++ es') t) = PcStopped ∧
  (∀ es'', bg_pc (gc_run th (es ++ es' ++ es'') t) = PcStopped ∧
           bg_dir (gc_run th (es ++ es' ++ es'') t) = mount_writes es'' (bg_dir (gc_run th (es ++ es') t))) ∧
  (∀ name, (∀ path, path ∈ pass_left (gc_run th es t) ∨ path ∈ concat (step_listing <$> es') → name ∉ outputs path) →
           bg_dir (gc_run th (es ++ es') t) !! name = mount_writes es' (bg_dir (gc_run th es t)) !! name).
Proof.
  intros Hend Hleft Hn Hs. pose proof (gc_run_stops n th es es' t Hend Hleft Hn Hs) as Hstop. split_and!; [done|..].
  - intros es''. rewrite app_assoc, (gc_run_app th (es ++ es')). by apply gc_run_stopped.
  - intros name Hname. rewrite gc_run_app. by apply gc_run_writes.
Qed.

(** The background collector of a mount never collects: its orphan count is the
    constant 1, which no threshold of 1 or more, and the mount passes 1000, is below. *)
Theorem background_gc_idle th es dir :
  1 ≤ th → bg_dir (gc_run th es (spawn_background_gc dir)) = mount_writes es dir.
Proof. intros Hth. by apply gc_run_idle. Qed.

(** The choice of a backend: a version below 1.0.35 is refused whatever is asked for;
    otherwise the requested backend is taken, FSKit only if it is available, and NFS
    without a request.  The flag [force] has no influence, and the version that is read
    from a library name is the one it was made from. *)
Theorem backend_choice requested force a b c fskit :
  is_u32 a → is_u32 b → is_u32 c →
  parse_libfuse_t_filename (libfuse_t_filename (a, b, c)) = Some (a, b, c) ∧
  (∀ be, select_backend requested force (a, b, c) fskit = Ok be ↔
     (1 < a ∨ a = 1 ∧ (0 < b ∨ b = 0 ∧ 35 ≤ c)) ∧ be = default Nfs requested ∧
     (be = Fskit → fskit = true)) ∧
  select_backend requested force (a, b, c) fskit = select_backend requested (negb force) (a, b, c) fskit.
Proof.
  intros Ha Hb Hc. split; [by apply parse_libfuse_t_print|]. split; [|done].
  intros be. unfold select_backend.
  assert (version_lt (a, b, c) MIN_VERSION = true ↔ ¬ (1 < a ∨ a = 1 ∧ (0 < b ∨ b = 0 ∧ 35 ≤ c))) as Hv.
  { cbn. rewrite orb_true_iff, andb_true_iff, orb_true_iff, andb_true_iff, !Z.ltb_lt, !Z.eqb_eq.
    unfold is_u32 in *. lia. }
  destruct (version_lt (a, b, c) MIN_VERSION).
  - split; [done|]. intros (H & _). by destruct (proj1 Hv eq_refl).
  - assert (1 < a ∨ a = 1 ∧ (0 < b ∨ b = 0 ∧ 35 ≤ c)) as Hok.
    { destruct (decide (1 < a ∨ a = 1 ∧ (0 < b ∨ b = 0 ∧ 35 ≤ c))) as [|H]; [done|]. by apply Hv in H. }
    clear Hv. destruct requested as [[]|], fskit, be; cbn;
      (split; [try discriminate; intros _; split_and!; done|]);
      intros (_ & He & Hf); try discriminate He; try done; by specialize (Hf eq_refl).
Qed.

(** Writing a backend to [fuse-t.ini]: read back, the [[Default]] sections hold at
    least one backend entry and no other than the new one; every other line is kept, in
    order, and a [[Default]] section is added at the end exactly when there was none. *)
Theorem ini_backend_written ini w : plain_word w →
  let ls := lines (inject_backend_into_ini ini w) in
  settings false ls ≠ [] ∧ Forall (eq (str "backend=" ++ w)) (settings false ls) ∧
  other_lines false ls
  = other_lines false (lines ini) ++ if has_default (lines ini) then [] else [str "[Default]"].
Proof. apply inject_holds. Qed.

(* ------------------------------------------------------------------------ *)
(** ** The hypotheses at concrete runs *)

Definition ex_mkdir : Request := ReqMkdir 1 nm_d 511 18 501 20.
Definition no_full : list ReplyItem → ReplyItem → bool := λ _ _, false.
(** Two entries fit a page. *)
Definition two_full : list ReplyItem → ReplyItem → bool := λ acc _, bool_decide (2 ≤ length acc)%nat.

Lemma replies_typed_witness :
  ∃ rep, (serve no_full ex_now None None ex_mkdir (fs_new ex_mounted)).2 = Ok rep ∧ reply_fits ex_mkdir rep.
Proof.
  destruct (serve no_full ex_now None None ex_mkdir (fs_new ex_mounted)) as [f r] eqn:E.
  assert (∃ rep, r = Ok rep) as [rep ->].
  { assert (match (serve no_full ex_now None None ex_mkdir (fs_new ex_mounted)).2 with
            | Ok _ => true | _ => false end = true) as H by (vm_compute; reflexivity).
    rewrite E in H. destruct r; [by eexists|discriminate..]. }
  exists rep. split; [reflexivity|].
  apply (replies_typed no_full ex_now None None ex_mkdir (fs_new ex_mounted) f rep);
    [by_compute|by_compute|exact I|exact E].
Defined.

(** The shutdown comes in the middle of a pass over two segments: the thread still visits
    the second one, and stops. *)
Definition bg_before : list GcEvent :=
  [BgStep [] []; BgStep [seg_name 1; seg_name 2] []; BgStep [] []; BgShutdown].
Definition bg_after : list GcEvent :=
  [BgStep [] []; BgWrite (seg_name 3) (Some []); BgStep [] []; BgStep [] []; BgStep [] []].
Definition bg_start : GcThread :=
  spawn_background_gc {[seg_name 1 := closed_segment 1 []; seg_name 2 := closed_segment 2 []]}.
Example bg_in_pass :
  bg_pc (gc_run 0 bg_before bg_start) = PcPass [seg_name 2] ∧
  bg_dir (gc_run 0 (bg_before ++ bg_after) bg_start) !! seg_name 100002 = Some (closed_segment 100002 []).
Proof. split; vm_compute; reflexivity. Qed.

Lemma background_gc_stops_witness :
  bg_pc (gc_run 0 (bg_before ++ bg_after) bg_start) = PcStopped ∧
  ∀ es'', bg_dir (gc_run 0 (bg_before ++ bg_after ++ es'') bg_start) =
          mount_writes es'' (bg_dir (gc_run 0 (bg_before ++ bg_after) bg_start)).
Proof.
  destruct (background_gc_stops 1 0 bg_before bg_after bg_start) as (H1 & H2 & _).
  - reflexivity.
  - unfold pass_left. rewrite (proj1 bg_in_pass). apply Nat.le_refl.
  - repeat constructor.
  - vm_compute. repeat constructor.
  - split; [exact H1|]. intros es''. exact (proj2 (H2 es'')).
Defined.

Lemma background_gc_idle_witness :
  let es := [BgWrite (seg_name 1) (Some []); BgStep [] []; BgStep [seg_name 1] []] in
  bg_dir (gc_run mount_orphan_threshold es (spawn_background_gc ∅)) = {[seg_name 1 := []]}.
Proof. apply (background_gc_idle mount_orphan_threshold); unfold mount_orphan_threshold; lia. Defined.

Lemma backend_choice_witness :
  select_backend (Some Nfs) false (1, 2, 0) false = Ok Nfs ∧
  select_backend None true (1, 0, 34) true = Err (FuseTTooOld (1, 0, 34)) ∧
  parse_libfuse_t_filename (str "libfuse-t-1.2.0.dylib") = Some (1, 2, 0).
Proof.
  destruct (backend_choice (Some Nfs) false 1 2 0 false) as (H1 & H2 & _); [by_compute..|].
  split; [apply H2; split; [lia|by split]|]. split; [vm_compute; reflexivity|exact H1].
Defined.

Definition ex_ini : bytes :=
  str "[Other]" ++ [newline] ++ str "backend=x" ++ [newline] ++ str "[default]" ++ [carriage_return; newline]
  ++ str "  backend=nfs" ++ [newline] ++ str "k=v".

Lemma ini_backend_written_witness :
  settings false (lines (inject_backend_into_ini ex_ini (str "smb"))) = [str "backend=smb"] ∧
  other_lines false (lines (inject_backend_into_ini ex_ini (str "smb"))) =
    [str "[Other]"; str "backend=x"; str "[default]"; str "k=v"] ∧
  Forall (eq (str "backend=smb")) (settings false (lines (inject_backend_into_ini ex_ini (str "smb")))).
Proof.
  split; [vm_compute; reflexivity|]. split; [vm_compute; reflexivity|].
  apply (ini_backend_written ex_ini (str "smb")). split; [by_compute|vm_compute; reflexivity].
Defined.

(** The root of [ex_store_d], in pages of two. *)
Lemma readdir_pages_complete_witness :
  ∃ items, read_pages two_full ex_now None None 4 1 0 (fs_new ex_store_d) =
             (fs_new ex_store_d, Ok (Some items)) ∧
    (λ it : ReplyItem, (it.2, it.1.1.1)) <$> items ≡ₚ map_to_list (<[nm_d := 2]> ex_root_dir).
Proof.
  destruct (readdir_pages_complete two_full ex_now None None (fs_new ex_store_d) ex_abs_sub 1
              (<[nm_d := 2]> ex_root_dir)) as (items & Hrun & Hp & _).
  - exact (proj1 ex_store_d_rep).
  - reflexivity.
  - intros item. reflexivity.
  - by_compute.
  - exists items. split; [exact Hrun|exact Hp].
Defined.

Lemma served_as_specified_witness :
  drop 1 ex_replies = [ReplyWritten 3; ReplyOk; ReplyData (str "el"); ReplyError ENOENT] ∧
  ∃ f', serve_calls ex_requests (fs_new ex_store) = (f', Ok ex_replies) ∧ fs_rep f' ex_spec_end ∧
        st_io ex_store ⊑ᵢ st_io (fs_meta f').
Proof.
  split; [apply ex_replies_ok|].
  apply (served_as_specified ex_requests (fs_new ex_store) ex_spec ex_spec_end
           (spec_calls ex_requests (ex_spec, True)).1.2 (Ok ex_replies)).
  - exact ex_fs_spec_rep.
  - intros b. discriminate.
  - rewrite <-(proj1 ex_replies_ok). exact ex_spec_run.
  - exact ex_spec_needs.
Defined.

Lemma tree_stays_sound_witness :
  ∃ f' a, serve_calls ex_requests (fs_new ex_store) = (f', Ok ex_replies) ∧ store_rep (fs_meta f') a ∧ tree_ok a.
Proof.
  apply (tree_stays_sound ex_requests (fs_new ex_store) ex_spec ex_spec_end
           (spec_calls ex_requests (ex_spec, True)).1.2 (Ok ex_replies)).
  - exact ex_fs_spec_rep.
  - intros b. discriminate.
  - apply tree_ok_new.
  - by_compute.
  - rewrite <-(proj1 ex_replies_ok). exact ex_spec_run.
  - exact ex_spec_needs.
Defined.



(** A listing that is read in two requests misses an entry when another one is removed
    between them, since offsets are positions in the current listing: the second page
    starts one entry too late. *)
Definition ex_two : SliceFsFilesystem toy :=
  (serve_calls [ex_call (ReqMkdir 1 nm_a 511 18 501 20); ex_call (ReqMkdir 1 nm_b 511 18 501 20)]
     (fs_new ex_store)).1.
Definition ex_one : SliceFsFilesystem toy := (serve_calls [ex_call (ReqRmdir 1 nm_a)] ex_two).1.

Example readdir_skips_entry :
  let names rep := match rep with Ok (ReplyDirectory items) => snd <$> items | _ => [] end in
  let page f offset := names (serve two_full ex_now None None (ReqReaddir 1 offset) f).2 in
  page ex_two 0 = [dot; nm_a] ∧ page ex_one 2 = [dotdot] ∧
  names (serve no_full ex_now None None (ReqReaddir 1 0) ex_one).2 = [dot; nm_b; dotdot].
Proof. vm_compute. split_and!; reflexivity. Qed.

(** What a run on a new file system replies. *)
Definition ex_run (reqs : list Request) : list Reply :=
  ok_or_else [] (serve_calls (ex_call <$> reqs) (fs_new ex_store)).2.
Definition ex_mk (parent : Z) (name : bytes) : Request := ReqMkdir parent name 511 18 501 20.
(** The inode and link count of an entry, or the error. *)
Definition ex_entry (rep : Reply) : Z * Z + option Errno :=
  match rep with
  | ReplyEntry attr | ReplyAttr attr => inl (fa_ino attr, fa_nlink attr)
  | ReplyError e => inr (Some e)
  | _ => inr None
  end.

(** Renaming a directory onto one that has entries succeeds, and the entries are lost. *)
Example rename_onto_full_directory :
  ex_entry <$> ex_run [ex_mk 1 nm_a; ex_mk 1 nm_b; ex_mk 3 nm_d; ReqRename 1 nm_a 1 nm_b 0;
                       ReqLookup 1 nm_b; ReqLookup 2 nm_d] =
  [inl (2, 2); inl (3, 2); inl (4, 2); inr None; inl (2, 2); inr (Some ENOENT)].
Proof. vm_compute. reflexivity. Qed.

(** The table of a removed directory stays: a client that goes on using its number can
    still make and find files in it. *)
Example removed_table_stays :
  ex_entry <$> ex_run [ex_mk 1 nm_a; ReqRmdir 1 nm_a; ReqGetattr 2;
                       ReqMknod 2 nm_b (Z.lor S_IFREG 438) 18 501 20; ReqLookup 2 nm_b] =
  [inl (2, 2); inr None; inr (Some ENOENT); inl (3, 1); inl (3, 1)].
Proof. vm_compute. reflexivity. Qed.

(** A directory that moves to another parent keeps its old [..], and the link counts of
    the two parents stay. *)
Example rename_keeps_dotdot :
  ex_entry <$> ex_run [ex_mk 1 nm_a; ex_mk 1 nm_b; ReqRename 1 nm_b 2 nm_b 0; ReqLookup 3 dotdot;
                       ReqGetattr 2] =
  [inl (2, 2); inl (3, 2); inr None; inl (1, 4); inl (2, 2)].
Proof. vm_compute. reflexivity. Qed.

(** A file that was never written cannot be read, and an open file that is unlinked cannot
    be closed without an error. *)
Example unwritten_file_unreadable :
  ex_entry <$> ex_run [ReqMknod 1 nm_a (Z.lor S_IFREG 438) 18 501 20; ReqRead 2 0 10] =
  [inl (2, 1); inr (Some EIO)].
Proof. vm_compute. reflexivity. Qed.
Example unlinked_file_close_fails :
  ex_entry <$> ex_run [ReqCreate 1 nm_a 438 18 O_WRONLY 501 20; ReqWrite 1 0 (str "hel"); ReqUnlink 1 nm_a;
                       ReqRelease 2 1] =
  [inr None; inr None; inr None; inr (Some EIO)].
Proof. vm_compute. reflexivity. Qed.
