(* ===== verification/LifeTheorems.v ===== *)
(** * Theorems: the life of a store

    What any sequence of mounts, kills and commands makes of a store directory. *)

From S2P Require Import Prelude Types Text Blockset Inode InodeMap Xattr Directory Segment Wal.
From S2P Require Import SegmentDir Gc Store StoreSpec StoreRefine MetadataStoreTrait StoreCommit Snapshots.
From S2P Require Import Filesystem WritePath Namespace NamespaceRefine Handlers Callbacks.
From S2P Require Import Mount Commands MountRefine CommandsRefine Session FsSpec FsSim SessionRefine Lifetime.
From S2P Require Import Examples MountExamples SpecExamples CommandTheorems.
From stdpp Require Import base tactics numbers option list gmap strings.
Open Scope Z_scope.

Section theorems.
Context {B : Blockset} {L : BlocksetLaws B}.
Implicit Types (d : StoreDir B) (l : Life).

(** C1. The life of a store.  Take a directory that holds a life, and any sequence of
    events on it: mounts of the file system or of a snapshot that are unmounted, mounts that are
    killed at any point of serving or unmounting with any part of the log not yet written,
    [snapshot create], [snapshot switch], [gc], [scrub] and [stats].  As long as each event
    fits, all replies and results are those of the specification, in which a mount continues
    with the file system that the events before it left, a killed mount keeps either nothing or
    everything that it did, a switch brings back the file system that was saved, and the other
    commands change nothing; and the directory holds the life that results. *)
Theorem store_life (evs : list (Event B)) d l :
  store_holds d l → events_fit evs d l →
  ∃ l', spec_steps l evs (real_runs evs d).2 l' ∧ store_holds (real_runs evs d).1 l'.
Proof. apply real_runs_sim. Qed.

(** C2. A snapshot is never lost: after any such events it is found under its version, its
    root still loads the file system that it saved, and the contents of all its files can be
    read, unless more snapshots were taken than there are versions. *)
Theorem snapshots_survive (evs : list (Event B)) d l v x :
  store_holds d l → events_fit evs d l → lf_saved l !! v = Some x → is_u64 v →
  max_version (fst <$> lf_saved l) + Z.of_nat (length evs) < 2 ^ 64 →
  ∃ l' s, store_holds (real_runs evs d).1 l' ∧ life_find (fmt_dec v) l' = Some x ∧
    load_from_root (sd_io (real_runs evs d).1) (sn_root x.1) = Ok s ∧ store_rep s (sp_abs x.2) ∧
    map_Forall (λ _ c, from_option (stored (sd_io (real_runs evs d).1)) True c) (sp_contents x.2).
Proof.
  intros Hd Hfit Hx Hv Hmax. destruct (real_runs_sim evs d l Hd Hfit) as (l' & Hs & Hd').
  pose proof (spec_steps_saved evs _ l l' _ (max_version_nonneg _) Hmax (saved_below_max l) Hs v x Hx) as Hx'.
  assert (life_find (fmt_dec v) l' = Some x) as Hf.
  { unfold life_find, fmt_dec. by rewrite parse_fmt_pad. }
  pose proof Hd' as (m & es & _ & Hh & _ & Hk).
  destruct (life_find_saved _ _ _ _ _ Hf Hk) as (_ & Hr & Hc).
  destruct (Hr _ (reflexivity _) Hh) as (s & Hl & Hrep). by exists l', s.
Qed.

(** C3. Mounting a snapshot changes nothing: the requests, also those that write, get the
    replies of the file system that the snapshot saved, and afterwards the directory holds
    the same current file system and the same snapshots, with all their contents, under an
    unchanged log, and the lock is gone. *)
Theorem snapshot_mount_isolated (a : MountArgs) reference x d l :
  store_holds d l → mountpoint_in_use (ma_mountpoint a) (ma_table a) = false → ma_snapshot a = Some reference →
  ma_fuse a = None → life_find reference l = Some x → event_fits (EvMount a) d l →
  ∃ d' replies,
    run_mount (ma_mountpoint a) (ma_table a) (ma_config a) (ma_faults a) (ma_snapshot a) (ma_noatime a)
      (ma_allow_other a) (ma_auto_snapshot a) (ma_fuse a) (ma_calls a) (ma_now a) d = (d', Ok replies) ∧
    spec_served (ma_calls a) x.2 (spec_end (ma_calls a) x.2) replies ∧ store_holds d' (set_locked false l) ∧
    load_store_from_segments (default ∅ (sd_segments d')) = load_store_from_segments (default ∅ (sd_segments d)).
Proof. apply snapshot_run. Qed.
End theorems.

(* ------------------------------------------------------------------------ *)
(** ** What an event leaves, from the specification *)

Section inversion.
Context {B : Blockset} {L : BlocksetLaws B}.
Implicit Types (l : Life).

Lemma mount_leaves l a out l' :
  spec_step (B := B) l (EvMount a) out l' → mountpoint_in_use (ma_mountpoint a) (ma_table a) = false →
  ma_snapshot a = None → ma_fuse a = None → ma_config a ≠ CfgNoWal →
  lf_fs l' = spec_end (ma_calls a) (lf_fs l) ∧ lf_locked l' = false.
Proof.
  intros Hs Hmp Hsnap Hfuse Hcfg. inversion Hs as [? sp' e r _ _ _ [P HP] _| | | | | | | | | | | | | |]; try congruence.
  split; [|done]. unfold spec_end. rewrite HP. cbn [fst].
  destruct (ma_config a), (ma_auto_snapshot a); done.
Qed.

Lemma kill_serving_leaves l a file io out l' :
  spec_step (B := B) l (EvKilled a KillServing file io) out l' → lf_fs l' = lf_fs l ∧ lf_locked l' = true.
Proof.
  inversion 1 as [| | | | |? ? ? ? sp' e k r _ _ Hk| | | | | | | | |]. cbn in Hk.
  by assert (k = 0%nat) as -> by lia.
Qed.

Lemma create_locked_leaves l now name faults out l' :
  spec_step (B := B) l (EvCreate now name faults) out l' → lf_locked l = true → l' = l.
Proof. inversion 1; congruence. Qed.

Lemma unmounted_fits (d : StoreDir B) m es r s0 l : unmounted d m es r (sp_abs (lf_fs l)) s0 → command_fits d l.
Proof.
  intros []. split; [done|]. intros r' snaps meta Hseg Hload.
  destruct (load_segments_log _ _ _ um_log) as [_ Hlog]. rewrite Hlog, um_root in Hseg. injection Hseg as <- _.
  rewrite um_load in Hload. by injection Hload as <-.
Qed.
End inversion.

(* ------------------------------------------------------------------------ *)
(** ** The hypotheses at a concrete life *)

Lemma events_fit_cons {B : Blockset} {L : BlocksetLaws B} ev evs (d d' : StoreDir B) l :
  (real_run ev d).1 = d' → event_fits ev d l → (∀ out l', spec_step l ev out l' → events_fit evs d' l') →
  events_fit (ev :: evs) d l.
Proof. intros <- Hfit Hrest. split; [done|]. intros l' Hs _. by apply (Hrest _ _ Hs). Qed.

Definition ex_life : Life := mkLife ex_spec ∅ ∅ false.

Lemma ex_life_holds : store_holds ex_dir0 ex_life.
Proof.
  exists ex_numbered, ex_log. split_and!; [exact (ex_dir_log false)|exact ex_io1_healthy|reflexivity|].
  split; [|reflexivity|reflexivity|apply map_Forall_empty|constructor].
  exists ex_root_digest. split; [reflexivity|].
  split_and!; [apply digest_of_wf|apply ex_committed|apply map_Forall_empty].
Qed.

(** The store that a mount of a concrete directory loads. *)
Definition loaded (d : StoreDir toy) : DictMetadataStore toy :=
  ok_or_else ex_store (load_store CfgFlushOnFsync [] d).2.
Lemma loaded_eq d d1 meta : load_store CfgFlushOnFsync [] d = (d1, Ok meta) → meta = loaded d.
Proof. intros H. unfold loaded. by rewrite H. Qed.

Ltac by_commit_fits :=
  hnf; split_and!;
    [split; unfold fits, wf_counts, wf_digest, is_u64; by_compute|by_compute
    |match goal with |- Forall _ ?x => change (Forall (λ bs, bs ∈ ex_contents) x) end; by_compute].

Definition ex_dir2 : StoreDir toy :=
  (real_run (EvKilled (ex_mount_args false ex_unlink) KillServing [] ex_kill_io) ex_dir1).1.
Definition ex_dir3 : StoreDir toy := (real_run (EvMount (ex_mount_args false ex_unlink)) ex_dir2).1.

Lemma ex_calls_fit : calls_fit ex_requests ex_spec.
Proof. split; [exact ex_spec_needs|]. eexists. exact (proj1 ex_replies_ok). Qed.

Lemma ex_unlink_fit : calls_fit ex_unlink ex_spec_end.
Proof.
  split; [|eexists; vm_compute; reflexivity].
  assert ((mounted ex_spec_end, True).2) by exact I. unfold ex_unlink, ex_call. by_needs.
Qed.

Lemma ex_mount_fits : event_fits (EvMount (ex_mount_args true ex_requests)) ex_dir0 ex_life.
Proof.
  intros _. split; [split; [by_compute|constructor]|]. split; [by_compute|]. cbn [ma_snapshot ex_mount_args]. intros _.
  split; [exact ex_calls_fit|]. intros d1 meta ->%loaded_eq. by_commit_fits.
Qed.

Lemma ex_kill_fits l :
  lf_fs l = ex_spec_end →
  event_fits (EvKilled (ex_mount_args false ex_unlink) KillServing [] ex_kill_io) ex_dir1 l.
Proof.
  intros Hl. hnf. rewrite Hl. split; [reflexivity|]. split; [discriminate|].
  split; [split; [by_compute|constructor]|]. split; [exact ex_unlink_fit|].
  split; [by intros []|]. split; [discriminate|].
  intros d1 meta ->%loaded_eq. split; [by intros []|]. split; [|split; [reflexivity|]].
  - intros b Hb. exists 0%nat. split; [|reflexivity].
    assert (length (sw_synced (box_writer (from_option id (BoxNoWal mkNoWal)
      (st_wal (kill_store KillServing ex_now (serve_mount (ex_mount_args false ex_unlink) (loaded ex_dir1)).1))))) = 0%nat)
      as H by (vm_compute; reflexivity).
    change (ma_now (ex_mount_args false ex_unlink)) with ex_now in Hb. rewrite Hb in H.
    change (length (sw_synced (box_writer b)) = 0%nat) in H. by rewrite H.
  - apply toy_io_healthy. vm_compute. reflexivity.
Qed.

Lemma ex_remount_fits l :
  lf_fs l = ex_spec_end → event_fits (EvMount (ex_mount_args false ex_unlink)) ex_dir2 l.
Proof.
  intros Hl _. split; [split; [by_compute|constructor]|]. split; [by_compute|]. cbn [ma_snapshot ex_mount_args]. intros _.
  rewrite Hl. split; [exact ex_unlink_fit|]. intros d1 meta ->%loaded_eq. by_commit_fits.
Qed.

(** The store that a command on the directory [ex_dir3] works on. *)
Definition ex_current : DictMetadataStore toy :=
  match load_segments ex_dir3 with
  | Ok (Some r, _) => ok_or_else ex_store (load_from_root (sd_io ex_dir3) r)
  | _ => ex_store
  end.

Lemma ex_switch_fits l :
  lf_fs l = spec_end ex_unlink ex_spec_end → event_fits (EvSwitch 1700000003 (str "1") []) ex_dir3 l.
Proof.
  intros Hl _. split; [|by_compute]. split; [by_compute|]. intros r snaps meta Hseg Hload.
  assert (meta = ex_current) as -> by (unfold ex_current; by rewrite Hseg, Hload).
  rewrite Hl. by_commit_fits.
Qed.

Lemma ex_locked : (real_run (EvCreate 1700000002 None []) ex_dir2).1 = ex_dir2.
Proof.
  cbn [real_run]. unfold run_snapshot_create. rewrite with_unmounted_mounted; [done|]. vm_compute. reflexivity.
Qed.

Lemma ex_events_fit : events_fit ex_events ex_dir0 ex_life.
Proof.
  apply (events_fit_cons _ _ _ ex_dir1); [reflexivity|exact ex_mount_fits|]. intros o1 l1 H1.
  destruct (mount_leaves _ _ _ _ H1) as [Hf1 _]; [reflexivity|reflexivity|reflexivity|discriminate|].
  change (lf_fs l1 = ex_spec_end) in Hf1.
  apply (events_fit_cons _ _ _ ex_dir2); [reflexivity|exact (ex_kill_fits l1 Hf1)|]. intros o2 l2 H2.
  destruct (kill_serving_leaves _ _ _ _ _ _ H2) as [Hf2 Hk2]. rewrite Hf1 in Hf2.
  apply (events_fit_cons _ _ _ ex_dir2); [exact ex_locked|intros Hl; congruence|]. intros o3 l3 H3.
  rewrite (create_locked_leaves _ _ _ _ _ _ H3 Hk2). clear H3 l3.
  apply (events_fit_cons _ _ _ ex_dir3); [reflexivity|exact (ex_remount_fits l2 Hf2)|]. intros o4 l4 H4.
  destruct (mount_leaves _ _ _ _ H4) as [Hf4 _]; [reflexivity|reflexivity|reflexivity|discriminate|]. rewrite Hf2 in Hf4.
  apply (events_fit_cons _ _ _ _ _ eq_refl (ex_switch_fits l4 Hf4)). intros o5 l5 _.
  split; [exact I|done].
Qed.

(** The file that was unlinked is back at the end. *)
Lemma store_life_witness :
  ∃ l', spec_steps ex_life ex_events (real_runs ex_events ex_dir0).2 l' ∧
        store_holds (real_runs ex_events ex_dir0).1 l'.
Proof. apply (store_life ex_events ex_dir0 ex_life); [exact ex_life_holds|exact ex_events_fit]. Defined.

(** The directory with the snapshot [s1], which was taken before [d] was created. *)
Definition ex_life_d : Life :=
  mkLife (mkSpec ex_abs_sub ∅ ∅ 0) {[1 := (ex_snap, ex_spec)]} {[str "s1" := 1]} false.

Lemma ex_life_d_holds : store_holds (ex_sdir_d false) ex_life_d.
Proof.
  exists ex_numbered_d, ex_log_d.
  assert (root_keeps ex_io_d (sn_root ex_snap) ex_spec) as Hs
    by (split_and!; [apply digest_of_wf|exact ex_snap_holds|apply map_Forall_empty]).
  split_and!; [exact (ex_dir_log_d false)|exact ex_io_d_healthy|reflexivity|].
  split; [|vm_compute; reflexivity..|apply map_Forall_singleton; exact Hs|].
  - exists ex_root_d. split; [reflexivity|].
    split_and!; [apply digest_of_wf|apply ex_committed_d|apply map_Forall_empty].
  - constructor; [by exists ex_spec|constructor].
Qed.

Lemma ex_switch_d_fits : events_fit [EvSwitch 1700000001 (str "s1") []; EvScrub] (ex_sdir_d false) ex_life_d.
Proof.
  apply (events_fit_cons _ _ _ _ _ eq_refl); [|by intros; split].
  intros _. split; [|by_compute]. exact (unmounted_fits _ _ _ _ _ ex_life_d ex_unmounted).
Qed.

Lemma snapshots_survive_witness :
  ∃ l' s, life_find (str "1") l' = Some (ex_snap, ex_spec) ∧
    load_from_root (sd_io (real_runs [EvSwitch 1700000001 (str "s1") []; EvScrub] (ex_sdir_d false)).1)
      (sn_root ex_snap) = Ok s ∧ store_rep s ex_abs.
Proof.
  destruct (snapshots_survive [EvSwitch 1700000001 (str "s1") []; EvScrub] (ex_sdir_d false) ex_life_d 1
              (ex_snap, ex_spec)) as (l' & s & _ & Hf & Hl & Hr & _).
  - exact ex_life_d_holds.
  - exact ex_switch_d_fits.
  - reflexivity.
  - by_compute.
  - vm_compute. reflexivity.
  - exists l', s. split; [exact Hf|]. split; [exact Hl|exact Hr].
Defined.

(** The snapshot [s1] is mounted, and a file is written in it. *)
Definition ex_snap_args : MountArgs :=
  mkMountArgs (str "/mnt") [] CfgFlushOnFsync [] (Some (str "s1")) true false false None ex_requests ex_now.
Definition ex_snap_store : DictMetadataStore toy :=
  ok_or_else ex_store (load_from_root (sd_io (ex_sdir_d false)) (sn_root (ex_snap, ex_spec).1)).

Lemma ex_snap_fits : event_fits (EvMount ex_snap_args) (ex_sdir_d false) ex_life_d.
Proof.
  intros _. split; [split; [by_compute|constructor]|]. split; [by_compute|]. intros _. cbn [ma_snapshot ex_snap_args].
  intros x Hx. change (Some (ex_snap, ex_spec) = Some x) in Hx. injection Hx as <-.
  split; [exact ex_calls_fit|]. intros meta Hload.
  assert (meta = ex_snap_store) as -> by (unfold ex_snap_store; by rewrite Hload).
  by_commit_fits.
Qed.

Lemma snapshot_mount_isolated_witness :
  ∃ d' replies,
    run_mount (str "/mnt") [] CfgFlushOnFsync [] (Some (str "s1")) true false false None ex_requests ex_now
      (ex_sdir_d false) = (d', Ok replies) ∧ store_holds d' ex_life_d.
Proof.
  destruct (snapshot_mount_isolated ex_snap_args (str "s1") (ex_snap, ex_spec) (ex_sdir_d false) ex_life_d)
    as (d' & replies & H1 & _ & H2 & _).
  - exact ex_life_d_holds.
  - reflexivity.
  - reflexivity.
  - reflexivity.
  - reflexivity.
  - exact ex_snap_fits.
  - exists d', replies. split; [exact H1|exact H2].
Defined.
