(* ===== verification/HostTheorems.v ===== *)
(** * Theorems: the host around a store

    The blobs of the content store on the host's file system, unmounting, the watchdog,
    and the command line. *)

From S2P Require Import Prelude Types Text Blockset Inode InodeMap Xattr Directory Segment Wal.
From S2P Require Import SegmentDir Gc Store Filesystem Namespace Handlers Callbacks Backend StoreIo Mount.
From S2P Require Import Unmount Calendar Commands Session Seed CommandLine Examples MountExamples.
From stdpp Require Import base tactics numbers option list gmap strings.
Open Scope Z_scope.

(** C26. Blobs on disk, for names and a root without [..] in them: a write succeeds
    wherever the path can be one of a file, also when its directories are missing, and then
    the blob reads back; no write, complete or cut short by a crash, changes another blob;
    a crash leaves the blob as it was or with the first bytes of the new data. *)
Theorem blobs_on_disk (self : StoreIo) (f data : bytes) (h : HostFs) :
  str ".." ∉ sio_root self → no_parent f → full_path self f ≠ [] → h !! full_path self f ≠ Some FsDir →
  (∀ k d, (k < length (full_path self f))%nat → h !! take k (full_path self f) ≠ Some (FsFile d)) →
  (∃ h', io_write self f data h = (h', Ok tt) ∧ io_read self f h' = (h', Ok data) ∧
         ∀ g d, no_parent g → full_path self g ≠ full_path self f → (io_read self g h').2 = Ok d ↔ (io_read self g h).2 = Ok d) ∧
  (∀ h', crashed_write self f data h h' →
         (∀ g d, no_parent g → full_path self g ≠ full_path self f → (io_read self g h').2 = Ok d ↔ (io_read self g h).2 = Ok d) ∧
         (∀ d, (io_read self f h').2 = Ok d → (io_read self f h).2 = Ok d ∨ ∃ n, d = take n data)).
Proof.
  intros _ _ Hne Hdir Hfree.
  assert (∀ h g d, (io_read self g h).2 = Ok d ↔ h !! full_path self g = Some (FsFile d)) as Hread.
  { intros h1 g d. unfold io_read, fs_read. cbn [snd]. destruct (h1 !! full_path self g) as [[]|]; split; congruence. }
  split.
  - destruct (io_write_ok self f data h Hne Hdir Hfree) as [h' Hw]. exists h'.
    destruct (io_write_spec _ _ _ _ _ Hw) as [H1 H2]. split_and!; [done| |].
    + unfold io_read, fs_read. by rewrite H1.
    + intros g d _ Hg. rewrite !Hread. by apply H2.
  - intros h' Hc. destruct (crashed_write_spec _ _ _ _ _ Hc) as [H1 H2]. split.
    + intros g d _ Hg. rewrite !Hread. by apply H1.
    + intros d. rewrite !Hread. apply H2.
Qed.

(** C27. Unmounting escalates.  The unmount succeeds exactly when the last command that it
    ran did, and nothing follows an unmounting command that succeeded.  The lock is
    removed only on success and only if the store is known; a failure leaves the store as
    it was.  A process is signalled only after every soft command has been run and has
    failed, and after [lsof] has listed the process for the mountpoint. *)
Theorem unmount_escalates {B : Blockset} o mp given h (d : StoreDir B) h' d' r :
  run_unmount o mp given (h, d) = ((h', d'), r) →
  ∃ acts, h' = h ++ acts ∧
    (r = Ok tt ∧ d' = (if given then set_lock false d else d) ∨ r = Err mp ∧ d' = d) ∧
    (r = Ok tt ↔ ∃ acts' prog args,
       acts = acts' ++ [Exec prog args] ∧ ho_status o (h ++ acts') prog args = Some true) ∧
    (∀ i prog args, (prog, args) ∈ soft_programs ++ force_programs o →
       acts !! i = Some (Exec prog (args ++ [mp])) →
       ho_status o (h ++ take i acts) prog (args ++ [mp]) = Some true → S i = length acts ∧ r = Ok tt) ∧
    (∀ i pid, acts !! i = Some (Sigterm pid) →
       (∀ prog args, (prog, args) ∈ soft_programs → ∃ j, (j < i)%nat ∧
          acts !! j = Some (Exec prog (args ++ [mp])) ∧
          ho_status o (h ++ take j acts) prog (args ++ [mp]) ≠ Some true) ∧
       ∃ j out, (j < i)%nat ∧ acts !! j = Some (Exec (str "lsof") [str "+D"; mp]) ∧
          ho_output o (h ++ take j acts) (str "lsof") [str "+D"; mp] = Some out ∧ pid ∈ lsof_pids out).
Proof.
  rewrite run_unmount_run. cbv zeta.
  destruct (tried_last o mp soft_programs h) as (l1 & p1 & a1 & E1 & R1); [done|].
  destruct (tried_last o mp (force_programs o) (hard_start o mp h)) as (l2 & p2 & a2 & E2 & R2);
    [unfold force_programs; by destruct (ho_macos o)|].
  pose proof (tried_stops o mp soft_programs) as S1. pose proof (tried_stops o mp (force_programs o)) as S2.
  specialize (λ i prog args, S1 i prog args h). specialize (λ i prog args, S2 i prog args (hard_start o mp h)).
  pose proof (λ i a, tried_execs o mp soft_programs i a h) as N1.
  pose proof (λ i a, tried_execs o mp (force_programs o) i a (hard_start o mp h)) as N2.
  pose proof (signals_after_soft o mp h) as Hsig.
  assert (hard_start o mp h = h ++ (tried o mp soft_programs h).1 ++
            killed o mp (h ++ (tried o mp soft_programs h).1) ++ [Sleep 1000]) as Ehs
    by (unfold hard_start; by rewrite <-app_assoc).
  rewrite Ehs in *. destruct (tried o mp soft_programs h) as [soft rs]. cbn [fst snd] in *.
  set (k := killed o mp (h ++ soft)) in *. destruct (tried o mp (force_programs o) _) as [forced rf]. cbn [fst snd] in *.
  destruct rs; [intros [= <- <- <-]|].
  { exists soft. split_and!; [done|by left| | |].
    - split; [intros _; exists l1, p1, a1; split; [done|by apply R1]|done].
    - intros i prog args _ Hi Hs. split; [|done]. by eapply S1.
    - intros i pid Hi. destruct (N1 _ _ Hi) as (? & ? & [=]). }
  intros Hrun. assert (h' = h ++ (soft ++ k ++ [Sleep 1000]) ++ forced) as -> by (destruct rf; simplify_eq; by rewrite <-!app_assoc).
  assert (r = Ok tt ↔ rf = true) as Hr by (by destruct rf; simplify_eq).
  exists ((soft ++ k ++ [Sleep 1000]) ++ forced). split_and!; [done|..].
  - destruct rf; simplify_eq; auto.
  - rewrite Hr, R2, E2. split.
    + intros Hs. exists ((soft ++ k ++ [Sleep 1000]) ++ l2), p2, a2. by rewrite <-!app_assoc in *.
    + intros (acts' & prog & args & Heq & Hs). rewrite app_assoc in Heq. apply app_inj_tail in Heq as [<- [= <- <-]].
      by rewrite app_assoc in Hs.
  - intros i prog args Hin Hi Hs. destruct (unmount_program o prog args Hin) as [Hl Hp].
    apply lookup_app_Some in Hi as [Hi|[Hlen Hi]].
    + exfalso. apply lookup_app_Some in Hi as [Hi|[_ Hi]].
      * rewrite take_app_le in Hs by (rewrite length_app; apply lookup_lt_Some in Hi; lia).
        rewrite take_app_le in Hs by (apply lookup_lt_Some in Hi; lia). by destruct (S1 _ _ _ Hi Hs).
      * apply lookup_app_Some in Hi as [Hi|[_ Hi]]; [by destruct (killed_exec _ _ _ _ _ _ Hi)|].
        by apply list_lookup_singleton_Some in Hi as [_ [=]].
    + rewrite take_app_ge, app_assoc in Hs by done. destruct (S2 _ _ _ Hi Hs) as [Hend ->].
      rewrite length_app. split; [lia|by apply Hr].
  - intros i pid. by apply Hsig.
Qed.


(* ------------------------------------------------------------------------ *)
(** ** The command line *)

(** The text of a line [{"error": "text"}], for a text that JSON takes literally. *)
Definition backslash : byte := Byte.x5c.
Definition json_char (b : byte) : Prop := b ≠ quote ∧ b ≠ backslash ∧ 32 ≤ Z_of_byte b.
#[export] Instance json_char_dec b : Decision (json_char b).
Proof. apply _. Defined.
Fixpoint json_text (s : bytes) : option bytes :=
  match s with
  | [] => None
  | b :: s =>
      if decide (b = quote) then if decide (s = str "}") then Some [] else None
      else if decide (json_char b) then (b ::.) <$> json_text s else None
  end.
Definition json_error_value (line : bytes) : option bytes :=
  match Backend.strip_prefix (str "{" ++ [quote] ++ str "error" ++ [quote] ++ str ": " ++ [quote]) line with
  | Some s => json_text s
  | None => None
  end.

Lemma json_text_app t :
  json_text (t ++ [quote] ++ str "}") = if decide (Forall json_char t) then Some t else None.
Proof.
  induction t as [|b t IH]; [done|]. cbn [app json_text].
  destruct (decide (b = quote)) as [->|Hb].
  - rewrite decide_False; [rewrite decide_False; [done|]|].
    + intros [[Hq _] _]%Forall_cons. done.
    + intros H. apply (f_equal length) in H. rewrite length_app in H. cbn in H. lia.
  - cbn [app] in IH. destruct (decide (json_char b)) as [Hc|Hc].
    + rewrite IH. destruct (decide (Forall json_char t)) as [Ht|Ht].
      * by rewrite decide_True by by constructor.
      * rewrite decide_False; [done|]. by intros [_ ?]%Forall_cons.
    + rewrite decide_False; [done|]. by intros [? _]%Forall_cons.
Qed.

Lemma json_line_value name t :
  json_error_value (error_line true name t) = if decide (Forall json_char t) then Some t else None.
Proof.
  unfold json_error_value, error_line. rewrite <-json_text_app.
  set (pre := str "{" ++ [quote] ++ str "error" ++ [quote] ++ str ": " ++ [quote]).
  assert (str "{" ++ [quote] ++ str "error" ++ [quote] ++ str ": " ++ [quote] ++ t ++ [quote] ++ str "}" =
          pre ++ t ++ [quote] ++ str "}") as -> by reflexivity.
  unfold Backend.strip_prefix. rewrite starts_with_app. by rewrite drop_app_length.
Qed.

(** A mountpoint that is in use is reported in three lines, which no JSON reader takes. *)
Theorem json_in_use_unreadable io_text mountpoint canonical store table :
  json_error_value (error_line true (str "mount") (mount_error_text io_text mountpoint canonical store table MountpointInUse)) = None.
Proof.
  rewrite json_line_value. apply decide_False. cbn [mount_error_text].
  rewrite !Forall_app. intros (_ & _ & _ & H & _). apply Forall_cons in H as [(_ & _ & H) _]. by vm_compute in H.
Qed.

(** The watchdog stops at the first step that sees a flag, whatever follows, and calls the
    mount dead only when the file server is gone while no flag is set. *)
Theorem watchdog_stops vs v vs' :
  wv_shutdown v || wv_signal v = true →
  watch (vs ++ v :: vs') Watching = watch (vs ++ [v]) Watching ∧
  (watch (vs ++ [v]) Watching = Stopped false ∨
   watch (vs ++ [v]) Watching = Stopped true ∧
   Exists (λ v, wv_shutdown v || wv_signal v = false ∧ wv_elapsed v = true ∧ wv_alive v = false) vs).
Proof.
  intros Hv. unfold watch. rewrite !foldl_app. cbn [foldl].
  assert (∀ ws r, foldl (λ s v, watch_step v s) (Stopped r) ws = Stopped r) as Hst
    by (induction ws; intros r; cbn; auto).
  assert (∀ s, s = Watching ∨ s = Stopped false ∨ s = Stopped true ∧
            Exists (λ v, wv_shutdown v || wv_signal v = false ∧ wv_elapsed v = true ∧ wv_alive v = false) vs →
          ∃ r, watch_step v s = Stopped r ∧ (r = true → Exists (λ v, wv_shutdown v || wv_signal v = false ∧
            wv_elapsed v = true ∧ wv_alive v = false) vs)) as Hstep.
  { intros s [->|[->|[-> He]]]; cbn; rewrite ?Hv; by eexists. }
  assert (foldl (λ s v, watch_step v s) Watching vs = Watching ∨
          foldl (λ s v, watch_step v s) Watching vs = Stopped false ∨
          foldl (λ s v, watch_step v s) Watching vs = Stopped true ∧
          Exists (λ v, wv_shutdown v || wv_signal v = false ∧ wv_elapsed v = true ∧ wv_alive v = false) vs) as Hs.
  { clear Hv Hstep. induction vs as [|w vs IH]; [by left|]. cbn [foldl watch_step].
    destruct (wv_shutdown w || wv_signal w) eqn:Ew; [rewrite Hst; auto|].
    destruct (wv_elapsed w) eqn:Ee; cbn [negb]; [destruct (wv_alive w) eqn:Ea|].
    all: try (destruct IH as [->|[->|[-> He]]]; [auto|auto|]; right; right; split; [done|by apply Exists_cons; right]).
    rewrite Hst. right. right. split; [done|]. apply Exists_cons. by left. }
  destruct (Hstep _ Hs) as (r & -> & Hr). rewrite Hst. split; [done|]. destruct r; auto.
Qed.

(* ------------------------------------------------------------------------ *)
(** ** The hypotheses at concrete runs *)

(** A store below [/s] whose directory [vt0] does not exist yet. *)
Definition ex_sio : StoreIo := store_io_new [str "s"].
Definition ex_host_fs : HostFs := {[ [str "s"] := FsDir ]}.
Lemma blobs_on_disk_witness :
  ∃ h', io_write ex_sio (str "vt0/AB") (str "hel") ex_host_fs = (h', Ok tt) ∧
        io_read ex_sio (str "vt0/AB") h' = (h', Ok (str "hel")).
Proof.
  destruct (blobs_on_disk ex_sio (str "vt0/AB") (str "hel") ex_host_fs) as [(h' & H1 & H2 & _) _].
  - by apply (bool_decide_unpack _); vm_compute.
  - by apply (bool_decide_unpack _); vm_compute.
  - vm_compute. discriminate.
  - vm_compute. discriminate.
  - intros k d _. unfold ex_host_fs. intros [_ H]%lookup_singleton_Some. discriminate.
  - exists h'. split; [exact H1|exact H2].
Defined.

(** No soft command can be started, [lsof] lists one process, the first forced command
    succeeds. *)
Definition ex_oracle : HostOracle :=
  mkOracle (λ _ prog args, if decide (args = [str "-uz"; str "/mnt"]) then Some true else None)
    (λ _ _ _, Some (str "COMMAND PID USER" ++ [newline] ++ str "bash  123 me" ++ [newline])) false.
Lemma unmount_escalates_witness :
  ∃ acts, run_unmount ex_oracle (str "/mnt") true ([], ex_sdir true) = ((acts, ex_sdir false), Ok tt) ∧
    acts !! 4%nat = Some (Sigterm 123) ∧
    ∃ j out, (j < 4)%nat ∧ acts !! j = Some (Exec (str "lsof") [str "+D"; str "/mnt"]) ∧
             ho_output ex_oracle (take j acts) (str "lsof") [str "+D"; str "/mnt"] = Some out ∧ 123 ∈ lsof_pids out.
Proof.
  destruct (run_unmount ex_oracle (str "/mnt") true ([], ex_sdir true)) as [[h' d'] r] eqn:E.
  pose proof (unmount_escalates ex_oracle (str "/mnt") true [] (ex_sdir true) h' d' r E) as (acts & -> & Hr & _ & _ & Hp).
  assert (r = Ok tt ∧ acts !! 4%nat = Some (Sigterm 123)) as [-> Hin].
  { assert ((run_unmount ex_oracle (str "/mnt") true ([], ex_sdir true)).2 = r) as <- by by rewrite E.
    assert ((run_unmount ex_oracle (str "/mnt") true ([], ex_sdir true)).1.1 = acts) as <- by by rewrite E.
    split; vm_compute; reflexivity. }
  exists acts. split; [|split; [exact Hin|exact (proj2 (Hp 4%nat 123 Hin))]].
  destruct Hr as [[_ ->]|[? _]]; [reflexivity|discriminate].
Defined.


(** The lock of a mount can be lost: the first mount is unmounted with [--store], a second
    one begins before the first process has ended, and the guard of the first then removes
    the lock of the second. *)
Example lock_lost :
  let mounted := (acquire_mount_lock (ex_sdir false)).1 in
  let unmounted := (run_unmount ex_oracle (str "/mnt") true ([], mounted)).1.2 in
  let again := acquire_mount_lock unmounted in
  sd_mount_lock mounted = true ∧ again.2 = Ok tt ∧ sd_mount_lock again.1 = true ∧
  sd_mount_lock (set_lock false again.1) = false.
Proof. cbv zeta. rewrite run_unmount_run. vm_compute. split_and!; reflexivity. Qed.
