(* ===== verification/ReportTheorems.v ===== *)
(** * Theorems: what the commands print *)

From S2P Require Import Prelude Types Text Blockset Segment Wal SegmentDir Gc Store StoreSpec StoreCommit.
From S2P Require Import Snapshots Mount Calendar Float Commands Reports MountRefine CommandsRefine.
From S2P Require Import Examples MountExamples.
From stdpp Require Import base tactics numbers option list gmap strings.
Open Scope Z_scope.

(** C40. The byte counts of the statistics can be trusted: no two counts have the same text,
    and for a count of at least one KiB and below 2^53 the shown amount is the count divided by
    the largest unit that is not above it, off by at most half of the last shown digit,
    although it is computed in floating point. *)
Theorem format_bytes_faithful n :
  is_u64 n →
  (∀ n', is_u64 n' → format_bytes n' = format_bytes n → n' = n) ∧
  (KIB ≤ n < 2 ^ 53 → ∃ unit name c,
     format_bytes n = fixed2 c ++ str " " ++ name ++ str " (" ++ fmt_dec n ++ str " bytes)" ∧
     (unit, name) ∈ [(KIB, str "KiB"); (MIB, str "MiB"); (GIB, str "GiB")] ∧
     unit ≤ n ∧ (n < 1024 * unit ∨ unit = GIB) ∧ 2 * Z.abs (c * unit - n * 100) ≤ unit).
Proof.
  intros Hn. split; [intros n' Hn'; by apply format_bytes_inj|]. intros Hb.
  exists (unit_of n).1, (unit_of n).2, (div_half_even (n * 100) (unit_of n).1).
  split; [by apply format_bytes_amount|].
  assert (0 < (unit_of n).1) as Hu by (unfold unit_of, GIB, MIB, KIB; by repeat case_decide).
  split_and!; [|by apply format_bytes_large; lia| |by apply div_half_even_near].
  - unfold unit_of. repeat case_decide; [do 2 right|right|]; by left.
  - unfold unit_of, GIB, MIB in *. repeat case_decide; cbn [fst]; lia.
Qed.

Lemma format_bytes_faithful_witness :
  ∃ unit name c,
     format_bytes 123456789 = fixed2 c ++ str " " ++ name ++ str " (" ++ fmt_dec 123456789 ++ str " bytes)" ∧
     2 * Z.abs (c * unit - 12345678900) ≤ unit ∧ format_bytes 123456789 = str "117.74 MiB (123456789 bytes)".
Proof.
  destruct (format_bytes_faithful 123456789) as [_ H]; [by_compute|].
  destruct H as (unit & name & c & H1 & _ & _ & _ & H2); [by_compute|].
  exists unit, name, c. split; [exact H1|]. split; [exact H2|]. vm_compute. reflexivity.
Defined.

(** The amount just below a unit is shown as 1024 of the smaller one. *)
Example format_bytes_border :
  format_bytes 1048575 = str "1024.00 KiB (1048575 bytes)" ∧ format_bytes 1048576 = str "1.00 MiB (1048576 bytes)".
Proof. split; vm_compute; reflexivity. Qed.

Section listing.
Context {B : Blockset} {L : BlocksetLaws B}.
Implicit Types (d : StoreDir B).

(** The collector copies the log and keeps the original: afterwards every snapshot is
    listed twice. *)
Theorem gc_lists_twice d m es segs listing :
  dir_log d m es → sd_mount_lock d = false → sd_segments d = Some segs → dir_rep segs m → collectable m →
  listing ≡ₚ (map_to_list segs).*1 →
  (∀ n, is_Some (segs !! n) → has_seg_extension n = true → is_segment_name n = true) →
  ∃ rows d' stats, run_snapshot_list d = Ok rows ∧ run_gc_command listing [] d = (d', Ok stats) ∧
    run_snapshot_list d' = Ok (rows ++ rows).
Proof.
  intros Hlog Hlock Hsegs Hrep Hc Hlist Hext. pose proof Hlog as [Hfmt _ Hnum].
  destruct (run_gc_log segs m listing Hrep Hlist Hext Hc)
    as (dir' & m' & stats & es' & Hrun & Hlog0 & Hrep' & Hlog' & _).
  rewrite Hnum in Hlog0. injection Hlog0 as <-.
  assert (∀ d0 m0 es0, dir_log d0 m0 es0 → run_snapshot_list d0 = Ok (snapshot_row <$> log_snapshots es0)) as Hl.
  { intros d0 m0 es0 H0. destruct (load_segments_log _ _ _ H0) as [_ Hl]. unfold run_snapshot_list. by rewrite Hl. }
  eexists _, (set_segments dir' d), stats. split; [by eapply Hl|]. split.
  - rewrite (run_gc_command_run d segs (log_root es) (log_snapshots es)), Hrun; [done|done|done|].
    by rewrite (load_store_numbered _ _ Hrep), Hnum.
  - rewrite (Hl (set_segments dir' d) m' (es ++ es)); [|split; [done|by exists dir'|done]].
    unfold log_snapshots. by rewrite omap_app, fmap_app.
Qed.
End listing.
